(* ===== verification/_CoqProject ===== *)
-Q . S2P
Prelude.v
GoStd.v
World.v
Threads.v
RateLimit.v
Metered.v
BookRecon.v
WsClient.v
Decimal.v
Venue.v
Dummy.v
BookAgg.v
Store.v
AuditTrail.v
Secrets.v
Migrations.v
Postgres.v
Events.v
Json.v
JsonText.v
Http.v
Throttle.v
Numbered.v
Binance.v
Kraken.v
Sftp.v
Otc.v
Concurrent.v
BinanceThreads.v
KrakenThreads.v
OtcThreads.v
EventsThreads.v
Feeds.v
Subscription.v
Server.v
Handlers.v
Otel.v
Main.v
Process.v
