(* ===== verification/Prelude.v ===== *)
(** * Exchange connectors: a verification development

    The repository is one Go service: it stands in front of one exchange ("venue"), chosen
    when it starts, and offers orders, cancels, fills, balances and the top of the book over
    HTTP, while it records orders and fills, audits what happens and publishes fills and
    balances.  This library models the Go code under [src/internal] and [src/cmd] as
    executable definitions and proves what makes each part correct, or what it does where it
    departs from its comments and plan.

    ** How the program is put together

    - [Process] (main of cmd/exchange-connectors/main.go) sets the telemetry up ([Otel],
      internal/otel), builds the service with [Main] (same file: the choice of a connector,
      an audit sink, a store and a publisher from the environment), serves each request in a
      goroutine of its own, and shuts down on a signal.
    - [Server] (internal/server) has one handler per route.  A handler calls the connector
      through the interface [VenueConnector], then the store ([Store]), the audit trail
      ([Sink]) and the bus ([Bus] over a [Publisher]).  [Handlers] has the same handlers as
      goroutines.
    - The connectors are [Binance], [Kraken], [Otc] (with [Sftp]) and [Dummy]
      (internal/adapters, internal/venue).  The first three guard every request with a limiter
      of [RateLimit]; the interface [Throttled] of [Throttle] is what they owe the venue.
    - The book feeds ([Feeds], the two book.go files) are handlers run by the websocket client
      ([WsClient]) that update book reconstructors ([BookRecon], all internal/ws) and offer
      updates to a bounded channel, which [BookAgg] (internal/book) consumes; [Subscription]
      puts the three together.
    - [Store] (internal/store) and [Postgres] (internal/store/postgres) are the two stores,
      [Migrations] (internal/store/migrations) sets up the tables of the second.
    - [AuditTrail] (internal/audit), [Events] (internal/events) and [Secrets]
      (internal/secrets) are the audit sinks, the event bus and the credential manager.

    ** How Go is rendered

    - A function returning [(T, error)] gives a [result T]; a text that [fmt.Errorf] wraps keeps
      its cause ([ErrWrap]).  [log.Fatalf] is the error of [Main.start].
    - Code that touches the outside runs in the monad [M S A := S -> World -> A * S * World]
      ([World]).  What it reads is an oracle of the class [Env]: the k-th clock reading, random
      number, identifier, HTTP reply, broker outcome, look at [ctx.Done].  What it does is
      logged in the [World]: requests, messages, metrics.  Time-outs and outages are therefore
      values of the oracle, and a theorem holds for every environment unless it says otherwise.
    - int, int64 and uint64 are [Z] with the wrap-around written out ([wrap64], [i64_add]).
      [time.Time] is a number of nanoseconds with 0 as the zero time.  Strings are byte
      strings ([String.string]).
    - A Go map is a [gmap]; where the code ranges over it, the order visited is a parameter
      ([MapOrder], [visits]).  Pointers shared between a caller and a connector ([Dummy]) are
      locations in an explicit store of objects.
    - Texts exchanged with venues are JSON: [Json] parses and decodes as encoding/json does,
      [JsonText] proves that the parser's fuel suffices and that what the program writes reads
      back.
    - A critical section under a mutex, an atomic instruction and an exchange with the outside
      are one step each.  The websocket loop, the asynchronous audit sink, the feeds and the
      process around its listener are step functions on events ([client_step], [async_step],
      [feed_step], [pipeline_step], [process_step]), and the theorems quantify over every sequence of events,
      that is every interleaving.
    - A call or a request that shares state with others is written twice: whole, as a
      computation of [M], and as a goroutine, a [Prog] of [Threads] cut at every point where
      another can come in ([BinanceThreads], [KrakenThreads], [OtcThreads], [EventsThreads],
      [Handlers]).  [runs_as] proves for each that the second run alone is the first, so what
      is shown of the whole computations holds of undisturbed ones; what holds under every
      schedule of a pool ([pool_run]) is shown by [pool_rule], goroutine by goroutine, against
      an invariant.  The requests of [process_step] are such goroutines.
    - [keeps I m] of [World] says that a computation preserves an invariant; the hint database
      [keeps] proves it along the structure of a handler.
    - Recursion is structural except in four places, which take fuel: the JSON parser, with
      twice the length of the text ([parse_json_enough_fuel]: more fuel changes no answer); the
      JSON quoter and the reading of a string by runes, with the length of the string
      ([parse_quote_body] shows that nothing of it is lost); and the in-place filter of the
      broker list, with the length of the list ([clean_loop_spec] gives its whole result).

    ** Interfaces

    [VenueConnector] (implemented by the four connectors and by the sum type of [Main]), [Store]
    (in-memory and PostgreSQL), [Sink] (in-memory, Kafka), [Publisher] with [PublisherLaws]
    (Kafka), [ConnectorKeeps] and [StoreKeeps] (invariants), [Database] with [DatabaseLaws] and
    [Pool] with [PoolLaws] (both implemented by concrete tables in memory), [Limiter] and
    [Throttled], [RequiresClientID]; [Metered] (what a limiter has let through since a time),
    [Numbered] with [NumberedLaws] (an adapter that numbers its requests, Binance and Kraken)
    [BookSource] (a feed's handler with its effect on the channel, Binance and Kraken) and
    [ConcurrentConnector] (the connector's calls as goroutines, with [runs_as]).  The server's theorems are proved over the interfaces,
    those of the adapters discharge them.

    Code outside the repository is a parameter with the laws the program relies on:
    decimals ([DecimalOps], [DecimalLaws], instantiated by exact coefficients and exponents),
    the decimals' JSON ([DecimalJson], [DecimalJsonLaws]), the OpenTelemetry SDK ([OtelSdk]),
    JSON diagnostics, HMAC, hashes, base64 and the parser of URLs ([GoLib]), the Unicode case tables ([UnicodeTables]), the encoders of events, Vault
    ([VaultService]), the database, the file system ([FileSystem]).  Each theorem under such
    laws has a concrete instance in its witness.

    ** What the theorems show

    - Limits: [weighted_total_bound], [weighted_sliding_bound], [counter_leaky_bound],
      [rps_window_bound] bound what each limiter lets through; [backoff_refuses_requests] is
      proved once for the three; [weighted_wait_overflow] is the overflow the code leaves open.
      [binance_quiet_after_rate_limit] (and its Kraken and OTC counterparts) follow from
      [Throttled]: after a 429 no request leaves the adapter until the deadline.
    - Books: [diffs_refine_abstract_book] and [collectLevels_best] hold the reconstructor to a
      function from prices to sizes; [binance_consecutive_stream], [feeds_stay_well_formed],
      [binance_gap_outcomes] lift them to the feeds.  [subscription_shows_last_update] and
      [cancelled_subscription_ends] hold of the whole way from the websocket to [Get], in every
      interleaving; [cancelled_feed_keeps_reading] is what a cancellation does not stop.  [kraken_later_diffs_never_apply],
      [kraken_subscription_is_lost] and [TopN_compares_text] are what the code does instead of
      what it means to do.
    - Websocket: [Close_stops_Run] (termination in five steps, no deadlock),
      [Run_delays_bounded], [Run_backoff_exponential], [write_before_Run_is_lost].
    - Stores: [RecordOrder_refines], [RecordFill_refines], [writes_keep_keys_unique] against an
      abstract store; [pg_RecordOrder_outcomes], [pg_RecordFill_outcomes], [pg_order_read_back]
      for PostgreSQL, [stores_disagree_on_client_ids] for the difference between the two.
    - Migrations: [All_spec], [Up_applies_pending_in_order], [Up_idempotent],
      [Down_reverts_in_reverse].
    - Audit and events: [async_no_loss_no_reorder], [async_close_drains],
      [async_emit_after_close_panics], [kafka_Emit_accounts], [PublishFill_outcomes],
      [NewKafkaPublisherFromURL_roundtrip].
    - Adapters: [binance_order_request], [kraken_nonces_increase], [kraken_balances_spec],
      [otc_PlaceOrder_all_or_nothing], [otc_bodies_read_back], the mapping tables, and
      [sftp_stays_in_directory] with its converse.
    - Concurrency: [kraken_concurrent_calls], [binance_concurrent_calls] (both from
      [numbered_calls] of [Numbered]) and [otc_concurrent_calls] bound what any number of
      concurrent calls send; [kraken_nonces_can_go_back] and
      [binance_inflight_weight_is_forgotten] are what the cuts let through.
      [concurrent_orders_are_recorded] holds the server to its records under every schedule
      of handlers, and [one_request_is_sequential] equates a lone handler with [Server]'s.
    - Credentials: [Rotate_revokes_only_old], [Rotate_failed_probe_installs_new], [Redact_hides].
    - The service: [orders_root_guards], [placed_orders_are_recorded], [balances_are_audited],
      [cancel_endpoint].
    - The whole program: [dummy_starts], [production_process_dies], [process_outcomes] and
      [signal_stops_process] for its life and end, [dummy_process_stays_well_formed] and
      [real_process_places_nothing] for every run of it.

    ** Bounds

    [Run_delays_bounded] and [nextBackoff_bounds] assume delays up to 2^53 ns (104 days): Go
    converts the previous delay to float64 and back, which is exact up to there; the
    default maximum is 30 s.  Sequence numbers and counters are bounded by the width of their
    type where a theorem needs it, and otherwise wrap.

    ** Not modelled

    - The paths [ServeMux] redirects before a handler sees them, and the transport below the
      handlers: headers, connections, the five seconds [Shutdown] waits.
    - [ParseMessage] of internal/ws, which only a test calls, and the files of tests; logging, apart from the process it ends.
    - Prometheus itself.  A collector is a constructor of [Metric] with the name, labels and
      registration the code gives it ([metrics_never_panic]); an update is an entry of the
      world's log.
    - Inside one handler, SQL statements and Kafka messages of others come between its steps;
      how PostgreSQL or the broker orders two that are in progress at once is theirs.
    - The replies of the network, the broker, Vault and PostgreSQL are parameters; so are the
      texts of library diagnostics.
    - Data races: the model takes a critical section as one step; effects of the memory model
      on accesses outside one are not in it. *)

From stdpp Require Export base tactics numbers list gmap strings sorting.
From Stdlib Require Export ZArith Lia.
From Stdlib Require Ascii.
Export (notations) Stdlib.Strings.Ascii.
Delimit Scope char_scope with char.

(** ** Global settings *)

#[export] Set Default Goal Selector "!".

Declare Scope go_scope.
Delimit Scope go_scope with go.

(** ** Results of fallible Go calls

    A Go function returning [(T, error)] either yields a value (error [nil]) or
    an error; the callers modelled here never read the value when the error is
    not [nil], except where the definition says so by returning a pair. *)

Inductive error : Type :=
| ErrNew (msg : string)                      (** [errors.New], [fmt.Errorf] *)
| ErrWrap (prefix : string) (cause : error). (** [fmt.Errorf "prefix: %w" cause] *)

(** The text of [err.Error()]. *)
Fixpoint Error (e : error) : string :=
  match e with
  | ErrNew m => m
  | ErrWrap p e' => p +:+ Error e'
  end.

#[export] Instance error_eq_dec : EqDecision error.
Proof. solve_decision. Defined.

Inductive result (A : Type) : Type :=
| Ok (a : A)
| Err (e : error).
Arguments Ok {A} a.
Arguments Err {A} e.

Definition is_ok {A} (r : result A) : bool :=
  match r with Ok _ => true | Err _ => false end.

#[export] Instance result_ret : MRet result := @Ok.
#[export] Instance result_bind : MBind result := λ A B k r,
  match r with Ok a => k a | Err e => Err e end.

#[export] Instance result_fmap : FMap result := λ A B f r,
  match r with Ok a => Ok (f a) | Err e => Err e end.

(** ** Tactics shared by the development *)

(** Case analysis on the discriminees of the goal, closing what computes. *)
Ltac case_match_all :=
  repeat (case_match; simplify_eq/=; try done).

(** Split conjunctions and discharge the arithmetic and the trivial parts. *)
Ltac crush :=
  repeat match goal with
  | H : _ ∧ _ |- _ => destruct H
  | |- _ ∧ _ => split
  end; simplify_eq/=; try done; try lia; eauto.

(** Turn boolean tests over [Z], [nat] and strings into propositions. *)
Ltac unbool :=
  repeat match goal with
  | H : (_ && _)%bool = true |- _ => apply andb_true_iff in H as [? ?]
  | H : (_ && _)%bool = false |- _ => apply andb_false_iff in H
  | H : (_ || _)%bool = true |- _ => apply orb_true_iff in H
  | H : (_ || _)%bool = false |- _ => apply orb_false_iff in H as [? ?]
  | H : negb _ = true |- _ => apply negb_true_iff in H
  | H : negb _ = false |- _ => apply negb_false_iff in H
  | H : Z.leb _ _ = true |- _ => apply Z.leb_le in H
  | H : Z.leb _ _ = false |- _ => apply Z.leb_gt in H
  | H : Z.ltb _ _ = true |- _ => apply Z.ltb_lt in H
  | H : Z.ltb _ _ = false |- _ => apply Z.ltb_ge in H
  | H : Z.eqb _ _ = true |- _ => apply Z.eqb_eq in H
  | H : Z.eqb _ _ = false |- _ => apply Z.eqb_neq in H
  | H : String.eqb _ _ = true |- _ => apply String.eqb_eq in H
  | H : String.eqb _ _ = false |- _ => apply String.eqb_neq in H
  end.

(** ** Generic list lemmas *)

Section lists.
Context {A : Type}.

Lemma filter_all_id (P : A → Prop) `{∀ x, Decision (P x)} (l : list A) :
  Forall P l → filter P l = l.
Proof.
  induction 1 as [|x l Hx _ IH]; [done|].
  by rewrite filter_cons_True, IH.
Qed.

Lemma fold_left_snoc {B} (f : B → A → B) l x b :
  fold_left f (l ++ [x]) b = f (fold_left f l b) x.
Proof. by rewrite fold_left_app. Qed.

(** Two duplicate-free, strictly sorted permutations coincide. *)
Lemma strongly_sorted_perm_eq (R : relation A) `{!AntiSymm (=) R} (l1 l2 : list A) :
  StronglySorted R l1 → StronglySorted R l2 → l1 ≡ₚ l2 → l1 = l2.
Proof. by intros; apply (StronglySorted_unique R). Qed.
End lists.

(** ** Hint databases

    [go] collects the lemmas that close the recurring side conditions of the
    components (bounds of clock readings, lookups after insertion). *)
Create HintDb go.
Create Rewrite HintDb go.
#[export] Hint Resolve filter_all_id : go.
#[export] Hint Rewrite @lookup_insert_eq @lookup_delete_eq @lookup_empty : go.
