(* ===== verification/GoStd.v ===== *)
(** * The fragment of Go and of its standard library the source uses

    Machine integers, [time.Time] and [time.Duration], the [strings], [strconv]
    and [net/url] functions called by the program. *)

From S2P Require Import Prelude.
From stdpp Require Import pretty.

Open Scope Z_scope.

(** ** 64-bit signed integers *)

Definition int64_min : Z := - 2 ^ 63.
Definition int64_max : Z := 2 ^ 63 - 1.

(** Two's complement wrap-around of an [int64] operation. *)
Definition wrap64 (z : Z) : Z := (z + 2 ^ 63) mod 2 ^ 64 - 2 ^ 63.
Definition wrapu64 (z : Z) : Z := z mod 2 ^ 64.

Definition i64_add (a b : Z) : Z := wrap64 (a + b).
Definition i64_sub (a b : Z) : Z := wrap64 (a - b).
Definition i64_mul (a b : Z) : Z := wrap64 (a * b).

Definition is_int64 (z : Z) : Prop := int64_min ≤ z ≤ int64_max.

Lemma wrap64_id z : is_int64 z → wrap64 z = z.
Proof.
  unfold is_int64, int64_min, int64_max, wrap64. intros H.
  rewrite Z.mod_small; lia.
Qed.

Lemma wrap64_range z : is_int64 (wrap64 z).
Proof.
  unfold is_int64, int64_min, int64_max, wrap64.
  pose proof (Z.mod_pos_bound (z + 2 ^ 63) (2 ^ 64)). lia.
Qed.

#[export] Hint Resolve wrap64_range : go.

(** ** [time.Duration] and [time.Time]

    A duration is an [int64] number of nanoseconds; an instant is the number of
    nanoseconds since Go's zero time, so the zero [time.Time] is [0]. *)

Abbreviation Duration := Z (only parsing).
Abbreviation Time := Z (only parsing).

Definition Millisecond : Duration := 1000000.
Definition Second : Duration := 1000000000.

Definition Time_zero : Time := 0.
Definition Time_IsZero (t : Time) : bool := t =? 0.
Definition Time_Before (t u : Time) : bool := t <? u.
Definition Time_After (t u : Time) : bool := u <? t.
Definition Time_Add (t : Time) (d : Duration) : Time := t + d.

(** [Time.Sub] saturates at the bounds of a duration. *)
Definition Time_Sub (t u : Time) : Duration :=
  Z.max int64_min (Z.min int64_max (t - u)).

Lemma Time_Sub_ge t u d :
  d ≤ int64_max → int64_min < d → (d <=? Time_Sub t u) = (d <=? t - u).
Proof.
  unfold Time_Sub, int64_max, int64_min. intros.
  destruct (Z.leb_spec d (t - u)); apply Z.leb_le || apply Z.leb_gt; lia.
Qed.

(** ** Strings *)

Fixpoint string_drop (n : nat) (s : string) : string :=
  match n, s with
  | O, _ => s
  | S n', String _ s' => string_drop n' s'
  | S _, EmptyString => EmptyString
  end.

Fixpoint string_take (n : nat) (s : string) : string :=
  match n, s with
  | O, _ => EmptyString
  | S n', String c s' => String c (string_take n' s')
  | S _, EmptyString => EmptyString
  end.

Definition HasPrefix (s p : string) : bool := String.prefix p s.

Definition HasSuffix (s suf : string) : bool :=
  (String.length suf <=? String.length s)%nat &&
  String.eqb (string_drop (String.length s - String.length suf) s) suf.

Definition TrimPrefix (s p : string) : string :=
  if HasPrefix s p then string_drop (String.length p) s else s.

Definition TrimSuffix (s suf : string) : string :=
  if HasSuffix s suf then string_take (String.length s - String.length suf) s else s.

(** [strings.Index] for a one-byte pattern: [None] is [-1]. *)
Fixpoint Index (s : string) (c : Ascii.ascii) : option nat :=
  match s with
  | EmptyString => None
  | String a s' => if Ascii.eqb a c then Some O else S <$> Index s' c
  end.

(** [strings.Split] for a one-byte separator. *)
Fixpoint Split (s : string) (c : Ascii.ascii) : list string :=
  match s with
  | EmptyString => [EmptyString]
  | String a s' =>
      if Ascii.eqb a c then EmptyString :: Split s' c
      else match Split s' c with
           | [] => [String a EmptyString]
           | w :: ws => String a w :: ws
           end
  end.

(** [strings.SplitN s c 2]: the text before the first separator and, if there
    is one, the text after it. *)
Definition SplitN2 (s : string) (c : Ascii.ascii) : string * option string :=
  match Index s c with
  | None => (s, None)
  | Some i => (string_take i s, Some (string_drop (S i) s))
  end.

Fixpoint Join (l : list string) (sep : string) : string :=
  match l with
  | [] => EmptyString
  | [x] => x
  | x :: l' => x +:+ sep +:+ Join l' sep
  end.

Fixpoint Repeat (s : string) (n : nat) : string :=
  match n with O => EmptyString | S n' => s +:+ Repeat s n' end.

(** Does the character occur in the string? *)
Fixpoint contains_char (c : Ascii.ascii) (s : string) : bool :=
  match s with
  | EmptyString => false
  | String a s' => Ascii.eqb a c || contains_char c s'
  end.

Fixpoint string_forallb (f : Ascii.ascii → bool) (s : string) : bool :=
  match s with
  | EmptyString => true
  | String a s' => f a && string_forallb f s'
  end.

Fixpoint string_map (f : Ascii.ascii → Ascii.ascii) (s : string) : string :=
  match s with
  | EmptyString => EmptyString
  | String a s' => String (f a) (string_map f s')
  end.

(** ** Letter case and white space

    The functions [strings.ToUpper], [strings.ToLower] and [strings.TrimSpace] take
    a byte-wise path on ASCII strings, modelled exactly; on other strings they use
    the Unicode tables, which are a parameter. *)

Class UnicodeTables := {
  unicode_ToUpper : string → string;
  unicode_ToLower : string → string;
  unicode_TrimSpace : string → string;
}.

Definition is_ascii (s : string) : bool :=
  string_forallb (λ c, (Ascii.nat_of_ascii c <? 128)%nat) s.

Definition ascii_upper (c : Ascii.ascii) : Ascii.ascii :=
  let n := Ascii.nat_of_ascii c in
  if ((97 <=? n) && (n <=? 122))%nat then Ascii.ascii_of_nat (n - 32) else c.

Definition ascii_lower (c : Ascii.ascii) : Ascii.ascii :=
  let n := Ascii.nat_of_ascii c in
  if ((65 <=? n) && (n <=? 90))%nat then Ascii.ascii_of_nat (n + 32) else c.

Fixpoint trim_left (s : string) : string :=
  match s with
  | EmptyString => EmptyString
  | String c s' => if Ascii.is_space c then trim_left s' else s
  end.

Definition string_rev (s : string) : string := String.rev s.

Definition ascii_TrimSpace (s : string) : string :=
  string_rev (trim_left (string_rev (trim_left s))).

Section case_mapping.
Context `{UnicodeTables}.
Definition ToUpper (s : string) : string :=
  if is_ascii s then string_map ascii_upper s else unicode_ToUpper s.
Definition ToLower (s : string) : string :=
  if is_ascii s then string_map ascii_lower s else unicode_ToLower s.
Definition TrimSpace (s : string) : string :=
  if is_ascii s then ascii_TrimSpace s else unicode_TrimSpace s.
End case_mapping.

(** Tables that only know the ASCII characters. *)
Definition ascii_tables : UnicodeTables := {|
  unicode_ToUpper := string_map ascii_upper;
  unicode_ToLower := string_map ascii_lower;
  unicode_TrimSpace := ascii_TrimSpace;
|}.

(** ** [strconv] *)

Definition FormatInt (z : Z) : string := pretty z.

Fixpoint parse_digits (s : string) (acc : Z) : option Z :=
  match s with
  | EmptyString => Some acc
  | String c s' =>
      let n := Z.of_nat (Ascii.nat_of_ascii c) in
      if (48 <=? n) && (n <=? 57) then parse_digits s' (10 * acc + (n - 48)) else None
  end.

(** [strconv.ParseInt s 10 64]: [None] is any of its errors. *)
Definition ParseInt (s : string) : option Z :=
  let '(neg, ds) :=
    match s with
    | String "-"%char s' => (true, s')
    | String "+"%char s' => (false, s')
    | _ => (false, s)
    end in
  match ds with
  | EmptyString => None
  | _ => n ← parse_digits ds 0;
         let v := if neg then - n else n in
         if (int64_min <=? v) && (v <=? int64_max) then Some v else None
  end.

(** ** Lemmas *)

Lemma string_app_nil_r s : s +:+ "" = s.
Proof. induction s as [|c s IH]; [done|]. unfold String.app in *. simpl. by rewrite IH. Qed.

Lemma string_app_cons c s t : String c s +:+ t = String c (s +:+ t).
Proof. done. Qed.

Lemma string_app_assoc (s t u : string) : (s +:+ t) +:+ u = s +:+ t +:+ u.
Proof. induction s as [|c s IH]; [done|]. by rewrite !string_app_cons, IH. Qed.

Lemma string_take_drop n s : string_take n s +:+ string_drop n s = s.
Proof.
  revert s. induction n as [|n IH]; intros [|c s]; try done.
  cbn [string_take string_drop]. by rewrite string_app_cons, IH.
Qed.

Lemma string_length_app s t :
  String.length (s +:+ t) = (String.length s + String.length t)%nat.
Proof. induction s as [|c s IH]; [done|]. rewrite string_app_cons. simpl. by rewrite IH. Qed.

Lemma string_drop_app s t : string_drop (String.length s) (s +:+ t) = t.
Proof. induction s as [|c s IH]; [done|]. rewrite string_app_cons. simpl. done. Qed.

Lemma string_take_app s t : string_take (String.length s) (s +:+ t) = s.
Proof. induction s as [|c s IH]; [done|]. rewrite string_app_cons. simpl. by rewrite IH. Qed.

Lemma string_drop_0 s : string_drop 0 s = s.
Proof. by destruct s. Qed.

Lemma HasPrefix_app p s : HasPrefix (p +:+ s) p = true.
Proof.
  unfold HasPrefix. induction p as [|c p IH]; [by destruct s|].
  rewrite string_app_cons. simpl. destruct (Ascii.ascii_dec c c); [done|congruence].
Qed.

Lemma TrimPrefix_app p s : TrimPrefix (p +:+ s) p = s.
Proof. unfold TrimPrefix. by rewrite HasPrefix_app, string_drop_app. Qed.

Lemma HasSuffix_app s suf : HasSuffix (s +:+ suf) suf = true.
Proof.
  unfold HasSuffix. rewrite string_length_app.
  replace (String.length s + String.length suf - String.length suf)%nat
    with (String.length s) by lia.
  rewrite string_drop_app, String.eqb_refl, andb_true_r. apply Nat.leb_le. lia.
Qed.

Lemma TrimSuffix_app s suf : TrimSuffix (s +:+ suf) suf = s.
Proof.
  unfold TrimSuffix. rewrite HasSuffix_app, string_length_app.
  replace (String.length s + String.length suf - String.length suf)%nat
    with (String.length s) by lia.
  apply string_take_app.
Qed.

Lemma Index_app_not_in c s t :
  contains_char c s = false → Index (s +:+ String c t) c = Some (String.length s).
Proof.
  induction s as [|a s IH]; simpl.
  - intros _. by rewrite Ascii.eqb_refl.
  - intros [Ha Hs]%orb_false_iff. by rewrite Ha, IH.
Qed.

Lemma Index_not_in c s : contains_char c s = false → Index s c = None.
Proof.
  induction s as [|a s IH]; simpl; [done|].
  intros [Ha Hs]%orb_false_iff. by rewrite Ha, IH.
Qed.

Lemma Split_not_in c s : contains_char c s = false → Split s c = [s].
Proof.
  induction s as [|a s IH]; simpl; [done|].
  intros [Ha Hs]%orb_false_iff. by rewrite Ha, IH.
Qed.

Lemma Split_app c s t :
  contains_char c s = false → Split (s +:+ String c t) c = s :: Split t c.
Proof.
  induction s as [|a s IH]; simpl.
  - intros _. by rewrite Ascii.eqb_refl.
  - intros [Ha Hs]%orb_false_iff. by rewrite Ha, IH.
Qed.

(** Splitting at a separator splits each side. *)
Lemma Split_concat c s t : Split (s +:+ String c t) c = Split s c ++ Split t c.
Proof.
  induction s as [|a s IH]; simpl; [by rewrite Ascii.eqb_refl|].
  destruct (Ascii.eqb a c); [by rewrite IH|].
  rewrite IH. destruct (Split s c) as [|w ws] eqn:Hs; [|done].
  exfalso. destruct s as [|b s]; [done|]. simpl in Hs.
  destruct (Ascii.eqb b c); [done|]. by destruct (Split s c).
Qed.

(** [strings.Split] undoes [strings.Join] on separator-free words. *)
Lemma Split_Join c (l : list string) :
  l ≠ [] → Forall (λ w, contains_char c w = false) l →
  Split (Join l (String c "")) c = l.
Proof.
  intros Hne Hl. induction Hl as [|w l Hw Hl IH]; [done|].
  destruct l as [|w' l']; [by apply Split_not_in|].
  change (Join (w :: w' :: l') (String c ""))
    with (w +:+ String c (Join (w' :: l') (String c ""))).
  rewrite Split_app by done. by rewrite IH.
Qed.

Lemma contains_char_app c s t :
  contains_char c (s +:+ t) = contains_char c s || contains_char c t.
Proof.
  induction s as [|a s IH]; [done|]. rewrite string_app_cons. simpl.
  by rewrite IH, orb_assoc.
Qed.

Lemma contains_char_Join c (l : list string) sep :
  contains_char c sep = false →
  Forall (λ w, contains_char c w = false) l → contains_char c (Join l sep) = false.
Proof.
  intros Hsep. induction 1 as [|w l Hw Hl IH]; [done|].
  destruct l as [|w' l']; [done|].
  change (Join (w :: w' :: l') sep) with (w +:+ sep +:+ Join (w' :: l') sep).
  by rewrite !contains_char_app, Hw, Hsep, IH.
Qed.

Lemma Repeat_length s n : String.length (Repeat s n) = (n * String.length s)%nat.
Proof. induction n as [|n IH]; simpl; [done|]. rewrite string_length_app, IH. lia. Qed.

Lemma string_take_length n s : String.length (string_take n s) = Nat.min n (String.length s).
Proof.
  revert s. induction n as [|n IH]; intros [|c s]; simpl; try done. by rewrite IH.
Qed.

Lemma string_drop_length n s : String.length (string_drop n s) = (String.length s - n)%nat.
Proof.
  revert s. induction n as [|n IH]; intros [|c s]; simpl; done.
Qed.

#[export] Hint Rewrite string_length_app Repeat_length string_take_length
  string_drop_length contains_char_app string_app_nil_r string_app_assoc : go.

Lemma HasSuffix_split s suf : HasSuffix s suf = true → s = TrimSuffix s suf +:+ suf.
Proof.
  intros Hs. unfold TrimSuffix. rewrite Hs. unfold HasSuffix in Hs.
  apply andb_true_iff in Hs as [_ Hd]. apply String.eqb_eq in Hd.
  rewrite <- (string_take_drop (String.length s - String.length suf) s) at 1. by rewrite Hd.
Qed.

Lemma string_drop_app_add a b n : string_drop (String.length a + n) (a +:+ b) = string_drop n b.
Proof. induction a as [|c a IH]; [done|exact IH]. Qed.

(** A suffix is looked for in the last part only, when that part is long enough. *)
Lemma HasSuffix_app_r a b suf :
  (String.length suf ≤ String.length b)%nat → HasSuffix (a +:+ b) suf = HasSuffix b suf.
Proof.
  intros Hl. unfold HasSuffix. rewrite string_length_app.
  replace (String.length a + String.length b - String.length suf)%nat
    with (String.length a + (String.length b - String.length suf))%nat by lia.
  rewrite string_drop_app_add. f_equal.
  destruct (Nat.leb_spec (String.length suf) (String.length a + String.length b)),
    (Nat.leb_spec (String.length suf) (String.length b)); done || lia.
Qed.

Lemma HasSuffix_char_not_in c s :
  contains_char c s = false → HasSuffix s (String c "") = false.
Proof.
  intros Hc. destruct (HasSuffix s (String c "")) eqn:Hs; [|done].
  apply HasSuffix_split in Hs. rewrite Hs, contains_char_app in Hc. simpl in Hc.
  by rewrite Ascii.eqb_refl, orb_true_r in Hc.
Qed.

Lemma SplitN2_app c s t :
  contains_char c s = false → SplitN2 (s +:+ String c t) c = (s, Some t).
Proof.
  intros Hs. unfold SplitN2. rewrite Index_app_not_in by done. rewrite string_take_app.
  f_equal. f_equal. induction s as [|a s IH]; [done|]. simpl in *.
  apply orb_false_iff in Hs as [_ Hs]. by apply IH.
Qed.

Lemma SplitN2_not_in c s : contains_char c s = false → SplitN2 s c = (s, None).
Proof. intros Hs. unfold SplitN2. by rewrite Index_not_in. Qed.
