(* ===== verification/World.v ===== *)
(** * The environment of a process and the monad its code runs in

    What the program reads from outside (the wall clock, random identifiers, the
    network, the message broker, the cancellation of a request's context) is an
    oracle: the k-th reading returns whatever the environment chose.  What it does
    to the outside (HTTP requests sent, messages handed to the broker, metrics
    recorded) is logged in the [World].  A piece of code working on a state [S] is
    a function [M S A], executable once an environment is given. *)

From S2P Require Import Prelude GoStd.
From Stdlib Require Export SpecFloat.
From stdpp Require pretty.

Open Scope Z_scope.

(** ** IEEE-754 binary64 *)

Abbreviation float64 := spec_float (only parsing).

(** [float64(z)] for an integer [z], and division and addition of [float64]s. *)
Definition f64_of_int (z : Z) : float64 := binary_normalize 53 1024 z 0 false.
Definition f64_div (x y : float64) : float64 := SFdiv 53 1024 x y.
Definition f64_add (x y : float64) : float64 := SFadd 53 1024 x y.
Definition f64_zero : float64 := S754_zero false.

(** [Duration.Seconds]: whole seconds plus the fraction, in [float64]. *)
Definition Duration_Seconds (d : Duration) : float64 :=
  f64_add (f64_of_int (Z.quot d Second))
          (f64_div (f64_of_int (Z.rem d Second)) (f64_of_int 1000000000)).

(** ** Metrics (internal/metrics/metrics.go)

    One constructor per Prometheus collector; a value is one update of it. *)

Inductive Metric : Type :=
| WSReconnectCount (venue : string)
| WSGapCount (venue : string)
| WSBookLagSeconds (venue pair : string) (v : float64)
| RateLimitHeadroom (venue : string) (v : float64)
| FillLatencySeconds (venue : string) (v : float64)
| BalanceSyncLagSeconds (venue : string) (v : float64)
| EventsPublishedTotal (venue type status : string)
| AuditEventsEmittedTotal (venue type : string)
| AuditDroppedTotal (venue type : string).

Inductive CollectorKind := CounterVec | GaugeVec | HistogramVec.

(** A collector as it is declared: its kind, its name and the names of its labels. *)
Record Collector := mkCollector { c_kind : CollectorKind; c_name : string; c_labels : list string }.

(** The collector a value updates, and the label values [WithLabelValues] is given. *)
Definition collector_of (m : Metric) : Collector :=
  match m with
  | WSReconnectCount _ => mkCollector CounterVec "ws_reconnect_count" ["venue"]
  | WSGapCount _ => mkCollector CounterVec "ws_gap_count" ["venue"]
  | WSBookLagSeconds _ _ _ => mkCollector GaugeVec "ws_book_lag_seconds" ["venue"; "pair"]
  | RateLimitHeadroom _ _ => mkCollector GaugeVec "rate_limit_headroom" ["venue"]
  | FillLatencySeconds _ _ => mkCollector HistogramVec "fill_latency_seconds" ["venue"]
  | BalanceSyncLagSeconds _ _ => mkCollector HistogramVec "balance_sync_lag_seconds" ["venue"]
  | EventsPublishedTotal _ _ _ =>
      mkCollector CounterVec "events_published_total" ["venue"; "type"; "status"]
  | AuditEventsEmittedTotal _ _ =>
      mkCollector CounterVec "audit_events_emitted_total" ["venue"; "type"]
  | AuditDroppedTotal _ _ => mkCollector CounterVec "audit_dropped_total" ["venue"; "type"]
  end.

Definition label_values (m : Metric) : list string :=
  match m with
  | WSReconnectCount v | WSGapCount v | RateLimitHeadroom v _ | FillLatencySeconds v _
  | BalanceSyncLagSeconds v _ => [v]
  | WSBookLagSeconds v p _ => [v; p]
  | EventsPublishedTotal v t s => [v; t; s]
  | AuditEventsEmittedTotal v t | AuditDroppedTotal v t => [v; t]
  end.

(** [Registry.MustRegister], in [init]. *)
Definition registered : list string :=
  ["ws_reconnect_count"; "ws_gap_count"; "ws_book_lag_seconds"; "rate_limit_headroom";
   "fill_latency_seconds"; "balance_sync_lag_seconds"; "events_published_total";
   "audit_events_emitted_total"; "audit_dropped_total"].

(** Neither [MustRegister] nor [WithLabelValues] ever panics: no name is registered twice,
    every collector the program updates is registered, and it is given as many label values
    as it has labels. *)
Lemma metrics_never_panic :
  NoDup registered ∧
  ∀ m, c_name (collector_of m) ∈ registered ∧
       length (label_values m) = length (c_labels (collector_of m)).
Proof.
  split; [apply (bool_decide_unpack _); vm_compute; exact I|].
  intros m. split; [|by destruct m].
  destruct m; apply (bool_decide_unpack _); vm_compute; exact I.
Qed.

(** ** The network *)

Record HttpRequest := {
  rq_method : string;
  rq_url : string;
  rq_headers : list (string * string);
  rq_body : string;
}.

Record HttpResponse := {
  rs_status : Z;
  rs_headers : list (string * string);
  rs_body : result string;       (** what [io.ReadAll] returns *)
}.

Record KafkaMessage := {
  km_topic : string;
  km_key : option string;
  km_value : string;
}.

(** ** Environment and world *)

Class Env := {
  env_now : nat → Time;                              (** k-th [time.Now()] *)
  env_uuid : nat → string;                           (** k-th [uuid.NewString()] *)
  env_rand : nat → Z;                                (** k-th raw random number *)
  env_http : nat → HttpRequest → result HttpResponse; (** reply to the k-th request *)
  env_kafka : nat → option error;                    (** outcome of the k-th write *)
  env_ctx : nat → option error;                      (** k-th look at [ctx.Done] *)
}.

(** [os.Getenv]: the empty string for a variable that is not set. *)
Class OsEnv := { getenv : string → string }.

(** The clock never goes backwards (Go's monotonic clock). *)
Definition clock_monotone `{Env} : Prop := ∀ i j, (i ≤ j)%nat → env_now i ≤ env_now j.

Record World := mkWorld {
  w_now : nat;
  w_uuid : nat;
  w_rand : nat;
  w_ctx : nat;
  w_http : list HttpRequest;      (** requests sent, latest last *)
  w_kafka : list KafkaMessage;    (** messages handed to the broker, latest last *)
  w_metrics : list Metric;        (** metric updates, latest last *)
}.

Definition World_init : World := mkWorld 0 0 0 0 [] [] [].

(** ** The monad *)

Definition M (S A : Type) : Type := S → World → A * S * World.

#[export] Instance M_ret {S} : MRet (M S) := λ A a s w, (a, s, w).
#[export] Instance M_bind {S} : MBind (M S) := λ A B k m s w,
  let '(a, s', w') := m s w in k a s' w'.

Definition get {S} : M S S := λ s w, (s, s, w).
Definition put {S} (s : S) : M S unit := λ _ w, (tt, s, w).
Definition modify {S} (f : S → S) : M S unit := λ s w, (tt, f s, w).

(** Run code of a component on the part of the state that holds it. *)
Definition zoom {S T A} (view : S → T) (upd : T → S → S) (m : M T A) : M S A := λ s w,
  let '(a, t, w') := m (view s) w in (a, upd t s, w').

Definition for_each {S A} (f : A → M S unit) : list A → M S unit :=
  fix go l := match l with
              | [] => mret tt
              | x :: l' => f x ;; go l'
              end.

Definition emit_metric {S} (m : Metric) : M S unit := λ s w,
  (tt, s, mkWorld (w_now w) (w_uuid w) (w_rand w) (w_ctx w) (w_http w) (w_kafka w)
                  (w_metrics w ++ [m])).

Section primitives.
Context `{Env} {S : Type}.

Definition now : M S Time := λ s w,
  (env_now (w_now w), s,
   mkWorld (Datatypes.S (w_now w)) (w_uuid w) (w_rand w) (w_ctx w) (w_http w) (w_kafka w)
           (w_metrics w)).

Definition new_uuid : M S string := λ s w,
  (env_uuid (w_uuid w), s,
   mkWorld (w_now w) (Datatypes.S (w_uuid w)) (w_rand w) (w_ctx w) (w_http w) (w_kafka w)
           (w_metrics w)).

(** A uniformly chosen element of [0, n): whatever the environment chose. *)
Definition rand_int63n (n : Z) : M S Z := λ s w,
  (env_rand (w_rand w) mod n, s,
   mkWorld (w_now w) (w_uuid w) (Datatypes.S (w_rand w)) (w_ctx w) (w_http w) (w_kafka w)
           (w_metrics w)).

(** [http.DefaultClient.Do] *)
Definition http_do (rq : HttpRequest) : M S (result HttpResponse) := λ s w,
  (env_http (length (w_http w)) rq, s,
   mkWorld (w_now w) (w_uuid w) (w_rand w) (w_ctx w) (w_http w ++ [rq]) (w_kafka w)
           (w_metrics w)).

(** [kafka.Writer.WriteMessages] with one message. *)
Definition kafka_write (m : KafkaMessage) : M S (option error) := λ s w,
  (env_kafka (length (w_kafka w)), s,
   mkWorld (w_now w) (w_uuid w) (w_rand w) (w_ctx w) (w_http w) (w_kafka w ++ [m])
           (w_metrics w)).

(** Has the context been cancelled ([Some err] is [ctx.Err()])? *)
Definition ctx_done : M S (option error) := λ s w,
  (env_ctx (w_ctx w), s,
   mkWorld (w_now w) (w_uuid w) (w_rand w) (Datatypes.S (w_ctx w)) (w_http w) (w_kafka w)
           (w_metrics w)).

(** [time.Since t] *)
Definition since (t : Time) : M S Duration := n ← now; mret (Time_Sub n t).
End primitives.

(** Unfold the plumbing of the monad. *)
Ltac munfold :=
  cbv [mbind M_bind mret M_ret get put modify zoom now since emit_metric new_uuid
       http_do kafka_write ctx_done rand_int63n] in *; cbn -[Z.add Z.sub Z.mul Z.div] in *.

(** ** Laws *)

Section laws.
Context {S : Type}.

Lemma M_bind_ret_l {A B} (a : A) (k : A → M S B) s w : (mret a ≫= k) s w = k a s w.
Proof. done. Qed.

Lemma M_bind_run {A B} (m : M S A) (k : A → M S B) s w a s' w' :
  m s w = (a, s', w') → (m ≫= k) s w = k a s' w'.
Proof. unfold mbind, M_bind. by intros ->. Qed.

Lemma for_each_app {A} (f : A → M S unit) l1 l2 s w :
  for_each f (l1 ++ l2) s w = (for_each f l1 ;; for_each f l2) s w.
Proof.
  revert s w. induction l1 as [|x l1 IH]; intros s w; [done|].
  cbn [app for_each]. unfold mbind, M_bind in *.
  destruct (f x s w) as [[[] s1] w1]. apply IH.
Qed.

(** A property of state and world kept by every iteration is kept by the loop. *)
Lemma for_each_ind {A} (P : S → World → Prop) (f : A → M S unit) l s w :
  (∀ x s w, x ∈ l → P s w → P (for_each f [x] s w).1.2 (for_each f [x] s w).2) →
  P s w → P (for_each f l s w).1.2 (for_each f l s w).2.
Proof.
  revert s w. induction l as [|x l IH]; intros s w Hf HP; [done|].
  pose proof (Hf x s w ltac:(set_solver) HP) as Hx.
  cbn [for_each] in *. unfold mbind, M_bind in *.
  destruct (f x s w) as [[[] s1] w1]. apply IH; [|done].
  intros y ????. apply Hf; [set_solver|done].
Qed.
End laws.

(** ** Invariants of a computation

    [keeps I m]: from a state satisfying [I], the computation [m] ends in one, whatever the
    environment answers. *)

Definition keeps {S A} (I : S → Prop) (m : M S A) : Prop := ∀ s w, I s → I (m s w).1.2.

Section keeps.
Context {S : Type} (I : S → Prop).

Lemma keeps_ret {A} (a : A) : keeps I (mret a).
Proof. by intros s w. Qed.

Lemma keeps_get : keeps I get.
Proof. by intros s w. Qed.

Lemma keeps_bind {A B} (m : M S A) (k : A → M S B) :
  keeps I m → (∀ a, keeps I (k a)) → keeps I (m ≫= k).
Proof.
  intros Hm Hk s w Hs. unfold mbind, M_bind. specialize (Hm s w Hs).
  destruct (m s w) as [[a s1] w1]. by apply Hk.
Qed.

Lemma keeps_for_each {A} (f : A → M S unit) l :
  (∀ x, keeps I (f x)) → keeps I (for_each f l).
Proof.
  intros Hf. induction l as [|x l IH]; [apply keeps_ret|]. by apply keeps_bind.
Qed.

Lemma keeps_emit_metric x : keeps I (emit_metric x).
Proof. by intros s w. Qed.

Lemma keeps_now `{Env} : keeps I now.
Proof. by intros s w. Qed.
End keeps.

Create HintDb keeps.
#[export] Hint Resolve keeps_ret keeps_get keeps_bind keeps_for_each keeps_emit_metric
  keeps_now : keeps.

(** ** A concrete environment

    A clock that advances by [step] at every reading, identifiers numbered in the
    order they are drawn, and given replies from the network and the broker: used to
    evaluate the definitions. *)

Definition linear_env (t0 step : Z) (http : nat → HttpRequest → result HttpResponse)
    (kafka ctx : nat → option error) : Env := {|
  env_now n := t0 + step * Z.of_nat n;
  env_uuid n := pretty.pretty (N.of_nat n);
  env_rand n := Z.of_nat n;
  env_http := http;
  env_kafka := kafka;
  env_ctx := ctx;
|}.

(** Nothing answers, nothing is cancelled; the clock starts at [t0]. *)
Definition quiet_env (t0 step : Z) : Env :=
  linear_env t0 step (λ _ _, Err (ErrNew "connection refused")) (λ _, None) (λ _, None).

Lemma linear_env_monotone t0 step http kafka ctx :
  0 ≤ step → @clock_monotone (linear_env t0 step http kafka ctx).
Proof. intros Hs i j Hij. simpl. nia. Qed.

Lemma quiet_env_monotone t0 step : 0 ≤ step → @clock_monotone (quiet_env t0 step).
Proof. apply linear_env_monotone. Qed.

#[export] Hint Resolve quiet_env_monotone linear_env_monotone : go.
