(* ===== verification/Threads.v ===== *)
(** * Goroutines that share a state

    A goroutine is a sequence of atomic steps on a shared state, each chosen from the result
    of the one before: a critical section, an atomic instruction, or one exchange with the
    outside.  A pool of goroutines runs under a schedule, which says who moves next.  Run
    alone, a goroutine is an ordinary computation; in a pool, it is reasoned about on its own,
    against an invariant of the shared state and of what each goroutine knows. *)

From S2P Require Import Prelude World.

(** ** Programs made of atomic steps *)

Inductive Prog (S A : Type) : Type :=
| Done (a : A)
| Atom {B : Type} (m : M S B) (k : B → Prog S A).
Arguments Done {S A} a.
Arguments Atom {S A B} m k.

Fixpoint pbind {S A B} (p : Prog S A) (f : A → Prog S B) : Prog S B :=
  match p with
  | Done a => f a
  | Atom m k => Atom m (λ b, pbind (k b) f)
  end.

#[export] Instance Prog_ret {S} : MRet (Prog S) := @Done S.
#[export] Instance Prog_bind {S} : MBind (Prog S) := λ A B f p, pbind p f.

(** One step. *)
Definition atom {S A} (m : M S A) : Prog S A := Atom m Done.

(** A program on a part of the state. *)
Fixpoint pzoom {S T A} (view : S → T) (upd : T → S → S) (p : Prog T A) : Prog S A :=
  match p with
  | Done a => Done a
  | Atom m k => Atom (zoom view upd m) (λ b, pzoom view upd (k b))
  end.

Definition pfor_each {S A} (f : A → Prog S unit) : list A → Prog S unit :=
  fix go l := match l with
              | [] => mret tt
              | x :: l' => f x ;; go l'
              end.

(** The program run with nobody else moving. *)
Fixpoint alone {S A} (p : Prog S A) : M S A :=
  match p with
  | Done a => mret a
  | Atom m k => b ← m; alone (k b)
  end.

(** ** Pools *)

Record Goroutines (S A : Type) := mkPool {
  threads : list (Prog S A);
  shared : S;
  outside : World;
}.
Arguments mkPool {S A}.
Arguments threads {S A}.
Arguments shared {S A}.
Arguments outside {S A}.

(** Goroutine [i] makes its next step; nothing happens when it has none. *)
Definition pool_step {S A} (i : nat) (c : Goroutines S A) : Goroutines S A :=
  match threads c !! i with
  | Some (Atom m k) =>
      let '(b, s, w) := m (shared c) (outside c) in mkPool (<[i := k b]> (threads c)) s w
  | _ => c
  end.

Definition pool_run {S A} (schedule : list nat) (c : Goroutines S A) : Goroutines S A :=
  fold_left (λ c i, pool_step i c) schedule c.

(** What a goroutine has returned, if it has. *)
Definition returned {S A} (p : Prog S A) : option A :=
  match p with Done a => Some a | Atom _ _ => None end.

(** ** Running alone *)

Section alone.
Context {S : Type}.

Lemma alone_bind {A B} (p : Prog S A) (f : A → Prog S B) s w :
  alone (p ≫= f) s w = (a ← alone p; alone (f a)) s w.
Proof.
  revert s w. induction p as [a|C m k IH]; intros s w; [done|].
  cbn. unfold mbind, M_bind. destruct (m s w) as [[b s1] w1]. apply IH.
Qed.

Lemma alone_atom {A} (m : M S A) s w : alone (atom m) s w = m s w.
Proof. cbn. unfold mbind, M_bind, mret, M_ret. by destruct (m s w) as [[b s1] w1]. Qed.

(** A part of the state that is there in the states [J], which the program does not leave. *)
Lemma alone_zoom_in {T A} (J : S → Prop) (view : S → T) (upd : T → S → S) (p : Prog T A) s w :
  (∀ t s, view (upd t s) = t) → (∀ t t' s, upd t (upd t' s) = upd t s) →
  (∀ s, J s → upd (view s) s = s) → (∀ t s, J (upd t s)) → J s →
  alone (pzoom view upd p) s w = zoom view upd (alone p) s w.
Proof.
  intros Hget Hput Hid HJ. revert s w. induction p as [a|C m k IH]; intros s w Hs.
  - cbn. unfold zoom, mret, M_ret. by rewrite Hid.
  - cbn. unfold mbind, M_bind, zoom. destruct (m (view s) w) as [[b t] w1].
    rewrite IH by done. unfold zoom. rewrite Hget. destruct (alone (k b) t w1) as [[a t'] w2].
    by rewrite Hput.
Qed.

Lemma alone_for_each {A} (f : A → Prog S unit) (g : A → M S unit) l s w :
  (∀ x s w, alone (f x) s w = g x s w) → alone (pfor_each f l) s w = for_each g l s w.
Proof.
  intros Hf. revert s w. induction l as [|x l IH]; intros s w; [done|].
  cbn [pfor_each for_each]. rewrite alone_bind. unfold mbind, M_bind. rewrite Hf.
  destruct (g x s w) as [[[] s1] w1]. apply IH.
Qed.

(** [runs_as p m]: alone, [p] is the computation [m]. *)
Definition runs_as {A} (p : Prog S A) (m : M S A) : Prop := ∀ s w, alone p s w = m s w.

Lemma runs_as_ret {A} (a : A) : runs_as (mret a) (mret a).
Proof. done. Qed.

Lemma runs_as_atom {A} (m : M S A) : runs_as (atom m) m.
Proof. intros s w. apply alone_atom. Qed.

Lemma runs_as_bind {A B} (p : Prog S A) (m : M S A) (f : A → Prog S B) (k : A → M S B) :
  runs_as p m → (∀ a, runs_as (f a) (k a)) → runs_as (p ≫= f) (m ≫= k).
Proof.
  intros Hp Hf s w. rewrite alone_bind. unfold mbind, M_bind. rewrite Hp.
  destruct (m s w) as [[a s1] w1]. apply Hf.
Qed.

Lemma runs_as_same {A} (p : Prog S A) (m m' : M S A) :
  runs_as p m → (∀ s w, m s w = m' s w) → runs_as p m'.
Proof. intros Hp Hm s w. by rewrite Hp. Qed.

Lemma runs_as_zoom {T A} (view : S → T) (upd : T → S → S) (p : Prog T A) (m : M T A) :
  (∀ t s, view (upd t s) = t) → (∀ t t' s, upd t (upd t' s) = upd t s) →
  (∀ s, upd (view s) s = s) → (∀ t w, alone p t w = m t w) →
  runs_as (pzoom view upd p) (zoom view upd m).
Proof.
  intros Hget Hput Hid Hp s w. rewrite (alone_zoom_in (λ _, True)) by done.
  unfold zoom. by rewrite Hp.
Qed.

Lemma runs_as_for_each {A} (f : A → Prog S unit) (g : A → M S unit) l :
  (∀ x, runs_as (f x) (g x)) → runs_as (pfor_each f l) (for_each g l).
Proof. intros Hf s w. apply alone_for_each. intros x. apply Hf. Qed.

(** A pool of one goroutine, given enough turns, does what it does alone. *)
Fixpoint turns {A} (p : Prog S A) (s : S) (w : World) : nat :=
  match p with
  | Done _ => 0
  | Atom m k => let '(b, s', w') := m s w in Datatypes.S (turns (k b) s' w')
  end.

Lemma pool_of_one {A} (p : Prog S A) s w :
  pool_run (replicate (turns p s w) 0%nat) (mkPool [p] s w) =
  let '(a, s', w') := alone p s w in mkPool [Done a] s' w'.
Proof.
  revert s w. induction p as [a|B m k IH]; intros s w; [done|].
  cbn. unfold mbind, M_bind. destruct (m s w) as [[b s1] w1] eqn:Hm.
  cbn. unfold pool_step at 1. cbn. rewrite Hm. apply IH.
Qed.
End alone.

Create HintDb runs.
#[export] Hint Resolve runs_as_ret runs_as_atom runs_as_for_each : runs.

(** Follow the two computations side by side. *)
Ltac runs :=
  repeat first
    [ progress intros
    | solve [eauto with runs]
    | apply runs_as_bind
    | match goal with
      | |- runs_as (match ?x with _ => _ end) _ => destruct x
      | |- runs_as (if ?x then _ else _) _ => destruct x
      end ].

(** ** Reasoning about a pool

    [I gs s w] is the invariant, [gs] giving what each goroutine knows; a goroutine that knows
    [g] is [thread_ok] when each of its steps, taken from any state of the pool, moves it to
    some new knowledge with the invariant still true, and when it ends as [Q] says. *)

Section rule.
Context {S A G : Type} (I : list G → S → World → Prop) (Q : G → A → Prop).

Fixpoint thread_ok (g : G) (p : Prog S A) : Prop :=
  match p with
  | Done a => Q g a
  | Atom m k => ∀ i gs s w, I gs s w → gs !! i = Some g →
      let '(b, s', w') := m s w in ∃ g', I (<[i := g']> gs) s' w' ∧ thread_ok g' (k b)
  end.

Lemma pool_rule (schedule : list nat) (c : Goroutines S A) gs :
  Forall2 thread_ok gs (threads c) → I gs (shared c) (outside c) →
  ∃ gs', Forall2 thread_ok gs' (threads (pool_run schedule c)) ∧
         I gs' (shared (pool_run schedule c)) (outside (pool_run schedule c)).
Proof.
  revert c gs. induction schedule as [|i schedule IH]; intros c gs Ht HI; [by exists gs|].
  cbn [pool_run fold_left]. fold (pool_run schedule (pool_step i c)). unfold pool_step.
  destruct (threads c !! i) as [[a|B m k]|] eqn:Hi; [by eauto..| |by eauto].
  destruct (Forall2_lookup_r _ _ _ _ _ Ht Hi) as (g & Hg & Hok). simpl in Hok.
  specialize (Hok i gs _ _ HI Hg). destruct (m (shared c) (outside c)) as [[b s] w].
  destruct Hok as (g' & HI' & Hok'). apply (IH (mkPool _ _ _) (<[i := g']> gs)); [|done].
  by apply Forall2_insert.
Qed.
End rule.

(** The rule for an invariant of the state alone: every step of every goroutine keeps it, and
    each ends as [Q] says. *)
Section keeps.
Context {S A : Type} (I : S → Prop) (Q : A → Prop).

Fixpoint steps_ok (p : Prog S A) : Prop :=
  match p with
  | Done a => Q a
  | Atom m k => ∀ s w, I s → let '(b, s', w') := m s w in I s' ∧ steps_ok (k b)
  end.
End keeps.

Section keeps_lemmas.
Context {S : Type} (I : S → Prop).

Lemma steps_ok_ret {A} (Q : A → Prop) a : Q a → steps_ok I Q (mret a).
Proof. done. Qed.

Lemma steps_ok_bind {A B} (R : A → Prop) (Q : B → Prop) (p : Prog S A) (f : A → Prog S B) :
  steps_ok I R p → (∀ a, R a → steps_ok I Q (f a)) → steps_ok I Q (p ≫= f).
Proof.
  intros Hp Hf. induction p as [a|C m k IH]; [by apply Hf|]. intros s w Hs. specialize (Hp s w Hs).
  destruct (m s w) as [[b s'] w']. destruct Hp as [Hs' Hk]. split; [done|]. by apply IH.
Qed.

Lemma steps_ok_then {A B} (Q : B → Prop) (p : Prog S A) (f : A → Prog S B) :
  steps_ok I (λ _, True) p → (∀ a, steps_ok I Q (f a)) → steps_ok I Q (p ≫= f).
Proof. intros Hp Hf. eapply steps_ok_bind; [exact Hp|]. intros a _. apply Hf. Qed.

Lemma steps_ok_atom {A} (m : M S A) : keeps I m → steps_ok I (λ _, True) (atom m).
Proof. intros Hm s w Hs. specialize (Hm s w Hs). by destruct (m s w) as [[b s'] w']. Qed.

(** Reading the state. *)
Lemma steps_ok_get {A} (Q : A → Prop) (f : S → Prog S A) :
  (∀ s, I s → steps_ok I Q (f s)) → steps_ok I Q (s ← atom get; f s).
Proof. intros Hf s w Hs. split; [done|]. by apply Hf. Qed.

Lemma steps_ok_for_each {A} (f : A → Prog S unit) l :
  (∀ x, steps_ok I (λ _, True) (f x)) → steps_ok I (λ _, True) (pfor_each f l).
Proof. intros Hf. induction l as [|x l IH]; [done|]. by apply steps_ok_then. Qed.

Lemma steps_ok_impl {A} (J : S → Prop) (Q R : A → Prop) (p : Prog S A) :
  steps_ok I Q p → (∀ s, I s ↔ J s) → (∀ a, Q a → R a) → steps_ok J R p.
Proof.
  intros Hp HJ HR. induction p as [a|B m k IH]; [by apply HR|]. intros s w Hs.
  specialize (Hp s w ltac:(by apply HJ)). destruct (m s w) as [[b s'] w'].
  split; [by apply HJ, Hp|]. by apply IH, Hp.
Qed.

(** A part of the state, with an invariant of its own. *)
Lemma steps_ok_zoom {T A} (It : T → Prop) (Q : A → Prop) (view : S → T) (upd : T → S → S)
    (p : Prog T A) :
  steps_ok It Q p → (∀ s, I s → It (view s)) → (∀ s t, I s → It t → I (upd t s)) →
  steps_ok I Q (pzoom view upd p).
Proof.
  intros Hp Hv Hu. induction p as [a|B m k IH]; [done|]. intros s w Hs. unfold zoom.
  specialize (Hp (view s) w (Hv s Hs)). destruct (m (view s) w) as [[b t] w'].
  destruct Hp as [Ht Hk]. split; [by apply Hu|]. by apply IH.
Qed.
End keeps_lemmas.

Lemma steps_ok_true {S A} (p : Prog S A) : steps_ok (λ _, True) (λ _, True) p.
Proof. induction p as [a|B m k IH]; [done|]. intros s w _. by destruct (m s w) as [[b s'] w']. Qed.

#[export] Hint Resolve steps_ok_atom steps_ok_for_each steps_ok_true : keeps.

(** ** Bookkeeping over what the goroutines know *)

Section ledger.
Context {G : Type}.

(** The total of [f], and the entries [h] shows, over all goroutines. *)
Definition total (f : G → Z) (gs : list G) : Z := foldr Z.add 0%Z (f <$> gs).

Lemma insert_split (gs : list G) i g g' :
  gs !! i = Some g → ∃ l1 l2, gs = l1 ++ g :: l2 ∧ <[i := g']> gs = l1 ++ g' :: l2.
Proof.
  intros Hi. destruct (list_elem_of_split_length _ _ _ Hi) as (l1 & l2 & -> & ->).
  exists l1, l2. split; [done|]. rewrite <-(Nat.add_0_r (length l1)). by rewrite insert_app_r.
Qed.

Lemma total_app f l1 l2 : total f (l1 ++ l2) = (total f l1 + total f l2)%Z.
Proof. unfold total. rewrite fmap_app. induction (f <$> l1) as [|z l IH]; simpl; lia. Qed.

Lemma total_insert (f : G → Z) (gs : list G) (i : nat) g g' :
  gs !! i = Some g → total f (<[i := g']> gs) = (total f gs - f g + f g')%Z.
Proof.
  intros Hi. destruct (insert_split gs i g g' Hi) as (l1 & l2 & -> & ->).
  rewrite !total_app. unfold total; simpl. lia.
Qed.

Lemma total_le (f : G → Z) (gs : list G) b :
  (∀ g, f g ≤ b)%Z → (total f gs ≤ b * Z.of_nat (length gs))%Z.
Proof.
  intros Hf. induction gs as [|g gs IH]; [unfold total; simpl; lia|].
  unfold total in *. cbn [fmap list_fmap foldr length]. rewrite Nat2Z.inj_succ, Z.mul_succ_r.
  specialize (Hf g). lia.
Qed.

#[export] Instance total_proper f : Proper ((≡ₚ) ==> (=)) (total f).
Proof.
  intros l1 l2 Hl. unfold total.
  induction Hl as [|x l1 l2 _ IH|x y l|l1 l2 l3 _ IH1 _ IH2]; csimpl; lia.
Qed.

Lemma omap_submseteq {B} (f h : G → option B) gs :
  (∀ g, f g = None ∨ f g = h g) → omap f gs ⊆+ omap h gs.
Proof.
  intros Hf. induction gs as [|g gs IH]; [done|]. simpl. destruct (Hf g) as [-> | ->].
  - destruct (h g); [by apply submseteq_cons|done].
  - destruct (h g); [by apply submseteq_skip|done].
Qed.

Lemma omap_fmap {A B} (h : G → option B) (f : A → G) (l : list A) : omap h (f <$> l) = omap (h ∘ f) l.
Proof. induction l as [|a l IH]; [done|]. csimpl. by rewrite IH. Qed.

Lemma omap_insert_same {B} (h : G → option B) (gs : list G) (i : nat) g g' :
  gs !! i = Some g → h g' = h g → omap h (<[i := g']> gs) = omap h gs.
Proof.
  intros Hi Hh. destruct (insert_split gs i g g' Hi) as (l1 & l2 & -> & ->).
  rewrite !omap_app. simpl. by rewrite Hh.
Qed.

Lemma omap_insert_new {B} (h : G → option B) (gs : list G) (i : nat) g g' b :
  gs !! i = Some g → h g = None → h g' = Some b →
  omap h (<[i := g']> gs) ≡ₚ b :: omap h gs.
Proof.
  intros Hi Hg Hg'. destruct (insert_split gs i g g' Hi) as (l1 & l2 & -> & ->).
  rewrite !omap_app. simpl. rewrite Hg, Hg'. symmetry. apply Permutation_middle.
Qed.

Lemma fmap_insert_same {B} (f : G → B) (gs : list G) (i : nat) g g' :
  gs !! i = Some g → f g' = f g → f <$> <[i := g']> gs = f <$> gs.
Proof.
  intros Hi Hf. destruct (insert_split gs i g g' Hi) as (l1 & l2 & -> & ->).
  rewrite !fmap_app. simpl. by rewrite Hf.
Qed.
End ledger.

(** What is recorded is covered by what is counted. *)
Lemma total_omap {G B} (f : B → Z) (h : G → option B) (g : G → Z) (gs : list G) :
  (∀ x, match h x with Some y => f y | None => 0 end ≤ g x)%Z →
  (total f (omap h gs) ≤ total g gs)%Z.
Proof.
  intros Hh. induction gs as [|x gs IH]; [done|]. unfold total in *. specialize (Hh x).
  cbn. destruct (h x); cbn; lia.
Qed.


(** A goroutine in two parts. *)
Lemma thread_ok_bind {S A B G} I (R : G → A → Prop) (Q : G → B → Prop) (f : A → Prog S B) g
    (p : Prog S A) :
  thread_ok I R g p → (∀ g a, R g a → thread_ok I Q g (f a)) → thread_ok I Q g (p ≫= f).
Proof.
  intros Hp Hf. revert g Hp. induction p as [a|C m k IH]; intros g Hp; [by apply Hf|].
  simpl in *. intros i gs s w HI Hg. specialize (Hp i gs s w HI Hg).
  destruct (m s w) as [[b s'] w']. destruct Hp as (g' & HI' & Hp). eauto.
Qed.

Lemma thread_ok_impl {S A G} I (Q Q' : G → A → Prop) g (p : Prog S A) :
  thread_ok I Q g p → (∀ g a, Q g a → Q' g a) → thread_ok I Q' g p.
Proof.
  intros Hp HQ. revert g Hp. induction p as [a|C m k IH]; intros g Hp; [by apply HQ|].
  simpl in *. intros i gs s w HI Hg. specialize (Hp i gs s w HI Hg).
  destruct (m s w) as [[b s'] w']. destruct Hp as (g' & HI' & Hp). eauto.
Qed.

(** Goroutines that have all returned. *)
Lemma all_returned {S A G} I (Q : G → A → Prop) gs (ps : list (Prog S A)) rs :
  Forall2 (thread_ok I Q) gs ps → returned <$> ps = Some <$> rs → Forall2 Q gs rs.
Proof.
  intros Hgs. revert rs. induction Hgs as [|g p gs ps Hg _ IH]; intros [|r rs] Hr; try done.
  simpl in Hr. injection Hr as Hp Hr. destruct p as [a|]; [|done]. simpl in Hp. simplify_eq.
  constructor; [done|]. by apply IH.
Qed.

Lemma thread_ok_then {S A B G} I (Q : G → B → Prop) (f : A → Prog S B) g (p : Prog S A) :
  thread_ok I (λ _ _, True) g p → (∀ g a, thread_ok I Q g (f a)) → thread_ok I Q g (p ≫= f).
Proof. intros Hp Hf. eapply thread_ok_bind; [exact Hp|]. intros g' a _. apply Hf. Qed.
