(* ===== verification/RateLimit.v ===== *)
(** * Rate limiters (internal/ratelimit/ratelimit.go)

    The weighted limiter (Binance), the decaying counter (Kraken) and the
    requests-per-second limiter (OTC).  Every operation of the code runs under the
    limiter's mutex, so a concurrent execution is a sequence of operations; other
    goroutines only consume clock readings in between. *)

From S2P Require Import Prelude GoStd World.

Open Scope Z_scope.

Definition ErrBudgetExhausted : error := ErrNew "ratelimit: weight budget exhausted".

(** [float64(a-b) / float64(a)]: the headroom ratio of the gauge. *)
Definition headroom_ratio (budget used : Z) : float64 :=
  f64_div (f64_of_int (i64_sub budget used)) (f64_of_int budget).

(** ** Weighted limiter *)

Module Weighted.

Record WeightedLimiter := mk {
  venue : string;
  budget : Z;
  used : Z;
  refill : Duration;
  lastFill : Time;
  backoff : Time;
}.

Definition set_used (l : WeightedLimiter) (u : Z) : WeightedLimiter :=
  mk (venue l) (budget l) u (refill l) (lastFill l) (backoff l).

Section ops.
Context `{Env}.

Definition NewWeightedLimiter {S} (venue : string) (budget : Z) : M S WeightedLimiter :=
  t ← now; mret (mk venue budget 0 (60 * Second) t Time_zero).

Definition replenishLocked : M WeightedLimiter unit :=
  n ← now;
  modify (λ l, if refill l <=? Time_Sub n (lastFill l)
               then mk (venue l) (budget l) 0 (refill l) n (backoff l) else l).

Definition Wait (weight : Z) : M WeightedLimiter (option error) :=
  replenishLocked ;;
  l ← get;
  blocked ← (if Time_IsZero (backoff l) then mret false
             else t ← now; mret (Time_Before t (backoff l)));
  if (blocked : bool) then mret (Some ErrBudgetExhausted)
  else if budget l <? i64_add (used l) weight then
    emit_metric (RateLimitHeadroom (venue l) f64_zero) ;;
    mret (Some ErrBudgetExhausted)
  else
    let l' := set_used l (i64_add (used l) weight) in
    put l' ;;
    emit_metric (RateLimitHeadroom (venue l) (headroom_ratio (budget l') (used l'))) ;;
    mret None.

Definition UpdateUsed (v : string) (u : Z) : M WeightedLimiter unit :=
  l ← get;
  put (mk v (budget l) u (refill l) (lastFill l) (backoff l)) ;;
  let h := f64_of_int (i64_sub (budget l) u) in
  emit_metric (RateLimitHeadroom v
    (if 0 <? budget l then f64_div h (f64_of_int (budget l)) else h)).

Definition Backoff (v : string) (d : Duration) : M WeightedLimiter unit :=
  l ← get; t ← now;
  put (mk v (budget l) (used l) (refill l) (lastFill l) (Time_Add t d)).

Definition Headroom : M WeightedLimiter float64 :=
  l ← get; mret (if budget l =? 0 then f64_zero else headroom_ratio (budget l) (used l)).

Definition Used : M WeightedLimiter Z := l ← get; mret (used l).
Definition Budget : M WeightedLimiter Z := l ← get; mret (budget l).

Definition SetBudget (b : Z) : M WeightedLimiter unit :=
  modify (λ l, mk (venue l) b (used l) (refill l) (lastFill l) (backoff l)).

(** The operations the connector performs on its limiter, and the clock readings
    of other goroutines in between. *)
Inductive op : Type :=
| OpWait (weight : Z)
| OpBackoff (v : string) (d : Duration)
| OpElsewhere (n : nat).

Fixpoint idle {S} (n : nat) : M S unit :=
  match n with O => mret tt | Datatypes.S n' => _ ← now; idle n' end.

(** Run one operation; the result is the weight it let through. *)
Definition exec (o : op) : M WeightedLimiter Z :=
  match o with
  | OpWait w => r ← Wait w; mret (match r with None => w | Some _ => 0 end)
  | OpBackoff v d => Backoff v d ;; mret 0
  | OpElsewhere n => idle n ;; mret 0
  end.

(** Total weight let through by a sequence of operations. *)
Fixpoint exec_all (os : list op) : M WeightedLimiter Z :=
  match os with
  | [] => mret 0
  | o :: os' => g ← exec o; g' ← exec_all os'; mret (g + g')
  end.

Definition op_ok (b : Z) (o : op) : Prop :=
  match o with OpWait w => 0 ≤ w ∧ b + w ≤ int64_max | _ => True end.

End ops.
End Weighted.

(** ** Counter limiter *)

Module Counter.

Record CounterLimiter := mk {
  venue : string;
  budget : Z;
  current : Z;
  last : Time;
  decay : Duration;
  backoff : Time;
}.

Section ops.
Context `{Env}.

Definition NewCounterLimiter {S} (venue : string) (budget : Z) : M S CounterLimiter :=
  t ← now; mret (mk venue budget 0 t (3 * Second) Time_zero).

Definition decayLocked : M CounterLimiter unit :=
  n ← now;
  modify (λ l,
    let elapsed := Time_Sub n (last l) in
    let ticks := Z.quot elapsed (decay l) in
    if 0 <? ticks then
      let c := i64_sub (current l) ticks in
      mk (venue l) (budget l) (if c <? 0 then 0 else c)
         (Time_Add (last l) (i64_mul ticks (decay l))) (decay l) (backoff l)
    else l).

Definition Wait (cost : Z) : M CounterLimiter (option error) :=
  decayLocked ;;
  l ← get;
  blocked ← (if Time_IsZero (backoff l) then mret false
             else t ← now; mret (Time_Before t (backoff l)));
  if (blocked : bool) then mret (Some ErrBudgetExhausted)
  else if budget l <? i64_add (current l) cost then
    emit_metric (RateLimitHeadroom (venue l) f64_zero) ;;
    mret (Some ErrBudgetExhausted)
  else
    let c := i64_add (current l) cost in
    put (mk (venue l) (budget l) c (last l) (decay l) (backoff l)) ;;
    emit_metric (RateLimitHeadroom (venue l) (headroom_ratio (budget l) c)) ;;
    mret None.

Definition Backoff (v : string) (d : Duration) : M CounterLimiter unit :=
  l ← get; t ← now;
  put (mk v (budget l) (current l) (last l) (decay l) (Time_Add t d)).

Definition Headroom : M CounterLimiter float64 :=
  l ← get; mret (if budget l =? 0 then f64_zero else headroom_ratio (budget l) (current l)).

Definition Current : M CounterLimiter Z := l ← get; mret (current l).

Inductive op : Type :=
| OpWait (cost : Z)
| OpBackoff (v : string) (d : Duration)
| OpElsewhere (n : nat).

Definition exec (o : op) : M CounterLimiter Z :=
  match o with
  | OpWait w => r ← Wait w; mret (match r with None => w | Some _ => 0 end)
  | OpBackoff v d => Backoff v d ;; mret 0
  | OpElsewhere n => Weighted.idle n ;; mret 0
  end.

Fixpoint exec_all (os : list op) : M CounterLimiter Z :=
  match os with
  | [] => mret 0
  | o :: os' => g ← exec o; g' ← exec_all os'; mret (g + g')
  end.

Definition op_ok (b : Z) (o : op) : Prop :=
  match o with OpWait w => 0 ≤ w ∧ b + w ≤ int64_max | _ => True end.

End ops.
End Counter.

(** ** Requests-per-second limiter *)

Module RPS.

Record RPSLimiter := mk {
  venue : string;
  limit : Z;
  count : Z;
  window : Duration;
  start : Time;
  backoff : Time;
}.

Section ops.
Context `{Env}.

Definition NewRPSLimiter {S} (venue : string) (rps : Z) : M S RPSLimiter :=
  t ← now; mret (mk venue rps 0 Second t Time_zero).

Definition Wait (_ : Z) : M RPSLimiter (option error) :=
  n ← now;
  l ← get;
  if negb (Time_IsZero (backoff l)) && Time_Before n (backoff l)
  then mret (Some ErrBudgetExhausted)
  else
    let l1 := if window l <=? Time_Sub n (start l)
              then mk (venue l) (limit l) 0 (window l) n (backoff l) else l in
    put l1 ;;
    if limit l1 <=? count l1 then mret (Some ErrBudgetExhausted)
    else
      let c := i64_add (count l1) 1 in
      put (mk (venue l1) (limit l1) c (window l1) (start l1) (backoff l1)) ;;
      emit_metric (RateLimitHeadroom (venue l1) (headroom_ratio (limit l1) c)) ;;
      mret None.

Definition Backoff (v : string) (d : Duration) : M RPSLimiter unit :=
  l ← get; t ← now;
  put (mk v (limit l) (count l) (window l) (start l) (Time_Add t d)).

Definition Headroom : M RPSLimiter float64 :=
  l ← get; mret (if limit l =? 0 then f64_zero else headroom_ratio (limit l) (count l)).

Inductive op : Type :=
| OpWait
| OpBackoff (v : string) (d : Duration)
| OpElsewhere (n : nat).

(** The number of requests an operation lets through. *)
Definition exec (o : op) : M RPSLimiter Z :=
  match o with
  | OpWait => r ← Wait 1; mret (match r with None => 1 | Some _ => 0 end)
  | OpBackoff v d => Backoff v d ;; mret 0
  | OpElsewhere n => Weighted.idle n ;; mret 0
  end.

Fixpoint exec_all (os : list op) : M RPSLimiter Z :=
  match os with
  | [] => mret 0
  | o :: os' => g ← exec o; g' ← exec_all os'; mret (g + g')
  end.

End ops.
End RPS.

(** ** Lemmas *)

Section weighted_lemmas.
Context `{Env}.
Import Weighted.

(** What the limiter maintains between operations: the accounted weight is within
    the budget and the last refill is not in the future. *)
Definition weighted_inv (l : WeightedLimiter) (w : World) : Prop :=
  0 ≤ used l ≤ budget l ∧ budget l ≤ int64_max ∧ 0 < refill l ≤ int64_max ∧
  lastFill l ≤ env_now (w_now w).

(** The effect of one operation that let the weight [g] through. *)
Definition weighted_step (l : WeightedLimiter) (w : World) (g : Z)
    (l' : WeightedLimiter) (w' : World) : Prop :=
  weighted_inv l' w' ∧ 0 ≤ g ∧ budget l' = budget l ∧ refill l' = refill l ∧
  (w_now w ≤ w_now w')%nat ∧
  (lastFill l' = lastFill l ∧ used l' = used l + g ∨
   lastFill l + refill l ≤ lastFill l' ∧ lastFill l' = env_now (w_now w) ∧
   (w_now w < w_now w')%nat ∧ used l' = g).

Lemma idle_run {S} n (s : S) w :
  (∀ u s' w', idle n s w = (u, s', w') → s' = s ∧ (w_now w ≤ w_now w')%nat).
Proof.
  revert w. induction n as [|n IH]; intros w u s' w' Hr.
  - cbn [idle] in Hr. munfold. by simplify_eq.
  - cbn [idle] in Hr. munfold. apply IH in Hr as [? ?]. simpl in *. split; [done|lia].
Qed.

Lemma weighted_exec_step o l w g l' w' :
  clock_monotone → weighted_inv l w → op_ok (budget l) o →
  exec o l w = (g, l', w') → weighted_step l w g l' w'.
Proof.
  intros Hmono (Hu & Hb & Hr & Hl) Hok Hex.
  pose proof (Hmono (w_now w) (Datatypes.S (w_now w)) ltac:(lia)) as H1.
  pose proof (Hmono (Datatypes.S (w_now w)) (Datatypes.S (Datatypes.S (w_now w))) ltac:(lia)) as H2.
  destruct o as [wt|v d|n]; cbn [exec] in Hex.
  - unfold Wait, replenishLocked in Hex. munfold.
    rewrite Time_Sub_ge in Hex by (unfold int64_min, int64_max in *; lia).
    assert (Hi : ∀ u, 0 ≤ u ≤ budget l → i64_add u wt = u + wt).
    { intros u ?. apply wrap64_id. unfold is_int64, int64_min, int64_max in *. lia. }
    unfold weighted_step, weighted_inv.
    destruct (Z.leb_spec (refill l) (env_now (w_now w) - lastFill l)); simpl in Hex;
      (destruct (Time_IsZero (backoff l)); [|destruct (Time_Before _ _)]);
      simpl in Hex; try rewrite Hi in Hex by lia;
      repeat (match type of Hex with context [Z.ltb ?a ?b] => destruct (Z.ltb_spec a b) end);
      simpl in Hex; simplify_eq/=; lia.
  - unfold Backoff in Hex. munfold. simplify_eq/=.
    unfold weighted_step, weighted_inv; simpl. lia.
  - unfold mbind, M_bind in Hex. destruct (idle n l w) as [[u l1] w1] eqn:Hi.
    apply idle_run in Hi as [-> Hw]. munfold. simplify_eq/=.
    pose proof (Hmono _ _ Hw). unfold weighted_step, weighted_inv. lia.
Qed.

(** Any sequence of operations: the weight let through plus what was already
    accounted is at most what is accounted now plus one budget per refill period
    elapsed between the two refills. *)
Lemma weighted_exec_all_run os l w g l' w' :
  clock_monotone → weighted_inv l w → Forall (op_ok (budget l)) os →
  exec_all os l w = (g, l', w') →
  weighted_inv l' w' ∧ 0 ≤ g ∧ budget l' = budget l ∧ refill l' = refill l ∧
  lastFill l ≤ lastFill l' ∧ (w_now w ≤ w_now w')%nat ∧
  g + used l ≤ used l' + budget l * ((lastFill l' - lastFill l) / refill l).
Proof.
  intros Hmono. revert l w g. induction os as [|o os IH]; intros l w g Hinv Hok Hex.
  - cbn [exec_all] in Hex. munfold. simplify_eq. rewrite Z.sub_diag, Zdiv_0_l. split; [done|lia].
  - apply Forall_cons in Hok as [Ho Hos].
    cbn [exec_all] in Hex. unfold mbind, M_bind in Hex.
    destruct (exec o l w) as [[g1 l1] w1] eqn:H1.
    destruct (exec_all os l1 w1) as [[g2 l2] w2] eqn:H2. munfold. simplify_eq.
    apply weighted_exec_step in H1 as (Hi1 & Hg1 & Hb & Hr & Hw & Hcase); [|done..].
    rewrite <- Hb in Hos. apply IH in H2 as (Hi2 & Hg2 & Hb2 & Hr2 & Hl2 & Hw2 & Hsum); [|done..].
    rewrite Hb, Hr in *. destruct Hinv as (Hu & Hbm & Hrf & Hlf).
    destruct Hcase as [[Hlf1 Hu1]|(Hlf1 & Ht & _ & Hu1)].
    + rewrite Hlf1 in *. split_and!; try done; lia.
    + assert ((lastFill l' - lastFill l1) / refill l + 1
              ≤ (lastFill l' - lastFill l) / refill l).
      { rewrite <- Z.div_add by lia. apply Z.div_le_mono; lia. }
      split_and!; try done; try lia. nia.
Qed.

(** In a run shorter than the refill period at most one refill happens. *)
Lemma weighted_exec_all_short os l w g l' w' T :
  clock_monotone → weighted_inv l w → Forall (op_ok (budget l)) os →
  exec_all os l w = (g, l', w') →
  (∀ i, (w_now w ≤ i < w_now w')%nat → env_now i < T + refill l) →
  T ≤ env_now (w_now w) →
  g ≤ used l' + (if decide (T ≤ lastFill l) then - used l else budget l - used l).
Proof.
  intros Hmono. revert l w g. induction os as [|o os IH]; intros l w g Hinv Hok Hex Hlt HT.
  - cbn [exec_all] in Hex. munfold. simplify_eq. destruct Hinv. case_decide; lia.
  - apply Forall_cons in Hok as [Ho Hos].
    cbn [exec_all] in Hex. unfold mbind, M_bind in Hex.
    destruct (exec o l w) as [[g1 l1] w1] eqn:H1.
    destruct (exec_all os l1 w1) as [[g2 l2] w2] eqn:H2. munfold. simplify_eq.
    apply weighted_exec_step in H1 as (Hi1 & Hg1 & Hb & Hr & Hw & Hcase); [|done..].
    rewrite <- Hb in Hos.
    pose proof (weighted_exec_all_run _ _ _ _ _ _ Hmono Hi1 Hos H2) as (_&_&_&_&_&Hw2&_).
    apply IH in H2; [|done..|rewrite Hr; intros; apply Hlt; lia|etrans; [done|by apply Hmono]].
    destruct Hinv as (Hu & Hbm & Hrf & Hlf).
    rewrite Hb in *.
    destruct Hcase as [[Hlf1 Hu1]|(Hlf1 & Ht & Hww & Hu1)].
    + rewrite Hlf1 in *. case_decide; lia.
    + specialize (Hlt (w_now w) ltac:(lia)). destruct (decide (T ≤ lastFill l1)); [|lia].
      case_decide; lia.
Qed.
End weighted_lemmas.

Section counter_lemmas.
Context `{Env}.
Import Counter.

Definition counter_inv (l : CounterLimiter) (w : World) : Prop :=
  0 ≤ current l ≤ budget l ∧ budget l ≤ int64_max ∧ 0 < decay l ≤ int64_max ∧
  last l ≤ env_now (w_now w).

(** One operation letting [g] through, after [k] decay ticks. *)
Definition counter_step (l : CounterLimiter) (w : World) (g : Z)
    (l' : CounterLimiter) (w' : World) : Prop :=
  counter_inv l' w' ∧ 0 ≤ g ∧ budget l' = budget l ∧ decay l' = decay l ∧
  (w_now w ≤ w_now w')%nat ∧
  ∃ k, 0 ≤ k ∧ last l' = last l + k * decay l ∧ g + current l ≤ current l' + k.

(** What [decayLocked] does to the counter at the reading [n]. *)
Definition decayed (n : Time) (l : CounterLimiter) : CounterLimiter :=
  let ticks := Z.quot (Time_Sub n (last l)) (decay l) in
  if 0 <? ticks then
    let c := i64_sub (current l) ticks in
    mk (venue l) (budget l) (if c <? 0 then 0 else c)
       (Time_Add (last l) (i64_mul ticks (decay l))) (decay l) (backoff l)
  else l.

Lemma decayed_spec n l :
  0 ≤ current l ≤ budget l → budget l ≤ int64_max → 0 < decay l ≤ int64_max → last l ≤ n →
  ∃ k, 0 ≤ k ∧ decayed n l = mk (venue l) (budget l) (Z.max 0 (current l - k))
                                (last l + k * decay l) (decay l) (backoff l) ∧
       last l + k * decay l ≤ n.
Proof.
  intros Hc Hb Hd Hl. unfold decayed.
  assert (HE : Time_Sub n (last l) = Z.min int64_max (n - last l)).
  { unfold Time_Sub, int64_min, int64_max in *. lia. }
  rewrite HE. set (e := Z.min int64_max (n - last l)).
  assert (0 ≤ e ≤ n - last l ∧ e ≤ int64_max) as (He & Hem).
  { unfold e, int64_max in *. lia. }
  rewrite Z.quot_div_nonneg by lia. set (k := e / decay l).
  assert (0 ≤ k) by (apply Z.div_pos; lia).
  assert (k * decay l ≤ e) by (pose proof (Z.mul_div_le e (decay l)); unfold k; lia).
  assert (k ≤ e) by (apply Z.div_le_upper_bound; nia).
  exists k. split; [done|]. split; [|lia].
  unfold Time_Add, i64_mul, i64_sub. rewrite !wrap64_id
    by (unfold is_int64, int64_min, int64_max in *; nia).
  destruct (Z.ltb_spec 0 k).
  - destruct (Z.ltb_spec (current l - k) 0); [rewrite Z.max_l by lia|rewrite Z.max_r by lia]; done.
  - replace k with 0 by lia. rewrite Z.max_r by lia. rewrite Z.sub_0_r, Z.mul_0_l, Z.add_0_r.
    by destruct l.
Qed.

Lemma counter_exec_step o l w g l' w' :
  clock_monotone → counter_inv l w → op_ok (budget l) o →
  exec o l w = (g, l', w') → counter_step l w g l' w'.
Proof.
  intros Hmono (Hu & Hb & Hd & Hl) Hok Hex.
  pose proof (Hmono (w_now w) (Datatypes.S (w_now w)) ltac:(lia)) as H1.
  pose proof (Hmono (Datatypes.S (w_now w)) (Datatypes.S (Datatypes.S (w_now w))) ltac:(lia)) as H2.
  destruct o as [wt|v d|n]; cbn [exec] in Hex.
  - destruct (decayed_spec (env_now (w_now w)) l) as (k & Hk & HD & Hlast); [done..|].
    unfold Wait, decayLocked in Hex. fold decayed in Hex.
    munfold. change (if 0 <? _ then _ else l) with (decayed (env_now (w_now w)) l) in Hex.
    rewrite HD in Hex. cbn -[Z.add Z.sub Z.mul Z.max Z.ltb] in Hex.
    assert (Hi : i64_add (Z.max 0 (current l - k)) wt = Z.max 0 (current l - k) + wt).
    { apply wrap64_id. unfold is_int64, int64_min, int64_max in *. lia. }
    rewrite Hi in Hex. unfold counter_step, counter_inv.
    destruct (Time_IsZero (backoff l)); [|destruct (Time_Before _ _)];
      repeat (match type of Hex with context [Z.ltb ?a ?b] => destruct (Z.ltb_spec a b) end);
      simpl in Hex; simplify_eq/=; split_and!; try done; try lia; exists k; lia.
  - unfold Backoff in Hex. munfold. simplify_eq/=.
    unfold counter_step, counter_inv; simpl. split_and!; try done; try lia. exists 0. lia.
  - unfold mbind, M_bind in Hex. destruct (Weighted.idle n l w) as [[u l1] w1] eqn:Hi.
    apply idle_run in Hi as [-> Hw]. munfold. simplify_eq/=.
    pose proof (Hmono _ _ Hw). unfold counter_step, counter_inv.
    split_and!; try done; try lia. exists 0. lia.
Qed.

Lemma counter_exec_all_run os l w g l' w' :
  clock_monotone → counter_inv l w → Forall (op_ok (budget l)) os →
  exec_all os l w = (g, l', w') → counter_step l w g l' w'.
Proof.
  intros Hmono. revert l w g. induction os as [|o os IH]; intros l w g Hinv Hok Hex.
  - cbn [exec_all] in Hex. munfold. simplify_eq. split_and!; try done. exists 0. lia.
  - apply Forall_cons in Hok as [Ho Hos].
    cbn [exec_all] in Hex. unfold mbind, M_bind in Hex.
    destruct (exec o l w) as [[g1 l1] w1] eqn:H1.
    destruct (exec_all os l1 w1) as [[g2 l2] w2] eqn:H2. munfold. simplify_eq.
    apply counter_exec_step in H1 as (Hi1 & Hg1 & Hb & Hr & Hw & k1 & Hk1 & Hl1 & Hc1); [|done..].
    rewrite <- Hb in Hos.
    apply IH in H2 as (Hi2 & Hg2 & Hb2 & Hr2 & Hw2 & k2 & Hk2 & Hl2 & Hc2); [|done..].
    split_and!; try done; try lia; try congruence. exists (k1 + k2). rewrite Hr in *. lia.
Qed.
End counter_lemmas.

Section rps_lemmas.
Context `{Env}.
Import RPS.

Definition rps_inv (l : RPSLimiter) (w : World) : Prop :=
  0 ≤ count l ≤ limit l ∧ limit l ≤ int64_max ∧ 0 < window l ≤ int64_max ∧
  start l ≤ env_now (w_now w).

Definition rps_step (l : RPSLimiter) (w : World) (g : Z)
    (l' : RPSLimiter) (w' : World) : Prop :=
  rps_inv l' w' ∧ 0 ≤ g ∧ limit l' = limit l ∧ window l' = window l ∧
  (w_now w ≤ w_now w')%nat ∧ start l ≤ start l' ∧
  g + count l ≤ count l' + limit l * ((start l' - start l) / window l).

Lemma rps_exec_step o l w g l' w' :
  clock_monotone → rps_inv l w → exec o l w = (g, l', w') → rps_step l w g l' w'.
Proof.
  intros Hmono (Hu & Hb & Hr & Hl) Hex.
  pose proof (Hmono (w_now w) (Datatypes.S (w_now w)) ltac:(lia)) as H1.
  assert (Hdiv0 : (start l - start l) / window l = 0) by (rewrite Z.sub_diag; apply Zdiv_0_l).
  destruct o as [|v d|n]; cbn [exec] in Hex.
  - unfold Wait in Hex. munfold.
    destruct (negb (Time_IsZero (backoff l)) && _)%bool; simpl in Hex.
    { simplify_eq/=. unfold rps_step, rps_inv; simpl. rewrite Hdiv0. lia. }
    rewrite Time_Sub_ge in Hex by (unfold int64_min, int64_max in *; lia).
    assert (Hi : ∀ c, 0 ≤ c < limit l → i64_add c 1 = c + 1).
    { intros c ?. apply wrap64_id. unfold is_int64, int64_min, int64_max in *. lia. }
    unfold rps_step, rps_inv.
    destruct (Z.leb_spec (window l) (env_now (w_now w) - start l)) as [Hwin|Hwin]; simpl in Hex;
      repeat (match type of Hex with context [Z.leb ?a ?b] => destruct (Z.leb_spec a b) end);
      simpl in Hex; simplify_eq/=; rewrite ?Hi, ?Hdiv0 by lia.
    + assert (1 ≤ (env_now (w_now w) - start l) / window l) by (apply Z.div_le_lower_bound; lia).
      split_and!; try done; try lia. nia.
    + assert (1 ≤ (env_now (w_now w) - start l) / window l) by (apply Z.div_le_lower_bound; lia).
      split_and!; try done; try lia. nia.
    + lia.
    + lia.
  - unfold Backoff in Hex. munfold. simplify_eq/=.
    unfold rps_step, rps_inv; simpl. rewrite Hdiv0. lia.
  - unfold mbind, M_bind in Hex. destruct (Weighted.idle n l w) as [[u l1] w1] eqn:Hi.
    apply idle_run in Hi as [-> Hw]. munfold. simplify_eq/=.
    pose proof (Hmono _ _ Hw). unfold rps_step, rps_inv. rewrite Hdiv0. lia.
Qed.

Lemma rps_exec_all_run os l w g l' w' :
  clock_monotone → rps_inv l w → exec_all os l w = (g, l', w') → rps_step l w g l' w'.
Proof.
  intros Hmono. revert l w g. induction os as [|o os IH]; intros l w g Hinv Hex.
  - cbn [exec_all] in Hex. munfold. simplify_eq. split_and!; try done; try lia.
    rewrite Z.sub_diag, Zdiv_0_l. lia.
  - cbn [exec_all] in Hex. unfold mbind, M_bind in Hex.
    destruct (exec o l w) as [[g1 l1] w1] eqn:H1.
    destruct (exec_all os l1 w1) as [[g2 l2] w2] eqn:H2. munfold. simplify_eq.
    apply rps_exec_step in H1 as (Hi1 & Hg1 & Hb & Hr & Hw & Hs1 & Hc1); [|done..].
    apply IH in H2 as (Hi2 & Hg2 & Hb2 & Hr2 & Hw2 & Hs2 & Hc2); [|done..].
    split_and!; try done; try lia; try congruence. rewrite Hb, Hr in *.
    destruct Hinv as (? & ? & Hwin & ?).
    assert ((start l1 - start l) / window l + (start l' - start l1) / window l
            ≤ (start l' - start l) / window l).
    { apply Z.div_le_lower_bound; [lia|].
      pose proof (Z.mul_div_le (start l1 - start l) (window l)).
      pose proof (Z.mul_div_le (start l' - start l1) (window l)). lia. }
    nia.
Qed.
End rps_lemmas.

(** ** The interface the connectors rely on

    A limiter admits or refuses a request, and after a back-off it refuses every
    request until the deadline.  It does nothing but read the clock. *)

Class Limiter `{Env} (L : Type) := {
  lim_Wait : Z → M L (option error);
  lim_Backoff : string → Duration → M L unit;
  lim_until : L → Time;
  lim_wait_frame c l w r l' w' : lim_Wait c l w = (r, l', w') →
    lim_until l' = lim_until l ∧ w_http w' = w_http w ∧ w_kafka w' = w_kafka w ∧
    w_ctx w' = w_ctx w ∧ (w_now w < w_now w')%nat;
  lim_wait_blocked c l w r l' w' : lim_Wait c l w = (r, l', w') →
    lim_until l ≠ 0 →
    (∀ i, (w_now w ≤ i < w_now w')%nat → env_now i < lim_until l) →
    r = Some ErrBudgetExhausted;
  lim_backoff_spec v d l w u l' w' : lim_Backoff v d l w = (u, l', w') →
    lim_until l' = env_now (w_now w) + d ∧ w_now w' = Datatypes.S (w_now w) ∧
    w_http w' = w_http w ∧ w_kafka w' = w_kafka w ∧ w_ctx w' = w_ctx w;
}.

(** Solve a law of a limiter by running it on every branch. *)
Ltac limiter_law :=
  intros; munfold; unfold Time_IsZero, Time_Before, Time_Add in *;
  repeat match goal with
  | H : context [if ?b then _ else _] |- _ => destruct b eqn:?; simpl in *
  | H : (_, _) = (_, _) |- _ => simplify_eq/=
  end; unbool; split_and?; try done; try lia.

#[export] Instance weighted_Limiter `{Env} : Limiter Weighted.WeightedLimiter.
Proof.
  refine {| lim_Wait := Weighted.Wait; lim_Backoff := Weighted.Backoff;
            lim_until := Weighted.backoff |}.
  - unfold Weighted.Wait, Weighted.replenishLocked. limiter_law.
  - unfold Weighted.Wait, Weighted.replenishLocked. intros c l w r l' w' Hw Hz Hi.
    pose proof (Hi (Datatypes.S (w_now w))). clear Hi. limiter_law.
  - unfold Weighted.Backoff. limiter_law.
Defined.

#[export] Instance counter_Limiter `{Env} : Limiter Counter.CounterLimiter.
Proof.
  refine {| lim_Wait := Counter.Wait; lim_Backoff := Counter.Backoff;
            lim_until := Counter.backoff |}.
  - unfold Counter.Wait, Counter.decayLocked. limiter_law.
  - unfold Counter.Wait, Counter.decayLocked. intros c l w r l' w' Hw Hz Hi.
    pose proof (Hi (Datatypes.S (w_now w))). clear Hi. limiter_law.
  - unfold Counter.Backoff. limiter_law.
Defined.

#[export] Instance rps_Limiter `{Env} : Limiter RPS.RPSLimiter.
Proof.
  refine {| lim_Wait := RPS.Wait; lim_Backoff := RPS.Backoff; lim_until := RPS.backoff |}.
  - unfold RPS.Wait. limiter_law.
  - unfold RPS.Wait. intros c l w r l' w' Hw Hz Hi.
    pose proof (Hi (w_now w)). clear Hi. limiter_law.
  - unfold RPS.Backoff. limiter_law.
Defined.

Section limiter_lemmas.
Context `{Env} {L : Type} `{!Limiter L}.

(** A sequence of requests, each preceded by clock readings made elsewhere; the
    answers of the limiter, in order. *)
Fixpoint wait_all (cs : list (nat * Z)) : M L (list (option error)) :=
  match cs with
  | [] => mret []
  | (n, c) :: cs' =>
      Weighted.idle n ;; r ← lim_Wait c; rs ← wait_all cs'; mret (r :: rs)
  end.

Lemma wait_all_blocked cs l w rs l' w' :
  wait_all cs l w = (rs, l', w') → lim_until l ≠ 0 →
  (∀ i, (w_now w ≤ i < w_now w')%nat → env_now i < lim_until l) →
  Forall (λ r, r = Some ErrBudgetExhausted) rs ∧ (w_now w ≤ w_now w')%nat.
Proof.
  revert l w rs. induction cs as [|[n c] cs IH]; intros l w rs Hr Hz Hlt.
  - cbn [wait_all] in Hr. munfold. by simplify_eq.
  - cbn [wait_all] in Hr. unfold mbind, M_bind in Hr.
    destruct (Weighted.idle n l w) as [[? l0] w0] eqn:H0.
    apply idle_run in H0 as [-> Hw0].
    destruct (lim_Wait c l w0) as [[r l1] w1] eqn:H1.
    destruct (wait_all cs l1 w1) as [[rs2 l2] w2] eqn:H2. munfold. simplify_eq.
    destruct (lim_wait_frame _ _ _ _ _ _ H1) as (Hu & _ & _ & _ & Hw1).
    assert (Hle : (w_now w1 ≤ w_now w')%nat).
    { clear -H2. revert l1 w1 rs2 H2. induction cs as [|[n c] cs IH]; intros l1 w1 rs2 H2.
      - cbn [wait_all] in H2. munfold. by simplify_eq.
      - cbn [wait_all] in H2. unfold mbind, M_bind in H2.
        destruct (Weighted.idle n l1 w1) as [[? l0] w0] eqn:H0.
        apply idle_run in H0 as [-> Hw0].
        destruct (lim_Wait c l1 w0) as [[r l3] w3] eqn:H1.
        destruct (wait_all cs l3 w3) as [[rs3 l4] w4] eqn:H3. munfold. simplify_eq.
        apply IH in H3. destruct (lim_wait_frame _ _ _ _ _ _ H1) as (_ & _ & _ & _ & ?). lia. }
    apply IH in H2 as [HF Hw2]; [|congruence|intros; rewrite Hu; apply Hlt; lia].
    split; [|lia]. constructor; [|done].
    eapply lim_wait_blocked; [done..|]. intros. apply Hlt. lia.
Qed.
End limiter_lemmas.

(** ** Properties *)

Section properties.
Context `{Env}.

(** C1: a weighted limiter never lets through more than its budget per refill period:
    in any run of requests and back-offs since its construction, the total weight let
    through is at most one budget for each refill period begun. *)
Theorem weighted_total_bound (v : string) (b : Z) (os : list Weighted.op) (w0 : World) :
  clock_monotone → 0 ≤ b ≤ int64_max → Forall (Weighted.op_ok b) os →
  let '(l, _, w) := Weighted.NewWeightedLimiter v b tt w0 in
  let '(g, _, w') := Weighted.exec_all os l w in
  g ≤ b * (1 + (env_now (w_now w') - env_now (w_now w0)) / (60 * Second)).
Proof.
  intros Hmono Hb Hok. unfold Weighted.NewWeightedLimiter. munfold.
  destruct (Weighted.exec_all _ _ _) as [[g l'] w'] eqn:Hex.
  eapply weighted_exec_all_run in Hex; [|done| |done].
  - destruct Hex as (Hinv & _ & Hbb & Hr & Hl & _ & Hsum). simpl in *.
    destruct Hinv as (Hu & _ & _ & Hlf).
    assert ((Weighted.lastFill l' - env_now (w_now w0)) / (60 * Second)
      ≤ (env_now (w_now w') - env_now (w_now w0)) / (60 * Second)).
    { apply Z.div_le_mono; unfold Second; lia. }
    nia.
  - pose proof (Hmono (w_now w0) (Datatypes.S (w_now w0)) ltac:(lia)).
    unfold weighted_inv, Second, int64_max in *. simpl. lia.
Qed.

(** C40: over any stretch of a run shorter than the refill period, wherever it starts, a
    weighted limiter lets through at most twice its budget. *)
Theorem weighted_sliding_bound (v : string) (b : Z) (os1 os2 : list Weighted.op)
    (w0 w w1 w2 : World) (l l1 l2 : Weighted.WeightedLimiter) (u : unit) (g1 g2 : Z) :
  clock_monotone → 0 ≤ b ≤ int64_max →
  Forall (Weighted.op_ok b) os1 → Forall (Weighted.op_ok b) os2 →
  Weighted.NewWeightedLimiter v b tt w0 = (l, u, w) →
  Weighted.exec_all os1 l w = (g1, l1, w1) →
  Weighted.exec_all os2 l1 w1 = (g2, l2, w2) →
  (∀ i, (w_now w1 ≤ i < w_now w2)%nat → env_now i < env_now (w_now w1) + 60 * Second) →
  g2 ≤ 2 * b.
Proof.
  intros Hmono Hb Hok1 Hok2 H0 H1 H2 Hlt.
  unfold Weighted.NewWeightedLimiter in H0. munfold. simplify_eq.
  eapply weighted_exec_all_run in H1 as (Hi1 & _ & Hbb & Hr & _); [|done| |done]; simpl in *.
  - rewrite <- Hbb in Hok2. pose proof H2 as H2'. pose proof Hi1 as (? & _).
    eapply weighted_exec_all_short in H2; [|done..|by rewrite Hr|done].
    apply weighted_exec_all_run in H2' as ((? & _) & _ & Hb2 & _); [|done..].
    case_decide; lia.
  - pose proof (Hmono (w_now w0) (Datatypes.S (w_now w0)) ltac:(lia)).
    unfold weighted_inv, Second, int64_max in *. simpl. lia.
Qed.

(** C2: the counter limiter is a leaky bucket: in any run since its construction the
    total cost let through is at most the budget plus one unit per decay period
    elapsed. *)
Theorem counter_leaky_bound (v : string) (b : Z) (os : list Counter.op) (w0 : World) :
  clock_monotone → 0 ≤ b ≤ int64_max → Forall (Counter.op_ok b) os →
  let '(l, _, w) := Counter.NewCounterLimiter v b tt w0 in
  let '(g, _, w') := Counter.exec_all os l w in
  g ≤ b + (env_now (w_now w') - env_now (w_now w0)) / (3 * Second).
Proof.
  intros Hmono Hb Hok. unfold Counter.NewCounterLimiter. munfold.
  destruct (Counter.exec_all _ _ _) as [[g l'] w'] eqn:Hex.
  eapply counter_exec_all_run in Hex; [|done| |done].
  - destruct Hex as (Hinv & _ & Hbb & Hr & _ & k & Hk & Hl & Hsum). simpl in *.
    destruct Hinv as (Hu & _ & _ & Hlf).
    assert (k ≤ (env_now (w_now w') - env_now (w_now w0)) / (3 * Second)).
    { apply Z.div_le_lower_bound; unfold Second in *; lia. }
    lia.
  - pose proof (Hmono (w_now w0) (Datatypes.S (w_now w0)) ltac:(lia)).
    unfold counter_inv, Second, int64_max in *. simpl. lia.
Qed.

(** C20: the requests-per-second limiter lets through at most its limit per one-second
    window begun since its construction. *)
Theorem rps_window_bound (v : string) (rps : Z) (os : list RPS.op) (w0 : World) :
  clock_monotone → 0 ≤ rps ≤ int64_max →
  let '(l, _, w) := RPS.NewRPSLimiter v rps tt w0 in
  let '(g, _, w') := RPS.exec_all os l w in
  g ≤ rps * (1 + (env_now (w_now w') - env_now (w_now w0)) / Second).
Proof.
  intros Hmono Hb. unfold RPS.NewRPSLimiter. munfold.
  destruct (RPS.exec_all _ _ _) as [[g l'] w'] eqn:Hex.
  eapply rps_exec_all_run in Hex; [|done| ].
  - destruct Hex as (Hinv & _ & Hbb & Hr & _ & Hs & Hsum). simpl in *.
    destruct Hinv as (Hu & _ & _ & Hlf).
    assert ((RPS.start l' - env_now (w_now w0)) / Second
      ≤ (env_now (w_now w') - env_now (w_now w0)) / Second).
    { apply Z.div_le_mono; unfold Second; lia. }
    nia.
  - pose proof (Hmono (w_now w0) (Datatypes.S (w_now w0)) ltac:(lia)).
    unfold rps_inv, Second, int64_max in *. simpl. lia.
Qed.

(** After a back-off every request made before the deadline is refused. *)
Definition refuses_during_backoff (L : Type) `{!Limiter L} : Prop :=
  ∀ v d (l : L) w cs,
  let '(_, l1, w1) := lim_Backoff v d l w in
  let '(rs, _, w2) := wait_all cs l1 w1 in
  env_now (w_now w) + d ≠ 0 →
  (∀ i, (w_now w1 ≤ i < w_now w2)%nat → env_now i < env_now (w_now w) + d) →
  Forall (λ r, r = Some ErrBudgetExhausted) rs.

Lemma limiter_refuses (L : Type) `{!Limiter L} : refuses_during_backoff L.
Proof.
  intros v d l w cs. destruct (lim_Backoff v d l w) as [[u l1] w1] eqn:Hb.
  destruct (wait_all cs l1 w1) as [[rs l2] w2] eqn:Hw. intros Hz Hlt.
  apply lim_backoff_spec in Hb as (Hu & _).
  eapply wait_all_blocked in Hw as [HF _]; [done|congruence|by rewrite Hu].
Qed.

(** C9: after [Backoff] with delay [d], each of the three limiters refuses every later
    request whose clock readings fall before the deadline, whatever its cost and the
    state of the budget. *)
Theorem backoff_refuses_requests :
  refuses_during_backoff Weighted.WeightedLimiter ∧
  refuses_during_backoff Counter.CounterLimiter ∧
  refuses_during_backoff RPS.RPSLimiter.
Proof. split_and!; apply limiter_refuses. Qed.

(** a server-reported usage near the top of [int64] makes the weighted limiter's sum
    wrap around: the request is let through and the accounted weight turns negative. *)
Theorem weighted_wait_overflow (l : Weighted.WeightedLimiter) (wt : Z) (w : World) :
  is_int64 (Weighted.used l) → 0 ≤ Weighted.budget l → Weighted.backoff l = Time_zero →
  int64_max - Weighted.used l < wt ≤ int64_max →
  env_now (w_now w) - Weighted.lastFill l < Weighted.refill l ≤ int64_max →
  0 < Weighted.refill l →
  let '(r, l', _) := Weighted.Wait wt l w in
  r = None ∧ Weighted.used l' < 0.
Proof.
  intros Hu Hb Hbo Hwt Hr Hr0. unfold Weighted.Wait, Weighted.replenishLocked. munfold.
  rewrite Time_Sub_ge by (unfold int64_min; lia).
  assert (Hw : i64_add (Weighted.used l) wt = Weighted.used l + wt - 2 ^ 64).
  { unfold is_int64, int64_min, int64_max in *. unfold i64_add, wrap64.
    rewrite (Z.mod_eq _ (2 ^ 64)) by lia.
    replace ((Weighted.used l + wt + 2 ^ 63) / 2 ^ 64) with 1; [lia|].
    apply Z.div_unique with (Weighted.used l + wt + 2 ^ 63 - 2 ^ 64); lia. }
  unfold is_int64, int64_min, int64_max in *.
  destruct (Z.leb_spec (Weighted.refill l) (env_now (w_now w) - Weighted.lastFill l)); [lia|].
  rewrite Hbo. simpl. rewrite Hw.
  destruct (Z.ltb_spec (Weighted.budget l) (Weighted.used l + wt - 2 ^ 64)); [lia|].
  simpl. split; [done|lia].
Qed.
End properties.

(** ** Witnesses *)

Lemma weighted_total_bound_witness :
  let _ := quiet_env 1000 Millisecond in
  (let '(l, _, w) := Weighted.NewWeightedLimiter "binance" 10 tt World_init in
   let '(g, _, w') := Weighted.exec_all [Weighted.OpWait 6; Weighted.OpWait 6; Weighted.OpWait 4] l w in
   g ≤ 10 * (1 + (env_now (w_now w') - env_now 0) / (60 * Second))) ∧
  (let '(l, _, w) := Weighted.NewWeightedLimiter "binance" 10 tt World_init in
   (Weighted.exec_all [Weighted.OpWait 6; Weighted.OpWait 6; Weighted.OpWait 4] l w).1.1 = 10).
Proof.
  split; [|vm_compute; reflexivity].
  apply (weighted_total_bound (H := quiet_env 1000 Millisecond) "binance" 10
           [Weighted.OpWait 6; Weighted.OpWait 6; Weighted.OpWait 4] World_init).
  - apply quiet_env_monotone. unfold Millisecond. lia.
  - unfold int64_max. lia.
  - repeat constructor; unfold int64_max; lia.
Defined.

(** In an environment whose clock ticks once a second: 56 s after the construction the
    stretch of requests starts; it spans 12 readings and crosses a refill. *)
Definition sliding_run1 : Z * Weighted.WeightedLimiter * World :=
  let _ := quiet_env 1000 Second in
  let r := Weighted.NewWeightedLimiter "binance" 10 tt World_init in
  Weighted.exec_all [Weighted.OpWait 1; Weighted.OpElsewhere 55] r.1.1 r.2.
Definition sliding_run2 : Z * Weighted.WeightedLimiter * World :=
  let _ := quiet_env 1000 Second in
  Weighted.exec_all [Weighted.OpWait 9; Weighted.OpElsewhere 10; Weighted.OpWait 10]
    sliding_run1.1.2 sliding_run1.2.

Lemma weighted_sliding_bound_witness : sliding_run2.1.1 = 19 ∧ sliding_run2.1.1 ≤ 2 * 10.
Proof.
  split; [vm_compute; reflexivity|].
  apply (weighted_sliding_bound (H := quiet_env 1000 Second) "binance" 10
    [Weighted.OpWait 1; Weighted.OpElsewhere 55]
    [Weighted.OpWait 9; Weighted.OpElsewhere 10; Weighted.OpWait 10] World_init
    (@Weighted.NewWeightedLimiter (quiet_env 1000 Second) _ "binance" 10 tt World_init).2
    sliding_run1.2 sliding_run2.2
    (@Weighted.NewWeightedLimiter (quiet_env 1000 Second) _ "binance" 10 tt World_init).1.1
    sliding_run1.1.2 sliding_run2.1.2 tt sliding_run1.1.1 sliding_run2.1.1).
  - apply quiet_env_monotone. unfold Second. lia.
  - unfold int64_max. lia.
  - repeat constructor; unfold int64_max; lia.
  - repeat constructor; unfold int64_max; lia.
  - vm_compute. reflexivity.
  - vm_compute. reflexivity.
  - vm_compute. reflexivity.
  - assert (w_now sliding_run1.2 = 57 ∧ w_now sliding_run2.2 = 69)%nat as [-> ->]
      by (split; vm_compute; reflexivity).
    intros i Hi. simpl. unfold Second. lia.
Defined.

Lemma counter_leaky_bound_witness :
  let _ := quiet_env 1000 Second in
  let '(l, _, w) := Counter.NewCounterLimiter "kraken" 20 tt World_init in
  let '(g, _, w') := Counter.exec_all
    [Counter.OpWait 20; Counter.OpElsewhere 6; Counter.OpWait 2; Counter.OpWait 6] l w in
  g ≤ 20 + (env_now (w_now w') - env_now 0) / (3 * Second).
Proof.
  apply (counter_leaky_bound (H := quiet_env 1000 Second) "kraken" 20
    [Counter.OpWait 20; Counter.OpElsewhere 6; Counter.OpWait 2; Counter.OpWait 6] World_init).
  - apply quiet_env_monotone. unfold Second. lia.
  - unfold int64_max. lia.
  - repeat constructor; unfold int64_max; lia.
Defined.

Lemma rps_window_bound_witness :
  let _ := quiet_env 1000 (300 * Millisecond) in
  let '(l, _, w) := RPS.NewRPSLimiter "otc" 2 tt World_init in
  let '(g, _, w') := RPS.exec_all (replicate 9 RPS.OpWait) l w in
  g ≤ 2 * (1 + (env_now (w_now w') - env_now 0) / Second).
Proof.
  apply (rps_window_bound (H := quiet_env 1000 (300 * Millisecond)) "otc" 2
    (replicate 9 RPS.OpWait) World_init).
  - apply quiet_env_monotone. unfold Millisecond. lia.
  - unfold int64_max. lia.
Defined.

Lemma weighted_wait_overflow_witness :
  let _ := quiet_env 1000 Second in
  let '(r, l', _) := Weighted.Wait 1
    (Weighted.mk "binance" 1200 int64_max (60 * Second) 1000 Time_zero) World_init in
  r = None ∧ Weighted.used l' < 0.
Proof.
  apply (weighted_wait_overflow (H := quiet_env 1000 Second)
    (Weighted.mk "binance" 1200 int64_max (60 * Second) 1000 Time_zero) 1 World_init);
    unfold is_int64, int64_min, int64_max, Second; simpl; lia || done.
Defined.
