(* ===== verification/Metered.v ===== *)
(** * What a limiter lets through, as an interface

    A limiter that is [Metered] keeps a meter: everything it has let through since a base
    time is within the meter, and the meter is within an allowance that grows with the time
    elapsed.  The decaying counter and the requests-per-second limiter are; the weighted one
    is not, because the venue's replies set its count. *)

From S2P Require Import Prelude GoStd World RateLimit.

Open Scope Z_scope.

Class Metered `{Env} (L : Type) `{!Limiter L} := {
  met_inv : L → World → Prop;
  quota : L → Z;                        (** the budget, or the limit *)
  units : Z → Z;                        (** what a request of a given cost counts for *)
  meter : Time → L → Z;                 (** what has been let through since the base time *)
  allowance : L → Duration → Z;         (** what may be, after a duration *)
  met_later l w w' : clock_monotone → met_inv l w → (w_now w ≤ w_now w')%nat → met_inv l w';
  met_wait base c l w r l' w' : clock_monotone → met_inv l w → 0 ≤ c → quota l + c ≤ int64_max →
    lim_Wait c l w = (r, l', w') →
    met_inv l' w' ∧ quota l' = quota l ∧ (∀ d, allowance l' d = allowance l d) ∧
    match r with None => units c | Some _ => 0 end + meter base l ≤ meter base l';
  met_backoff base v d l w u l' w' : clock_monotone → met_inv l w →
    lim_Backoff v d l w = (u, l', w') →
    met_inv l' w' ∧ quota l' = quota l ∧ (∀ d, allowance l' d = allowance l d) ∧
    meter base l' = meter base l;
  met_bound base l w : met_inv l w → meter base l ≤ allowance l (env_now (w_now w) - base);
}.

Section instances.
Context `{Env}.

#[export] Instance counter_Metered : Metered Counter.CounterLimiter.
Proof.
  refine {| met_inv := counter_inv; quota := Counter.budget; units c := c;
            meter base l := Counter.current l + (Counter.last l - base) / Counter.decay l;
            allowance l d := Counter.budget l + d / Counter.decay l |}.
  - intros l w w' Hm (Hc & Hb & Hd & Hl) Hw. split_and!; try done; try lia.
    specialize (Hm _ _ Hw). lia.
  - intros base c l w r l' w' Hm Hinv Hc Hq Hw.
    destruct (counter_exec_step (Counter.OpWait c) l w (match r with None => c | Some _ => 0 end) l' w')
      as (Hi & Hg & Hb & Hd & _ & k & Hk & Hl & Hs); [done|done|simpl; lia| |].
    { cbn [Counter.exec]. unfold mbind, M_bind. cbn [lim_Wait counter_Limiter] in Hw. by rewrite Hw. }
    split_and!; [done|done|intros d; by rewrite Hb, Hd|]. rewrite Hl, Hd.
    replace (Counter.last l + k * Counter.decay l - base)
      with (Counter.last l - base + k * Counter.decay l) by lia.
    rewrite Z.div_add by (destruct Hinv; lia). destruct r; lia.
  - intros base v d l w u l' w' Hm Hinv Hw. cbn [lim_Backoff counter_Limiter] in Hw.
    unfold Counter.Backoff in Hw. munfold. simplify_eq/=. split_and!; try done.
    + destruct Hinv as (? & ? & ? & ?). split_and!; simpl; try done; try lia.
      specialize (Hm (w_now w) (S (w_now w)) ltac:(lia)). lia.
  - intros base l w (Hc & Hb & Hd & Hl).
    assert ((Counter.last l - base) / Counter.decay l ≤
            (env_now (w_now w) - base) / Counter.decay l) by (apply Z.div_le_mono; lia).
    lia.
Defined.

#[export] Instance rps_Metered : Metered RPS.RPSLimiter.
Proof.
  refine {| met_inv := rps_inv; quota := RPS.limit; units _ := 1;
            meter base l := RPS.count l + RPS.limit l * ((RPS.start l - base) / RPS.window l);
            allowance l d := RPS.limit l * (1 + d / RPS.window l) |}.
  - intros l w w' Hm (Hc & Hb & Hd & Hl) Hw. split_and!; try done; try lia.
    specialize (Hm _ _ Hw). lia.
  - intros base c l w r l' w' Hm Hinv _ _ Hw.
    destruct (rps_exec_step RPS.OpWait l w (match r with None => 1 | Some _ => 0 end) l' w')
      as (Hi & Hg & Hb & Hd & _ & Hs & Hsum); [done|done| |].
    { cbn [RPS.exec]. unfold mbind, M_bind. cbn [lim_Wait rps_Limiter] in Hw.
      assert (RPS.Wait 1 = RPS.Wait c) as -> by done. by rewrite Hw. }
    split_and!; [done|done|intros d; by rewrite Hb, Hd|]. rewrite Hd, Hb.
    destruct Hinv as (Hc & _ & Hwin & _).
    assert ((RPS.start l' - RPS.start l) / RPS.window l + (RPS.start l - base) / RPS.window l
            ≤ (RPS.start l' - base) / RPS.window l).
    { apply Z.div_le_lower_bound; [lia|].
      pose proof (Z.mul_div_le (RPS.start l' - RPS.start l) (RPS.window l)).
      pose proof (Z.mul_div_le (RPS.start l - base) (RPS.window l)). lia. }
    destruct r; nia.
  - intros base v d l w u l' w' Hm Hinv Hw. cbn [lim_Backoff rps_Limiter] in Hw.
    unfold RPS.Backoff in Hw. munfold. simplify_eq/=. split_and!; try done.
    destruct Hinv as (? & ? & ? & ?). split_and!; simpl; try done; try lia.
    specialize (Hm (w_now w) (S (w_now w)) ltac:(lia)). lia.
  - intros base l w (Hc & Hb & Hd & Hl).
    assert ((RPS.start l - base) / RPS.window l ≤ (env_now (w_now w) - base) / RPS.window l)
      by (apply Z.div_le_mono; lia). nia.
Defined.

(** A limiter just made has an empty meter. *)
Lemma counter_fresh {S} v b (s : S) w l s' w' :
  clock_monotone → 0 ≤ b ≤ int64_max → Counter.NewCounterLimiter v b s w = (l, s', w') →
  met_inv l w' ∧ meter (env_now (w_now w)) l = 0 ∧ quota l = b ∧
  ∀ d, allowance l d = b + d / (3 * Second).
Proof.
  intros Hm Hb Hn. unfold Counter.NewCounterLimiter in Hn. munfold. simplify_eq/=.
  specialize (Hm (w_now w) (Datatypes.S (w_now w)) ltac:(lia)).
  split_and!; [|by rewrite Z.sub_diag|done..].
  unfold counter_inv, Second, int64_max in *. simpl. lia.
Qed.

Lemma rps_fresh {S} v b (s : S) w l s' w' :
  clock_monotone → 0 ≤ b ≤ int64_max → RPS.NewRPSLimiter v b s w = (l, s', w') →
  met_inv l w' ∧ meter (env_now (w_now w)) l = 0 ∧ quota l = b ∧
  ∀ d, allowance l d = b * (1 + d / Second).
Proof.
  intros Hm Hb Hn. unfold RPS.NewRPSLimiter in Hn. munfold. simplify_eq/=.
  specialize (Hm (w_now w) (Datatypes.S (w_now w)) ltac:(lia)).
  split_and!; [|rewrite Z.sub_diag, Zdiv_0_l; lia|done..].
  unfold rps_inv, Second, int64_max in *. simpl. lia.
Qed.
End instances.

(** Clients reason about a metered limiter by its laws. *)
#[global] Arguments met_inv : simpl never.
#[global] Arguments quota : simpl never.
#[global] Arguments meter : simpl never.
#[global] Arguments allowance : simpl never.
