(* ===== verification/BookRecon.v ===== *)
(** * Order-book reconstruction (internal/ws/ws.go, [BookReconstructor])

    A book is two maps from price strings to size strings, replaced by snapshots and
    updated by numbered diffs with gap detection; [TopN] lists the best levels. *)

From S2P Require Import Prelude GoStd World.

Open Scope Z_scope.

(** A price level [[2]string{price, size}]. *)
Abbreviation Level := (string * string)%type (only parsing).

Record BookReconstructor := mk {
  venue : string;
  pair : string;
  bids : gmap string string;
  asks : gmap string string;
  lastSeq : Z;
  lastUpdate : Time;
  snapshotTTL : Duration;
}.

Definition NewBookReconstructor (venue pair : string) : BookReconstructor :=
  mk venue pair ∅ ∅ 0 Time_zero Second.

(** One level of a snapshot: later levels for the same price win. *)
Definition snapshot_level (m : gmap string string) (lvl : Level) : gmap string string :=
  <[lvl.1 := lvl.2]> m.

(** Does a diff level remove its price? *)
Definition removes (size : string) : bool := String.eqb size "0" || String.eqb size "".

(** One level of a diff. *)
Definition diff_level (m : gmap string string) (lvl : Level) : gmap string string :=
  if removes lvl.2 then delete lvl.1 m else <[lvl.1 := lvl.2]> m.

(** The comparison [less] of [sortLevels]. *)
Definition less (descending : bool) (a b : Level) : bool :=
  if descending then String.ltb b.1 a.1 else String.ltb a.1 b.1.

(** The inner loop of [sortLevels]: move [s[j]] left until the order is strict. *)
Fixpoint sift (descending : bool) (j : nat) (s : list Level) : list Level :=
  match j with
  | O => s
  | S j' =>
      match s !! j', s !! S j' with
      | Some a, Some b =>
          if less descending a b then s
          else sift descending j' (<[j' := b]> (<[S j' := a]> s))
      | _, _ => s
      end
  end.

Definition sortLevels (descending : bool) (s : list Level) : list Level :=
  fold_left (λ s i, sift descending i s) (seq 1 (length s - 1)) s.

(** [collectLevels m descending n] when [range m] visits the entries in the order
    [visited]; the source only asks for [n = 20]. *)
Definition collectLevels (visited : list Level) (descending : bool) (n : nat) : list Level :=
  let out := sortLevels descending visited in
  if (n <? length out)%nat then take n out else out.

(** A visiting order is any order of the entries of the map. *)
Definition visits (m : gmap string string) (visited : list Level) : Prop :=
  visited ≡ₚ map_to_list m.

(** The result of [ApplyDiff] on the two maps. *)
Definition diff_maps (bs as_ : list Level) (r : BookReconstructor) :
    gmap string string * gmap string string :=
  (fold_left diff_level bs (bids r), fold_left diff_level as_ (asks r)).

Section ops.
Context `{Env}.

Definition ApplySnapshot (bs as_ : list Level) : M BookReconstructor unit :=
  t ← now;
  modify (λ r, mk (venue r) (pair r)
                  (fold_left snapshot_level bs ∅) (fold_left snapshot_level as_ ∅)
                  (lastSeq r) t (snapshotTTL r)).

(** The two booleans returned: was the diff applied, is there a gap before it. *)
Definition ApplyDiff (seq : Z) (bs as_ : list Level) : M BookReconstructor (bool * bool) :=
  r ← get;
  if negb (lastSeq r =? 0) && (seq <=? lastSeq r) then mret (false, false)
  else if negb (lastSeq r =? 0) && (i64_add (lastSeq r) 1 <? seq) then mret (false, true)
  else
    let '(b', a') := diff_maps bs as_ r in
    t ← now;
    put (mk (venue r) (pair r) b' a' seq t (snapshotTTL r)) ;;
    mret (true, false).

Definition TopN (n : nat) : M BookReconstructor (list Level * list Level) :=
  r ← get;
  mret (collectLevels (map_to_list (bids r)) true n,
        collectLevels (map_to_list (asks r)) false n).

Definition MarkGap : M BookReconstructor unit :=
  r ← get;
  emit_metric (WSGapCount (venue r)) ;;
  put (mk (venue r) (pair r) (bids r) (asks r) 0 (lastUpdate r) (snapshotTTL r)).

Definition Lag : M BookReconstructor float64 :=
  r ← get;
  if Time_IsZero (lastUpdate r) then mret f64_zero
  else d ← since (lastUpdate r); mret (Duration_Seconds d).

(** A stream of diffs; the result lists the diffs that were applied. *)
Fixpoint apply_all (ds : list (Z * (list Level * list Level))) :
    M BookReconstructor (list (Z * (list Level * list Level))) :=
  match ds with
  | [] => mret []
  | d :: ds' =>
      ok ← ApplyDiff d.1 d.2.1 d.2.2;
      rest ← apply_all ds';
      mret (if (ok : bool * bool).1 then d :: rest else rest)
  end.
End ops.

(** ** Abstract specification

    An abstract book is the venue's view: the size resting at each price. *)

Definition ABook := string → option string.

(** The last update of a price in a list of levels. *)
Fixpoint last_update (p : string) (ls : list Level) : option string :=
  match ls with
  | [] => None
  | (q, sz) :: ls' =>
      match last_update p ls' with
      | Some s => Some s
      | None => if String.eqb p q then Some sz else None
      end
  end.

(** The book after a list of diff levels: each price has the size of its last update,
    none if that update removes it, and is untouched if it was not updated. *)
Definition abook_diff (ls : list Level) (b : ABook) : ABook := λ p,
  match last_update p ls with
  | Some sz => if removes sz then None else Some sz
  | None => b p
  end.

(** The book described by a snapshot. *)
Definition abook_snapshot (ls : list Level) : ABook := λ p, last_update p ls.

Definition abook_of (m : gmap string string) : ABook := λ p, m !! p.

(** Every diff level of a side, in the order of the stream. *)
Definition side_levels (side : list Level * list Level → list Level)
    (ds : list (Z * (list Level * list Level))) : list Level :=
  concat (map (λ d, side d.2) ds).

(** ** Lemmas *)

Lemma last_update_app p l1 l2 :
  last_update p (l1 ++ l2) = match last_update p l2 with
                             | Some s => Some s | None => last_update p l1 end.
Proof.
  induction l1 as [|[q sz] l1 IH]; simpl; [by destruct (last_update p l2)|].
  rewrite IH. by destruct (last_update p l2).
Qed.

Lemma diff_levels_lookup ls m p :
  fold_left diff_level ls m !! p = abook_diff ls (abook_of m) p.
Proof.
  unfold abook_diff, abook_of. revert m.
  induction ls as [|[q sz] ls IH] using rev_ind; intros m; [done|].
  rewrite fold_left_snoc, last_update_app. simpl. unfold diff_level at 1. simpl.
  destruct (String.eqb_spec p q) as [->|Hne].
  - destruct (removes sz); [by rewrite lookup_delete_eq|by rewrite lookup_insert_eq].
  - rewrite <- IH. destruct (removes sz).
    + by rewrite lookup_delete_ne by done.
    + by rewrite lookup_insert_ne by done.
Qed.

Lemma snapshot_levels_lookup ls m p :
  fold_left snapshot_level ls m !! p =
  match last_update p ls with Some sz => Some sz | None => m !! p end.
Proof.
  revert m. induction ls as [|[q sz] ls IH] using rev_ind; intros m; [done|].
  rewrite fold_left_snoc, last_update_app. simpl. unfold snapshot_level at 1. simpl.
  destruct (String.eqb_spec p q) as [->|Hne]; [by rewrite lookup_insert_eq|].
  by rewrite lookup_insert_ne, IH by done.
Qed.

Lemma abook_diff_app l1 l2 b p :
  abook_diff (l1 ++ l2) b p = abook_diff l2 (abook_diff l1 b) p.
Proof. unfold abook_diff. rewrite last_update_app. by destruct (last_update p l2). Qed.

Lemma abook_diff_ext ls b b' p : b p = b' p → abook_diff ls b p = abook_diff ls b' p.
Proof. unfold abook_diff. by intros ->. Qed.

(** *** Sorting *)

Definition price_le (descending : bool) (a b : Level) : Prop :=
  if descending then String.le b.1 a.1 else String.le a.1 b.1.

#[export] Instance price_le_trans d : Transitive (price_le d).
Proof. intros a b c. unfold price_le. destruct d; intros; by etrans. Qed.

Lemma ltb_le s t : String.ltb s t = true → String.le s t.
Proof.
  unfold String.ltb, String.le, String.leb. by destruct (String.compare s t).
Qed.

Lemma not_ltb_le s t : String.ltb s t = false → String.le t s.
Proof.
  unfold String.ltb, String.le, String.leb. rewrite (String.compare_antisym t s).
  by destruct (String.compare s t).
Qed.

Lemma less_le d a b : less d a b = true → price_le d a b.
Proof. unfold less, price_le. destruct d; apply ltb_le. Qed.

Lemma not_less_le d a b : less d a b = false → price_le d b a.
Proof. unfold less, price_le. destruct d; apply not_ltb_le. Qed.

(** One pass of the inner loop inserts the next element into the sorted prefix. *)
Lemma sift_spec d (l1 : list Level) x l2 :
  ∃ l1', sift d (length l1) (l1 ++ x :: l2) = l1' ++ l2 ∧ l1' ≡ₚ x :: l1 ∧
         (StronglySorted (price_le d) l1 → StronglySorted (price_le d) l1').
Proof.
  revert x l2. induction l1 as [|y l1 IH] using rev_ind; intros x l2.
  - exists [x]. simpl. split_and!; [done..|]. intros _. repeat constructor.
  - rewrite length_app, <- app_assoc. simpl. rewrite Nat.add_1_r. simpl.
    rewrite list_lookup_middle by done.
    replace (S (length l1)) with (length (l1 ++ [y])) by (rewrite length_app; simpl; lia).
    assert (Hx : (l1 ++ y :: x :: l2) !! length (l1 ++ [y]) = Some x).
    { change (y :: x :: l2) with ([y] ++ x :: l2). rewrite app_assoc.
      by apply list_lookup_middle. }
    rewrite Hx. destruct (less d y x) eqn:Hless.
    + exists (l1 ++ [y; x]). split_and!.
      * by rewrite <- app_assoc.
      * rewrite (Permutation_cons_append (l1 ++ [y]) x), <- app_assoc. done.
      * intros Hs. apply StronglySorted_app in Hs as (Hc & Hs & _).
        apply StronglySorted_app. split_and!; [|done|].
        -- intros a b Ha Hb. apply less_le in Hless.
           apply list_elem_of_In in Hb. destruct Hb as [<-|[<-|[]]].
           ++ apply Hc; [done|by constructor].
           ++ etrans; [apply Hc; [done|by constructor]|done].
        -- repeat constructor. by apply less_le.
    + assert (Hins : <[length l1 := x]> (<[length (l1 ++ [y]) := y]> (l1 ++ y :: x :: l2))
                     = l1 ++ x :: y :: l2).
      { change (y :: x :: l2) with ([y] ++ x :: l2). rewrite app_assoc.
        rewrite (insert_app_r_alt (l1 ++ [y])) by lia. rewrite Nat.sub_diag. simpl.
        rewrite <- app_assoc. simpl. rewrite insert_app_r_alt by lia.
        by rewrite Nat.sub_diag. }
      rewrite Hins. destruct (IH x (y :: l2)) as (l1' & -> & Hp & Hs').
      exists (l1' ++ [y]). split_and!.
      * by rewrite <- app_assoc.
      * rewrite Hp. simpl. by rewrite app_comm_cons.
      * intros Hs. apply StronglySorted_app in Hs as (Hc & Hs & _).
        apply StronglySorted_app. split_and!; [|by apply Hs'|repeat constructor].
        intros a b Ha Hb. apply list_elem_of_In in Hb. destruct Hb as [<-|[]].
        rewrite Hp in Ha. apply list_elem_of_In in Ha. destruct Ha as [<-|Ha].
        -- by apply not_less_le.
        -- apply Hc; [by apply list_elem_of_In|by constructor].
Qed.

Lemma sort_pass d (k : nat) (s1 s2 : list Level) :
  StronglySorted (price_le d) s1 → length s1 = k → (0 < k)%nat →
  ∃ s', fold_left (λ s i, sift d i s) (seq k (length s2)) (s1 ++ s2) = s' ∧
        s' ≡ₚ s1 ++ s2 ∧ StronglySorted (price_le d) s'.
Proof.
  revert k s1. induction s2 as [|x s2 IH]; intros k s1 Hs Hk Hpos.
  - rewrite app_nil_r. by eexists.
  - simpl. destruct (sift_spec d s1 x s2) as (s1' & Hsift & Hp & Hs').
    rewrite Hk in Hsift. rewrite Hsift.
    destruct (IH (S k) s1') as (s' & <- & Hp' & Hs''); [by apply Hs'| |lia|].
    { rewrite Hp. simpl. by rewrite Hk. }
    eexists; split; [done|]. split; [|done].
    rewrite Hp', Hp. simpl. by rewrite Permutation_middle.
Qed.

Lemma sortLevels_spec d s :
  sortLevels d s ≡ₚ s ∧ StronglySorted (price_le d) (sortLevels d s).
Proof.
  unfold sortLevels. destruct s as [|x s]; [split; [done|constructor]|].
  simpl. rewrite Nat.sub_0_r.
  destruct (sort_pass d 1 [x] s) as (s' & Hf & Hp & Hs); [repeat constructor|done|lia|].
  simpl in Hf. rewrite Hf. done.
Qed.

(** With distinct prices the order is antisymmetric on the entries. *)
Lemma sortLevels_unique d (l1 l2 : list Level) :
  NoDup (l1.*1) → l1 ≡ₚ l2 → sortLevels d l1 = sortLevels d l2.
Proof.
  intros Hnd Hp. destruct (sortLevels_spec d l1) as [Hp1 Hs1].
  destruct (sortLevels_spec d l2) as [Hp2 Hs2].
  apply (StronglySorted_unique_strong (price_le d)); [|done..|by rewrite Hp1, Hp2].
  intros [p1 z1] [p2 z2] H1 H2 Hle1 Hle2.
  assert (p1 = p2) as ->.
  { unfold price_le in *. simpl in *. destruct d; by apply (anti_symm String.le). }
  rewrite Hp1 in H1. rewrite Hp2, <- Hp in H2.
  clear -Hnd H1 H2. induction l1 as [|[q z] l1 IH]; [by apply elem_of_nil in H1|].
  simpl in Hnd. apply NoDup_cons in Hnd as [Hq Hnd].
  apply elem_of_cons in H1 as [H1|H1], H2 as [H2|H2]; simplify_eq; try done.
  - destruct Hq. by apply list_elem_of_fmap_2 with (f := fst) in H2.
  - destruct Hq. by apply list_elem_of_fmap_2 with (f := fst) in H1.
  - auto.
Qed.

Section stream_lemmas.
Context `{Env}.

(** What a book under a positive sequence number does with a diff. *)
Lemma ApplyDiff_run sq bs as_ r w :
  0 < lastSeq r ≤ int64_max → 0 < sq ≤ int64_max →
  ApplyDiff sq bs as_ r w =
  if decide (sq = lastSeq r + 1)
  then let '(b', a') := diff_maps bs as_ r in
       (true, false, mk (venue r) (pair r) b' a' sq (env_now (w_now w)) (snapshotTTL r),
        (now (S := unit) tt w).2)
  else (false, bool_decide (lastSeq r + 1 < sq), r, w).
Proof.
  intros Hr Hs. unfold ApplyDiff. munfold.
  destruct (Z.eqb_spec (lastSeq r) 0); [lia|]. simpl.
  destruct (Z.leb_spec sq (lastSeq r)).
  - rewrite decide_False, bool_decide_eq_false_2 by lia. done.
  - unfold i64_add. rewrite wrap64_id
      by (unfold is_int64, int64_min, int64_max in *; lia).
    destruct (Z.ltb_spec (lastSeq r + 1) sq).
    + rewrite decide_False, bool_decide_eq_true_2 by lia. done.
    + rewrite decide_True by lia. unfold diff_maps. done.
Qed.

Lemma apply_all_run ds r w applied r' w' :
  0 < lastSeq r → Forall (λ d, 0 < d.1 ≤ int64_max) ds → lastSeq r ≤ int64_max →
  apply_all ds r w = (applied, r', w') →
  sublist applied ds ∧
  applied.*1 = seqZ (lastSeq r + 1) (Z.of_nat (length applied)) ∧
  lastSeq r' = lastSeq r + Z.of_nat (length applied) ∧
  (∀ p, bids r' !! p = abook_diff (side_levels fst applied) (abook_of (bids r)) p) ∧
  (∀ p, asks r' !! p = abook_diff (side_levels snd applied) (abook_of (asks r)) p).
Proof.
  revert r w applied. induction ds as [|[sq [bs as_]] ds IH];
    intros r w applied Hpos Hall Hmax Hrun.
  - cbn [apply_all] in Hrun. munfold. simplify_eq/=. split_and!; try done. lia.
  - apply Forall_cons in Hall as [Hsq Hall]. simpl in Hsq.
    cbn [apply_all] in Hrun. unfold mbind, M_bind in Hrun. cbn [fst snd] in Hrun.
    rewrite ApplyDiff_run in Hrun by done.
    destruct (decide (sq = lastSeq r + 1)) as [->|Hne].
    + unfold diff_maps in Hrun. simpl in Hrun.
      destruct (apply_all ds _ _) as [[ap2 r2] w2] eqn:H2. munfold. simplify_eq.
      apply IH in H2 as (Hsub & Hseq & Hlast & Hb & Ha);
        cbn [lastSeq bids asks] in *; [|lia|done|lia].
      split_and!.
      * by constructor.
      * rewrite fmap_cons, Hseq. cbn [length fst]. rewrite Nat2Z.inj_succ, (seqZ_cons (lastSeq r + 1)) by lia.
        f_equal. f_equal; lia.
      * cbn [length]. lia.
      * intros p. rewrite Hb. unfold side_levels. simpl. rewrite abook_diff_app.
        unfold abook_diff at 1 3, abook_of at 1. by rewrite diff_levels_lookup.
      * intros p. rewrite Ha. unfold side_levels. simpl. rewrite abook_diff_app.
        unfold abook_diff at 1 3, abook_of at 1. by rewrite diff_levels_lookup.
    + simpl in Hrun.
      destruct (apply_all ds r w) as [[ap2 r2] w2] eqn:H2. munfold. simplify_eq.
      apply IH in H2 as (Hsub & Hrest); [|done..].
      split; [by constructor|done].
Qed.
End stream_lemmas.

(** ** Properties *)

Section properties.
Context `{Env}.

(** C3: of a stream of positively numbered diffs, a synchronised book applies exactly a
    run of consecutive sequence numbers starting after its last one, never reorders or
    repeats one, and the resulting book is the abstract book after those diffs. *)
Theorem diffs_refine_abstract_book (r r' : BookReconstructor) (w w' : World)
    (ds applied : list (Z * (list Level * list Level))) :
  0 < lastSeq r ≤ int64_max → Forall (λ d, 0 < d.1 ≤ int64_max) ds →
  apply_all ds r w = (applied, r', w') →
  sublist applied ds ∧
  applied.*1 = seqZ (lastSeq r + 1) (Z.of_nat (length applied)) ∧
  lastSeq r' = lastSeq r + Z.of_nat (length applied) ∧
  (∀ p, abook_of (bids r') p = abook_diff (side_levels fst applied) (abook_of (bids r)) p) ∧
  (∀ p, abook_of (asks r') p = abook_diff (side_levels snd applied) (abook_of (asks r)) p).
Proof. intros [] Hall Hrun. by eapply apply_all_run in Hrun. Qed.

(** a diff that leaves a hole in the numbering is reported as a gap and one that is
    stale is dropped silently; neither changes the book. *)
Theorem ApplyDiff_gap_and_stale (r : BookReconstructor) (sq : Z) (bs as_ : list Level)
    (w : World) :
  0 < lastSeq r ≤ int64_max → 0 < sq ≤ int64_max → sq ≠ lastSeq r + 1 →
  ApplyDiff sq bs as_ r w = (false, bool_decide (lastSeq r + 1 < sq), r, w).
Proof. intros Hr Hs Hne. rewrite ApplyDiff_run by done. by rewrite decide_False. Qed.

(** [ApplySnapshot] makes the book the one the snapshot describes, whatever it held,
    and leaves the sequence number alone. *)
Lemma ApplySnapshot_run (r : BookReconstructor) (bs as_ : list Level) (w : World) :
  let r' := (ApplySnapshot bs as_ r w).1.2 in
  (∀ p, abook_of (bids r') p = abook_snapshot bs p) ∧
  (∀ p, abook_of (asks r') p = abook_snapshot as_ p) ∧
  lastSeq r' = lastSeq r ∧ lastUpdate r' = env_now (w_now w).
Proof.
  unfold ApplySnapshot. munfold. unfold abook_of, abook_snapshot.
  split_and!; try done; intros p; rewrite snapshot_levels_lookup, lookup_empty;
    by destruct (last_update p _).
Qed.

(** the levels listed do not depend on the order in which Go's [range] visits the
    map. *)
Theorem collectLevels_order_independent (m : gmap string string) (v1 v2 : list Level)
    (descending : bool) (n : nat) :
  visits m v1 → visits m v2 → collectLevels v1 descending n = collectLevels v2 descending n.
Proof.
  unfold visits, collectLevels. intros H1 H2.
  rewrite (sortLevels_unique descending v1 v2); [done| |by rewrite H1, H2].
  rewrite H1. apply NoDup_fst_map_to_list.
Qed.

(** C37: [TopN] lists, in price-string order, the first [n] entries of each side (all of
    them if there are fewer): everything listed is in the book with that size, and every
    entry left out comes after every entry listed. *)
Theorem collectLevels_best (m : gmap string string) (v : list Level) (descending : bool)
    (n : nat) :
  visits m v →
  let out := collectLevels v descending n in
  length out = Nat.min n (size m) ∧
  StronglySorted (price_le descending) out ∧
  (∀ p sz, (p, sz) ∈ out → m !! p = Some sz) ∧
  (∀ p sz x, m !! p = Some sz → (p, sz) ∉ out → x ∈ out → price_le descending x (p, sz)).
Proof.
  unfold visits. intros Hv. cbn zeta.
  destruct (sortLevels_spec descending v) as [Hp Hs].
  set (out := sortLevels descending v) in *.
  assert (Htake : collectLevels v descending n = take n out).
  { unfold collectLevels. fold out. destruct (Nat.ltb_spec n (length out)); [done|].
    by rewrite take_ge by lia. }
  rewrite Htake. rewrite Hv in Hp.
  assert (Hin : ∀ p sz, (p, sz) ∈ out ↔ m !! p = Some sz).
  { intros p sz. rewrite Hp. apply elem_of_map_to_list. }
  rewrite <- (take_drop n out) in Hs. apply StronglySorted_app in Hs as (Hcross & Hs1 & _).
  split_and!.
  - by rewrite length_take, Hp, length_map_to_list.
  - done.
  - intros p sz Ht. apply Hin. rewrite <- (take_drop n out). apply elem_of_app. by left.
  - intros p sz x Hm Hnot Hx. apply Hin in Hm.
    rewrite <- (take_drop n out) in Hm. apply elem_of_app in Hm as [Hm|Hm]; [done|].
    by apply Hcross.
Qed.

(** after a gap has been marked and a snapshot applied, the next diff is applied
    whatever its sequence number, even one older than the snapshot. *)
Theorem refresh_accepts_any_sequence (r : BookReconstructor) (w : World) (sq : Z)
    (sbs sas bs as_ : list Level) :
  (MarkGap ;; ApplySnapshot sbs sas ;; ApplyDiff sq bs as_) r w =
  (true, false,
   mk (venue r) (pair r)
      (fold_left diff_level bs (fold_left snapshot_level sbs ∅))
      (fold_left diff_level as_ (fold_left snapshot_level sas ∅))
      sq (env_now (Datatypes.S (w_now w))) (snapshotTTL r),
   ((MarkGap ;; ApplySnapshot sbs sas ;; now) r w).2).
Proof. reflexivity. Qed.

(** prices are compared as text, so the book's best bid can be a worse price: with
    bids at 9.5 and 10.0 the only level of [TopN 1] is 9.5. *)
Theorem TopN_compares_text (w : World) :
  ((ApplySnapshot [("9.5", "1"); ("10.0", "2")] [("10.5", "1")] ;; TopN 1)
    (NewBookReconstructor "binance" "BTCUSDT") w).1.1
  = ([("9.5", "1")], [("10.5", "1")]).
Proof. reflexivity. Qed.

(** only the sizes spelt 0 and the empty string remove a level: a diff with size
    0.00000000 leaves the price in the book. *)
Theorem zero_size_spelling_kept (r : BookReconstructor) (p : string) (w : World) :
  lastSeq r = 0 →
  let '(_, r', _) := ApplyDiff 1 [(p, "0.00000000")] [] r w in
  bids r' !! p = Some "0.00000000".
Proof.
  intros H0. unfold ApplyDiff. munfold. rewrite H0. simpl.
  unfold diff_level. simpl. apply lookup_insert_eq.
Qed.
End properties.

(** ** Witnesses *)

Definition sample_book : BookReconstructor :=
  mk "binance" "BTCUSDT" {["50000" := "1"]} {["50001" := "1"]} 100 5 Second.

Definition sample_diffs : list (Z * (list Level * list Level)) :=
  [(101, ([("49999", "2")], [])); (101, ([("1", "1")], []));
   (105, ([("2", "1")], [])); (102, ([("50000", "0")], []))].

Definition sample_run :=
  @apply_all (quiet_env 10 1) sample_diffs sample_book World_init.

Lemma diffs_refine_abstract_book_witness :
  sample_run.1.1.*1 = [101; 102] ∧
  lastSeq sample_run.1.2 = lastSeq sample_book + Z.of_nat (length sample_run.1.1) ∧
  (∀ p, abook_of (bids sample_run.1.2) p
        = abook_diff (side_levels fst sample_run.1.1) (abook_of (bids sample_book)) p).
Proof.
  split; [vm_compute; reflexivity|].
  destruct (diffs_refine_abstract_book (H := quiet_env 10 1) sample_book sample_run.1.2
    World_init sample_run.2 sample_diffs sample_run.1.1) as (_ & _ & Hl & Hb & _).
  - unfold int64_max. simpl. lia.
  - repeat constructor; unfold int64_max; simpl; lia.
  - vm_compute. reflexivity.
  - split; [exact Hl|exact Hb].
Defined.

Lemma ApplyDiff_gap_and_stale_witness :
  @ApplyDiff (quiet_env 10 1) 105 [("1", "1")] [] sample_book World_init
  = (false, true, sample_book, World_init).
Proof.
  apply (ApplyDiff_gap_and_stale (H := quiet_env 10 1) sample_book 105 [("1", "1")] []
           World_init); unfold int64_max; simpl; lia.
Defined.

Lemma collectLevels_order_independent_witness :
  collectLevels [("1", "a"); ("2", "b")] true 1 = collectLevels [("2", "b"); ("1", "a")] true 1.
Proof.
  apply (collectLevels_order_independent {["1" := "a"; "2" := "b"]}).
  - unfold visits. vm_compute. apply perm_swap || reflexivity.
  - unfold visits. vm_compute. apply perm_swap || reflexivity.
Defined.

Lemma collectLevels_best_witness :
  length (collectLevels [("1", "a"); ("2", "b")] true 1) = 1%nat ∧
  StronglySorted (price_le true) (collectLevels [("1", "a"); ("2", "b")] true 1).
Proof.
  destruct (collectLevels_best {["1" := "a"; "2" := "b"]} [("1", "a"); ("2", "b")] true 1)
    as (Hl & Hs & _).
  - unfold visits. vm_compute. apply perm_swap || reflexivity.
  - split; [exact Hl|exact Hs].
Defined.

Lemma zero_size_spelling_kept_witness :
  let '(_, r', _) := @ApplyDiff (quiet_env 10 1) 1 [("7", "0.00000000")] []
    (NewBookReconstructor "binance" "BTCUSDT") World_init in
  bids r' !! "7" = Some "0.00000000".
Proof.
  apply (zero_size_spelling_kept (H := quiet_env 10 1)
           (NewBookReconstructor "binance" "BTCUSDT") "7" World_init).
  reflexivity.
Defined.
