(* ===== verification/WsClient.v ===== *)
(** * The reconnecting WebSocket client (internal/ws/ws.go, [Client])

    [Run] is a loop of its own goroutine; [Close], [SetHandler] and [WriteJSON] may be
    called by others between its locked sections.  The client is therefore a state
    machine: [client_step ev c] is the move of configuration [c] on event [ev], where an
    event carries what the environment decided (the outcome of a dial or of a read,
    whether the context is done, the random jitter).  Connections are numbered in the
    order they are opened. *)

From S2P Require Import Prelude GoStd World.

Open Scope Z_scope.

(** ** Back-off *)

(** The value of [float64(z)] for an [int64] [z]: the nearest multiple of a power of two
    with 53 significant bits, ties to even. *)
Definition round53 (z : Z) : Z :=
  if Z.abs z <=? 2 ^ 53 then z
  else
    let e := Z.log2 (Z.abs z) - 52 in
    let q := Z.abs z / 2 ^ e in
    let r := Z.abs z mod 2 ^ e in
    let half := 2 ^ (e - 1) in
    let q' := if (half <? r) || ((r =? half) && Z.odd q) then q + 1 else q in
    Z.sgn z * (q' * 2 ^ e).

(** Conversion of an integral [float64] to [int64]; out of range, the result of the
    amd64 conversion instruction. *)
Definition int64_of_float (z : Z) : Z :=
  if (int64_min <=? z) && (z <=? int64_max) then z else int64_min.

(** [nextBackoff prev max] when the raw random number is [raw]: [rand.Int63n] picks in
    [0, prev]. *)
Definition nextBackoff (prev max raw : Z) : Duration :=
  let next := int64_of_float (round53 prev * 2) in
  let jitter := raw mod (i64_add prev 1) in
  let next := i64_add next jitter in
  if max <? next then max else next.

Definition defaultMaxBackoff : Duration := 30 * Second.
Definition initialBackoff : Duration := 100 * Millisecond.

(** ** State *)

Record Client := mkClient {
  url : string;
  venue : string;
  handler : option nat;          (** which callback is registered *)
  conn : option nat;             (** the current connection *)
  closed : bool;
  maxBackoff : Duration;
}.

Definition NewClient (url venue : string) : Client :=
  mkClient url venue None None false defaultMaxBackoff.

Definition SetHandler (h : nat) (c : Client) : Client :=
  mkClient (url c) (venue c) (Some h) (conn c) (closed c) (maxBackoff c).

Definition set_conn (k : option nat) (c : Client) : Client :=
  mkClient (url c) (venue c) (handler c) k (closed c) (maxBackoff c).

Definition set_closed (c : Client) : Client :=
  mkClient (url c) (venue c) (handler c) (conn c) true (maxBackoff c).

(** Where the goroutine of [Run] stands. *)
Inductive pc : Type :=
| PIdle                                    (** [Run] has not been called *)
| PTop                                     (** head of the loop: test [closed] *)
| PDial                                    (** in [connect] *)
| PSleep                                   (** in a [select] on the timer *)
| PCheck                                   (** head of [readLoop] *)
| PReading (k : nat) (h : option nat)      (** in [ReadMessage] on connection [k] *)
| PAfterRead                               (** [readLoop] has returned *)
| PDone (r : option error).                (** [Run] has returned *)

Record Config := mkConfig {
  client : Client;
  at_pc : pc;
  backoff : Duration;
  opened : nat;                            (** connections opened so far *)
  written : list (nat * string);           (** messages written, per connection *)
  delivered : list (nat * nat * string);   (** handler, connection and message *)
  shut : list nat;                         (** connections closed by the client *)
  slept : list Duration;                   (** durations handed to [time.After] *)
  reconnects : list Metric;
}.

Inductive Event : Type :=
| EvGo                                      (** a step that depends on nothing else *)
| EvDial (res : option error) (ctx : option error) (raw : Z)
| EvRead (res : result string)
| EvAfterRead (ctx : option error) (raw : Z)
| EvWake (ctx : option error)               (** the timer fires, or the context is done *)
| EvClose                                   (** another goroutine calls [Close] *)
| EvSetHandler (h : nat)
| EvWrite (msg : string).                   (** another goroutine calls [WriteJSON] *)

(** ** Operations *)

(** A successful [connect]: the new connection replaces the old one, which is not
    closed. *)
Definition connect_ok (c : Config) : Config :=
  mkConfig (set_conn (Some (opened c)) (client c)) (at_pc c) (backoff c) (S (opened c))
           (written c) (delivered c) (shut c) (slept c) (reconnects c).

Definition Close (c : Config) : Config :=
  mkConfig (set_closed (client c)) (at_pc c) (backoff c) (opened c) (written c) (delivered c)
           (match conn (client c) with Some k => shut c ++ [k] | None => shut c end)
           (slept c) (reconnects c).

(** [WriteJSON]: the error when there is no connection, else the message goes out on the
    current one. *)
Definition WriteJSON (msg : string) (c : Config) : option error * Config :=
  match conn (client c) with
  | None => (Some (ErrNew "ws: not connected"), c)
  | Some k => (None, mkConfig (client c) (at_pc c) (backoff c) (opened c)
                              (written c ++ [(k, msg)]) (delivered c) (shut c) (slept c)
                              (reconnects c))
  end.

Definition goto (p : pc) (c : Config) : Config :=
  mkConfig (client c) p (backoff c) (opened c) (written c) (delivered c) (shut c) (slept c)
           (reconnects c).

Definition set_backoff (b : Duration) (c : Config) : Config :=
  mkConfig (client c) (at_pc c) b (opened c) (written c) (delivered c) (shut c) (slept c)
           (reconnects c).

(** Compute the next delay and wait for it. *)
Definition sleep_next (raw : Z) (c : Config) : Config :=
  let b := nextBackoff (backoff c) (maxBackoff (client c)) raw in
  mkConfig (client c) PSleep b (opened c) (written c) (delivered c) (shut c)
           (slept c ++ [b]) (reconnects c).

(** The connection is up: count it, reset the delay and start reading. *)
Definition connected (c : Config) : Config :=
  let c' := connect_ok c in
  mkConfig (client c') PCheck initialBackoff (opened c') (written c') (delivered c') (shut c')
           (slept c') (reconnects c' ++ [WSReconnectCount (venue (client c'))]).

(** After [readLoop]: close the connection and forget it. *)
Definition drop_conn (c : Config) : Config :=
  match conn (client c) with
  | None => c
  | Some k => mkConfig (set_conn None (client c)) (at_pc c) (backoff c) (opened c) (written c)
                       (delivered c) (shut c ++ [k]) (slept c) (reconnects c)
  end.

Definition deliver (k : nat) (h : option nat) (msg : string) (c : Config) : Config :=
  match h with
  | None => c
  | Some hd => mkConfig (client c) (at_pc c) (backoff c) (opened c) (written c)
                        (delivered c ++ [(hd, k, msg)]) (shut c) (slept c) (reconnects c)
  end.

(** The move of the client on an event; [None] when the event cannot happen here. *)
Definition client_step (ev : Event) (c : Config) : option Config :=
  match ev with
  | EvClose => Some (Close c)
  | EvSetHandler h =>
      Some (mkConfig (SetHandler h (client c)) (at_pc c) (backoff c) (opened c) (written c)
                     (delivered c) (shut c) (slept c) (reconnects c))
  | EvWrite msg => Some (WriteJSON msg c).2
  | EvGo =>
      match at_pc c with
      | PIdle => Some (set_backoff initialBackoff (goto PTop c))
      | PTop => Some (goto (if closed (client c) then PDone None else PDial) c)
      | PCheck =>
          match conn (client c) with
          | Some k => Some (goto (if closed (client c) then PAfterRead
                                  else PReading k (handler (client c))) c)
          | None => Some (goto PAfterRead c)
          end
      | _ => None
      end
  | EvDial res ctx raw =>
      match at_pc c with
      | PDial =>
          match res with
          | None => Some (connected c)
          | Some _ => match ctx with
                      | Some e => Some (goto (PDone (Some e)) c)
                      | None => Some (sleep_next raw c)
                      end
          end
      | _ => None
      end
  | EvRead res =>
      match at_pc c with
      | PReading k h =>
          match res with
          | Err _ => Some (goto PAfterRead c)
          | Ok msg => Some (goto PCheck (deliver k h msg c))
          end
      | _ => None
      end
  | EvAfterRead ctx raw =>
      match at_pc c with
      | PAfterRead =>
          match ctx with
          | Some e => Some (goto (PDone (Some e)) c)
          | None => Some (sleep_next raw (drop_conn c))
          end
      | _ => None
      end
  | EvWake ctx =>
      match at_pc c with
      | PSleep => Some (goto (match ctx with Some e => PDone (Some e) | None => PTop end) c)
      | _ => None
      end
  end.

Fixpoint client_run (evs : list Event) (c : Config) : option Config :=
  match evs with
  | [] => Some c
  | ev :: evs' => c' ← client_step ev c; client_run evs' c'
  end.

Definition initial (c : Client) : Config := mkConfig c PIdle 0 0 [] [] [] [] [].

(** Events of the goroutine of [Run] itself. *)
Definition is_own (ev : Event) : bool :=
  match ev with EvClose | EvSetHandler _ | EvWrite _ => false | _ => true end.

(** The number of own steps [Run] can still make once [closed] is set. *)
Definition remaining (p : pc) : nat :=
  match p with
  | PIdle => 2 | PTop => 1 | PSleep => 2 | PAfterRead => 3 | PCheck => 4
  | PReading _ _ => 5 | PDial => 5 | PDone _ => 0
  end.

(** ** Lemmas *)

Lemma round53_small z : Z.abs z ≤ 2 ^ 53 → round53 z = z.
Proof. intros Hz. unfold round53. by rewrite (proj2 (Z.leb_le _ _) Hz). Qed.

(** For delays below 2^53 ns (104 days) the floating-point doubling is exact. *)
Lemma nextBackoff_exact prev max raw :
  0 ≤ prev ≤ 2 ^ 53 →
  nextBackoff prev max raw = Z.min max (2 * prev + raw mod (prev + 1)).
Proof.
  intros Hp. unfold nextBackoff. rewrite round53_small by lia.
  pose proof (Z.mod_pos_bound raw (prev + 1)).
  unfold int64_of_float, i64_add, int64_min, int64_max.
  rewrite (wrap64_id (prev + 1)) by (unfold is_int64, int64_min, int64_max; lia).
  rewrite andb_true_intro by (split; apply Z.leb_le; lia).
  rewrite wrap64_id by (unfold is_int64, int64_min, int64_max; lia).
  destruct (Z.ltb_spec max (prev * 2 + raw mod (prev + 1))); lia.
Qed.

Lemma nextBackoff_le_max prev max raw : nextBackoff prev max raw ≤ max.
Proof.
  unfold nextBackoff. cbv zeta.
  match goal with |- context [Z.ltb ?a ?b] => destruct (Z.ltb_spec a b) end; lia.
Qed.

(** A property of configurations kept by every step holds along every run. *)
Lemma client_run_ind (P : Config → Prop) :
  (∀ ev c c', client_step ev c = Some c' → P c → P c') →
  ∀ evs c c', client_run evs c = Some c' → P c → P c'.
Proof.
  intros Hstep. induction evs as [|ev evs IH]; intros c c' Hr HP; simpl in Hr.
  - by simplify_eq.
  - destruct (client_step ev c) as [c1|] eqn:Hs; simpl in Hr; [|done]. eauto.
Qed.

(** Case analysis on a step. *)
Ltac step_cases H :=
  unfold client_step in H;
  repeat match type of H with
  | context [match ?x with _ => _ end] => destruct x eqn:?; simplify_eq/=
  end; try done.

(** Along a run of a closed client: [closed] stays set, each own step uses up the
    remaining budget, and at most the message being read is delivered. *)
Lemma closed_step ev c c' :
  client_step ev c = Some c' → closed (client c) = true →
  closed (client c') = true ∧
  ((if is_own ev then 1 else 0) + remaining (at_pc c') ≤ remaining (at_pc c))%nat ∧
  (length (delivered c') +
     (match at_pc c' with PReading _ _ => 1 | _ => 0 end) ≤
   length (delivered c) +
     (match at_pc c with PReading _ _ => 1 | _ => 0 end))%nat.
Proof.
  intros Hs Hc. destruct c as [cl p b op wr de sh sl re]. simpl in Hc.
  destruct ev; simpl in Hs.
  - destruct p; simplify_eq/=; rewrite ?Hc.
    + split_and!; [done|lia..].
    + split_and!; [done|simpl; lia..].
    + destruct (conn cl); simplify_eq/=; rewrite ?Hc; split_and!; try done; simpl; lia.
  - destruct p; simplify_eq/=.
    destruct res; [destruct ctx|]; simplify_eq/=; split_and!; try done; lia.
  - destruct p; simplify_eq/=. destruct res; simplify_eq/=.
    + unfold deliver. destruct h; simpl; rewrite ?length_app; simpl; split_and!; try done; lia.
    + split_and!; [done|lia..].
  - destruct p; simplify_eq/=.
    destruct ctx; simplify_eq/=; [split_and!; try done; lia|].
    unfold drop_conn; simpl. destruct (conn cl); simpl; split_and!; try done; lia.
  - destruct p; simplify_eq/=. destruct ctx; simplify_eq/=; split_and!; try done; lia.
  - simplify_eq/=. split_and!; [done|lia..].
  - simplify_eq/=. split_and!; [done|lia..].
  - simplify_eq/=. unfold WriteJSON; simpl. destruct (conn cl); simpl; split_and!; try done; lia.
Qed.

(** An own step is enabled unless [Run] has returned. *)
Lemma own_step_enabled c :
  (∀ r, at_pc c ≠ PDone r) → ∃ ev c', is_own ev = true ∧ client_step ev c = Some c'.
Proof.
  intros Hnd. destruct c as [cl p b op wr de sh sl re]. simpl in Hnd.
  destruct p; [| | | | | | |by destruct (Hnd r)].
  - by exists EvGo; eexists.
  - by exists EvGo; eexists.
  - by exists (EvDial None None 0); eexists.
  - by exists (EvWake None); eexists.
  - exists EvGo. simpl. destruct (conn cl); by eexists.
  - by exists (EvRead (Ok "")); eexists.
  - by exists (EvAfterRead None 0); eexists.
Qed.

(** The delays [Run] has waited, and the one it would double next. *)
Definition sleeping_inv (m : Duration) (c : Config) : Prop :=
  maxBackoff (client c) = m ∧
  (at_pc c ≠ PIdle → initialBackoff ≤ backoff c ≤ m) ∧
  Forall (λ d, Z.min (2 * initialBackoff) m ≤ d ≤ m) (slept c).

Lemma sleep_next_inv m raw c p :
  initialBackoff ≤ m ≤ 2 ^ 53 → sleeping_inv m c → at_pc c ≠ PIdle →
  sleeping_inv m (goto p (sleep_next raw c)).
Proof.
  intros Hm (Hmax & Hb & Hs) Hp. specialize (Hb Hp).
  unfold sleeping_inv, sleep_next, goto; simpl. rewrite Hmax.
  assert (0 ≤ initialBackoff) by (unfold initialBackoff, Millisecond; lia).
  rewrite nextBackoff_exact by lia.
  pose proof (Z.mod_pos_bound raw (backoff c + 1)).
  split_and!; [done|lia|]. apply Forall_app. split; [done|]. constructor; [lia|done].
Qed.

Lemma sleeping_inv_step m ev c c' :
  initialBackoff ≤ m ≤ 2 ^ 53 → client_step ev c = Some c' →
  sleeping_inv m c → sleeping_inv m c'.
Proof.
  intros Hm Hs Hinv.
  assert (Hsame : ∀ c2, maxBackoff (client c2) = maxBackoff (client c) →
    slept c2 = slept c → (at_pc c2 ≠ PIdle → at_pc c ≠ PIdle) → backoff c2 = backoff c →
    sleeping_inv m c2).
  { intros c2 H1 H2 H3 H4. destruct Hinv as (? & Hb & ?).
    unfold sleeping_inv. rewrite H1, H2, H4. split_and!; [done|auto|done]. }
  destruct ev; unfold client_step in Hs.
  - destruct (at_pc c) eqn:Hpc; try done.
    + simplify_eq. destruct Hinv as (? & ? & ?). unfold sleeping_inv; simpl.
      split_and!; [done| |done]. intros _. lia.
    + simplify_eq. apply Hsame; try done; by rewrite Hpc.
    + destruct (conn (client c)); simplify_eq; apply Hsame; try done; by rewrite Hpc.
  - destruct (at_pc c) eqn:Hpc; try done. destruct res; [destruct ctx|]; simplify_eq.
    + apply Hsame; try done; by rewrite Hpc.
    + apply (sleep_next_inv m raw c PSleep); [done..|by rewrite Hpc].
    + destruct Hinv as (? & ? & ?). unfold sleeping_inv, connected, connect_ok; simpl.
      split_and!; [done|lia|done].
  - destruct (at_pc c) eqn:Hpc; try done. destruct res; simplify_eq.
    + unfold deliver. destruct h; apply Hsame; try done; by rewrite Hpc.
    + apply Hsame; try done; by rewrite Hpc.
  - destruct (at_pc c) eqn:Hpc; try done. destruct ctx; simplify_eq.
    + apply Hsame; try done; by rewrite Hpc.
    + apply (sleep_next_inv m raw (drop_conn c) PSleep); [done| |].
      * apply Hsame; unfold drop_conn; destruct (conn (client c)); done.
      * unfold drop_conn. destruct (conn (client c)); simpl; by rewrite Hpc.
  - destruct (at_pc c) eqn:Hpc; try done. simplify_eq. apply Hsame; try done; by rewrite Hpc.
  - simplify_eq. by apply Hsame.
  - simplify_eq. by apply Hsame.
  - simplify_eq. unfold WriteJSON. destruct (conn (client c)); by apply Hsame.
Qed.

(** *** Writing before [Run] *)

(** [Connect] succeeds, then a message is written, then [Run] is started. *)
Definition connect_then_write (msg : string) (cl : Client) : Config :=
  (WriteJSON msg (connect_ok (initial cl))).2.

(** Is [Run] using the connection it dialled itself? *)
Definition reads_conn (p : pc) : bool :=
  match p with PCheck | PReading _ _ | PAfterRead => true | _ => false end.

Definition first_conn_unread (c : Config) : Prop :=
  (1 ≤ opened c)%nat ∧
  (reads_conn (at_pc c) = true → conn (client c) ≠ Some O) ∧
  (∀ k h, at_pc c = PReading k h → k ≠ O) ∧
  Forall (λ d, d.1.2 ≠ O) (delivered c).

Lemma first_conn_unread_step ev c c' :
  client_step ev c = Some c' → first_conn_unread c → first_conn_unread c'.
Proof.
  intros Hs (Ho & Hr & Hk & Hd). destruct c as [cl p b op wr de sh sl re]. simpl in *.
  unfold first_conn_unread.
  destruct ev; simpl in Hs.
  - destruct p; simplify_eq/=; [split_and!; done..| |].
    + destruct (closed cl); split_and!; done.
    + destruct (conn cl) as [k|] eqn:Hc; simplify_eq/=; [|split_and!; try done; by rewrite Hc].
      destruct (closed cl); split_and!; try done; try (rewrite Hc; by apply Hr).
      intros k' h' [= <- <-] ->. by apply Hr.
  - destruct p; simplify_eq/=. destruct res; [destruct ctx|]; simplify_eq/=; split_and!; try done;
      try lia. intros _ [= ->]. lia.
  - destruct p as [| | | | |k h| |]; simplify_eq/=. destruct res; simplify_eq/=.
    + unfold deliver. destruct h; simpl; split_and!; try done; try (by intros; apply Hr).
      apply Forall_app. split; [done|]. constructor; [|done]. simpl. by eapply Hk.
    + split_and!; try done; by intros; apply Hr.
  - destruct p; simplify_eq/=. destruct ctx; simplify_eq/=; [split_and!; done|].
    unfold drop_conn; simpl. destruct (conn cl); simpl; split_and!; done.
  - destruct p; simplify_eq/=. destruct ctx; simplify_eq/=; split_and!; done.
  - simplify_eq/=. split_and!; done.
  - simplify_eq/=. split_and!; done.
  - simplify_eq/=. unfold WriteJSON; simpl. destruct (conn cl) eqn:Hc; simpl;
      split_and!; try done; by rewrite Hc.
Qed.

Lemma written_step ev c c' :
  client_step ev c = Some c' → (∀ m, ev ≠ EvWrite m) → written c' = written c.
Proof.
  intros Hs Hw. destruct c as [cl p b op wr de sh sl re].
  destruct ev; simpl in Hs; try (by destruct (Hw msg)); simplify_eq/=; try done.
  - destruct p; simplify_eq/=; try done. destruct (conn cl); by simplify_eq/=.
  - destruct p; simplify_eq/=. destruct res; [destruct ctx|]; by simplify_eq/=.
  - destruct p as [| | | | |k h| |]; simplify_eq/=. destruct res; simplify_eq/=; [|done].
    by destruct h.
  - destruct p; simplify_eq/=. destruct ctx; simplify_eq/=; [done|].
    unfold drop_conn; simpl. by destruct (conn cl).
  - destruct p; by simplify_eq/=.
Qed.

Lemma written_run evs c c' :
  client_run evs c = Some c' → Forall (λ ev, ∀ m, ev ≠ EvWrite m) evs →
  written c' = written c.
Proof.
  revert c. induction evs as [|ev evs IH]; intros c Hr HF; simpl in Hr; [by simplify_eq|].
  apply Forall_cons in HF as [Hev HF].
  destruct (client_step ev c) as [c1|] eqn:Hs; simpl in Hr; [|done].
  rewrite (IH c1) by done. by eapply written_step.
Qed.

(** ** Properties *)

(** the next delay doubles the previous one, adds a jitter of at most the previous
    one, and never exceeds the maximum. *)
Theorem nextBackoff_bounds (prev max raw : Z) :
  0 ≤ prev ≤ 2 ^ 53 →
  Z.min max (2 * prev) ≤ nextBackoff prev max raw ≤ Z.min max (3 * prev).
Proof.
  intros Hp. rewrite nextBackoff_exact by done.
  pose proof (Z.mod_pos_bound raw (prev + 1)). lia.
Qed.

(** C23: in every reachable configuration, each delay waited between two connection
    attempts lies between 200 ms and the maximum back-off. *)
Theorem Run_delays_bounded (cl : Client) (evs : list Event) (c : Config) :
  initialBackoff ≤ maxBackoff cl ≤ 2 ^ 53 →
  client_run evs (initial cl) = Some c →
  Forall (λ d, Z.min (2 * initialBackoff) (maxBackoff cl) ≤ d ≤ maxBackoff cl) (slept c).
Proof.
  intros Hm Hr.
  enough (sleeping_inv (maxBackoff cl) c) as (_ & _ & Hs) by done.
  eapply (client_run_ind (sleeping_inv (maxBackoff cl))); [|exact Hr|].
  - intros. by eapply sleeping_inv_step.
  - unfold sleeping_inv, initial; simpl. split_and!; try done.
Qed.

(** One failed attempt: test [closed], dial, wait. *)
Definition failed_attempt (e : error) (raw : Z) : list Event :=
  [EvGo; EvDial (Some e) None raw; EvWake None].

(** while dialling keeps failing the delay grows exponentially: after [k] failed
    attempts in a row it is at least the initial delay times [2^k], up to the maximum. *)
Theorem Run_backoff_exponential (raws : list Z) (e : error) (c : Config) :
  at_pc c = PTop → closed (client c) = false →
  0 ≤ backoff c → 0 ≤ maxBackoff (client c) ≤ 2 ^ 53 → backoff c ≤ maxBackoff (client c) →
  ∃ c', client_run (concat (map (failed_attempt e) raws)) c = Some c' ∧ at_pc c' = PTop ∧
        Z.min (maxBackoff (client c)) (2 ^ Z.of_nat (length raws) * backoff c) ≤ backoff c'.
Proof.
  revert c. induction raws as [|raw raws IH]; intros c Hpc Hcl Hb Hm Hbm.
  - exists c. simpl. split_and!; [done..|lia].
  - destruct c as [cl p b op wr de sh sl re]. cbn in Hpc, Hcl, Hb, Hm, Hbm. subst p.
    pose proof (nextBackoff_bounds b (maxBackoff cl) raw ltac:(lia)) as Hnb.
    destruct (IH (goto PTop (sleep_next raw (mkConfig cl PDial b op wr de sh sl re))))
      as (c' & Hr & Hpc' & Hb').
    1-5: cbn; try done; lia.
    exists c'. split_and!; [|done|].
    + rewrite <- Hr. cbn. by rewrite Hcl.
    + etrans; [|apply Hb']. cbn [client backoff goto sleep_next length].
      rewrite Nat2Z.inj_succ, Z.pow_succ_r by lia.
      assert (0 < 2 ^ Z.of_nat (length raws)) by (apply Z.pow_pos_nonneg; lia). nia.
Qed.

(** C21: after [Close], [Run] returns: it makes at most five more steps of its own, is
    never stuck before returning, and hands the handler at most one more message. *)
Theorem Close_stops_Run (c c' : Config) (evs : list Event) :
  client_run evs (Close c) = Some c' →
  (length (filter (λ ev, is_own ev = true) evs) + remaining (at_pc c') ≤ 5)%nat ∧
  (length (delivered c') ≤ S (length (delivered c)))%nat ∧
  ((∀ r, at_pc c' ≠ PDone r) → ∃ ev c2, is_own ev = true ∧ client_step ev c' = Some c2).
Proof.
  intros Hr. assert (Hcl : closed (client (Close c)) = true) by done.
  enough ((length (filter (λ ev, is_own ev = true) evs) + remaining (at_pc c')
           ≤ remaining (at_pc (Close c)))%nat ∧
    (length (delivered c') + (match at_pc c' with PReading _ _ => 1 | _ => 0 end) ≤
     length (delivered (Close c)) +
       (match at_pc (Close c) with PReading _ _ => 1 | _ => 0 end))%nat) as [H1 H2].
  { split_and!; [|simpl in *; destruct (at_pc c), (at_pc c'); lia|apply own_step_enabled].
    simpl in H1. assert (remaining (at_pc c) ≤ 5)%nat by (destruct (at_pc c); simpl; lia). lia. }
  revert Hr Hcl. generalize (Close c) as d. clear c.
  induction evs as [|ev evs IH]; intros d Hr Hcl; simpl in Hr; [by simplify_eq|].
  destruct (client_step ev d) as [d1|] eqn:Hs; simpl in Hr; [|done].
  destruct (closed_step _ _ _ Hs Hcl) as (Hcl1 & Hrem & Hdel).
  destruct (IH d1 Hr Hcl1) as [H1 H2].
  rewrite filter_cons. destruct (decide (is_own ev = true)) as [He|He].
  - rewrite He in Hrem. simpl. lia.
  - apply not_true_is_false in He. rewrite He in Hrem. lia.
Qed.

(** What was written before [Run] stays on a connection that is never read. *)
Lemma written_unread (msg : string) (cl : Client) (evs : list Event)
    (c : Config) :
  client_run evs (connect_then_write msg cl) = Some c →
  Forall (λ ev, ∀ m, ev ≠ EvWrite m) evs →
  written c = [(O, msg)] ∧
  Forall (λ d, ∀ m, (d.1.2, m) ∉ written c) (delivered c).
Proof.
  intros Hr HF.
  assert (Hw : written c = [(O, msg)]) by (by rewrite (written_run _ _ _ Hr HF)).
  assert (Hinv : first_conn_unread c).
  { eapply (client_run_ind first_conn_unread); [apply first_conn_unread_step|exact Hr|].
    unfold first_conn_unread, connect_then_write; simpl. split_and!; done || lia. }
  destruct Hinv as (_ & _ & _ & Hd). split; [done|]. rewrite Hw.
  eapply Forall_impl; [exact Hd|]. intros [[h k] m] Hk m' Hin. simpl in *.
  apply list_elem_of_singleton in Hin. by simplify_eq.
Qed.

(** a message written between [Connect] and [Run] (the Kraken subscription) goes out
    on a connection that [Run] never reads: [Run] dials again, so no message ever handed
    to the handler came from a connection on which anything was written. *)
Theorem write_before_Run_is_lost (msg : string) (cl : Client) (evs : list Event)
    (c : Config) :
  client_run evs (connect_then_write msg cl) = Some c →
  Forall (λ ev, ∀ m, ev ≠ EvWrite m) evs →
  written c = [(O, msg)] ∧
  Forall (λ d, ∀ m, (d.1.2, m) ∉ written c) (delivered c).
Proof. apply written_unread. Qed.

(** ** Witnesses *)

Lemma nextBackoff_bounds_witness :
  Z.min (30 * Second) (2 * initialBackoff) ≤ nextBackoff initialBackoff (30 * Second) 12345
    ≤ Z.min (30 * Second) (3 * initialBackoff).
Proof. apply nextBackoff_bounds. unfold initialBackoff, Millisecond. lia. Defined.

Definition sample_client : Client := SetHandler 1 (NewClient "wss://venue/ws" "binance").

Definition sample_events : list Event :=
  [EvGo; EvGo; EvDial (Some (ErrNew "refused")) None 77; EvWake None; EvGo;
   EvDial None None 0; EvGo; EvRead (Ok "m1"); EvGo; EvRead (Err (ErrNew "EOF"));
   EvAfterRead None 3; EvWake None; EvGo; EvDial None None 0; EvGo].

Lemma Run_delays_bounded_witness :
  ∃ c, client_run sample_events (initial sample_client) = Some c ∧
       slept c = [200000077; 200000003] ∧
       Forall (λ d, Z.min (2 * initialBackoff) (30 * Second) ≤ d ≤ 30 * Second) (slept c).
Proof.
  eexists. split; [vm_compute; reflexivity|]. split; [reflexivity|].
  apply (Run_delays_bounded sample_client sample_events).
  - unfold initialBackoff, Millisecond, sample_client, Second; simpl.
    unfold defaultMaxBackoff, Second. lia.
  - vm_compute. reflexivity.
Defined.

Lemma Run_backoff_exponential_witness :
  ∃ c', client_run (concat (map (failed_attempt (ErrNew "refused")) [5; 6; 7]))
          (set_backoff initialBackoff (goto PTop (initial sample_client))) = Some c' ∧
        at_pc c' = PTop ∧
        Z.min (maxBackoff sample_client) (2 ^ 3 * initialBackoff) ≤ backoff c'.
Proof.
  apply (Run_backoff_exponential [5; 6; 7] (ErrNew "refused")
    (set_backoff initialBackoff (goto PTop (initial sample_client))));
    unfold initialBackoff, Millisecond; simpl; unfold defaultMaxBackoff, Second; done || lia.
Defined.

Lemma Close_stops_Run_witness :
  ∃ c c', client_run [EvGo; EvGo; EvDial None None 0; EvGo] (initial sample_client) = Some c ∧
    client_run [EvRead (Ok "last"); EvGo; EvAfterRead None 1; EvWake None; EvGo] (Close c)
      = Some c' ∧ at_pc c' = PDone None ∧ (length (delivered c') ≤ S (length (delivered c)))%nat.
Proof.
  eexists _, _. split; [vm_compute; reflexivity|]. split; [vm_compute; reflexivity|].
  split; [reflexivity|].
  eapply (Close_stops_Run _ _ [EvRead (Ok "last"); EvGo; EvAfterRead None 1; EvWake None; EvGo]).
  vm_compute. reflexivity.
Defined.

Lemma write_before_Run_is_lost_witness :
  ∃ c, client_run [EvGo; EvGo; EvDial None None 0; EvGo; EvRead (Ok "hello")]
         (connect_then_write "subscribe" sample_client) = Some c ∧
       written c = [(O, "subscribe")] ∧ delivered c = [(1%nat, 1%nat, "hello")].
Proof.
  eexists. split; [vm_compute; reflexivity|]. split; [|reflexivity].
  apply (write_before_Run_is_lost "subscribe" sample_client
    [EvGo; EvGo; EvDial None None 0; EvGo; EvRead (Ok "hello")]).
  - vm_compute. reflexivity.
  - repeat constructor; by intros.
Defined.
