(* ===== verification/Decimal.v ===== *)
(** * Decimal arithmetic

    Prices and quantities are values of [github.com/shopspring/decimal], which is not
    part of the repository: its type and operations are a parameter of the model.  The
    laws the program relies on are stated as a separate class, and a concrete
    implementation with exact coefficients and exponents instantiates both. *)

From S2P Require Import Prelude GoStd World.

Open Scope Z_scope.

Class DecimalOps := {
  Dec : Type;
  dec_zero : Dec;                                (** [decimal.Zero], [decimal.Decimal{}] *)
  NewFromString : string → Dec * option error;
  NewFromFloat : float64 → Dec;
  NewFromInt : Z → Dec;
  dec_String : Dec → string;
  dec_Float64 : Dec → float64;                   (** first result of [Float64] *)
  dec_Add : Dec → Dec → Dec;
  dec_Sub : Dec → Dec → Dec;
  dec_Mul : Dec → Dec → Dec;
  dec_Div : Dec → Dec → Dec;
  dec_Cmp : Dec → Dec → comparison;
}.

Section ops.
Context `{DecimalOps}.

(** The comparisons of the library are defined from [Cmp]. *)
Definition IsZero (d : Dec) : bool :=
  match dec_Cmp d dec_zero with Eq => true | _ => false end.
Definition dec_Equal (a b : Dec) : bool :=
  match dec_Cmp a b with Eq => true | _ => false end.
Definition LessThan (a b : Dec) : bool :=
  match dec_Cmp a b with Lt => true | _ => false end.
Definition LessThanOrEqual (a b : Dec) : bool :=
  match dec_Cmp a b with Gt => false | _ => true end.
Definition GreaterThan (a b : Dec) : bool :=
  match dec_Cmp a b with Gt => true | _ => false end.

(** [p, _ := decimal.NewFromString(s)] *)
Definition ParseOrZero (s : string) : Dec := (NewFromString s).1.
End ops.

(** The documented behaviour the program relies on. *)
Class DecimalLaws `{DecimalOps} : Prop := {
  dec_Cmp_refl a : dec_Cmp a a = Eq;
  dec_Cmp_antisym a b : dec_Cmp a b = CompOpp (dec_Cmp b a);
}.

Lemma LessThan_irrefl `{DecimalLaws} d : LessThan d d = false.
Proof. unfold LessThan. by rewrite dec_Cmp_refl. Qed.

Lemma IsZero_zero `{DecimalLaws} : IsZero dec_zero = true.
Proof. unfold IsZero. by rewrite dec_Cmp_refl. Qed.

#[export] Hint Resolve LessThan_irrefl IsZero_zero : go.

(** ** A concrete implementation: [coef * 10^exp] *)

Record ExactDec := mkDec { coef : Z; expo : Z }.

(** Coefficients brought to the smaller exponent. *)
Definition align (a b : ExactDec) : Z * Z :=
  (coef a * 10 ^ (expo a - Z.min (expo a) (expo b)),
   coef b * 10 ^ (expo b - Z.min (expo a) (expo b))).

Definition exact_parse (s : string) : option ExactDec :=
  let '(neg, body) := match s with
                      | String "-"%char s' => (true, s') | String "+"%char s' => (false, s')
                      | _ => (false, s) end in
  let '(ip, fp) := SplitN2 body "."%char in
  let f := match fp with Some f => f | None => "" end in
  match (ip +:+ f)%string with
  | EmptyString => None
  | ds => c ← parse_digits ds 0;
          Some (mkDec (if neg : bool then - c else c) (- Z.of_nat (String.length f)))
  end.

Definition exact_of_float (x : float64) : ExactDec :=
  match x with
  | S754_finite sg m e =>
      let c := if sg : bool then Z.neg m else Z.pos m in
      if 0 <=? e then mkDec (c * 2 ^ e) 0 else mkDec (c * 5 ^ (- e)) e
  | _ => mkDec 0 0
  end.

Definition exact_div (a b : ExactDec) : ExactDec :=
  let '(x, y) := align a b in
  let n := Z.abs x * 10 ^ 16 in
  let q := Z.quot (2 * n + Z.abs y) (2 * Z.abs y) in
  mkDec (Z.sgn x * Z.sgn y * q) (-16).

(** Decimal notation, without an exponent. *)
Definition exact_String (d : ExactDec) : string :=
  if 0 <=? expo d then FormatInt (coef d * 10 ^ expo d)
  else
    let n := Z.to_nat (- expo d) in
    let a := Z.abs (coef d) in
    let frac := FormatInt (a mod 10 ^ Z.of_nat n) in
    (if coef d <? 0 then "-" else "") +:+ FormatInt (a / 10 ^ Z.of_nat n) +:+ "." +:+
    Repeat "0" (n - String.length frac) +:+ frac.

Definition exact_ops : DecimalOps := {|
  Dec := ExactDec;
  dec_zero := mkDec 0 0;
  NewFromString s := match exact_parse s with
                     | Some d => (d, None)
                     | None => (mkDec 0 0, Some (ErrNew ("can't convert " +:+ s +:+ " to decimal")))
                     end;
  NewFromFloat := exact_of_float;
  NewFromInt z := mkDec z 0;
  dec_String := exact_String;
  dec_Float64 d := if 0 <=? expo d then f64_of_int (coef d * 10 ^ expo d)
                   else f64_div (f64_of_int (coef d)) (f64_of_int (10 ^ (- expo d)));
  dec_Add a b := let '(x, y) := align a b in mkDec (x + y) (Z.min (expo a) (expo b));
  dec_Sub a b := let '(x, y) := align a b in mkDec (x - y) (Z.min (expo a) (expo b));
  dec_Mul a b := mkDec (coef a * coef b) (expo a + expo b);
  dec_Div := exact_div;
  dec_Cmp a b := let '(x, y) := align a b in x ?= y;
|}.

Lemma exact_laws : @DecimalLaws exact_ops.
Proof.
  split.
  - intros a. simpl. apply Z.compare_refl.
  - intros a b. simpl. rewrite (Z.min_comm (expo b)). apply Z.compare_antisym.
Qed.
