(* ===== verification/Venue.v ===== *)
(** * The common venue contract (internal/venue/venue.go, errors.go)

    The domain types every adapter speaks, and the [VenueConnector] interface the
    service is written against. *)

From S2P Require Import Prelude GoStd World Decimal.

Open Scope Z_scope.

(** [Side], [OrderType] and [OrderStatus] are Go string types: any string is a value,
    the constants are the ones the program names. *)
Abbreviation Side := string (only parsing).
Abbreviation OrderType := string (only parsing).
Abbreviation OrderStatus := string (only parsing).

Definition SideBuy : Side := "buy".
Definition SideSell : Side := "sell".
Definition OrderTypeMarket : OrderType := "market".
Definition OrderTypeLimit : OrderType := "limit".
Definition OrderStatusNew : OrderStatus := "new".
Definition OrderStatusPartial : OrderStatus := "partial".
Definition OrderStatusFilled : OrderStatus := "filled".
Definition OrderStatusCanceled : OrderStatus := "canceled".

Definition ErrOrderNotFound : error := ErrNew "venue: order not found".

Module OrderRequest.
Record t `{DecimalOps} := mk {
  ClientOrderID : string;
  Symbol : string;
  Side : string;
  Type_ : string;
  Quantity : Dec;
  Price : Dec;
}.
End OrderRequest.

Module CancelRequest.
Record t := mk { VenueOrderID : string; ClientOrderID : string }.
End CancelRequest.

Module FillQuery.
Record t := mk { VenueOrderID : string; Start : Time; End_ : Time; Limit : Z }.
End FillQuery.

Module Fill.
Record t `{DecimalOps} := mk {
  VenueOrderID : string;
  TradeID : string;
  Price : Dec;
  Quantity : Dec;
  Fee : Dec;
  FeeAsset : string;
  Timestamp : Time;
}.
End Fill.

Module OrderResponse.
Record t `{DecimalOps} := mk {
  VenueOrderID : string;
  ClientOrderID : string;
  Status : string;
  FilledQty : Dec;
  AvgPrice : Dec;
  Fills : list Fill.t;
}.
End OrderResponse.

Module Balance.
Record t `{DecimalOps} := mk { Asset : string; Free : Dec; Locked : Dec }.
End Balance.

Module Balances.
Record t `{DecimalOps} := mk { Assets : gmap string Balance.t }.
End Balances.

Module BookLevel.
Record t `{DecimalOps} := mk { Price : Dec; Size : Dec }.
End BookLevel.

Module BookUpdate.
Record t `{DecimalOps} := mk {
  Pair : string;
  Bids : list BookLevel.t;
  Asks : list BookLevel.t;
  TS : Time;
}.
End BookUpdate.

Module VenueConfig.
Record t := mk {
  Name : string;
  RESTBase : string;
  WSBase : string;
  Knobs : gmap string string;
}.
End VenueConfig.

(** A channel of book updates: its capacity and the pairs it carries. *)
Record Chan := mkChan { ch_capacity : nat; ch_pairs : list string }.

(** The interface, for a connector whose state is [C]. *)
Class VenueConnector `{Env, DecimalOps} (C : Type) := {
  PlaceOrder : OrderRequest.t → M C (result OrderResponse.t);
  CancelOrder : CancelRequest.t → M C (option error);
  GetOrder : string → M C (result OrderResponse.t);
  GetFills : FillQuery.t → M C (result (list Fill.t));
  GetBalances : M C (result Balances.t);
  SubscribeBook : list string → M C (result Chan);
}.

(** [if limit > 0 && len(out) > limit { out = out[:limit] }] *)
Definition truncate_limit {A} (limit : Z) (out : list A) : list A :=
  if (0 <? limit) && (limit <? Z.of_nat (length out)) then take (Z.to_nat limit) out else out.

Lemma truncate_limit_prefix {A} (limit : Z) (out : list A) :
  ∃ rest, out = truncate_limit limit out ++ rest.
Proof.
  unfold truncate_limit. destruct (_ && _).
  - exists (drop (Z.to_nat limit) out). by rewrite take_drop.
  - exists []. by rewrite app_nil_r.
Qed.

Lemma truncate_limit_length {A} (limit : Z) (out : list A) :
  0 < limit → Z.of_nat (length (truncate_limit limit out)) = Z.min limit (Z.of_nat (length out)).
Proof.
  intros Hl. unfold truncate_limit.
  destruct (Z.ltb_spec 0 limit), (Z.ltb_spec limit (Z.of_nat (length out))); simpl;
    rewrite ?length_take; lia.
Qed.

Lemma truncate_limit_none {A} (limit : Z) (out : list A) :
  limit ≤ 0 → truncate_limit limit out = out.
Proof. intros Hl. unfold truncate_limit. by destruct (Z.ltb_spec 0 limit); [lia|]. Qed.
