(* ===== verification/Dummy.v ===== *)
(** * The dummy connector (internal/venue/dummy.go)

    An in-memory venue that fills every order at once.  [PlaceOrder] returns the very
    pointer it stores, so the orders live in a heap of shared objects: [CancelOrder]
    writes through that pointer while [GetOrder] hands out copies. *)

From S2P Require Import Prelude GoStd World Decimal Venue.

Open Scope Z_scope.

Section dummy.
Context `{Env, DecimalOps, OsEnv}.

Record DummyVenueConnector := mkDummy {
  price : Dec;
  fills : list Fill.t;
  orders : gmap string nat;                  (** order id to heap location *)
  heap : gmap nat OrderResponse.t;           (** the [OrderResponse] objects *)
  next_loc : nat;
}.

(** The Go literal [num/den] as a [float64]. *)
Definition f64_lit (num den : Z) : float64 := f64_div (f64_of_int num) (f64_of_int den).

Definition NewDummyVenueConnector : DummyVenueConnector :=
  let price := NewFromFloat (f64_of_int 50000) in
  let v := getenv "DUMMY_PRICE" in
  let price := if negb (String.eqb v "") then
                 match NewFromString v with (p, None) => p | (_, Some _) => price end
               else price in
  mkDummy price [] ∅ ∅ 0.

(** The body of [PlaceOrder]: the location of the stored response. *)
Definition PlaceOrder_loc (req : OrderRequest.t) : M DummyVenueConnector nat :=
  id ← (if String.eqb (OrderRequest.ClientOrderID req) "" then new_uuid
        else mret (OrderRequest.ClientOrderID req));
  d ← get;
  let px := if IsZero (OrderRequest.Price req) then price d else OrderRequest.Price req in
  let qty := OrderRequest.Quantity req in
  trade ← new_uuid;
  let fee := dec_Mul (dec_Mul px qty) (NewFromFloat (f64_lit 1 1000)) in
  ts ← now;
  let fill := Fill.mk _ id trade px qty fee "USDT" ts in
  let resp := OrderResponse.mk _ id id OrderStatusFilled qty px [fill] in
  modify (λ d, mkDummy (price d) (fills d ++ [fill]) (<[id := next_loc d]> (orders d))
                       (<[next_loc d := resp]> (heap d)) (S (next_loc d))) ;;
  mret (next_loc d).

Definition deref (l : nat) (d : DummyVenueConnector) : option OrderResponse.t := heap d !! l.

Definition set_status (st : string) (o : OrderResponse.t) : OrderResponse.t :=
  OrderResponse.mk _ (OrderResponse.VenueOrderID o) (OrderResponse.ClientOrderID o) st
    (OrderResponse.FilledQty o) (OrderResponse.AvgPrice o) (OrderResponse.Fills o).

(** What the caller sees through the returned pointer. *)
Definition dummy_PlaceOrder (req : OrderRequest.t) :
    M DummyVenueConnector (result OrderResponse.t) :=
  l ← PlaceOrder_loc req;
  d ← get;
  mret (match deref l d with Some o => Ok o | None => Err (ErrNew "nil pointer") end).

Definition dummy_CancelOrder (req : CancelRequest.t) : M DummyVenueConnector (option error) :=
  let id := if String.eqb (CancelRequest.VenueOrderID req) ""
            then CancelRequest.ClientOrderID req else CancelRequest.VenueOrderID req in
  modify (λ d, match orders d !! id with
               | Some l => mkDummy (price d) (fills d) (orders d)
                             (alter (set_status OrderStatusCanceled) l (heap d)) (next_loc d)
               | None => d
               end) ;;
  mret None.

Definition dummy_GetOrder (venueOrderID : string) :
    M DummyVenueConnector (result OrderResponse.t) :=
  d ← get;
  mret (match l ← orders d !! venueOrderID; deref l d with
        | Some o => Ok o
        | None => Err ErrOrderNotFound
        end).

(** Does the query keep the fill? *)
Definition fill_matches (q : FillQuery.t) (f : Fill.t) : bool :=
  negb (negb (String.eqb (FillQuery.VenueOrderID q) "") &&
        negb (String.eqb (Fill.VenueOrderID f) (FillQuery.VenueOrderID q))) &&
  negb (negb (Time_IsZero (FillQuery.Start q)) &&
        Time_Before (Fill.Timestamp f) (FillQuery.Start q)) &&
  negb (negb (Time_IsZero (FillQuery.End_ q)) &&
        Time_After (Fill.Timestamp f) (FillQuery.End_ q)).

Definition dummy_GetFills (q : FillQuery.t) : M DummyVenueConnector (result (list Fill.t)) :=
  d ← get;
  mret (Ok (truncate_limit (FillQuery.Limit q)
              (filter (λ f, fill_matches q f = true) (fills d)))).

Definition dummy_GetBalances : M DummyVenueConnector (result Balances.t) :=
  mret (Ok (Balances.mk _
    (<["ETH" := Balance.mk _ "ETH" (NewFromFloat (f64_of_int 20)) dec_zero]>
    (<["USDT" := Balance.mk _ "USDT" (NewFromFloat (f64_of_int 250000))
                                     (NewFromFloat (f64_of_int 1000))]>
    (<["BTC" := Balance.mk _ "BTC" (NewFromFloat (f64_lit 3 2)) (NewFromFloat (f64_lit 1 10))]>
      ∅))))).

Definition dummy_SubscribeBook (pairs : list string) : M DummyVenueConnector (result Chan) :=
  mret (Ok (mkChan 16 pairs)).

(** [rand.Float64() - 0.5] *)
Definition rand_centred {S} : M S float64 :=
  r ← rand_int63n (2 ^ 53);
  mret (SFsub 53 1024 (f64_div (f64_of_int r) (f64_of_int (2 ^ 53))) (f64_lit 1 2)).

(** One update of a pair at a tick of the subscription's ticker. *)
Definition tick_update (base : Dec) (pair : string) : M DummyVenueConnector BookUpdate.t :=
  r ← rand_centred;
  let delta := dec_Mul (dec_Mul (NewFromFloat r) base) (NewFromFloat (f64_lit 1 1000)) in
  let mid := dec_Add base delta in
  ts ← now;
  mret (BookUpdate.mk _ pair
          [BookLevel.mk _ (dec_Sub mid (NewFromInt 1)) (NewFromFloat (f64_lit 1 2))]
          [BookLevel.mk _ (dec_Add mid (NewFromInt 1)) (NewFromFloat (f64_lit 1 2))] ts).

(** The updates sent at one tick, in the order of the pairs; the [select] on the context
    ends the goroutine, leaving the remaining pairs out. *)
Fixpoint dummy_tick (base : Dec) (pairs : list string) :
    M DummyVenueConnector (list BookUpdate.t * bool) :=
  match pairs with
  | [] => mret ([], true)
  | p :: pairs' =>
      u ← tick_update base p;
      done_ ← ctx_done;
      match done_ with
      | Some _ => mret ([], false)
      | None => r ← dummy_tick base pairs';
                mret (u :: (r : list BookUpdate.t * bool).1, r.2)
      end
  end.

Definition LastFill : M DummyVenueConnector (option Fill.t) := d ← get; mret (last (fills d)).

#[export] Instance dummy_VenueConnector : VenueConnector DummyVenueConnector := {|
  PlaceOrder := dummy_PlaceOrder;
  CancelOrder := dummy_CancelOrder;
  GetOrder := dummy_GetOrder;
  GetFills := dummy_GetFills;
  GetBalances := dummy_GetBalances;
  SubscribeBook := dummy_SubscribeBook;
|}.

(** The identifier under which a cancel request looks an order up. *)
Definition cancel_id (req : CancelRequest.t) : string :=
  if String.eqb (CancelRequest.VenueOrderID req) ""
  then CancelRequest.ClientOrderID req else CancelRequest.VenueOrderID req.

(** Well-formed state: every stored order has its object, under its own identifier, no
    two identifiers share an object, and fresh locations are unused. *)
Definition dummy_wf (d : DummyVenueConnector) : Prop :=
  (∀ id l, orders d !! id = Some l →
     (l < next_loc d)%nat ∧ ∃ o, heap d !! l = Some o ∧ OrderResponse.VenueOrderID o = id) ∧
  (∀ l, (next_loc d ≤ l)%nat → heap d !! l = None).

End dummy.

(** ** Lemmas *)

Section dummy_lemmas.
Context `{Env, DecimalOps}.

Lemma PlaceOrder_loc_run req d w l d' w' :
  PlaceOrder_loc req d w = (l, d', w') →
  l = next_loc d ∧ ∃ id fill resp,
    (OrderRequest.ClientOrderID req ≠ "" → id = OrderRequest.ClientOrderID req) ∧
    fills d' = fills d ++ [fill] ∧ orders d' = <[id := l]> (orders d) ∧
    heap d' = <[l := resp]> (heap d) ∧ next_loc d' = S (next_loc d) ∧
    resp = OrderResponse.mk _ id id OrderStatusFilled (OrderRequest.Quantity req)
             (Fill.Price fill) [fill] ∧
    Fill.VenueOrderID fill = id ∧ Fill.Quantity fill = OrderRequest.Quantity req ∧
    (IsZero (OrderRequest.Price req) = false → Fill.Price fill = OrderRequest.Price req).
Proof.
  unfold PlaceOrder_loc. intros Hr. munfold.
  destruct (String.eqb_spec (OrderRequest.ClientOrderID req) "") as [He|He];
    simpl in Hr; simplify_eq/=; (split; [done|]);
    [exists (env_uuid (w_uuid w))|exists (OrderRequest.ClientOrderID req)];
    eexists _, _; (split; [by intros|]); split_and!; try done; by intros Hz; simpl; rewrite Hz.
Qed.

Lemma dummy_wf_PlaceOrder req d w : dummy_wf d → dummy_wf (PlaceOrder_loc req d w).1.2.
Proof.
  destruct (PlaceOrder_loc req d w) as [[l d'] w'] eqn:Hr. simpl. intros [Ho Hh].
  apply PlaceOrder_loc_run in Hr as (-> & id & fill & resp & _ & _ & Hor & Hhe & Hn & Hresp & _).
  split.
  - intros id' l' Hl. rewrite Hor in Hl. rewrite Hhe, Hn.
    destruct (decide (id = id')) as [<-|Hne].
    + rewrite lookup_insert_eq in Hl. simplify_eq. rewrite lookup_insert_eq.
      split; [lia|]. by eexists.
    + rewrite lookup_insert_ne in Hl by done. destruct (Ho _ _ Hl) as [? (o & ? & ?)].
      rewrite lookup_insert_ne by lia. split; [lia|]. by exists o.
  - intros l' Hl. rewrite Hhe, lookup_insert_ne by lia. apply Hh. lia.
Qed.

Lemma dummy_wf_CancelOrder req d w : dummy_wf d → dummy_wf (dummy_CancelOrder req d w).1.2.
Proof.
  intros [Ho Hh]. unfold dummy_CancelOrder. munfold.
  destruct (orders d !! _) as [l|] eqn:Hl; [|done]. split; simpl.
  - intros id' l' Hl'. destruct (Ho _ _ Hl') as [? (o & Hho & Hid)]. split; [done|].
    destruct (decide (l = l')) as [<-|Hne].
    + rewrite lookup_alter_eq, Hho. by eexists.
    + rewrite lookup_alter_ne by done. by exists o.
  - intros l' Hl'. destruct (decide (l = l')) as [<-|Hne].
    + rewrite lookup_alter_eq, Hh by done. done.
    + rewrite lookup_alter_ne by done. by apply Hh.
Qed.
End dummy_lemmas.

(** ** Properties *)

Section properties.
Context `{Env, DecimalOps}.

(** an order placed on the dummy venue is filled at once and can be read back: it is
    returned as stored, with the client's identifier, the whole quantity and one fill
    that [GetFills] then reports last. *)
Theorem dummy_place_then_read (req : OrderRequest.t) (d : DummyVenueConnector) (w : World) :
  OrderRequest.ClientOrderID req ≠ "" →
  let '(r, d', w') := dummy_PlaceOrder req d w in
  ∃ o f, r = Ok o ∧
    OrderResponse.VenueOrderID o = OrderRequest.ClientOrderID req ∧
    OrderResponse.Status o = OrderStatusFilled ∧
    OrderResponse.FilledQty o = OrderRequest.Quantity req ∧ OrderResponse.Fills o = [f] ∧
    (dummy_GetOrder (OrderRequest.ClientOrderID req) d' w').1.1 = Ok o ∧
    (∃ fs, (dummy_GetFills (FillQuery.mk (OrderRequest.ClientOrderID req) 0 0 0) d' w').1.1
           = Ok (fs ++ [f])).
Proof.
  intros Hid. unfold dummy_PlaceOrder, mbind, M_bind.
  destruct (PlaceOrder_loc req d w) as [[l d'] w'] eqn:Hr.
  apply PlaceOrder_loc_run in Hr
    as (-> & id & fill & resp & Hc & Hf & Ho & Hh & _ & Hresp & Hfid & _).
  rewrite (Hc Hid) in *. unfold get, deref, mret, M_ret. rewrite Hh, lookup_insert_eq.
  exists resp, fill. subst resp. split_and!; try done.
  - unfold dummy_GetOrder, mbind, M_bind, get, mret, M_ret. simpl.
    unfold deref. rewrite Ho, lookup_insert_eq. simpl. by rewrite Hh, lookup_insert_eq.
  - unfold dummy_GetFills, mbind, M_bind, get, mret, M_ret. simpl. rewrite Hf, filter_app.
    eexists. rewrite truncate_limit_none by done. do 2 f_equal.
    rewrite filter_cons_True; [done|].
    unfold fill_matches. simpl. by rewrite Hfid, String.eqb_refl, andb_false_r.
Qed.

(** the response returned by [PlaceOrder] is shared with the connector: cancelling the
    order changes the status seen through the caller's pointer, while a copy obtained from
    [GetOrder] before the cancel keeps its status. *)
Theorem dummy_response_is_shared (req : OrderRequest.t) (creq : CancelRequest.t)
    (d : DummyVenueConnector) (w : World) :
  OrderRequest.ClientOrderID req ≠ "" → cancel_id creq = OrderRequest.ClientOrderID req →
  let '(l, d1, w1) := PlaceOrder_loc req d w in
  let copy := (dummy_GetOrder (OrderRequest.ClientOrderID req) d1 w1).1.1 in
  let d2 := (dummy_CancelOrder creq d1 w1).1.2 in
  OrderResponse.Status <$> deref l d1 = Some OrderStatusFilled ∧
  OrderResponse.Status <$> deref l d2 = Some OrderStatusCanceled ∧
  OrderResponse.Status <$> copy = Ok OrderStatusFilled.
Proof.
  intros Hid Hc. destruct (PlaceOrder_loc req d w) as [[l d1] w1] eqn:Hr.
  apply PlaceOrder_loc_run in Hr
    as (-> & id & fill & resp & Hcl & Hf & Ho & Hh & _ & Hresp & _).
  rewrite (Hcl Hid) in *. cbn zeta. unfold deref. split_and!.
  - rewrite Hh, lookup_insert_eq. by subst.
  - unfold dummy_CancelOrder, mbind, M_bind, modify, mret, M_ret.
    fold (cancel_id creq). rewrite Hc. simpl. rewrite Ho, lookup_insert_eq. simpl.
    rewrite lookup_alter_eq, Hh, lookup_insert_eq. done.
  - unfold dummy_GetOrder, mbind, M_bind, get, mret, M_ret, deref. simpl.
    rewrite Ho, lookup_insert_eq. simpl. rewrite Hh, lookup_insert_eq. by subst.
Qed.

(** placing and cancelling keep the connector well formed: every identifier leads to
    a live object carrying that identifier. *)
Theorem dummy_operations_keep_wf (req : OrderRequest.t) (creq : CancelRequest.t)
    (d : DummyVenueConnector) (w : World) :
  dummy_wf d →
  dummy_wf (dummy_PlaceOrder req d w).1.2 ∧ dummy_wf (dummy_CancelOrder creq d w).1.2.
Proof.
  intros Hwf. split; [|by apply dummy_wf_CancelOrder].
  pose proof (dummy_wf_PlaceOrder req d w Hwf) as Hp.
  unfold dummy_PlaceOrder, mbind, M_bind. destruct (PlaceOrder_loc req d w) as [[l d1] w1].
  exact Hp.
Qed.
End properties.

(** ** Witnesses *)

Section witnesses.
#[local] Existing Instance exact_ops.

Definition no_vars : OsEnv := {| getenv := λ _, "" |}.

Definition market_buy : OrderRequest.t :=
  OrderRequest.mk _ "c1" "BTCUSDT" SideBuy OrderTypeMarket (mkDec 2 0) (mkDec 0 0).

Definition empty_dummy : DummyVenueConnector := @NewDummyVenueConnector exact_ops no_vars.

Lemma dummy_place_then_read_witness :
  let _ := quiet_env 7 1 in
  let '(r, d', w') := dummy_PlaceOrder market_buy empty_dummy World_init in
  ∃ o f, r = Ok o ∧
    OrderResponse.VenueOrderID o = OrderRequest.ClientOrderID market_buy ∧
    OrderResponse.Status o = OrderStatusFilled ∧
    OrderResponse.FilledQty o = OrderRequest.Quantity market_buy ∧
    OrderResponse.Fills o = [f] ∧
    (dummy_GetOrder (OrderRequest.ClientOrderID market_buy) d' w').1.1 = Ok o ∧
    (∃ fs, (dummy_GetFills (FillQuery.mk (OrderRequest.ClientOrderID market_buy) 0 0 0) d' w').1.1
           = Ok (fs ++ [f])).
Proof.
  apply (dummy_place_then_read (H := quiet_env 7 1) market_buy empty_dummy World_init).
  done.
Defined.

Lemma dummy_response_is_shared_witness :
  let _ := quiet_env 7 1 in
  let '(l, d1, w1) := PlaceOrder_loc market_buy empty_dummy World_init in
  let copy := (dummy_GetOrder (OrderRequest.ClientOrderID market_buy) d1 w1).1.1 in
  let d2 := (dummy_CancelOrder (CancelRequest.mk "c1" "") d1 w1).1.2 in
  OrderResponse.Status <$> deref l d1 = Some OrderStatusFilled ∧
  OrderResponse.Status <$> deref l d2 = Some OrderStatusCanceled ∧
  OrderResponse.Status <$> copy = Ok OrderStatusFilled.
Proof.
  apply (dummy_response_is_shared (H := quiet_env 7 1) market_buy (CancelRequest.mk "c1" "")
           empty_dummy World_init); done.
Defined.

Lemma dummy_operations_keep_wf_witness :
  let _ := quiet_env 7 1 in
  dummy_wf (dummy_PlaceOrder market_buy empty_dummy World_init).1.2 ∧
  dummy_wf (dummy_CancelOrder (CancelRequest.mk "c1" "") empty_dummy World_init).1.2.
Proof.
  apply (dummy_operations_keep_wf (H := quiet_env 7 1) market_buy (CancelRequest.mk "c1" "")
           empty_dummy World_init).
  split; [intros id l Hl; by apply (lookup_empty_Some id l) in Hl|intros; apply lookup_empty].
Defined.
End witnesses.
