(* ===== verification/BookAgg.v ===== *)
(** * Top-of-book aggregation (internal/book/book.go)

    One goroutine consumes the subscription's channel and records the latest top of book
    per pair; [Get] reads it; [Close] cancels a context derived from the subscription's
    context. *)

From S2P Require Import Prelude GoStd World Decimal Venue.

Open Scope Z_scope.

Section book.
Context `{DecimalOps}.

Record TopOfBook := mkTop { Pair : string; Bid : float64; Ask : float64; TS : Time }.

(** The two contexts of [NewBookAggregator]: the caller's, which the subscription runs
    under, and the derived one, which only [Close] cancels. *)
Record BookAggregator := mkAgg {
  latest : gmap string TopOfBook;
  parent_done : bool;
  derived_done : bool;
}.

Definition NewBookAggregator `{Env} {C} `{!VenueConnector C} (pairs : list string) :
    M C (result BookAggregator) :=
  r ← SubscribeBook pairs;
  mret (match r with
        | Err e => Err e
        | Ok _ => Ok (mkAgg ∅ false false)
        end).

Definition first_price (ls : list BookLevel.t) : float64 :=
  match ls with [] => f64_zero | l :: _ => dec_Float64 (BookLevel.Price l) end.

Definition top_of (u : BookUpdate.t) : TopOfBook :=
  mkTop (BookUpdate.Pair u) (first_price (BookUpdate.Bids u)) (first_price (BookUpdate.Asks u))
        (BookUpdate.TS u).

(** One iteration of [consume]. *)
Definition consume_one (u : BookUpdate.t) (a : BookAggregator) : BookAggregator :=
  mkAgg (<[BookUpdate.Pair u := top_of u]> (latest a)) (parent_done a) (derived_done a).

(** [consume] over the updates received before the channel is closed. *)
Definition consume (us : list BookUpdate.t) (a : BookAggregator) : BookAggregator :=
  fold_left (λ a u, consume_one u a) us a.

Definition Get (pair : string) (a : BookAggregator) : option TopOfBook := latest a !! pair.

Definition Close (a : BookAggregator) : BookAggregator :=
  mkAgg (latest a) (parent_done a) true.

(** The feed may still deliver as long as the subscription's own context lives. *)
Definition feed_alive (a : BookAggregator) : bool := negb (parent_done a).

(** ** Lemmas *)

Lemma consume_app us1 us2 a : consume (us1 ++ us2) a = consume us2 (consume us1 a).
Proof. unfold consume. apply fold_left_app. Qed.

(** ** Properties *)

(** [Get] reports the best levels of the last update received for the pair, a side
    without levels counting as price zero, and nothing for a pair never updated. *)
Theorem Get_last_update (us : list BookUpdate.t) (a : BookAggregator) (p : string) :
  Get p (consume us a) =
  match last (filter (λ u, BookUpdate.Pair u = p) us) with
  | Some u => Some (mkTop p (first_price (BookUpdate.Bids u)) (first_price (BookUpdate.Asks u))
                          (BookUpdate.TS u))
  | None => Get p a
  end.
Proof.
  induction us as [|u us IH] using rev_ind; [done|].
  rewrite consume_app, filter_app. unfold Get in *. simpl.
  destruct (decide (BookUpdate.Pair u = p)) as [Hp|Hp].
  - rewrite filter_cons_True, filter_nil, last_snoc by done. subst p.
    unfold consume, consume_one. simpl. rewrite lookup_insert_eq. done.
  - rewrite filter_cons_False, filter_nil, app_nil_r by done.
    unfold consume at 1, consume_one. simpl. by rewrite lookup_insert_ne.
Qed.

(** [Close] does not stop the feed: the subscription runs under the parent context,
    so after [Close] the aggregator is as alive as before and goes on recording updates. *)
Theorem Close_does_not_stop_feed (a : BookAggregator) (u : BookUpdate.t) :
  feed_alive (Close a) = feed_alive a ∧
  Get (BookUpdate.Pair u) (consume [u] (Close a)) = Some (top_of u).
Proof. split; [done|]. unfold Get. simpl. apply lookup_insert_eq. Qed.
End book.
