(* ===== verification/Store.v ===== *)
(** * The order and fill store (internal/store/store.go)

    The [Store] interface, its in-memory implementation, and the specification both are
    held to: orders are recorded once per client identifier, fills once per venue and
    trade identifier. *)

From S2P Require Import Prelude GoStd World Decimal.

Open Scope Z_scope.

Module Order.
Record t `{DecimalOps} := mk {
  VenueOrderID : string;
  ClientOrderID : string;
  Venue : string;
  Pair : string;
  Side : string;
  OrderType : string;
  Status : string;
  FilledQty : Dec;
  AvgPrice : Dec;
  Quantity : Dec;
  Price : Dec;
  CreatedAt : Time;
  UpdatedAt : Time;
}.
End Order.

Module StoreFill.
Record t `{DecimalOps} := mk {
  VenueOrderID : string;
  TradeID : string;
  Venue : string;
  Pair : string;
  Price : Dec;
  Quantity : Dec;
  Fee : Dec;
  FeeAsset : string;
  Timestamp : Time;
}.
End StoreFill.

Section store.
Context `{Env, DecimalOps}.

(** The key of an order and of a fill. *)
Definition fill_key (f : StoreFill.t) : string * string :=
  (StoreFill.Venue f, StoreFill.TradeID f).

(** The interface, for a store whose state is [T]. *)
Class Store (T : Type) := {
  RecordOrder : Order.t → M T (result bool);
  GetOrderByClientID : string → M T (option Order.t);
  RecordFill : StoreFill.t → M T (result bool);
  FillsForOrder : string → M T (result (list StoreFill.t));
}.

Record MemStore := mkMem { orders : gmap string Order.t; fills : list StoreFill.t }.

Definition New : MemStore := mkMem ∅ [].

Definition stamp_order (created updated : Time) (o : Order.t) : Order.t :=
  Order.mk _ (Order.VenueOrderID o) (Order.ClientOrderID o) (Order.Venue o) (Order.Pair o)
    (Order.Side o) (Order.OrderType o) (Order.Status o) (Order.FilledQty o) (Order.AvgPrice o)
    (Order.Quantity o) (Order.Price o) created updated.

Definition stamp_fill (ts : Time) (f : StoreFill.t) : StoreFill.t :=
  StoreFill.mk _ (StoreFill.VenueOrderID f) (StoreFill.TradeID f) (StoreFill.Venue f)
    (StoreFill.Pair f) (StoreFill.Price f) (StoreFill.Quantity f) (StoreFill.Fee f)
    (StoreFill.FeeAsset f) ts.

Definition mem_RecordOrder (o : Order.t) : M MemStore (result bool) :=
  s ← get;
  match orders s !! Order.ClientOrderID o with
  | Some _ => mret (Ok false)
  | None =>
      created ← (if Time_IsZero (Order.CreatedAt o) then now else mret (Order.CreatedAt o));
      updated ← now;
      put (mkMem (<[Order.ClientOrderID o := stamp_order created updated o]> (orders s))
                 (fills s)) ;;
      mret (Ok true)
  end.

Definition mem_GetOrderByClientID (id : string) : M MemStore (option Order.t) :=
  s ← get; mret (orders s !! id).

(** The duplicate test of the loop of [RecordFill]. *)
Definition same_fill (f existing : StoreFill.t) : bool :=
  String.eqb (StoreFill.Venue existing) (StoreFill.Venue f) &&
  String.eqb (StoreFill.TradeID existing) (StoreFill.TradeID f).

Definition mem_RecordFill (f : StoreFill.t) : M MemStore (result bool) :=
  s ← get;
  if existsb (same_fill f) (fills s) then mret (Ok false)
  else
    ts ← (if Time_IsZero (StoreFill.Timestamp f) then now else mret (StoreFill.Timestamp f));
    put (mkMem (orders s) (fills s ++ [stamp_fill ts f])) ;;
    mret (Ok true).

Definition mem_FillsForOrder (id : string) : M MemStore (result (list StoreFill.t)) :=
  s ← get; mret (Ok (filter (λ f, StoreFill.VenueOrderID f = id) (fills s))).

#[export] Instance mem_Store : Store MemStore := {|
  RecordOrder := mem_RecordOrder;
  GetOrderByClientID := mem_GetOrderByClientID;
  RecordFill := mem_RecordFill;
  FillsForOrder := mem_FillsForOrder;
|}.

(** ** Specification

    The abstract content of a store: which order each client identifier stands for, and
    the fills in the order they were first recorded. *)

Record AStore := mkA { a_order : string → option Order.t; a_fills : list StoreFill.t }.

Definition contents (s : MemStore) : AStore := mkA (λ id, orders s !! id) (fills s).

(** Recorded with times filled in, everything else as given. *)
Definition order_stamped (o o' : Order.t) : Prop :=
  ∃ c u, o' = stamp_order c u o ∧
         (Time_IsZero (Order.CreatedAt o) = false → c = Order.CreatedAt o).

Definition fill_stamped (f f' : StoreFill.t) : Prop :=
  ∃ ts, f' = stamp_fill ts f ∧
        (Time_IsZero (StoreFill.Timestamp f) = false → ts = StoreFill.Timestamp f).

Inductive spec_RecordOrder (o : Order.t) (a : AStore) : bool → AStore → Prop :=
| spec_order_known o0 :
    a_order a (Order.ClientOrderID o) = Some o0 → spec_RecordOrder o a false a
| spec_order_new o' a' :
    a_order a (Order.ClientOrderID o) = None → order_stamped o o' →
    a_order a' (Order.ClientOrderID o) = Some o' →
    (∀ id, id ≠ Order.ClientOrderID o → a_order a' id = a_order a id) →
    a_fills a' = a_fills a → spec_RecordOrder o a true a'.

Inductive spec_RecordFill (f : StoreFill.t) (a : AStore) : bool → AStore → Prop :=
| spec_fill_known f0 :
    f0 ∈ a_fills a → fill_key f0 = fill_key f → spec_RecordFill f a false a
| spec_fill_new f' a' :
    (∀ f0, f0 ∈ a_fills a → fill_key f0 ≠ fill_key f) → fill_stamped f f' →
    a_fills a' = a_fills a ++ [f'] → (∀ id, a_order a' id = a_order a id) →
    spec_RecordFill f a true a'.

(** What holds of a store between operations: an order sits under its own client
    identifier, and no fill key occurs twice. *)
Definition store_wf (a : AStore) : Prop :=
  (∀ id o, a_order a id = Some o → Order.ClientOrderID o = id) ∧
  NoDup (fill_key <$> a_fills a).

(** A write to the store. *)
Inductive write := WOrder (o : Order.t) | WFill (f : StoreFill.t).

Definition do_write (x : write) : M MemStore (result bool) :=
  match x with WOrder o => mem_RecordOrder o | WFill f => mem_RecordFill f end.

Fixpoint do_writes (xs : list write) : M MemStore unit :=
  match xs with [] => mret tt | x :: xs' => do_write x ;; do_writes xs' end.

(** ** Lemmas *)

Lemma same_fill_key f e : same_fill f e = true ↔ fill_key e = fill_key f.
Proof.
  unfold same_fill, fill_key. rewrite andb_true_iff, !String.eqb_eq.
  split; [by intros [-> ->]|by intros [= -> ->]].
Qed.

Lemma existsb_same_fill f l :
  existsb (same_fill f) l = true ↔ ∃ e, e ∈ l ∧ fill_key e = fill_key f.
Proof.
  rewrite existsb_exists. split; intros (e & He & Hk); exists e;
    by rewrite list_elem_of_In, same_fill_key in *.
Qed.

Lemma fill_key_stamp ts f : fill_key (stamp_fill ts f) = fill_key f.
Proof. done. Qed.

Lemma spec_RecordOrder_wf o a b a' : spec_RecordOrder o a b a' → store_wf a → store_wf a'.
Proof.
  intros [o0 _|o' a1 Hn (c & u & -> & _) Hnew Hoth Hf] [Ho Hk]; [done|]. split.
  - intros id ox Hid. destruct (decide (id = Order.ClientOrderID o)) as [->|Hne].
    + rewrite Hnew in Hid. by simplify_eq.
    + rewrite Hoth in Hid by done. by apply Ho.
  - by rewrite Hf.
Qed.

Lemma spec_RecordFill_wf f a b a' : spec_RecordFill f a b a' → store_wf a → store_wf a'.
Proof.
  intros [f0 _ _|f' a1 Hn (ts & -> & _) Hf Hoth] [Ho Hk]; [done|]. split.
  - intros id ox Hid. rewrite Hoth in Hid. by apply Ho.
  - rewrite Hf, fmap_app. apply NoDup_app. split_and!; [done| |apply NoDup_singleton].
    intros k Hkin Hk1. apply list_elem_of_singleton in Hk1 as ->.
    apply list_elem_of_fmap in Hkin as (f0 & Heq & Hf0). rewrite fill_key_stamp in Heq.
    by destruct (Hn f0 Hf0).
Qed.

Lemma spec_RecordOrder_recorded o a b a' :
  spec_RecordOrder o a b a' → is_Some (a_order a' (Order.ClientOrderID o)).
Proof. intros [o0 Ho|o' a1 _ _ Ho _ _]; by eexists. Qed.

Lemma spec_RecordFill_recorded f a b a' :
  spec_RecordFill f a b a' → ∃ f0, f0 ∈ a_fills a' ∧ fill_key f0 = fill_key f.
Proof.
  intros [f0 Hin Hk|f' a1 _ (ts & -> & _) Hf _]; [by exists f0|].
  eexists. rewrite Hf. split; [|apply fill_key_stamp].
  apply elem_of_app. right. by apply list_elem_of_singleton.
Qed.

Lemma store_wf_New : store_wf (contents New).
Proof. split; [intros id o Hid; by apply (lookup_empty_Some id o) in Hid|apply NoDup_nil_2]. Qed.

(** The two operations implement the specification. *)
Lemma mem_RecordOrder_spec (o : Order.t) (s : MemStore) (w : World) :
  let '(r, s', _) := mem_RecordOrder o s w in
  ∃ b, r = Ok b ∧ spec_RecordOrder o (contents s) b (contents s').
Proof.
  unfold mem_RecordOrder, mbind at 1, M_bind at 1, get.
  destruct (orders s !! Order.ClientOrderID o) as [o0|] eqn:Ho.
  - unfold mret, M_ret. exists false. split; [done|]. by eapply spec_order_known.
  - unfold mbind, M_bind, put, mret, M_ret.
    destruct (Time_IsZero (Order.CreatedAt o)) eqn:Hz; unfold now; simpl; exists true;
      (split; [done|]);
      (eapply spec_order_new; simpl;
        [done| |apply lookup_insert_eq|intros; by rewrite lookup_insert_ne|done]);
      by eexists _, _; split; [reflexivity|rewrite Hz].
Qed.

Lemma mem_RecordFill_spec (f : StoreFill.t) (s : MemStore) (w : World) :
  let '(r, s', _) := mem_RecordFill f s w in
  ∃ b, r = Ok b ∧ spec_RecordFill f (contents s) b (contents s').
Proof.
  unfold mem_RecordFill, mbind at 1, M_bind at 1, get.
  destruct (existsb (same_fill f) (fills s)) eqn:He.
  - apply existsb_same_fill in He as (f0 & Hin & Hk).
    unfold mret, M_ret. exists false. split; [done|]. by eapply spec_fill_known.
  - assert (Hn : ∀ f0, f0 ∈ fills s → fill_key f0 ≠ fill_key f).
    { intros f0 Hin Hk. apply not_true_iff_false in He. destruct He.
      apply existsb_same_fill. by exists f0. }
    unfold mbind, M_bind, put, mret, M_ret.
    destruct (Time_IsZero (StoreFill.Timestamp f)) eqn:Hz; unfold now; simpl; exists true;
      (split; [done|]);
      (eapply spec_fill_new; simpl;
        [done| |reflexivity|done]);
      by eexists; split; [reflexivity|rewrite Hz].
Qed.

(** ** Properties *)


(** C18: the in-memory [RecordFill] implements the specification: a fill is appended
    unless one with the same venue and trade identifier is there already. *)
Theorem RecordFill_refines (f : StoreFill.t) (s : MemStore) (w : World) :
  let '(r, s', _) := mem_RecordFill f s w in
  ∃ b, r = Ok b ∧ spec_RecordFill f (contents s) b (contents s').
Proof. apply mem_RecordFill_spec. Qed.

(** whatever sequence of writes a store has seen since its creation, every order sits
    under its own client identifier and no (venue, trade id) pair occurs twice. *)
Theorem writes_keep_keys_unique (xs : list write) (w : World) :
  store_wf (contents (do_writes xs New w).1.2).
Proof.
  pose proof store_wf_New as Hnew. revert Hnew. generalize New as s. revert w.
  induction xs as [|x xs IH]; intros w s Hs; [done|].
  cbn [do_writes]. unfold mbind, M_bind. destruct (do_write x s w) as [[r s1] w1] eqn:Hx.
  apply IH. destruct x as [o|f]; simpl in Hx.
  - pose proof (mem_RecordOrder_spec o s w) as HR. rewrite Hx in HR.
    destruct HR as (b & _ & HR). by eapply spec_RecordOrder_wf.
  - pose proof (mem_RecordFill_spec f s w) as HR. rewrite Hx in HR.
    destruct HR as (b & _ & HR). by eapply spec_RecordFill_wf.
Qed.

(** recording is idempotent: repeating a write of the same order, or of the same
    fill, answers [false] and leaves the store exactly as it was. *)
Theorem record_twice_is_once (x : write) (s : MemStore) (w : World) :
  let '(_, s1, w1) := do_write x s w in
  do_write x s1 w1 = (Ok false, s1, w1).
Proof.
  destruct x as [o|f]; cbn [do_write].
  - pose proof (mem_RecordOrder_spec o s w) as HR.
    destruct (mem_RecordOrder o s w) as [[r s1] w1]. destruct HR as (b & _ & HR).
    apply spec_RecordOrder_recorded in HR as [o' Ho']. simpl in Ho'.
    unfold mem_RecordOrder, mbind, M_bind, get. by rewrite Ho'.
  - pose proof (mem_RecordFill_spec f s w) as HR.
    destruct (mem_RecordFill f s w) as [[r s1] w1]. destruct HR as (b & _ & HR).
    apply spec_RecordFill_recorded in HR. simpl in HR. apply existsb_same_fill in HR as He.
    unfold mem_RecordFill, mbind, M_bind, get. by rewrite He.
Qed.

(** [FillsForOrder] returns the fills recorded for the order, and only those, in the
    order they were recorded. *)
Theorem FillsForOrder_spec (id : string) (s : MemStore) (w : World) :
  ∃ out, mem_FillsForOrder id s w = (Ok out, s, w) ∧
    sublist out (fills s) ∧
    (∀ f, f ∈ out ↔ f ∈ fills s ∧ StoreFill.VenueOrderID f = id).
Proof.
  eexists. split; [reflexivity|]. split.
  - apply sublist_filter.
  - intros f. rewrite list_elem_of_filter. naive_solver.
Qed.
End store.
