(* ===== verification/AuditTrail.v ===== *)
(** * Audit emission (internal/audit/audit.go, async.go)

    The audit event, the sinks (in memory, bounded asynchronous queue, Kafka envelope,
    log, counter), and trace propagation.  The asynchronous sink is a state machine: the
    emitters, the delivering goroutine and [Close] interleave in any order. *)

From S2P Require Import Prelude GoStd World Decimal.

Open Scope Z_scope.

Definition AuditTopic : string := "audit.v1".
Definition errNoBrokers : error := ErrNew "audit kafka: no brokers provided".

Definition EventOrderPlaced : string := "order_placed".
Definition EventOrderCanceled : string := "order_canceled".
Definition EventOrderUpdated : string := "order_updated".
Definition EventFill : string := "fill".
Definition EventBalanceSnapshot : string := "balance_snapshot".
Definition EventCredRotation : string := "credential_rotation".

Module FillDetail.
Record t `{DecimalOps} := mk {
  TradeID : string; Price : Dec; Quantity : Dec; Fee : Dec; FeeAsset : string; TS : Time }.
End FillDetail.

Module BalanceDetail.
Record t `{DecimalOps} := mk { Asset : string; Free : Dec; Locked : Dec }.
End BalanceDetail.

Module Event.
Record t `{DecimalOps} := mk {
  Type_ : string;
  Venue : string;
  Timestamp : Time;
  OrderID : string;
  ClientID : string;
  Pair : string;
  Side : string;
  OrderType : string;
  Quantity : Dec;
  Price : Dec;
  Fill : option FillDetail.t;
  Balance : option BalanceDetail.t;
  TraceID : string;
}.
End Event.

Section audit.
Context `{Env, DecimalOps}.

Definition set_Timestamp (ts : Time) (e : Event.t) : Event.t :=
  Event.mk _ (Event.Type_ e) (Event.Venue e) ts (Event.OrderID e) (Event.ClientID e)
    (Event.Pair e) (Event.Side e) (Event.OrderType e) (Event.Quantity e) (Event.Price e)
    (Event.Fill e) (Event.Balance e) (Event.TraceID e).

Definition set_TraceID (tr : string) (e : Event.t) : Event.t :=
  Event.mk _ (Event.Type_ e) (Event.Venue e) (Event.Timestamp e) (Event.OrderID e)
    (Event.ClientID e) (Event.Pair e) (Event.Side e) (Event.OrderType e) (Event.Quantity e)
    (Event.Price e) (Event.Fill e) (Event.Balance e) tr.

(** [if event.Timestamp.IsZero() { event.Timestamp = time.Now().UTC() }] at time [t]. *)
Definition stamp (t : Time) (e : Event.t) : Event.t :=
  if Time_IsZero (Event.Timestamp e) then set_Timestamp t e else e.

Definition stamped {S} (e : Event.t) : M S Event.t :=
  if Time_IsZero (Event.Timestamp e) then t ← now; mret (set_Timestamp t e) else mret e.

(** The [Sink] interface. *)
Class Sink (T : Type) := { Emit : Event.t → M T unit }.

(** ** In-memory sink *)

Record InMemorySink := mkSink { events : list Event.t }.

Definition NewInMemorySink : InMemorySink := mkSink [].

Definition mem_Emit (e : Event.t) : M InMemorySink unit :=
  e' ← stamped e;
  modify (λ s, mkSink (events s ++ [e'])).

Definition Events : M InMemorySink (list Event.t) := s ← get; mret (events s).
Definition Count : M InMemorySink nat := s ← get; mret (length (events s)).

#[export] Instance mem_Sink : Sink InMemorySink := {| Emit := mem_Emit |}.

(** ** Trace propagation and the trivial sinks *)

Definition TracePropagator := unit → string.
Definition noopTrace : TracePropagator := λ _, "".

Definition EmitWithTrace {T} `{!Sink T} (has_sink : bool) (e : Event.t)
    (tp : option TracePropagator) : M T unit :=
  let e := match tp with Some f => set_TraceID (f tt) e | None => e end in
  if has_sink then Emit e else mret tt.

(** [gRPCClient.Emit] only counts the event. *)
Definition grpc_Emit (venue : string) (e : Event.t) : M unit unit :=
  emit_metric (AuditEventsEmittedTotal venue (Event.Type_ e)).

(** The log sink; a logger is the lines it has printed, [standard] is [log.Default()]. *)
Record logSink := mkLogSink { logger : list string }.

Definition NewLogSink (standard : list string) (l : option (list string)) : logSink :=
  mkLogSink (match l with None => standard | Some l => l end).

(** The line [logSink.Emit] prints. *)
Definition log_line (e : Event.t) : string :=
  "audit: type=" +:+ Event.Type_ e +:+ " venue=" +:+ Event.Venue e +:+ " order="
    +:+ Event.OrderID e.

Definition log_Emit (e : Event.t) : M logSink unit :=
  modify (λ s, mkLogSink (logger s ++ [log_line e])).

#[export] Instance log_Sink : Sink logSink := {| Emit := log_Emit |}.

(** ** Asynchronous sink *)

(** Where the delivering goroutine stands: waiting on the channel, or handling an event,
    or out of its loop. *)
Inductive loop_pc := LWaiting | LHandling (e : Event.t) | LExited.

Record AsyncSink := mkAsync {
  queue : list Event.t;              (** contents of the channel buffer *)
  queueSize : nat;
  closed : bool;                     (** the flag guarded by the mutex *)
  chan_closed : bool;                (** the channel itself *)
  dropped : Z;
  lpc : loop_pc;
  accepted : list Event.t;           (** events put on the channel, in order *)
  delivered : list Event.t;          (** events handed to the delegate, in order *)
  async_metrics : list Metric;
  async_venue : string;
}.

Definition NewAsyncSink (queueSize : nat) (venue : string) : AsyncSink :=
  mkAsync [] queueSize false false 0 LWaiting [] [] [] venue.

(** What can happen next: an emitter calls [Emit] (at time [t]; [parked] tells whether
    the delivering goroutine is parked on the channel), that goroutine moves, a caller
    runs [Close], and the [close(queue)] after the flag is set. *)
Inductive async_event :=
| AEmit (e : Event.t) (t : Time) (parked : bool)
| ALoop
| AClose
| ACloseChan.

Inductive outcome := Next (s : AsyncSink) | Panic | Blocked.

Definition async_Emit (e : Event.t) (t : Time) (parked : bool) (s : AsyncSink) : outcome :=
  let e := stamp t e in
  if chan_closed s then Panic
  else if (length (queue s) <? queueSize s)%nat then
    Next (mkAsync (queue s ++ [e]) (queueSize s) (closed s) (chan_closed s) (dropped s) (lpc s)
            (accepted s ++ [e]) (delivered s) (async_metrics s) (async_venue s))
  else
    match lpc s, queue s, parked with
    | LWaiting, [], true =>            (* direct hand-over to the parked receiver *)
        Next (mkAsync [] (queueSize s) (closed s) (chan_closed s) (dropped s) (LHandling e)
                (accepted s ++ [e]) (delivered s) (async_metrics s) (async_venue s))
    | _, _, _ =>
        Next (mkAsync (queue s) (queueSize s) (closed s) (chan_closed s)
                (i64_add (dropped s) 1) (lpc s) (accepted s) (delivered s)
                (async_metrics s ++ [AuditDroppedTotal (async_venue s) (Event.Type_ e)])
                (async_venue s))
    end.

Definition async_loop (s : AsyncSink) : outcome :=
  match lpc s with
  | LWaiting =>
      match queue s with
      | e :: q => Next (mkAsync q (queueSize s) (closed s) (chan_closed s) (dropped s)
                          (LHandling e) (accepted s) (delivered s) (async_metrics s)
                          (async_venue s))
      | [] => if chan_closed s
              then Next (mkAsync [] (queueSize s) (closed s) (chan_closed s) (dropped s)
                           LExited (accepted s) (delivered s) (async_metrics s) (async_venue s))
              else Blocked
      end
  | LHandling e =>
      Next (mkAsync (queue s) (queueSize s) (closed s) (chan_closed s) (dropped s) LWaiting
              (accepted s) (delivered s ++ [e])
              (async_metrics s ++ [AuditEventsEmittedTotal (async_venue s) (Event.Type_ e)])
              (async_venue s))
  | LExited => Blocked
  end.

Definition async_Close (s : AsyncSink) : outcome :=
  if closed s then Next s
  else Next (mkAsync (queue s) (queueSize s) true (chan_closed s) (dropped s) (lpc s)
               (accepted s) (delivered s) (async_metrics s) (async_venue s)).

(** [close(s.queue)], run once by the [Close] that set the flag. *)
Definition async_CloseChan (s : AsyncSink) : outcome :=
  if closed s && negb (chan_closed s)
  then Next (mkAsync (queue s) (queueSize s) (closed s) true (dropped s) (lpc s) (accepted s)
               (delivered s) (async_metrics s) (async_venue s))
  else Blocked.

Definition async_step (ev : async_event) (s : AsyncSink) : outcome :=
  match ev with
  | AEmit e t parked => async_Emit e t parked s
  | ALoop => async_loop s
  | AClose => async_Close s
  | ACloseChan => async_CloseChan s
  end.

Fixpoint async_run (evs : list async_event) (s : AsyncSink) : outcome :=
  match evs with
  | [] => Next s
  | ev :: evs' => match async_step ev s with Next s' => async_run evs' s' | o => o end
  end.

Definition Dropped (s : AsyncSink) : Z := dropped s.

(** ** Kafka sink *)

(** The canonical envelope of an event. *)
Record Envelope := mkEnvelope {
  schema_version : string;
  env_id : string;
  ts : string;
  source_service : string;
  actor_id : string;
  action : string;
  target_type : string;
  target_id : string;
  payload_hash : string;
  payload : string;
}.

(** Encoders and hash of the standard library that depend on third-party types
    ([decimal]'s JSON form) or are opaque to the program. *)
Class AuditCodec := {
  marshal_event : Event.t → result string;
  marshal_envelope : Envelope → result string;
  sha256_hex : string → string;
  format_RFC3339Nano : Time → string;
}.

Context `{AuditCodec}.

Record KafkaSink := mkKafka { ks_venue : string; ks_dropped : Z }.

Definition NewKafkaSink (brokers : list string) (venue : string) : result KafkaSink :=
  match brokers with [] => Err errNoBrokers | _ => Ok (mkKafka venue 0) end.

Definition envelope_id (e : Event.t) : string :=
  if String.eqb (Event.OrderID e) ""
  then Event.Venue e +:+ "-" +:+ format_RFC3339Nano (Event.Timestamp e)
  else Event.OrderID e.

Definition envelope_of (e : Event.t) (body : string) : Envelope :=
  mkEnvelope "1" (envelope_id e) (format_RFC3339Nano (Event.Timestamp e))
    "exchange-connectors" "exchange-connectors" (Event.Type_ e) "order" (Event.OrderID e)
    ("sha256:" +:+ sha256_hex body) body.

Definition kafka_Emit (e : Event.t) : M KafkaSink unit :=
  e ← stamped e;
  match marshal_event e with
  | Err _ => mret tt
  | Ok body =>
      match marshal_envelope (envelope_of e body) with
      | Err _ => mret tt
      | Ok data =>
          r ← kafka_write {| km_topic := AuditTopic; km_key := Some (envelope_id e);
                             km_value := data |};
          s ← get;
          match r with
          | Some _ =>
              put (mkKafka (ks_venue s) (i64_add (ks_dropped s) 1)) ;;
              emit_metric (AuditDroppedTotal (ks_venue s) (Event.Type_ e))
          | None => emit_metric (AuditEventsEmittedTotal (ks_venue s) (Event.Type_ e))
          end
      end
  end.

(** [Close]; [writer_Close] is what closing the writer, of the Kafka client, returns. *)
Definition sink_Close {W} (writer_Close : W → option error) (writer : option W) : option error :=
  match writer with None => None | Some w => writer_Close w end.

Definition kafka_Dropped : M KafkaSink Z := s ← get; mret (ks_dropped s).

#[export] Instance kafka_Sink : Sink KafkaSink := {| Emit := kafka_Emit |}.

(** ** Lemmas *)

(** The event being handled, if any. *)
Definition in_hand (s : AsyncSink) : list Event.t :=
  match lpc s with LHandling e => [e] | _ => [] end.

Definition is_drop (m : Metric) : bool :=
  match m with AuditDroppedTotal _ _ => true | _ => false end.

(** Nothing is lost, duplicated or reordered between acceptance and delivery, the buffer
    respects its size, and the drop counter counts the drop metric. *)
Definition async_inv (s : AsyncSink) : Prop :=
  accepted s = delivered s ++ in_hand s ++ queue s ∧
  (length (queue s) ≤ queueSize s)%nat ∧
  (chan_closed s = true → closed s = true) ∧
  (lpc s = LExited → queue s = [] ∧ chan_closed s = true) ∧
  dropped s = wrap64 (Z.of_nat (length (filter (λ m, is_drop m = true) (async_metrics s)))).

Lemma async_Emit_inv e t parked s s' :
  async_Emit e t parked s = Next s' → async_inv s → async_inv s'.
Proof.
  unfold async_Emit. intros Hs (Ha & Hq & Hc & Hx & Hd).
  destruct (chan_closed s) eqn:Hcc; [done|].
  destruct (Nat.ltb_spec (length (queue s)) (queueSize s)).
  { simplify_eq. unfold async_inv, in_hand in *; simpl. split_and!; try done.
    - by rewrite Ha, <- !app_assoc.
    - rewrite length_app. simpl. lia.
    - intros Hl. destruct (Hx Hl) as [_ ?]. congruence. }
  assert (Hdrop : s' = mkAsync (queue s) (queueSize s) (closed s) false
            (i64_add (dropped s) 1) (lpc s) (accepted s) (delivered s)
            (async_metrics s ++ [AuditDroppedTotal (async_venue s) (Event.Type_ (stamp t e))])
            (async_venue s) → async_inv s').
  { intros ->. unfold async_inv, in_hand in *; simpl. split_and!; try done.
    rewrite filter_app, length_app, Hd. simpl.
    unfold i64_add, wrap64. rewrite Nat2Z.inj_add. simpl.
    set (n := Z.of_nat _). replace (((n + 2 ^ 63) `mod` 2 ^ 64 - 2 ^ 63 + 1 + 2 ^ 63))
      with ((n + 2 ^ 63) `mod` 2 ^ 64 + 1) by lia.
    rewrite Z.add_mod_idemp_l by lia. f_equal. f_equal. lia. }
  destruct (lpc s) eqn:Hl; [destruct (queue s) eqn:Hqs; [destruct parked|]|..];
    simplify_eq; try (by apply Hdrop).
  unfold async_inv, in_hand in *; simpl in *. rewrite Hl in Ha. split_and!; try done.
  rewrite Ha. by rewrite !app_nil_r.
Qed.

Lemma async_step_inv ev s s' : async_step ev s = Next s' → async_inv s → async_inv s'.
Proof.
  destruct ev as [e t parked| | |]; cbn [async_step]; [apply async_Emit_inv|..];
    intros Hs (Ha & Hq & Hc & Hx & Hd).
  - unfold async_loop in Hs. destruct (lpc s) as [|e|] eqn:Hl; [|simplify_eq|done].
    + destruct (queue s) as [|e q] eqn:Hqs; [destruct (chan_closed s) eqn:Hcc; [|done]|];
        simplify_eq; unfold async_inv, in_hand in *; simpl in *; rewrite Hl in Ha;
        split_and!; try done; try (by apply Hc); try lia.
    + unfold async_inv, in_hand in *; simpl. rewrite Hl in Ha. split_and!; try done.
      * by rewrite Ha, <- app_assoc.
      * rewrite filter_app, length_app. simpl. by rewrite Nat.add_0_r.
  - unfold async_Close in Hs. destruct (closed s) eqn:Hcl; simplify_eq.
    + unfold async_inv. by rewrite Hcl.
    + unfold async_inv, in_hand in *; simpl. split_and!; try done.
  - unfold async_CloseChan in Hs. destruct (closed s) eqn:Hcl, (chan_closed s) eqn:Hcc;
      simpl in Hs; simplify_eq. unfold async_inv, in_hand in *; simpl. split_and!; try done.
    intros Hl. by destruct (Hx Hl).
Qed.

Lemma async_run_inv evs s s' : async_run evs s = Next s' → async_inv s → async_inv s'.
Proof.
  revert s. induction evs as [|ev evs IH]; intros s Hr Hi; simpl in Hr; [by simplify_eq|].
  destruct (async_step ev s) as [s1| |] eqn:Hs; try done.
  eapply IH; [done|]. by eapply async_step_inv.
Qed.

Lemma async_new_inv n v : async_inv (NewAsyncSink n v).
Proof. unfold async_inv, NewAsyncSink, in_hand; simpl. split_and!; done || lia. Qed.

Lemma async_run_app evs1 evs2 s s' :
  async_run evs1 s = Next s' → async_run (evs1 ++ evs2) s = async_run evs2 s'.
Proof.
  revert s. induction evs1 as [|ev evs IH]; intros s Hr; simpl in *; [by simplify_eq|].
  destruct (async_step ev s); try done. by apply IH.
Qed.

(** Handling the next event of a waiting sink takes two moves of the goroutine. *)
Lemma async_deliver_next e q s :
  lpc s = LWaiting → queue s = e :: q →
  ∃ s', async_run [ALoop; ALoop] s = Next s' ∧ lpc s' = LWaiting ∧ queue s' = q ∧
        chan_closed s' = chan_closed s ∧ accepted s' = accepted s.
Proof.
  intros Hl Hq. destruct s; simpl in *; subst. eexists. split; [reflexivity|]. done.
Qed.

Lemma async_drain_waiting s :
  lpc s = LWaiting → chan_closed s = true →
  ∃ n s', async_run (replicate n ALoop) s = Next s' ∧ lpc s' = LExited ∧
          accepted s' = accepted s ∧ n = (2 * length (queue s) + 1)%nat.
Proof.
  remember (queue s) as q eqn:Hq. symmetry in Hq. revert s Hq.
  induction q as [|e q IH]; intros s Hq Hl Hc.
  - exists 1%nat. eexists. simpl. unfold async_loop. rewrite Hl, Hq, Hc. split_and!; done.
  - destruct (async_deliver_next e q s Hl Hq) as (s1 & Hs1 & Hl1 & Hq1 & Hc1 & Ha1).
    destruct (IH s1 Hq1 Hl1) as (n & s' & Hr & Hx & Ha & Hn); [congruence|].
    exists (2 + n)%nat, s'. rewrite replicate_add, (async_run_app _ _ _ s1) by exact Hs1.
    split_and!; [done|done|congruence|simpl; lia].
Qed.

(** ** Properties *)


(** C36: once the channel is closed, the delivering goroutine hands over everything
    accepted and leaves its loop after at most two moves per queued event plus two. *)
Theorem async_close_drains (n : nat) (v : string) (evs : list async_event) (s : AsyncSink) :
  async_run evs (NewAsyncSink n v) = Next s → chan_closed s = true → lpc s ≠ LExited →
  ∃ k s', async_run (replicate k ALoop) s = Next s' ∧ lpc s' = LExited ∧
          delivered s' = accepted s ∧ (k ≤ 2 * length (queue s) + 2)%nat.
Proof.
  intros Hr Hc Hl. pose proof (async_run_inv _ _ _ Hr (async_new_inv n v)) as Hinv.
  assert (∃ k s', async_run (replicate k ALoop) s = Next s' ∧ lpc s' = LExited ∧
            accepted s' = accepted s ∧ (k ≤ 2 * length (queue s) + 2)%nat)
    as (k & s' & Hk & Hx & Ha & Hle).
  { destruct (lpc s) as [|e|] eqn:Hpc; [| |done].
    - destruct (async_drain_waiting s Hpc Hc) as (k & s' & ? & ? & ? & ->).
      eexists _, s'. split_and!; [done..|lia].
    - assert (∃ s1, async_step ALoop s = Next s1 ∧ lpc s1 = LWaiting ∧
        queue s1 = queue s ∧ chan_closed s1 = true ∧ accepted s1 = accepted s)
        as (s1 & Hs1 & Hl1 & Hq1 & Hc1 & Ha1).
      { simpl. unfold async_loop. rewrite Hpc. eexists. split; [reflexivity|]. done. }
      destruct (async_drain_waiting s1 Hl1 Hc1) as (k & s' & Hk & ? & ? & ->).
      exists (S (2 * length (queue s1) + 1)), s'. cbn [replicate async_run]. rewrite Hs1.
      split_and!; [done|done|congruence|rewrite Hq1; lia]. }
  exists k, s'. split_and!; [done..| |done].
  apply async_run_inv in Hk as (Ha' & _ & _ & Hx' & _); [|done].
  destruct (Hx' Hx) as [Hq _]. unfold in_hand in Ha'. rewrite Hx, Hq in Ha'.
  rewrite <- Ha, Ha'. by rewrite !app_nil_r.
Qed.

(** emitting after [Close] panics: [Emit] does not look at the [closed] flag, and
    sending on the closed channel brings the process down. *)
Theorem async_emit_after_close_panics (s s' : AsyncSink) (e : Event.t) (t : Time)
    (parked : bool) :
  closed s = false → chan_closed s = false →
  async_run [AClose; ACloseChan] s = Next s' → async_step (AEmit e t parked) s' = Panic.
Proof.
  intros Hc Hcc Hr. simpl in Hr. unfold async_Close in Hr. rewrite Hc in Hr. simpl in Hr.
  unfold async_CloseChan in Hr. simpl in Hr. rewrite Hcc in Hr. simpl in Hr. by simplify_eq.
Qed.

(** the Kafka sink hands the broker exactly one message on topic audit.v1, keyed by
    the order id (or venue and time when there is none), and counts the event as emitted
    or, if the broker refuses it, as dropped. *)
Theorem kafka_Emit_accounts (e : Event.t) (s : KafkaSink) (w : World) (body data : string) :
  Event.Timestamp e ≠ 0 → marshal_event e = Ok body →
  marshal_envelope (envelope_of e body) = Ok data →
  let '(_, s', w') := kafka_Emit e s w in
  w_kafka w' = w_kafka w ++ [{| km_topic := AuditTopic; km_key := Some (envelope_id e);
                                km_value := data |}] ∧
  match env_kafka (length (w_kafka w)) with
  | None => s' = s ∧
      w_metrics w' = w_metrics w ++ [AuditEventsEmittedTotal (ks_venue s) (Event.Type_ e)]
  | Some _ => ks_dropped s' = i64_add (ks_dropped s) 1 ∧
      w_metrics w' = w_metrics w ++ [AuditDroppedTotal (ks_venue s) (Event.Type_ e)]
  end.
Proof.
  intros Ht Hm He. unfold kafka_Emit, stamped.
  destruct (Time_IsZero (Event.Timestamp e)) eqn:Hz; [unfold Time_IsZero in Hz; unbool; done|].
  unfold mbind at 1, M_bind at 1, mret at 1, M_ret at 1. rewrite Hm, He. munfold.
  by destruct (env_kafka (length (w_kafka w))).
Qed.
End audit.

(** ** Witnesses *)

Section witnesses.
#[local] Existing Instance exact_ops.

Definition sample_event (id : string) (ts : Time) : Event.t :=
  Event.mk _ EventOrderPlaced "binance" ts id "c1" "BTCUSDT" "buy" "limit"
    (mkDec 1 0) (mkDec 5 0) None None "".

Definition sample_codec : AuditCodec := {|
  marshal_event e := Ok (Event.OrderID e);
  marshal_envelope e := Ok (env_id e +:+ "|" +:+ payload e);
  sha256_hex s := s;
  format_RFC3339Nano t := FormatInt t;
|}.

(** One slot: the second event finds the buffer full while the first is queued. *)
Definition sample_async_events : list async_event :=
  [AEmit (sample_event "1" 5) 9 false; AEmit (sample_event "2" 6) 9 false; ALoop;
   AEmit (sample_event "3" 7) 9 false; ALoop; AClose; ACloseChan].

Lemma sample_async_runs :
  ∃ s, async_run sample_async_events (NewAsyncSink 1 "binance") = Next s ∧
    Dropped s = 1 ∧ Event.OrderID <$> delivered s = ["1"] ∧
    chan_closed s = true ∧ lpc s ≠ LExited.
Proof. eexists. split; [cbv -[exact_ops]; reflexivity|]. by split_and!. Qed.


Lemma async_close_drains_witness :
  ∃ s k s', async_run sample_async_events (NewAsyncSink 1 "binance") = Next s ∧
    async_run (replicate k ALoop) s = Next s' ∧ lpc s' = LExited ∧ delivered s' = accepted s ∧
    (k ≤ 2 * length (queue s) + 2)%nat.
Proof.
  destruct sample_async_runs as (s & Hr & _ & _ & Hc & Hl). exists s.
  destruct (async_close_drains 1 "binance" sample_async_events s Hr Hc Hl) as (k & s' & Hk).
  exists k, s'. split; assumption.
Defined.

Lemma async_emit_after_close_panics_witness :
  ∃ s', async_run [AClose; ACloseChan] (NewAsyncSink 4 "binance") = Next s' ∧
        async_step (AEmit (sample_event "1" 5) 9 false) s' = Panic.
Proof.
  eexists. split; [cbv -[exact_ops]; reflexivity|].
  eapply (async_emit_after_close_panics (NewAsyncSink 4 "binance"));
    [reflexivity|reflexivity|cbv -[exact_ops]; reflexivity].
Defined.

Lemma kafka_Emit_accounts_witness :
  let _ := quiet_env 7 1 in
  let e := sample_event "" 5 in
  let '(_, s', w') := @kafka_Emit _ _ sample_codec e (mkKafka "binance" 0) World_init in
  w_kafka w' = [{| km_topic := AuditTopic;
                   km_key := Some (@envelope_id _ sample_codec e);
                   km_value := "binance-5|" |}] ∧
  s' = mkKafka "binance" 0 ∧
  w_metrics w' = [AuditEventsEmittedTotal "binance" EventOrderPlaced].
Proof.
  apply (kafka_Emit_accounts (H := quiet_env 7 1) (H1 := sample_codec) (sample_event "" 5)
           (mkKafka "binance" 0) World_init "" "binance-5|"); done.
Defined.
End witnesses.
