(* ===== verification/Secrets.v ===== *)
(** * Credentials (internal/secrets/secrets.go)

    Loading and rotating exchange credentials held in a vault, redaction, and the record
    of rotations.  The vault is a service: its replies come from an oracle, and the leases
    read and revoked are logged. *)

From S2P Require Import Prelude GoStd World.
From stdpp Require pretty.

Open Scope Z_scope.

Definition ErrSecretNotFound : error := ErrNew "secrets: secret not found".

Record Credentials := mkCreds {
  APIKey : string;
  APISecret : string;
  Version : string;
  LeaseID : string;
  LoadedAt : Time;
}.

Record Secret := mkSecret {
  Data : gmap string string;
  sVersion : string;
  sLeaseID : string;
  Renewable : bool;
}.

(** The [VaultClient]: replies of the service, and the log of the calls made. *)
Class VaultService := {
  vault_read : nat → string → result Secret;
  vault_revoke : nat → string → option error;
}.

Record VaultClient := mkVault { v_reads : list string; v_revoked : list string }.

Record Manager := mkManager {
  venue : string;
  client : VaultClient;
  current : option Credentials;
}.

(** ** Redaction *)

Definition Redact (s : string) : string :=
  if (String.length s =? 0)%nat then ""
  else if (String.length s <=? 4)%nat then Repeat "*" (String.length s)
  else string_take 2 s +:+ Repeat "*" (String.length s - 4)
         +:+ string_drop (String.length s - 2) s.

Definition RedactCreds (c : option Credentials) : option Credentials :=
  match c with
  | None => None
  | Some c => Some (mkCreds (Redact (APIKey c)) (Redact (APISecret c)) (Version c) (LeaseID c)
                            (LoadedAt c))
  end.

(** ** Manager *)

Section manager.
Context `{Env, VaultService}.

Definition NewManager (venue : string) (client : VaultClient) : Manager :=
  mkManager venue client None.

Definition Read (path : string) : M Manager (result Secret) := λ m w,
  (vault_read (length (v_reads (client m))) path,
   mkManager (venue m) (mkVault (v_reads (client m) ++ [path]) (v_revoked (client m))) (current m),
   w).

Definition Revoke (lease : string) : M Manager (option error) := λ m w,
  (vault_revoke (length (v_revoked (client m))) lease,
   mkManager (venue m) (mkVault (v_reads (client m)) (v_revoked (client m) ++ [lease])) (current m),
   w).

(** A missing map entry reads as the empty string. *)
Definition data_value (s : Secret) : string :=
  match Data s !! "value" with Some v => v | None => "" end.

Definition key_path (venue : string) : string :=
  "secret/exchange-connectors/" +:+ venue +:+ "/api-key".
Definition secret_path (venue : string) : string :=
  "secret/exchange-connectors/" +:+ venue +:+ "/api-secret".

Definition set_current (c : Credentials) (m : Manager) : Manager :=
  mkManager (venue m) (client m) (Some c).

Definition Load : M Manager (result Credentials) :=
  m ← get;
  k ← Read (key_path (venue m));
  match k with
  | Err e => mret (Err (ErrWrap "load api-key: " e))
  | Ok ks =>
      s ← Read (secret_path (venue m));
      match s with
      | Err e => mret (Err (ErrWrap "load api-secret: " e))
      | Ok ss =>
          t ← now;
          let creds := mkCreds (data_value ks) (data_value ss) (sVersion ks) (sLeaseID ks) t in
          modify (set_current creds) ;;
          mret (Ok creds)
      end
  end.

Definition Current : M Manager (option Credentials) := m ← get; mret (current m).

Definition Rotate (probe : option (Credentials → option error)) : M Manager (result Credentials) :=
  old ← Current;
  r ← Load;
  match r with
  | Err e => mret (Err e)
  | Ok newCreds =>
      match (p ← probe; p newCreds) with
      | Some e => mret (Err (ErrWrap "probe failed: " e))
      | None =>
          (match old with
           | Some o => if negb (String.eqb (LeaseID o) "") &&
                          negb (String.eqb (LeaseID o) (LeaseID newCreds))
                       then _ ← Revoke (LeaseID o); mret tt else mret tt
           | None => mret tt
           end) ;;
          mret (Ok newCreds)
      end
  end.

Definition RevokeOld : M Manager (option error) :=
  m ← get;
  match current m with
  | None => mret None
  | Some c => if String.eqb (LeaseID c) "" then mret None else Revoke (LeaseID c)
  end.

(** The two readings a load makes, as the vault answers them. *)
Definition key_reply (m : Manager) : result Secret :=
  vault_read (length (v_reads (client m))) (key_path (venue m)).
Definition secret_reply (m : Manager) : result Secret :=
  vault_read (S (length (v_reads (client m)))) (secret_path (venue m)).

Definition loaded (ks ss : Secret) (t : Time) : Credentials :=
  mkCreds (data_value ks) (data_value ss) (sVersion ks) (sLeaseID ks) t.

End manager.

(** ** Record of rotations *)

Record CredentialRecord := mkRecord {
  cVenue : string;
  KeyID : string;
  VaultPath : string;
  cVersion : string;
  RotatedAt : Time;
}.

Abbreviation CredentialStore := (list CredentialRecord).

Definition NewCredentialStore : CredentialStore := [].

Definition Record_ (venue keyID vaultPath version : string) (rotatedAt : Time)
    (s : CredentialStore) : CredentialStore :=
  s ++ [mkRecord venue keyID vaultPath version rotatedAt].

Definition Rows (s : CredentialStore) : list CredentialRecord := s.

(** The loop of [Latest], from the index [n - 1] down. *)
Fixpoint latest_from (n : nat) (venue : string) (s : CredentialStore) : option CredentialRecord :=
  match n with
  | O => None
  | S n' => match s !! n' with
            | Some r => if String.eqb (cVenue r) venue then Some r else latest_from n' venue s
            | None => latest_from n' venue s
            end
  end.

Definition Latest (venue : string) (s : CredentialStore) : option CredentialRecord :=
  latest_from (length s) venue s.

Definition RecordCredentials (store : option CredentialStore) (venue : string)
    (c : option Credentials) : option CredentialStore :=
  match store, c with
  | Some s, Some c =>
      Some (Record_ venue (Redact (APIKey c))
              ("secret/exchange-connectors/" +:+ venue +:+ "/api-key") (Version c) (LoadedAt c) s)
  | _, _ => store
  end.

(** ** Lemmas *)

Lemma string_drop_drop a b s : string_drop a (string_drop b s) = string_drop (b + a) s.
Proof.
  revert s. induction b as [|b IH]; intros [|c s]; simpl; try done. by destruct a.
Qed.

Lemma latest_from_snoc n venue s r :
  (n ≤ length s)%nat → latest_from n venue (s ++ [r]) = latest_from n venue s.
Proof.
  induction n as [|n IH]; intros Hn; [done|]. simpl.
  rewrite lookup_app_l by lia. by rewrite IH by lia.
Qed.

Section manager_lemmas.
Context `{Env, VaultService}.

(** What [Load] does, reply by reply. *)
Lemma Load_run m w :
  let reads := v_reads (client m) ++ [key_path (venue m)] in
  let m1 := mkManager (venue m) (mkVault reads (v_revoked (client m))) (current m) in
  let m2 := mkManager (venue m) (mkVault (reads ++ [secret_path (venue m)])
                                         (v_revoked (client m))) (current m) in
  Load m w =
  match key_reply m with
  | Err e => (Err (ErrWrap "load api-key: " e), m1, w)
  | Ok ks =>
      match secret_reply m with
      | Err e => (Err (ErrWrap "load api-secret: " e), m2, w)
      | Ok ss => let c := loaded ks ss (env_now (w_now w)) in
                 (Ok c, set_current c m2, (now (S := unit) tt w).2)
      end
  end.
Proof.
  cbn zeta. unfold Load, Read, key_reply, secret_reply. munfold.
  destruct (vault_read _ (key_path _)) as [ks|e]; simpl; [|done].
  rewrite length_app, Nat.add_1_r. by destruct (vault_read _ (secret_path _)).
Qed.

(** [Rotate] as what follows the load. *)
Lemma Rotate_run (probe : option (Credentials → option error)) m w :
  Rotate probe m w =
  let '(r, m', w') := Load m w in
  match r with
  | Err e => (Err e, m', w')
  | Ok newCreds =>
      match (p ← probe; p newCreds) with
      | Some e => (Err (ErrWrap "probe failed: " e), m', w')
      | None =>
          match current m with
          | Some o =>
              if negb (String.eqb (LeaseID o) "") &&
                 negb (String.eqb (LeaseID o) (LeaseID newCreds))
              then (Ok newCreds, (Revoke (LeaseID o) m' w').1.2, w')
              else (Ok newCreds, m', w')
          | None => (Ok newCreds, m', w')
          end
      end
  end.
Proof.
  unfold Rotate, Current. munfold. destruct (Load m w) as [[r m'] w'].
  destruct r as [c|e]; [|done]. destruct (option_bind _ _ _ _); [done|].
  destruct (current m) as [o|]; [|done]. by destruct (negb _ && negb _).
Qed.
End manager_lemmas.

(** ** Properties *)

Section properties.
Context `{Env, VaultService}.

(** C32: rotation revokes a lease only after the new credentials were read and the probe
    accepted them, and then only the previous lease, never the new one. *)
Theorem Rotate_revokes_only_old (probe : option (Credentials → option error)) (m : Manager)
    (w : World) :
  let '(r, m', _) := Rotate probe m w in
  v_revoked (client m') = v_revoked (client m) ∨
  ∃ old new, current m = Some old ∧ r = Ok new ∧ current m' = Some new ∧
    (p ← probe; p new) = None ∧ LeaseID old ≠ LeaseID new ∧ LeaseID old ≠ "" ∧
    v_revoked (client m') = v_revoked (client m) ++ [LeaseID old].
Proof.
  rewrite Rotate_run, Load_run. cbn zeta. destruct (key_reply m) as [ks|e]; [|by left].
  destruct (secret_reply m) as [ss|e]; [|by left].
  generalize (loaded ks ss (env_now (w_now w))) as c; intros c. destruct (p ← probe; p c) as [e|] eqn:Hp; [by left|].
  destruct (current m) as [o|] eqn:Ho; [|by left].
  destruct (String.eqb_spec (LeaseID o) "") as [He|He]; simpl; [by left|].
  destruct (String.eqb_spec (LeaseID o) (LeaseID c)) as [Hl|Hl]; simpl; [by left|].
  right. by exists o, c.
Qed.

(** when the probe rejects the new credentials the rotation fails and the old lease
    is kept, yet the rejected credentials are already the current ones. *)
Theorem Rotate_failed_probe_installs_new (probe : Credentials → option error) (m : Manager)
    (w : World) (ks ss : Secret) (e : error) :
  key_reply m = Ok ks → secret_reply m = Ok ss →
  probe (loaded ks ss (env_now (w_now w))) = Some e →
  let '(r, m', _) := Rotate (Some probe) m w in
  r = Err (ErrWrap "probe failed: " e) ∧
  v_revoked (client m') = v_revoked (client m) ∧
  current m' = Some (loaded ks ss (env_now (w_now w))).
Proof.
  intros Hk Hs Hp. rewrite Rotate_run, Load_run, Hk, Hs. cbn zeta. simpl. by rewrite Hp.
Qed.

(** a redacted secret has the length of the secret and shows at most its first two
    and last two characters: everything between is stars, and a secret of up to four
    characters is stars only. *)
Theorem Redact_hides (s : string) :
  String.length (Redact s) = String.length s ∧
  ((String.length s ≤ 4)%nat → Redact s = Repeat "*" (String.length s)) ∧
  ((4 < String.length s)%nat → ∃ a mid b, s = a +:+ mid +:+ b ∧ String.length a = 2%nat ∧
     String.length b = 2%nat ∧ Redact s = a +:+ Repeat "*" (String.length mid) +:+ b).
Proof.
  assert (Hsplit : (4 < String.length s)%nat → Redact s = string_take 2 s +:+
    Repeat "*" (String.length s - 4) +:+ string_drop (String.length s - 2) s).
  { intros Hl. unfold Redact.
    destruct (Nat.eqb_spec (String.length s) 0); [lia|].
    destruct (Nat.leb_spec (String.length s) 4); [lia|done]. }
  assert (Hshort : (String.length s ≤ 4)%nat → Redact s = Repeat "*" (String.length s)).
  { intros Hl. unfold Redact. destruct (Nat.eqb_spec (String.length s) 0) as [->|]; [done|].
    by destruct (Nat.leb_spec (String.length s) 4); [|lia]. }
  split_and!; [|done|].
  - destruct (decide (String.length s ≤ 4)%nat) as [Hl|Hl].
    + rewrite Hshort by done. rewrite Repeat_length. simpl. lia.
    + rewrite Hsplit by lia. autorewrite with go. simpl String.length. lia.
  - intros Hl. exists (string_take 2 s),
      (string_take (String.length s - 4) (string_drop 2 s)),
      (string_drop (String.length s - 2) s). split_and!.
    + rewrite <- (string_take_drop 2 s) at 1. f_equal.
      rewrite <- (string_take_drop (String.length s - 4) (string_drop 2 s)) at 1. f_equal.
      rewrite string_drop_drop. f_equal. lia.
    + rewrite string_take_length. lia.
    + rewrite string_drop_length. lia.
    + rewrite Hsplit by done. rewrite string_take_length, string_drop_length.
      by rewrite Nat.min_l by lia.
Qed.

(** [Latest] returns the last row recorded for the venue, if there is one. *)
Theorem Latest_is_last (venue : string) (s : CredentialStore) :
  Latest venue s = last (filter (λ r, cVenue r = venue) s).
Proof.
  induction s as [|r s IH] using rev_ind; [done|].
  unfold Latest in *. rewrite length_app, Nat.add_1_r. cbn [latest_from].
  rewrite list_lookup_middle by done. rewrite filter_app.
  destruct (String.eqb_spec (cVenue r) venue) as [Hv|Hv].
  - by rewrite filter_cons_True, filter_nil, last_snoc by done.
  - rewrite filter_cons_False, filter_nil, app_nil_r by done.
    by rewrite latest_from_snoc.
Qed.

(** recording credentials adds one row that holds the redacted key and the vault path
    but no other secret material, and that row is then the venue's latest. *)
Theorem RecordCredentials_spec (s : CredentialStore) (v : string) (c : Credentials) :
  ∃ row, RecordCredentials (Some s) v (Some c) = Some (s ++ [row]) ∧
    Latest v (s ++ [row]) = Some row ∧
    row = mkRecord v (Redact (APIKey c)) (key_path v) (Version c) (LoadedAt c).
Proof.
  eexists. split; [reflexivity|]. split; [|done].
  rewrite Latest_is_last, filter_app, filter_cons_True, filter_nil, last_snoc; done.
Qed.
End properties.

(** ** Witness *)

(** A vault that hands out a numbered lease at every reading. *)
Definition numbering_vault : VaultService := {|
  vault_read n p := Ok (mkSecret {["value" := p]} "v2" (pretty.pretty (N.of_nat n)) true);
  vault_revoke _ _ := None;
|}.

Definition rotating_manager : Manager :=
  mkManager "binance" (mkVault [] []) (Some (mkCreds "k" "s" "v1" "lease-old" 0)).

Lemma Rotate_failed_probe_installs_new_witness :
  let '(r, m', _) := @Rotate (quiet_env 7 1) numbering_vault
                       (Some (λ _, Some (ErrNew "refused"))) rotating_manager World_init in
  r = Err (ErrWrap "probe failed: " (ErrNew "refused")) ∧ v_revoked (client m') = [] ∧
  (c ← current m'; Some (Version c, LoadedAt c)) = Some ("v2", 7).
Proof.
  pose proof (@Rotate_failed_probe_installs_new (quiet_env 7 1) numbering_vault
    (λ _, Some (ErrNew "refused")) rotating_manager World_init
    (mkSecret {["value" := "secret/exchange-connectors/binance/api-key"]} "v2" "0" true)
    (mkSecret {["value" := "secret/exchange-connectors/binance/api-secret"]} "v2" "1" true)
    (ErrNew "refused") eq_refl eq_refl eq_refl) as Hr.
  destruct (Rotate _ _ _) as [[r m'] w']. destruct Hr as (-> & -> & ->). done.
Defined.
