(* ===== verification/Migrations.v ===== *)
(** * Schema migrations (internal/store/migrations)

    The embedded migration files, their pairing into versions, and the runner that
    applies and reverts them.  The database is a service: a class states what the runner
    needs of it, and the theorems hold for every database that keeps those promises. *)

From S2P Require Import Prelude GoStd World.

Open Scope Z_scope.

(** ** The embedded files *)

Record DirEntry := mkEntry {
  e_name : string;
  e_dir : bool;
  e_content : result string;      (** what [fs.ReadFile] returns *)
}.

Module Migration.
Record t := mk { Version : string; Up : string; Down : string }.
End Migration.

Definition set_Up (b : string) (m : Migration.t) : Migration.t :=
  Migration.mk (Migration.Version m) b (Migration.Down m).
Definition set_Down (b : string) (m : Migration.t) : Migration.t :=
  Migration.mk (Migration.Version m) (Migration.Up m) b.

(** The map entry a pointer is taken to, created when missing. *)
Definition entry_for (version : string) (byVersion : gmap string Migration.t) : Migration.t :=
  match byVersion !! version with
  | Some m => m
  | None => Migration.mk version "" ""
  end.

(** One iteration of the first loop of [All]. *)
Definition add_entry (e : DirEntry) (byVersion : gmap string Migration.t)
    : result (gmap string Migration.t) :=
  if e_dir e then Ok byVersion
  else if HasSuffix (e_name e) "_up.sql" then
    b ← e_content e;
    let version := TrimSuffix (e_name e) "_up.sql" in
    Ok (<[version := set_Up b (entry_for version byVersion)]> byVersion)
  else if HasSuffix (e_name e) "_down.sql" then
    b ← e_content e;
    let version := TrimSuffix (e_name e) "_down.sql" in
    Ok (<[version := set_Down b (entry_for version byVersion)]> byVersion)
  else Ok byVersion.

Fixpoint add_entries (l : list DirEntry) (byVersion : gmap string Migration.t)
    : result (gmap string Migration.t) :=
  match l with
  | [] => Ok byVersion
  | e :: l' => m ← add_entry e byVersion; add_entries l' m
  end.

(** The second loop: the versions in order, each of them complete. *)
Fixpoint collect (byVersion : gmap string Migration.t) (versions : list string)
    : result (list Migration.t) :=
  match versions with
  | [] => Ok []
  | v :: vs =>
      let m := entry_for v byVersion in
      if String.eqb (Migration.Up m) "" || String.eqb (Migration.Down m) "" then
        Err (ErrNew ("migrations: version " +:+ v +:+ " missing up or down"))
      else out ← collect byVersion vs; Ok (m :: out)
  end.

(** [fs] is what [fs.ReadDir(".")] returns. *)
Definition All (fs : result (list DirEntry)) : result (list Migration.t) :=
  entries ← fs;
  byVersion ← add_entries entries ∅;
  collect byVersion (merge_sort String.le (map_to_list byVersion).*1).

(** ** The database *)

Inductive Arg := ArgText (s : string) | ArgTime (t : Time).

Definition create_table : string :=
  "CREATE TABLE IF NOT EXISTS schema_migrations (
		version TEXT PRIMARY KEY,
		applied_at TIMESTAMPTZ NOT NULL DEFAULT now()
	)".
Definition insert_version : string :=
  "INSERT INTO schema_migrations(version, applied_at) VALUES ($1, $2) ON CONFLICT (version) DO NOTHING".
Definition delete_version : string := "DELETE FROM schema_migrations WHERE version=$1".

(** What the two functions handed to [NewRunner] do, for a database in state [D].
    [db_received] is the list of the statements sent to it and [db_versions] the rows of
    [schema_migrations]. *)
Class Database (D : Type) := {
  exec : string → list Arg → D → option error * D;
  query : string → D → result bool * D;
  db_received : D → list string;
  db_versions : D → gset string;
}.

(** The migration scripts are statements of their own: they are not the bookkeeping of
    the runner, and do not touch its table. *)
Definition is_script (q : string) : Prop :=
  q ≠ create_table ∧ q ≠ insert_version ∧ q ≠ delete_version.

Class DatabaseLaws (D : Type) `{Database D} : Prop := {
  exec_received q args d : db_received (exec q args d).2 = db_received d ++ [q];
  exec_failed q args d : (exec q args d).1 ≠ None → db_versions (exec q args d).2 = db_versions d;
  exec_create args d : db_versions (exec create_table args d).2 = db_versions d;
  exec_script q d : is_script q → db_versions (exec q [] d).2 = db_versions d;
  exec_insert v t d : (exec insert_version [ArgText v; ArgTime t] d).1 = None →
    db_versions (exec insert_version [ArgText v; ArgTime t] d).2 = {[v]} ∪ db_versions d;
  exec_delete v d : (exec delete_version [ArgText v] d).1 = None →
    db_versions (exec delete_version [ArgText v] d).2 = db_versions d ∖ {[v]};
  query_same v d : db_received (query v d).2 = db_received d ∧
                   db_versions (query v d).2 = db_versions d;
  query_answer v d b : (query v d).1 = Ok b → b = bool_decide (v ∈ db_versions d);
}.

(** ** Runner *)

(** [r.query] may be nil. *)
Record Runner := NewRunner { has_query : bool }.

Section runner.
Context `{Env, Database D}.

Definition Exec (q : string) (args : list Arg) : M D (option error) := λ d w,
  let '(r, d') := exec q args d in (r, d', w).

(** [applied], when the runner can ask: [None] when it cannot. *)
Definition Applied (r : Runner) (v : string) : M D (result (option bool)) := λ d w,
  if has_query r then
    let '(b, d') := query v d in
    (match b with Ok b => Ok (Some b) | Err e => Err e end, d', w)
  else (Ok None, d, w).

(** The loop of [Up]. *)
Fixpoint up_loop (r : Runner) (migs : list Migration.t) : M D (option error) :=
  match migs with
  | [] => mret None
  | m :: rest =>
      a ← Applied r (Migration.Version m);
      match a with
      | Err e => mret (Some e)
      | Ok (Some true) => up_loop r rest
      | Ok _ =>
          e1 ← Exec (Migration.Up m) [];
          match e1 with
          | Some e => mret (Some (ErrWrap ("migrations: apply " +:+ Migration.Version m +:+ ": ") e))
          | None =>
              t ← now;
              e2 ← Exec insert_version [ArgText (Migration.Version m); ArgTime t];
              match e2 with
              | Some e => mret (Some (ErrWrap ("migrations: record " +:+ Migration.Version m +:+ ": ") e))
              | None => up_loop r rest
              end
          end
      end
  end.

Definition Up (fs : result (list DirEntry)) (r : Runner) : M D (option error) :=
  e ← Exec create_table [];
  match e with
  | Some e => mret (Some (ErrWrap "migrations: create schema_migrations: " e))
  | None =>
      match All fs with
      | Err e => mret (Some e)
      | Ok migs => up_loop r migs
      end
  end.

(** The loop of [Down], over the migrations from the last to the first. *)
Fixpoint down_loop (r : Runner) (migs : list Migration.t) : M D (option error) :=
  match migs with
  | [] => mret None
  | m :: rest =>
      a ← Applied r (Migration.Version m);
      match a with
      | Err e => mret (Some e)
      | Ok (Some false) => down_loop r rest
      | Ok _ =>
          e1 ← Exec (Migration.Down m) [];
          match e1 with
          | Some e => mret (Some (ErrWrap ("migrations: revert " +:+ Migration.Version m +:+ ": ") e))
          | None =>
              e2 ← Exec delete_version [ArgText (Migration.Version m)];
              match e2 with
              | Some e => mret (Some e)
              | None => down_loop r rest
              end
          end
      end
  end.

Definition Down (fs : result (list DirEntry)) (r : Runner) : M D (option error) :=
  match All fs with
  | Err e => mret (Some e)
  | Ok migs => down_loop r (rev migs)
  end.

End runner.

(** ** The files of the repository *)

Definition init_up : string :=
  "CREATE TABLE IF NOT EXISTS orders (
    venue_order_id  TEXT        PRIMARY KEY,
    client_order_id TEXT        NOT NULL,
    venue           TEXT        NOT NULL,
    pair            TEXT        NOT NULL,
    side            TEXT        NOT NULL,
    order_type      TEXT        NOT NULL,
    status          TEXT        NOT NULL,
    filled_qty      NUMERIC     NOT NULL DEFAULT 0,
    avg_price       NUMERIC     NOT NULL DEFAULT 0,
    quantity        NUMERIC     NOT NULL DEFAULT 0,
    price           NUMERIC     NOT NULL DEFAULT 0,
    created_at      TIMESTAMPTZ NOT NULL DEFAULT now(),
    updated_at      TIMESTAMPTZ NOT NULL DEFAULT now(),
    UNIQUE (venue, client_order_id)
);
CREATE INDEX IF NOT EXISTS orders_client_order_id_idx ON orders (client_order_id);
CREATE INDEX IF NOT EXISTS orders_venue_idx ON orders (venue);

CREATE TABLE IF NOT EXISTS fills (
    id              BIGSERIAL   PRIMARY KEY,
    venue_order_id  TEXT        NOT NULL,
    trade_id        TEXT        NOT NULL,
    venue           TEXT        NOT NULL,
    pair            TEXT        NOT NULL,
    price           NUMERIC     NOT NULL DEFAULT 0,
    quantity        NUMERIC     NOT NULL DEFAULT 0,
    fee             NUMERIC     NOT NULL DEFAULT 0,
    fee_asset       TEXT        NOT NULL DEFAULT '',
    ts              TIMESTAMPTZ NOT NULL DEFAULT now(),
    created_at      TIMESTAMPTZ NOT NULL DEFAULT now(),
    UNIQUE (venue, trade_id)
);
CREATE INDEX IF NOT EXISTS fills_venue_order_id_idx ON fills (venue_order_id);

CREATE TABLE IF NOT EXISTS idempotency_keys (
    key        TEXT        PRIMARY KEY,
    response   JSONB,
    created_at TIMESTAMPTZ NOT NULL DEFAULT now(),
    expires_at TIMESTAMPTZ NOT NULL
);
CREATE INDEX IF NOT EXISTS idempotency_keys_expires_at_idx ON idempotency_keys (expires_at);".

Definition init_down : string :=
  "DROP TABLE IF EXISTS idempotency_keys;
DROP TABLE IF EXISTS fills;
DROP TABLE IF EXISTS orders;".

(** [embed] lists the files by name. *)
Definition fs : result (list DirEntry) :=
  Ok [mkEntry "0001_init_down.sql" false (Ok init_down);
      mkEntry "0001_init_up.sql" false (Ok init_up)].

Example All_fs : All fs = Ok [Migration.mk "0001_init" init_up init_down].
Proof. vm_compute. reflexivity. Qed.

(** ** Lemmas: pairing the files *)

(** What the last file called [name] holds. *)
Fixpoint file (name : string) (l : list DirEntry) : option string :=
  match l with
  | [] => None
  | e :: l' =>
      match file name l' with
      | Some b => Some b
      | None => if negb (e_dir e) && String.eqb (e_name e) name
                then match e_content e with Ok b => Some b | Err _ => None end
                else None
      end
  end.

Ltac none_solver :=
  pose proof (@is_Some_None string); pose proof (@is_Some_None Migration.t); naive_solver.

Lemma string_app_suffix_inj s1 s2 a b :
  String.length a = String.length b → s1 +:+ a = s2 +:+ b → a = b.
Proof.
  intros Hl Heq. pose proof (f_equal String.length Heq) as Hlen.
  rewrite !string_length_app in Hlen.
  rewrite <- (string_drop_app s1 a), <- (string_drop_app s2 b), Heq. f_equal. lia.
Qed.

Lemma up_not_down v : HasSuffix (v +:+ "_down.sql") "_up.sql" = false.
Proof.
  destruct (HasSuffix _ _) eqn:Hs; [|done]. apply HasSuffix_split in Hs.
  revert Hs. generalize (TrimSuffix (v +:+ "_down.sql") "_up.sql"). intros t Hs.
  assert (Heq : (v +:+ "_dow") +:+ "n.sql" = (t +:+ "_u") +:+ "p.sql")
    by (rewrite !string_app_assoc; exact Hs).
  by apply string_app_suffix_inj in Heq.
Qed.

Lemma up_name_inj v n : n +:+ "_up.sql" = v +:+ "_up.sql" → n = v.
Proof.
  intros Hs. by rewrite <- (TrimSuffix_app n "_up.sql"), Hs, TrimSuffix_app.
Qed.
Lemma down_name_inj v n : n +:+ "_down.sql" = v +:+ "_down.sql" → n = v.
Proof.
  intros Hs. by rewrite <- (TrimSuffix_app n "_down.sql"), Hs, TrimSuffix_app.
Qed.

Lemma entry_for_insert v v' m M :
  entry_for v (<[v' := m]> M) = if decide (v = v') then m else entry_for v M.
Proof.
  unfold entry_for. destruct (decide (v = v')) as [->|Hne].
  - by rewrite lookup_insert_eq.
  - by rewrite lookup_insert_ne.
Qed.

(** What the map holds after one entry, in terms of what it held before. *)
Definition read_file (e : DirEntry) (name : string) : option string :=
  if negb (e_dir e) && String.eqb (e_name e) name
  then match e_content e with Ok b => Some b | Err _ => None end else None.

Lemma read_file_hit e suf n v b :
  e_dir e = false → e_content e = Ok b → e_name e = n +:+ suf →
  (n +:+ suf = v +:+ suf → n = v) →
  read_file e (v +:+ suf) = if decide (v = n) then Some b else None.
Proof.
  intros Hd Hc Hn Hinj. unfold read_file. rewrite Hd, Hc, Hn. simpl.
  destruct (String.eqb_spec (n +:+ suf) (v +:+ suf)) as [He|He], (decide (v = n)) as [->|Hne];
    try done. by destruct Hne; rewrite Hinj.
Qed.

Lemma read_file_miss e suf v :
  e_dir e = true ∨ HasSuffix (e_name e) suf = false → read_file e (v +:+ suf) = None.
Proof.
  unfold read_file. intros [->|Hs]; [done|].
  destruct (String.eqb_spec (e_name e) (v +:+ suf)) as [He|He]; [|by rewrite andb_false_r].
  by rewrite He, HasSuffix_app in Hs.
Qed.

Definition well_keyed (M : gmap string Migration.t) : Prop :=
  ∀ v m, M !! v = Some m → Migration.Version m = v.

Lemma entry_for_version v M : well_keyed M → Migration.Version (entry_for v M) = v.
Proof. intros Hk. unfold entry_for. destruct (M !! v) eqn:Hv; [by apply Hk|done]. Qed.

Lemma add_entry_spec e M M' :
  well_keyed M → add_entry e M = Ok M' →
  well_keyed M' ∧ ∀ v,
  Migration.Up (entry_for v M') =
    default (Migration.Up (entry_for v M)) (read_file e (v +:+ "_up.sql")) ∧
  Migration.Down (entry_for v M') =
    default (Migration.Down (entry_for v M)) (read_file e (v +:+ "_down.sql")) ∧
  (is_Some (M' !! v) ↔ is_Some (M !! v) ∨
     is_Some (read_file e (v +:+ "_up.sql")) ∨ is_Some (read_file e (v +:+ "_down.sql"))).
Proof.
  intros Hk. unfold add_entry. destruct (e_dir e) eqn:Hd.
  { intros [= <-]. split; [done|]. intros v. rewrite !read_file_miss by auto.
    split_and!; [done..|]. none_solver. }
  assert (Hins : ∀ m n, Migration.Version m = n → well_keyed (<[n := m]> M)).
  { intros m n Hm v m'. destruct (decide (v = n)) as [->|Hne].
    - rewrite lookup_insert_eq. by intros [= <-].
    - rewrite lookup_insert_ne by done. apply Hk. }
  destruct (HasSuffix (e_name e) "_up.sql") eqn:Hu.
  - pose proof (HasSuffix_split _ _ Hu) as Hn. revert Hn.
    generalize (TrimSuffix (e_name e) "_up.sql") as n; intros n Hn.
    destruct (e_content e) as [b|] eqn:Hc; [|done]. simpl. intros [= <-].
    split; [by apply Hins, entry_for_version|]. intros v.
    rewrite entry_for_insert, (read_file_hit _ _ n v b) by (eauto using up_name_inj).
    rewrite (read_file_miss e "_down.sql").
    2: { right. destruct (HasSuffix _ "_down.sql") eqn:Hs; [|done].
         apply HasSuffix_split in Hs. by rewrite Hs, up_not_down in Hu. }
    destruct (decide (v = n)) as [->|Hne].
    + rewrite lookup_insert_eq. split_and!; naive_solver.
    + rewrite lookup_insert_ne by done. split_and!; none_solver.
  - assert (Hmiss : ∀ v, read_file e (v +:+ "_up.sql") = None)
      by (intros v; apply read_file_miss; auto).
    destruct (HasSuffix (e_name e) "_down.sql") eqn:Hs.
    + pose proof (HasSuffix_split _ _ Hs) as Hn. revert Hn.
      generalize (TrimSuffix (e_name e) "_down.sql") as n; intros n Hn.
      destruct (e_content e) as [b|] eqn:Hc; [|done]. simpl. intros [= <-].
      split; [by apply Hins, entry_for_version|]. intros v. rewrite Hmiss.
      rewrite entry_for_insert, (read_file_hit _ _ n v b) by (eauto using down_name_inj).
      destruct (decide (v = n)) as [->|Hne].
      * rewrite lookup_insert_eq. split_and!; naive_solver.
      * rewrite lookup_insert_ne by done. split_and!; none_solver.
    + intros [= <-]. split; [done|]. intros v. rewrite Hmiss, read_file_miss by auto.
      split_and!; [done..|]. none_solver.
Qed.

Lemma file_cons name e l :
  file name (e :: l) = match file name l with Some b => Some b | None => read_file e name end.
Proof. done. Qed.

Lemma add_entries_spec l M M' :
  well_keyed M → add_entries l M = Ok M' →
  well_keyed M' ∧ ∀ v,
  Migration.Up (entry_for v M') =
    default (Migration.Up (entry_for v M)) (file (v +:+ "_up.sql") l) ∧
  Migration.Down (entry_for v M') =
    default (Migration.Down (entry_for v M)) (file (v +:+ "_down.sql") l) ∧
  (is_Some (M' !! v) ↔ is_Some (M !! v) ∨
     is_Some (file (v +:+ "_up.sql") l) ∨ is_Some (file (v +:+ "_down.sql") l)).
Proof.
  revert M. induction l as [|e l IH]; intros M Hk Hl.
  { injection Hl as <-. split; [done|]. intros v. split_and!; [done..|].
    none_solver. }
  simpl in Hl. destruct (add_entry e M) as [M1|] eqn:He; [|done]. simpl in Hl.
  destruct (add_entry_spec _ _ _ Hk He) as [Hk1 Hs1].
  destruct (IH _ Hk1 Hl) as [Hk2 Hs2]. split; [done|]. intros v.
  destruct (Hs1 v) as (Hu1 & Hd1 & Hi1), (Hs2 v) as (Hu2 & Hd2 & Hi2).
  rewrite !file_cons, Hu2, Hd2, Hi2, Hu1, Hd1, Hi1.
  destruct (file (v +:+ "_up.sql") l), (file (v +:+ "_down.sql") l); simpl;
    split_and!; none_solver.
Qed.

(** The migrations [collect] returns, when it does. *)
Lemma collect_spec M vs ms :
  collect M vs = Ok ms →
  ms = (λ v, entry_for v M) <$> vs ∧
  ∀ v, v ∈ vs → Migration.Up (entry_for v M) ≠ "" ∧ Migration.Down (entry_for v M) ≠ "".
Proof.
  revert ms. induction vs as [|v vs IH]; intros ms Hc; simpl in Hc.
  { injection Hc as <-. split; [done|]. set_solver. }
  destruct (_ || _)%bool eqn:Hb; [done|]. unbool.
  destruct (collect M vs) as [out|]; [|done]. injection Hc as <-.
  destruct (IH _ eq_refl) as [-> Hall]. split; [done|].
  intros v' [->|Hv]%elem_of_cons; auto.
Qed.

Lemma All_inv l ms :
  All (Ok l) = Ok ms →
  ∃ M, add_entries l ∅ = Ok M ∧ well_keyed M ∧
    (∀ v, v ∈ Migration.Version <$> ms ↔ is_Some (M !! v)) ∧
    Migration.Version <$> ms = merge_sort String.le (map_to_list M).*1 ∧
    ∀ m, m ∈ ms → m = entry_for (Migration.Version m) M ∧
                  Migration.Up m ≠ "" ∧ Migration.Down m ≠ "".
Proof.
  unfold All. simpl. destruct (add_entries l ∅) as [M|] eqn:HM; [|done]. simpl. intros Hc.
  destruct (add_entries_spec _ _ _ ltac:(intros v m; by rewrite lookup_empty) HM) as [Hk _].
  apply collect_spec in Hc as [Hms Hne]. exists M.
  assert (Hv : Migration.Version <$> ms = merge_sort String.le (map_to_list M).*1).
  { rewrite Hms, <- list_fmap_compose. rewrite <- (list_fmap_id (merge_sort _ _)) at 2.
    apply list_fmap_ext. intros i v _. simpl. by apply entry_for_version. }
  split_and!; [done|done| |done|].
  - intros v. rewrite Hv, merge_sort_Permutation, list_elem_of_fmap. split.
    + intros ([v' m] & -> & Hm). apply elem_of_map_to_list in Hm. by exists m.
    + intros [m Hm]. exists (v, m). split; [done|]. by apply elem_of_map_to_list.
  - intros m Hm. pose proof Hm as Hin. rewrite Hms in Hm.
    apply list_elem_of_fmap in Hm as (v & -> & Hv'). rewrite entry_for_version by done.
    split; [done|]. by apply Hne.
Qed.

Lemma All_versions_NoDup l ms : All (Ok l) = Ok ms → NoDup (Migration.Version <$> ms).
Proof.
  intros (M & _ & _ & _ & -> & _)%All_inv. rewrite merge_sort_Permutation.
  apply NoDup_fst_map_to_list.
Qed.

(** ** Properties *)

(** C27: when the embedded files make a migration list, the list is in strictly ascending
    order of version, has one entry for every version that has a file, and each entry
    holds the contents of that version's two files, both non-empty: a version with only
    one of the two files makes the list an error. *)
Theorem All_spec (l : list DirEntry) (ms : list Migration.t) :
  All (Ok l) = Ok ms →
  StronglySorted String.le (Migration.Version <$> ms) ∧
  NoDup (Migration.Version <$> ms) ∧
  (∀ v, v ∈ Migration.Version <$> ms ↔
        is_Some (file (v +:+ "_up.sql") l) ∨ is_Some (file (v +:+ "_down.sql") l)) ∧
  (∀ m, m ∈ ms →
        file (Migration.Version m +:+ "_up.sql") l = Some (Migration.Up m) ∧
        file (Migration.Version m +:+ "_down.sql") l = Some (Migration.Down m) ∧
        Migration.Up m ≠ "" ∧ Migration.Down m ≠ "").
Proof.
  intros Hall. pose proof (All_versions_NoDup _ _ Hall) as Hnd.
  apply All_inv in Hall as (M & HM & Hk & Hdom & Hv & Hm).
  destruct (add_entries_spec _ _ _ ltac:(intros v m; by rewrite lookup_empty) HM) as [_ Hs].
  split_and!; [|done| |].
  - rewrite Hv. apply (StronglySorted_merge_sort _).
  - intros v. destruct (Hs v) as (_ & _ & Hi). rewrite Hdom, Hi, lookup_empty.
    none_solver.
  - intros m Hin. destruct (Hm m Hin) as (He & Hu & Hd).
    destruct (Hs (Migration.Version m)) as (Hsu & Hsd & _).
    rewrite <- He in Hsu, Hsd. unfold entry_for in Hsu, Hsd. rewrite lookup_empty in Hsu, Hsd.
    simpl in Hsu, Hsd.
    destruct (file _ l) as [bu|], (file (_ +:+ "_down.sql") l) as [bd|]; simpl in *; split_and!; congruence.
Qed.

Section runner_lemmas.
Context `{Env, DatabaseLaws D}.

(** What the runner sends for one migration. *)
Definition up_statements (m : Migration.t) : list string := [Migration.Up m; insert_version].
Definition down_statements (m : Migration.t) : list string := [Migration.Down m; delete_version].

Definition pending (vs : gset string) : list Migration.t → list Migration.t :=
  filter (λ m, Migration.Version m ∉ vs).
Definition installed (vs : gset string) : list Migration.t → list Migration.t :=
  filter (λ m, Migration.Version m ∈ vs).

(** No script is one of the runner's own statements. *)
Definition scripts_ok (migs : list Migration.t) : Prop :=
  Forall (λ m, is_script (Migration.Up m) ∧ is_script (Migration.Down m)) migs.

(** Statements [stmts] were to be sent from [d]: they were, up to a failure. *)
Definition sent (stmts : list string) (d : D) (r : option error * D * World) : Prop :=
  (∃ done rest, stmts = done ++ rest ∧ db_received r.1.2 = db_received d ++ done) ∧
  (r.1.1 = None → db_received r.1.2 = db_received d ++ stmts).

Lemma sent_nil d e w : sent [] d (e, d, w).
Proof. split; [exists [], []; split; [done|]|intros _]; simpl; by rewrite app_nil_r. Qed.

Lemma sent_none stmts d d' e w :
  db_received d' = db_received d → sent stmts d (Some e, d', w).
Proof. intros Hd. split; [|done]. exists [], stmts. split; [done|]. simpl. by rewrite app_nil_r. Qed.

Lemma sent_failed q rest d d' e w :
  db_received d' = db_received d ++ [q] → sent (q :: rest) d (Some e, d', w).
Proof. intros Hd. split; [by exists [q], rest|done]. Qed.

Lemma sent_cons q rest d d' r :
  db_received d' = db_received d ++ [q] → sent rest d' r → sent (q :: rest) d r.
Proof.
  intros Hd [(l1 & l2 & -> & Hr) Hn]. split.
  - exists (q :: l1), l2. split; [done|]. rewrite Hr, Hd, <- app_assoc. done.
  - intros He. rewrite (Hn He), Hd, <- app_assoc. done.
Qed.

Lemma sent_proper stmts d d' r :
  db_received d' = db_received d → sent stmts d' r → sent stmts d r.
Proof. unfold sent. by intros ->. Qed.

Lemma filter_ext_versions (vs vs' : gset string) migs :
  (∀ m, m ∈ migs → (Migration.Version m ∈ vs ↔ Migration.Version m ∈ vs')) →
  pending vs migs = pending vs' migs ∧ installed vs migs = installed vs' migs.
Proof.
  intros Hvs. induction migs as [|m migs IH]; [done|].
  destruct IH as [IHp IHi]; [set_solver|]. unfold pending, installed in *. simpl.
  rewrite !filter_cons. pose proof (Hvs m ltac:(set_solver)).
  split; repeat case_decide; rewrite ?IHp, ?IHi; tauto.
Qed.

Lemma pending_cons vs m migs :
  pending vs (m :: migs) =
  if decide (Migration.Version m ∈ vs) then pending vs migs else m :: pending vs migs.
Proof. unfold pending. rewrite filter_cons. repeat case_decide; tauto. Qed.

Lemma installed_cons vs m migs :
  installed vs (m :: migs) =
  if decide (Migration.Version m ∈ vs) then m :: installed vs migs else installed vs migs.
Proof. unfold installed. by rewrite filter_cons. Qed.

Lemma up_loop_spec r migs d w :
  has_query r = true → NoDup (Migration.Version <$> migs) → scripts_ok migs →
  sent (pending (db_versions d) migs ≫= up_statements) d (up_loop r migs d w) ∧
  ((up_loop r migs d w).1.1 = None →
   db_versions (up_loop r migs d w).1.2 =
     db_versions d ∪ list_to_set (Migration.Version <$> migs)).
Proof.
  intros Hq. revert d w. induction migs as [|m migs IH]; intros d w Hnd Hs.
  { split; [apply sent_nil|]. simpl. intros _. set_solver. }
  rewrite fmap_cons in Hnd. apply NoDup_cons in Hnd as [Hni Hnd].
  apply Forall_cons in Hs as [[Hsu Hsd] Hs]. rewrite pending_cons.
  simpl. unfold Applied, Exec. rewrite Hq. munfold.
  destruct (query_same (Migration.Version m) d) as [Hqr Hqv].
  pose proof (query_answer (Migration.Version m) d) as Hqa.
  destruct (query (Migration.Version m) d) as [b d0]. simpl in Hqr, Hqv, Hqa.
  destruct b as [b|e]; simpl; [|split; [by apply sent_none|done]].
  specialize (Hqa b eq_refl). destruct (decide (Migration.Version m ∈ db_versions d)) as [Hin|Hin].
  { rewrite bool_decide_true in Hqa by done. subst b. destruct (IH d0 w Hnd Hs) as [IH1 IH2].
    rewrite Hqv in IH1, IH2. split; [by eapply sent_proper|].
    intros He. rewrite IH2 by done. set_solver. }
  rewrite bool_decide_false in Hqa by done. subst b.
  change (m :: pending (db_versions d) migs ≫= up_statements)
    with (Migration.Up m :: insert_version :: (pending (db_versions d) migs ≫= up_statements)).
  pose proof (exec_received (Migration.Up m) [] d0) as Hr1.
  pose proof (exec_script (Migration.Up m) d0 Hsu) as Hv1.
  destruct (exec (Migration.Up m) [] d0) as [e1 d1]. simpl in Hr1, Hv1. rewrite Hqr in Hr1.
  rewrite Hqv in Hv1. destruct e1 as [e1|]; [split; [by apply sent_failed|done]|].
  set (args := [ArgText (Migration.Version m); ArgTime (env_now (w_now w))]).
  pose proof (exec_received insert_version args d1) as Hr2.
  pose proof (exec_insert (Migration.Version m) (env_now (w_now w)) d1) as Hv2.
  fold args in Hv2. destruct (exec insert_version args d1) as [e2 d2]. simpl in Hr2, Hv2.
  destruct e2 as [e2|].
  { split; [|done]. eapply sent_cons; [done|]. by apply sent_failed. }
  specialize (Hv2 eq_refl). rewrite Hv1 in Hv2.
  set (w' := mkWorld _ _ _ _ _ _ _). destruct (IH d2 w' Hnd Hs) as [IH1 IH2]. split.
  - eapply sent_cons; [done|]. eapply sent_cons; [done|].
    rewrite (proj1 (filter_ext_versions (db_versions d) (db_versions d2) migs
      ltac:(intros m' Hm'; rewrite Hv2;
            pose proof (list_elem_of_fmap_2 Migration.Version _ _ Hm'); set_solver))).
    exact IH1.
  - intros He. rewrite IH2 by done. rewrite Hv2. simpl. set_solver.
Qed.

Lemma down_loop_spec r migs d w :
  has_query r = true → NoDup (Migration.Version <$> migs) → scripts_ok migs →
  sent (installed (db_versions d) migs ≫= down_statements) d (down_loop r migs d w) ∧
  ((down_loop r migs d w).1.1 = None →
   db_versions (down_loop r migs d w).1.2 =
     db_versions d ∖ list_to_set (Migration.Version <$> migs)).
Proof.
  intros Hq. revert d w. induction migs as [|m migs IH]; intros d w Hnd Hs.
  { split; [apply sent_nil|]. simpl. intros _. set_solver. }
  rewrite fmap_cons in Hnd. apply NoDup_cons in Hnd as [Hni Hnd].
  apply Forall_cons in Hs as [[Hsu Hsd] Hs]. rewrite installed_cons.
  simpl. unfold Applied, Exec. rewrite Hq. munfold.
  destruct (query_same (Migration.Version m) d) as [Hqr Hqv].
  pose proof (query_answer (Migration.Version m) d) as Hqa.
  destruct (query (Migration.Version m) d) as [b d0]. simpl in Hqr, Hqv, Hqa.
  destruct b as [b|e]; simpl; [|split; [by apply sent_none|done]].
  specialize (Hqa b eq_refl). destruct (decide (Migration.Version m ∈ db_versions d)) as [Hin|Hin];
    [rewrite bool_decide_true in Hqa by done|rewrite bool_decide_false in Hqa by done]; subst b.
  2: { destruct (IH d0 w Hnd Hs) as [IH1 IH2].
    rewrite Hqv in IH1, IH2. split; [by eapply sent_proper|].
    intros He. rewrite IH2 by done. set_solver. }
  change (m :: installed (db_versions d) migs ≫= down_statements)
    with (Migration.Down m :: delete_version
            :: (installed (db_versions d) migs ≫= down_statements)).
  pose proof (exec_received (Migration.Down m) [] d0) as Hr1.
  pose proof (exec_script (Migration.Down m) d0 Hsd) as Hv1.
  destruct (exec (Migration.Down m) [] d0) as [e1 d1]. simpl in Hr1, Hv1. rewrite Hqr in Hr1.
  rewrite Hqv in Hv1. destruct e1 as [e1|]; [split; [by apply sent_failed|done]|].
  set (args := [ArgText (Migration.Version m)]).
  pose proof (exec_received delete_version args d1) as Hr2.
  pose proof (exec_delete (Migration.Version m) d1) as Hv2.
  fold args in Hv2. destruct (exec delete_version args d1) as [e2 d2]. simpl in Hr2, Hv2.
  destruct e2 as [e2|].
  { split; [|done]. eapply sent_cons; [done|]. by apply sent_failed. }
  specialize (Hv2 eq_refl). rewrite Hv1 in Hv2. destruct (IH d2 w Hnd Hs) as [IH1 IH2]. split.
  - eapply sent_cons; [done|]. eapply sent_cons; [done|].
    rewrite (proj2 (filter_ext_versions (db_versions d) (db_versions d2) migs
      ltac:(intros m' Hm'; rewrite Hv2;
            pose proof (list_elem_of_fmap_2 Migration.Version _ _ Hm'); set_solver))).
    exact IH1.
  - intros He. rewrite IH2 by done. rewrite Hv2. simpl. set_solver.
Qed.

(** The whole of [Up], as the table creation followed by the loop. *)
Lemma Up_spec fs r migs d w :
  has_query r = true → All fs = Ok migs → scripts_ok migs →
  let out := Up fs r d w in
  sent (create_table :: (pending (db_versions d) migs ≫= up_statements)) d out ∧
  (out.1.1 = None → db_versions out.1.2 =
     db_versions d ∪ list_to_set (Migration.Version <$> migs)).
Proof.
  intros Hq Hall Hs. cbn zeta. unfold Up, Exec. munfold.
  pose proof (exec_received create_table [] d) as Hr. pose proof (exec_create [] d) as Hv.
  destruct (exec create_table [] d) as [e d1]. simpl in Hr, Hv.
  destruct e as [e|]; [split; [by apply sent_failed|done]|]. rewrite Hall.
  destruct fs as [l|]; [|done].
  destruct (up_loop_spec r migs d1 w Hq (All_versions_NoDup _ _ Hall) Hs) as [H1' H2'].
  rewrite Hv in H1', H2'. split; [by eapply sent_cons|done].
Qed.

Lemma pending_none vs migs :
  list_to_set (Migration.Version <$> migs) ⊆ vs → pending vs migs = [].
Proof.
  intros Hsub. induction migs as [|m migs IH]; [done|]. rewrite pending_cons.
  destruct (decide _) as [Hin|Hni]; [|set_solver]. apply IH. set_solver.
Qed.
End runner_lemmas.

Section runner_properties.
Context `{Env, DatabaseLaws D}.

(** C14: [Up] sends the creation of its table and then, in ascending order of version, the
    script and the bookkeeping row of every migration not yet applied: all of them when it
    succeeds, an initial part when it fails. On success every version is recorded. *)
Theorem Up_applies_pending_in_order (fs : result (list DirEntry)) (r : Runner)
    (migs : list Migration.t) (d : D) (w : World) :
  has_query r = true → All fs = Ok migs → scripts_ok migs →
  let '(e, d', _) := Up fs r d w in
  let stmts := create_table :: (pending (db_versions d) migs ≫= up_statements) in
  (∃ done rest, stmts = done ++ rest ∧ db_received d' = db_received d ++ done) ∧
  (e = None → db_received d' = db_received d ++ stmts ∧
     db_versions d' = db_versions d ∪ list_to_set (Migration.Version <$> migs)).
Proof.
  intros Hq Hall Hs. destruct (Up_spec fs r migs d w Hq Hall Hs) as [[H1' H2'] H3'].
  destruct (Up fs r d w) as [[e d'] w']. split; [exact H1'|]. intros ->. by split; auto.
Qed.

(** migrating twice is migrating once: after a successful [Up] a second one sends
    nothing but the creation of the table, and leaves the recorded versions alone. *)
Theorem Up_idempotent (fs : result (list DirEntry)) (r : Runner) (migs : list Migration.t)
    (d d1 : D) (w w1 : World) :
  has_query r = true → All fs = Ok migs → scripts_ok migs → Up fs r d w = (None, d1, w1) →
  let '(e, d2, _) := Up fs r d1 w1 in
  (∃ done, done `prefix_of` [create_table] ∧ db_received d2 = db_received d1 ++ done) ∧
  (e = None → db_received d2 = db_received d1 ++ [create_table] ∧
              db_versions d2 = db_versions d1).
Proof.
  intros Hq Hall Hs Hup. destruct (Up_spec fs r migs d w Hq Hall Hs) as [_ Hv1].
  rewrite Hup in Hv1. specialize (Hv1 eq_refl). simpl in Hv1.
  destruct (Up_spec fs r migs d1 w1 Hq Hall Hs) as [[(done & rest & Heq & Hd) Hn] Hv2].
  rewrite pending_none in Heq, Hn by set_solver.
  destruct (Up fs r d1 w1) as [[e d2] w2]. simpl in *.
  split; [exists done; split; [by exists rest|done]|]. intros ->. split; [by apply Hn|set_solver].
Qed.

(** [Down] sends, in descending order of version, the reverting script and the removal
    of the bookkeeping row of every migration recorded as applied: all of them when it
    succeeds, an initial part when it fails. On success no version stays recorded. *)
Theorem Down_reverts_in_reverse (fs : result (list DirEntry)) (r : Runner)
    (migs : list Migration.t) (d : D) (w : World) :
  has_query r = true → All fs = Ok migs → scripts_ok migs →
  let '(e, d', _) := Down fs r d w in
  let stmts := installed (db_versions d) (rev migs) ≫= down_statements in
  (∃ done rest, stmts = done ++ rest ∧ db_received d' = db_received d ++ done) ∧
  (e = None → db_received d' = db_received d ++ stmts ∧
     db_versions d' = db_versions d ∖ list_to_set (Migration.Version <$> migs)).
Proof.
  intros Hq Hall Hs. unfold Down. rewrite Hall. destruct fs as [l|]; [|done].
  pose proof (All_versions_NoDup _ _ Hall) as Hnd.
  assert (Hp : Migration.Version <$> rev migs ≡ₚ Migration.Version <$> migs)
    by (by rewrite <- Permutation_rev).
  destruct (down_loop_spec r (rev migs) d w Hq) as [[H1' H2'] H3'].
  { by rewrite Hp. }
  { unfold scripts_ok. by rewrite <- Permutation_rev. }
  destruct (down_loop r (rev migs) d w) as [[e d'] w']. split; [exact H1'|].
  intros ->. split; [by auto|]. simpl in H3'. rewrite (H3' eq_refl). f_equal.
  by rewrite Hp.
Qed.
End runner_properties.

(** ** A database kept in memory, and the witnesses *)

Record MemDB := mkMemDB { md_received : list string; md_versions : gset string }.

#[export] Instance mem_database : Database MemDB := {|
  exec q args d :=
    (None, mkMemDB (md_received d ++ [q])
       (match args with
        | [ArgText v; ArgTime _] =>
            if String.eqb q insert_version then {[v]} ∪ md_versions d else md_versions d
        | [ArgText v] =>
            if String.eqb q delete_version then md_versions d ∖ {[v]} else md_versions d
        | _ => md_versions d
        end));
  query v d := (Ok (bool_decide (v ∈ md_versions d)), d);
  db_received := md_received;
  db_versions := md_versions;
|}.

#[export] Instance mem_database_laws : DatabaseLaws MemDB.
Proof.
  split; try done.
  - intros args d. by destruct args as [|[] [|[] [|]]].
  - intros v d b [= <-]. done.
Qed.

Definition repository_migrations : list Migration.t :=
  [Migration.mk "0001_init" init_up init_down].

Lemma repository_scripts_ok : scripts_ok repository_migrations.
Proof. repeat constructor; done. Qed.

Definition fresh_db : MemDB := mkMemDB [] ∅.

Lemma All_spec_witness :
  StronglySorted String.le (Migration.Version <$> repository_migrations).
Proof.
  apply (All_spec [mkEntry "0001_init_down.sql" false (Ok init_down);
                   mkEntry "0001_init_up.sql" false (Ok init_up)]).
  vm_compute. reflexivity.
Defined.

Lemma Up_applies_pending_in_order_witness :
  let '(e, d, _) := Up (H := quiet_env 0 1) fs (NewRunner true) fresh_db World_init in
  e = None ∧ db_received d = [create_table; init_up; insert_version].
Proof.
  pose proof (Up_applies_pending_in_order (H := quiet_env 0 1) fs (NewRunner true)
    repository_migrations fresh_db World_init eq_refl All_fs repository_scripts_ok) as Hok.
  assert ((Up (H := quiet_env 0 1) fs (NewRunner true) fresh_db World_init).1.1 = None) as He
    by (vm_compute; reflexivity).
  destruct (Up _ _ _ _) as [[e d] w]. simpl in He. subst e. split; [done|].
  destruct Hok as [_ Hok]. apply (Hok eq_refl).
Defined.

Lemma Up_idempotent_witness :
  let '(e1, d1, w1) := Up (H := quiet_env 0 1) fs (NewRunner true) fresh_db World_init in
  e1 = None ∧
  let '(e2, d2, _) := Up (H := quiet_env 0 1) fs (NewRunner true) d1 w1 in
  e2 = None → db_received d2 = db_received d1 ++ [create_table].
Proof.
  assert ((Up (H := quiet_env 0 1) fs (NewRunner true) fresh_db World_init).1.1 = None) as He
    by (vm_compute; reflexivity).
  destruct (Up _ _ fresh_db _) as [[e1 d1] w1] eqn:Hup. simpl in He. subst e1.
  split; [done|].
  pose proof (Up_idempotent (H := quiet_env 0 1) fs (NewRunner true)
    repository_migrations fresh_db d1 World_init w1 eq_refl All_fs
    repository_scripts_ok Hup) as Hok.
  destruct (Up _ _ d1 _) as [[e2 d2] w2]. intros ->. destruct Hok as [_ Hok].
  by apply Hok.
Defined.

Lemma Down_reverts_in_reverse_witness :
  let d := mkMemDB [] {["0001_init"; "0000_other"]} in
  let '(e, d', _) := Down fs (NewRunner true) d World_init in
  e = None ∧ db_versions d' = db_versions d ∖ {["0001_init"]}.
Proof.
  intros d.
  pose proof (Down_reverts_in_reverse fs (NewRunner true)
    repository_migrations d World_init eq_refl All_fs repository_scripts_ok) as Hok.
  assert ((Down fs (NewRunner true) d World_init).1.1 = None) as He
    by (vm_compute; reflexivity).
  destruct (Down _ _ _ _) as [[e d'] w]. simpl in He. subst e. split; [done|].
  destruct Hok as [_ Hok]. destruct (Hok eq_refl) as [_ ->]. simpl. set_solver.
Defined.
