(* ===== verification/Postgres.v ===== *)
(** * The PostgreSQL store (internal/store/postgres/postgres.go)

    The [Store] over a pgx connection pool.  The pool and the server behind it are a
    parameter: what the four statements of the store do to the two tables, uniqueness
    constraints included, is stated as the laws of the class [PoolLaws]. *)

From S2P Require Import Prelude GoStd World Decimal Store Migrations.

Open Scope Z_scope.

(** A row as it is sent and as it is scanned. *)
Abbreviation Row := (list Arg) (only parsing).

(** [pgxpool]: connections to a database in state [D].  The last four members only observe
    it: the statements received, the versions recorded, and the rows of the two tables. *)
Class Pool (D : Type) := {
  pool_New : string → result D;
  pool_Ping : D → option error * D;
  pool_Close : D → D;
  pool_Exec : string → Row → D → result Z * D;              (** rows affected *)
  pool_Query : string → Row → D → result (list Row) * D;
  pool_QueryBool : string → Row → D → result bool * D;
  pool_received : D → list string;
  pool_versions : D → gset string;
  order_rows : D → list Row;
  fill_rows : D → list Row;
}.

Definition exists_version : string :=
  "SELECT EXISTS(SELECT 1 FROM schema_migrations WHERE version=$1)".

(** The two functions [Open] hands to the migration runner. *)
#[export] Instance pool_database `{Pool D} : Database D := {|
  exec q args d := let '(r, d') := pool_Exec q args d in
                   (match r with Ok _ => None | Err e => Some e end, d');
  query v d := pool_QueryBool exists_version [ArgText v] d;
  db_received := pool_received;
  db_versions := pool_versions;
|}.

Definition insert_order : string :=
  "INSERT INTO orders
	(venue_order_id, client_order_id, venue, pair, side, order_type, status, filled_qty, avg_price, quantity, price, created_at, updated_at)
	VALUES ($1,$2,$3,$4,$5,$6,$7,$8,$9,$10,$11,$12,$13)
	ON CONFLICT (venue, client_order_id) DO NOTHING".

Definition insert_fill : string :=
  "INSERT INTO fills
	(venue_order_id, trade_id, venue, pair, price, quantity, fee, fee_asset, ts)
	VALUES ($1,$2,$3,$4,$5,$6,$7,$8,$9)
	ON CONFLICT (venue, trade_id) DO NOTHING".

Definition orderSelectSQL : string :=
  "SELECT venue_order_id, client_order_id, venue, pair, side, order_type, status, filled_qty, avg_price, quantity, price, created_at, updated_at FROM orders".

Definition select_order : string := orderSelectSQL +:+ " WHERE client_order_id=$1".

Definition select_fills : string :=
  "SELECT venue_order_id, trade_id, venue, pair, price, quantity, fee, fee_asset, ts FROM fills WHERE venue_order_id=$1 ORDER BY ts ASC".

(** ** The operations *)

Section postgres.
Context `{Env, DecimalOps, Pool D}.

(** [Open]: the state is the pool the process holds, if any. *)
Definition Open (dsn : string) : M (option D) (result D) := λ s w,
  match pool_New dsn with
  | Err e => (Err e, s, w)
  | Ok d =>
      let '(e, d) := pool_Ping d in
      match e with
      | Some e => (Err e, Some (pool_Close d), w)
      | None =>
          let '(e, d, w) := Up fs (NewRunner true) d w in
          match e with
          | Some e => (Err (ErrWrap "migrate: " e), Some (pool_Close d), w)
          | None => (Ok d, Some d, w)
          end
      end
  end.

Definition Close : M D (option error) := λ d w, (None, pool_Close d, w).

Definition Ping : M D (option error) := λ d w, let '(e, d') := pool_Ping d in (e, d', w).

Definition Exec_ (q : string) (args : Row) : M D (result Z) := λ d w,
  let '(r, d') := pool_Exec q args d in (r, d', w).

Definition Query_ (q : string) (args : Row) : M D (result (list Row)) := λ d w,
  let '(r, d') := pool_Query q args d in (r, d', w).

Definition order_args (o : Order.t) : Row :=
  [ArgText (Order.VenueOrderID o); ArgText (Order.ClientOrderID o); ArgText (Order.Venue o);
   ArgText (Order.Pair o); ArgText (Order.Side o); ArgText (Order.OrderType o);
   ArgText (Order.Status o); ArgText (dec_String (Order.FilledQty o));
   ArgText (dec_String (Order.AvgPrice o)); ArgText (dec_String (Order.Quantity o));
   ArgText (dec_String (Order.Price o)); ArgTime (Order.CreatedAt o);
   ArgTime (Order.UpdatedAt o)].

Definition fill_args (f : StoreFill.t) : Row :=
  [ArgText (StoreFill.VenueOrderID f); ArgText (StoreFill.TradeID f);
   ArgText (StoreFill.Venue f); ArgText (StoreFill.Pair f);
   ArgText (dec_String (StoreFill.Price f)); ArgText (dec_String (StoreFill.Quantity f));
   ArgText (dec_String (StoreFill.Fee f)); ArgText (StoreFill.FeeAsset f);
   ArgTime (StoreFill.Timestamp f)].

Definition pg_RecordOrder (o : Order.t) : M D (result bool) :=
  created ← (if Time_IsZero (Order.CreatedAt o) then now else mret (Order.CreatedAt o));
  updated ← now;
  tag ← Exec_ insert_order (order_args (stamp_order created updated o));
  mret (match tag with Err e => Err e | Ok n => Ok (0 <? n) end).

Definition pg_RecordFill (f : StoreFill.t) : M D (result bool) :=
  ts ← (if Time_IsZero (StoreFill.Timestamp f) then now else mret (StoreFill.Timestamp f));
  tag ← Exec_ insert_fill (fill_args (stamp_fill ts f));
  mret (match tag with Err e => Err e | Ok n => Ok (0 <? n) end).

(** [scanOrder] and [scanFill] on a row; a column of another type is a scan error. *)
Definition scanOrder (row : Row) : result Order.t :=
  match row with
  | [ArgText vo; ArgText co; ArgText v; ArgText p; ArgText s; ArgText ot; ArgText st;
     ArgText fq; ArgText ap; ArgText q; ArgText pr; ArgTime c; ArgTime u] =>
      Ok (Order.mk _ vo co v p s ot st (ParseOrZero fq) (ParseOrZero ap) (ParseOrZero q)
            (ParseOrZero pr) c u)
  | _ => Err (ErrNew "can't scan into dest")
  end.

Definition scanFill (row : Row) : result StoreFill.t :=
  match row with
  | [ArgText vo; ArgText t; ArgText v; ArgText p; ArgText pr; ArgText q; ArgText fee;
     ArgText fa; ArgTime ts] =>
      Ok (StoreFill.mk _ vo t v p (ParseOrZero pr) (ParseOrZero q) (ParseOrZero fee) fa ts)
  | _ => Err (ErrNew "can't scan into dest")
  end.

(** [QueryRow] scans the first row; every error is "not found". *)
Definition pg_GetOrderByClientID (id : string) : M D (option Order.t) :=
  rows ← Query_ select_order [ArgText id];
  mret (match rows with
        | Ok (row :: _) => match scanOrder row with Ok o => Some o | Err _ => None end
        | _ => None
        end).

Fixpoint scan_fills (rows : list Row) (out : list StoreFill.t) : result (list StoreFill.t) :=
  match rows with
  | [] => Ok out
  | row :: rows =>
      match scanFill row with
      | Err e => Err e
      | Ok f => scan_fills rows (out ++ [f])
      end
  end.

Definition pg_FillsForOrder (id : string) : M D (result (list StoreFill.t)) :=
  rows ← Query_ select_fills [ArgText id];
  mret (match rows with Err e => Err e | Ok rows => scan_fills rows [] end).

#[export] Instance pg_Store : Store D := {|
  RecordOrder := pg_RecordOrder;
  GetOrderByClientID := pg_GetOrderByClientID;
  RecordFill := pg_RecordFill;
  FillsForOrder := pg_FillsForOrder;
|}.
End postgres.

(** ** What the server does with the statements *)

#[export] Instance Arg_eq_dec : EqDecision Arg.
Proof. solve_decision. Defined.

(** Columns of a row, and the constraints of the two tables. *)
Definition same_at (i : nat) (r1 r2 : Row) : bool := bool_decide (r1 !! i = r2 !! i).

(** [UNIQUE (venue, client_order_id)], the primary key, and [UNIQUE (venue, trade_id)]. *)
Definition same_client_order (r1 r2 : Row) : bool := same_at 2 r1 r2 && same_at 1 r1 r2.
Definition same_venue_order (r1 r2 : Row) : bool := same_at 0 r1 r2.
Definition same_trade (r1 r2 : Row) : bool := same_at 2 r1 r2 && same_at 1 r1 r2.

(** Timestamps of two rows apart, columns are stored as they are sent; [numeric_text] is
    how a numeric column is read back. *)
Definition stored_order_row (numeric_text : string → string) (sent row : Row) : Prop :=
  ∃ vo co v p s ot st fq ap q pr c u c' u',
    sent = [ArgText vo; ArgText co; ArgText v; ArgText p; ArgText s; ArgText ot; ArgText st;
            ArgText fq; ArgText ap; ArgText q; ArgText pr; ArgTime c; ArgTime u] ∧
    row = [ArgText vo; ArgText co; ArgText v; ArgText p; ArgText s; ArgText ot; ArgText st;
           ArgText (numeric_text fq); ArgText (numeric_text ap); ArgText (numeric_text q);
           ArgText (numeric_text pr); ArgTime c'; ArgTime u'].

Definition stored_fill_row (numeric_text : string → string) (sent row : Row) : Prop :=
  ∃ vo t v p pr q fee fa ts ts',
    sent = [ArgText vo; ArgText t; ArgText v; ArgText p; ArgText pr; ArgText q; ArgText fee;
            ArgText fa; ArgTime ts] ∧
    row = [ArgText vo; ArgText t; ArgText v; ArgText p; ArgText (numeric_text pr);
           ArgText (numeric_text q); ArgText (numeric_text fee); ArgText fa; ArgTime ts'].

(** The column [ORDER BY ts] sorts on. *)
Definition row_ts (row : Row) : Time :=
  match row !! 8%nat with Some (ArgTime t) => t | _ => 0 end.

(** The documented behaviour of the four statements: a conflict on the named constraint
    inserts nothing and is no error, a conflict on another one is an error, an error changes
    no row, and a select only reads. *)
Class PoolLaws (D : Type) `{Pool D} := {
  numeric_text : string → string;
  insert_order_law args d :
    let '(r, d') := pool_Exec insert_order args d in
    fill_rows d' = fill_rows d ∧
    match r with
    | Err _ => order_rows d' = order_rows d
    | Ok n =>
        if existsb (same_client_order args) (order_rows d)
        then n = 0 ∧ order_rows d' = order_rows d
        else existsb (same_venue_order args) (order_rows d) = false ∧ n = 1 ∧
             ∃ row, stored_order_row numeric_text args row ∧ order_rows d' = order_rows d ++ [row]
    end;
  insert_fill_law args d :
    let '(r, d') := pool_Exec insert_fill args d in
    order_rows d' = order_rows d ∧
    match r with
    | Err _ => fill_rows d' = fill_rows d
    | Ok n =>
        if existsb (same_trade args) (fill_rows d)
        then n = 0 ∧ fill_rows d' = fill_rows d
        else n = 1 ∧
             ∃ row, stored_fill_row numeric_text args row ∧ fill_rows d' = fill_rows d ++ [row]
    end;
  select_order_law id d :
    let '(r, d') := pool_Query select_order [ArgText id] d in
    order_rows d' = order_rows d ∧ fill_rows d' = fill_rows d ∧
    ∀ rows, r = Ok rows → rows ≡ₚ filter (λ row, row !! 1%nat = Some (ArgText id)) (order_rows d);
  select_fills_law id d :
    let '(r, d') := pool_Query select_fills [ArgText id] d in
    order_rows d' = order_rows d ∧ fill_rows d' = fill_rows d ∧
    ∀ rows, r = Ok rows →
      rows ≡ₚ filter (λ row, row !! 0%nat = Some (ArgText id)) (fill_rows d) ∧
      StronglySorted (λ r1 r2, row_ts r1 ≤ row_ts r2) rows;
}.

(** ** Lemmas *)

Section lemmas.
Context `{Env, DecimalOps, PoolLaws D}.

Lemma Exec_run q args d w :
  Exec_ q args d w = ((pool_Exec q args d).1, (pool_Exec q args d).2, w).
Proof. unfold Exec_. by destruct (pool_Exec q args d). Qed.

(** The order as it is sent: with its timestamps filled in. *)
Lemma pg_RecordOrder_run o d w :
  ∃ c u w', pg_RecordOrder o d w =
    (match (pool_Exec insert_order (order_args (stamp_order c u o)) d).1 with
     | Err e => Err e | Ok n => Ok (0 <? n) end,
     (pool_Exec insert_order (order_args (stamp_order c u o)) d).2, w') ∧
    (Time_IsZero (Order.CreatedAt o) = false → c = Order.CreatedAt o).
Proof.
  unfold pg_RecordOrder. munfold. destruct (Time_IsZero (Order.CreatedAt o)) eqn:Hz;
    rewrite Exec_run; eexists _, _, _; (split; [reflexivity|by intros]).
Qed.

Lemma pg_RecordFill_run f d w :
  ∃ t w', pg_RecordFill f d w =
    (match (pool_Exec insert_fill (fill_args (stamp_fill t f)) d).1 with
     | Err e => Err e | Ok n => Ok (0 <? n) end,
     (pool_Exec insert_fill (fill_args (stamp_fill t f)) d).2, w') ∧
    (Time_IsZero (StoreFill.Timestamp f) = false → t = StoreFill.Timestamp f).
Proof.
  unfold pg_RecordFill. munfold. destruct (Time_IsZero (StoreFill.Timestamp f)) eqn:Hz;
    rewrite Exec_run; eexists _, _; (split; [reflexivity|by intros]).
Qed.

(** A row of the order's venue and client id. *)
Definition order_key_row (o : Order.t) (row : Row) : Prop :=
  row !! 2%nat = Some (ArgText (Order.Venue o)) ∧
  row !! 1%nat = Some (ArgText (Order.ClientOrderID o)).

Definition fill_key_row (f : StoreFill.t) (row : Row) : Prop :=
  row !! 2%nat = Some (ArgText (StoreFill.Venue f)) ∧
  row !! 1%nat = Some (ArgText (StoreFill.TradeID f)).

Lemma existsb_order_key c u o rows :
  existsb (same_client_order (order_args (stamp_order c u o))) rows = true ↔
  ∃ row, row ∈ rows ∧ order_key_row o row.
Proof.
  rewrite existsb_exists. unfold same_client_order, same_at, order_key_row. simpl.
  split; intros (row & Hin & Hk); exists row; rewrite list_elem_of_In in *; (split; [done|]).
  - rewrite andb_true_iff, !bool_decide_eq_true in Hk. by destruct Hk.
  - rewrite andb_true_iff, !bool_decide_eq_true. by destruct Hk as [-> ->].
Qed.

Lemma existsb_fill_key t f rows :
  existsb (same_trade (fill_args (stamp_fill t f))) rows = true ↔
  ∃ row, row ∈ rows ∧ fill_key_row f row.
Proof.
  rewrite existsb_exists. unfold same_trade, same_at, fill_key_row. simpl.
  split; intros (row & Hin & Hk); exists row; rewrite list_elem_of_In in *; (split; [done|]).
  - rewrite andb_true_iff, !bool_decide_eq_true in Hk. by destruct Hk.
  - rewrite andb_true_iff, !bool_decide_eq_true. by destruct Hk as [-> ->].
Qed.

Lemma existsb_order_id c u o rows :
  existsb (same_venue_order (order_args (stamp_order c u o))) rows = true ↔
  ∃ row, row ∈ rows ∧ row !! 0%nat = Some (ArgText (Order.VenueOrderID o)).
Proof.
  rewrite existsb_exists. unfold same_venue_order, same_at. simpl.
  split; intros (row & Hin & Hk); exists row; rewrite list_elem_of_In in *; (split; [done|]).
  - symmetry. by rewrite bool_decide_eq_true in Hk.
  - by rewrite bool_decide_eq_true.
Qed.

(** The row an order becomes, as it is read back. *)
Definition order_as_read (c u : Time) (o : Order.t) : Order.t :=
  let back d := ParseOrZero (numeric_text (dec_String d)) in
  Order.mk _ (Order.VenueOrderID o) (Order.ClientOrderID o) (Order.Venue o) (Order.Pair o)
    (Order.Side o) (Order.OrderType o) (Order.Status o) (back (Order.FilledQty o))
    (back (Order.AvgPrice o)) (back (Order.Quantity o)) (back (Order.Price o)) c u.

Lemma stored_order_scans c u o row :
  stored_order_row numeric_text (order_args (stamp_order c u o)) row →
  row !! 0%nat = Some (ArgText (Order.VenueOrderID o)) ∧ order_key_row o row ∧
  ∃ c' u', scanOrder row = Ok (order_as_read c' u' o).
Proof.
  intros (vo & co & v & p & s & ot & st & fq & ap & q & pr & c0 & u0 & c' & u' & Hs & ->).
  unfold order_args in Hs. simplify_eq/=. split_and!; [done|done|]. by exists c', u'.
Qed.

(** Recording an order, on every outcome. *)
Lemma pg_RecordOrder_spec o d w :
  let '(r, d', _) := pg_RecordOrder o d w in
  fill_rows d' = fill_rows d ∧
  match r with
  | Err _ => order_rows d' = order_rows d
  | Ok false => order_rows d' = order_rows d ∧ ∃ row, row ∈ order_rows d ∧ order_key_row o row
  | Ok true =>
      (∀ row, row ∈ order_rows d → ¬ order_key_row o row) ∧
      (∀ row, row ∈ order_rows d → row !! 0%nat ≠ Some (ArgText (Order.VenueOrderID o))) ∧
      ∃ row c u, order_rows d' = order_rows d ++ [row] ∧ order_key_row o row ∧
                 scanOrder row = Ok (order_as_read c u o)
  end.
Proof.
  destruct (pg_RecordOrder_run o d w) as (c & u & w' & -> & _).
  pose proof (insert_order_law (order_args (stamp_order c u o)) d) as Hl.
  pose proof (existsb_order_key c u o (order_rows d)) as Hk.
  pose proof (existsb_order_id c u o (order_rows d)) as Hid.
  destruct (pool_Exec insert_order _ d) as [[n|e] d']; simpl; destruct Hl as [Hf Hl]; [|done].
  split; [done|]. destruct (existsb (same_client_order _) _).
  - destruct Hl as [-> Ho]. simpl. split; [done|]. by apply Hk.
  - destruct Hl as (Hpk & -> & row & Hrow & Ho). simpl.
    destruct (stored_order_scans c u o row Hrow) as (_ & Hkr & c' & u' & Hsc).
    split_and!; [intros row' Hin Hr; by assert (false = true) by (apply Hk; by exists row')| |by eexists _, _, _].
    intros row' Hin Hr. rewrite Hpk in Hid.
    by assert (false = true) by (apply Hid; by exists row').
Qed.

(** Recording a new order, with the row it becomes. *)
Lemma pg_RecordOrder_new o d w d1 w1 :
  pg_RecordOrder o d w = (Ok true, d1, w1) →
  ∃ row c u, order_rows d1 = order_rows d ++ [row] ∧ order_key_row o row ∧
             scanOrder row = Ok (order_as_read c u o).
Proof.
  intros Hr. pose proof (pg_RecordOrder_spec o d w) as Hs. rewrite Hr in Hs.
  destruct Hs as (_ & _ & _ & row & c & u & Hs). by exists row, c, u.
Qed.

Lemma pg_read_back o d d1 w w1 w2 :
  pg_RecordOrder o d w = (Ok true, d1, w1) →
  (∀ row, row ∈ order_rows d → row !! 1%nat ≠ Some (ArgText (Order.ClientOrderID o))) →
  Forall (λ x, dec_Cmp (ParseOrZero (numeric_text (dec_String x))) x = Eq)
    [Order.FilledQty o; Order.AvgPrice o; Order.Quantity o; Order.Price o] →
  let '(r, d2, _) := pg_GetOrderByClientID (Order.ClientOrderID o) d1 w2 in
  order_rows d2 = order_rows d1 ∧
  (r = None ∨ ∃ o', r = Some o' ∧
     Order.VenueOrderID o' = Order.VenueOrderID o ∧
     Order.ClientOrderID o' = Order.ClientOrderID o ∧ Order.Venue o' = Order.Venue o ∧
     Order.Pair o' = Order.Pair o ∧ Order.Side o' = Order.Side o ∧
     Order.OrderType o' = Order.OrderType o ∧ Order.Status o' = Order.Status o ∧
     dec_Cmp (Order.FilledQty o') (Order.FilledQty o) = Eq ∧
     dec_Cmp (Order.AvgPrice o') (Order.AvgPrice o) = Eq ∧
     dec_Cmp (Order.Quantity o') (Order.Quantity o) = Eq ∧
     dec_Cmp (Order.Price o') (Order.Price o) = Eq).
Proof.
  intros Hrec Hfresh Hdec.
  destruct (pg_RecordOrder_new o d w d1 w1 Hrec) as (row & c & u & Ho & Hk & Hsc).
  unfold pg_GetOrderByClientID, Query_. munfold.
  pose proof (select_order_law (Order.ClientOrderID o) d1) as Hl.
  destruct (pool_Query select_order _ d1) as [rows d2]. destruct Hl as (Ho2 & _ & Hrows).
  split; [done|]. destruct rows as [rows|e]; [|by left].
  specialize (Hrows rows eq_refl). rewrite Ho, filter_app in Hrows.
  assert (filter (λ row, row !! 1%nat = Some (ArgText (Order.ClientOrderID o))) (order_rows d) = [])
    as Hnil.
  { clear -Hfresh. induction (order_rows d) as [|row rows IH]; [done|].
    rewrite filter_cons_False by (apply Hfresh; left). apply IH. intros r Hr. apply Hfresh. by right. }
  rewrite Hnil, filter_cons_True in Hrows by apply Hk. simpl in Hrows.
  apply Permutation_singleton_r in Hrows as ->. rewrite Hsc. right.
  eexists. split; [done|]. unfold order_as_read. simpl.
  rewrite !Forall_cons in Hdec. destruct Hdec as (H1' & H2' & H3' & H4' & _). by split_and!.
Qed.

(** The in-memory store, on a known and on a new client id. *)
Lemma mem_RecordOrder_known o o0 (s : MemStore) w :
  orders s !! Order.ClientOrderID o = Some o0 → mem_RecordOrder o s w = (Ok false, s, w).
Proof. intros Ho. unfold mem_RecordOrder. munfold. by rewrite Ho. Qed.

Lemma mem_RecordOrder_new o (s : MemStore) w :
  orders s !! Order.ClientOrderID o = None →
  ∃ o' s' w', mem_RecordOrder o s w = (Ok true, s', w') ∧
              orders s' !! Order.ClientOrderID o = Some o'.
Proof.
  intros Ho. unfold mem_RecordOrder. munfold. rewrite Ho.
  destruct (Time_IsZero (Order.CreatedAt o)); eexists _, _, _; (split; [reflexivity|]);
    apply lookup_insert_eq.
Qed.

(** Scanning the rows of fills. *)
Lemma scanFill_columns row f :
  scanFill row = Ok f →
  row !! 0%nat = Some (ArgText (StoreFill.VenueOrderID f)) ∧ row_ts row = StoreFill.Timestamp f.
Proof.
  do 9 (destruct row as [|[] row]; try done). destruct row; [|done]. simpl. by intros [= <-].
Qed.

Lemma scan_fills_spec rows out fs :
  scan_fills rows out = Ok fs →
  ∃ fs', fs = out ++ fs' ∧ Forall2 (λ row f, scanFill row = Ok f) rows fs'.
Proof.
  revert out. induction rows as [|row rows IH]; intros out Hs; simpl in Hs.
  - injection Hs as <-. exists []. by rewrite app_nil_r.
  - destruct (scanFill row) as [f|e] eqn:Hf; [|done].
    apply IH in Hs as (fs' & -> & Hall2). exists (f :: fs'). rewrite <- app_assoc. by split; [|constructor].
Qed.

Lemma scanned_sorted rows fs :
  Forall2 (λ row f, scanFill row = Ok f) rows fs →
  StronglySorted (λ r1 r2, row_ts r1 ≤ row_ts r2) rows →
  StronglySorted (λ f1 f2, StoreFill.Timestamp f1 ≤ StoreFill.Timestamp f2) fs.
Proof.
  induction 1 as [|row f rows fs Hf Hall2 IH]; [constructor|].
  intros [Hs Hle]%StronglySorted_inv. constructor; [by apply IH|]. clear IH Hs.
  apply scanFill_columns in Hf as [_ <-].
  induction Hall2 as [|row' f' rows fs Hf' _ IH]; [constructor|].
  apply Forall_cons in Hle as [Hle1 Hle]. apply scanFill_columns in Hf' as [_ Ht].
  constructor; [by rewrite <- Ht|by apply IH].
Qed.
End lemmas.

(** ** Properties *)

Section properties.
Context `{Env, DecimalOps, PoolLaws D}.

(** recording an order over PostgreSQL: it reports "new" exactly when it appended one row
    with the order's identifiers to the table, "known" exactly when a row of the same venue
    and client id was there, in which case nothing changed, and on an error nothing changed
    either.  An order whose venue id is taken by a row of another venue or client id is an
    error. *)
Theorem pg_RecordOrder_outcomes (o : Order.t) (d : D) (w : World) :
  let '(r, d', _) := pg_RecordOrder o d w in
  fill_rows d' = fill_rows d ∧
  match r with
  | Err _ => order_rows d' = order_rows d
  | Ok false => order_rows d' = order_rows d ∧ ∃ row, row ∈ order_rows d ∧ order_key_row o row
  | Ok true =>
      (∀ row, row ∈ order_rows d → ¬ order_key_row o row) ∧
      (∀ row, row ∈ order_rows d → row !! 0%nat ≠ Some (ArgText (Order.VenueOrderID o))) ∧
      ∃ row c u, order_rows d' = order_rows d ++ [row] ∧ order_key_row o row ∧
                 scanOrder row = Ok (order_as_read c u o)
  end.
Proof. apply pg_RecordOrder_spec. Qed.



(** reading the fills of an order over PostgreSQL changes nothing and, when it succeeds,
    gives exactly the fills stored for it, oldest first. *)
Theorem pg_FillsForOrder_spec (id : string) (d : D) (w : World) :
  let '(r, d', _) := pg_FillsForOrder id d w in
  order_rows d' = order_rows d ∧ fill_rows d' = fill_rows d ∧
  ∀ fs, r = Ok fs →
    StronglySorted (λ f1 f2, StoreFill.Timestamp f1 ≤ StoreFill.Timestamp f2) fs ∧
    Forall (λ f, StoreFill.VenueOrderID f = id) fs ∧
    ∃ rows, rows ≡ₚ filter (λ row, row !! 0%nat = Some (ArgText id)) (fill_rows d) ∧
            Forall2 (λ row f, scanFill row = Ok f) rows fs.
Proof.
  unfold pg_FillsForOrder, Query_. munfold.
  pose proof (select_fills_law id d) as Hl.
  destruct (pool_Query select_fills _ d) as [rows d2]. destruct Hl as (Ho & Hf & Hrows).
  split_and!; [done..|]. destruct rows as [rows|e]; [|done]. intros fs Hfs.
  destruct (Hrows rows eq_refl) as [Hp Hsort]. apply scan_fills_spec in Hfs as (fs' & -> & Hall2).
  split_and!; [by eapply scanned_sorted| |by exists rows].
  assert (Hid : Forall (λ row : Row, row !! 0%nat = Some (ArgText id)) rows).
  { rewrite Hp. apply Forall_forall. intros row Hin. by apply list_elem_of_filter in Hin as [? _]. }
  clear -Hid Hall2. induction Hall2 as [|row f rows fs Hs _ IH]; [constructor|].
  inversion Hid; subst. constructor; [|by apply IH].
  apply scanFill_columns in Hs as (Hv & _). by simplify_eq.
Qed.

(** the two stores disagree on two venues that use the same client id: the in-memory store
    takes the second order for a duplicate and drops it, PostgreSQL stores both. *)
Theorem stores_disagree_on_client_ids (o1 o2 : Order.t) (w : World) :
  Order.ClientOrderID o2 = Order.ClientOrderID o1 → Order.Venue o2 ≠ Order.Venue o1 →
  Order.VenueOrderID o2 ≠ Order.VenueOrderID o1 →
  (let '(r1, s1, w1) := mem_RecordOrder o1 New w in
   r1 = Ok true ∧ mem_RecordOrder o2 s1 w1 = (Ok false, s1, w1)) ∧
  (∀ d b1 d1 w1 b2 d2 w2, order_rows d = [] →
     pg_RecordOrder o1 d w = (Ok b1, d1, w1) → pg_RecordOrder o2 d1 w1 = (Ok b2, d2, w2) →
     b1 = true ∧ b2 = true ∧ length (order_rows d2) = 2%nat).
Proof.
  intros Hc Hv Hid. split.
  - destruct (mem_RecordOrder_new o1 New w (lookup_empty _)) as (o' & s1 & w1 & -> & Ho').
    split; [done|]. eapply mem_RecordOrder_known. by rewrite Hc.
  - intros d b1 d1 w1 b2 d2 w2 Hd Hr1 Hr2.
    pose proof (pg_RecordOrder_spec o1 d w) as Hs1. rewrite Hr1 in Hs1.
    pose proof (pg_RecordOrder_spec o2 d1 w1) as Hs2. rewrite Hr2 in Hs2.
    destruct Hs1 as [_ Hs1], Hs2 as [_ Hs2]. destruct b1.
    2: { destruct Hs1 as (_ & row & Hin & _). rewrite Hd in Hin. by apply elem_of_nil in Hin. }
    destruct Hs1 as (_ & _ & row & c & u & Ho1 & [Hkv _] & _). rewrite Hd in Ho1. simpl in Ho1.
    destruct b2.
    + destruct Hs2 as (_ & _ & row2 & c2 & u2 & -> & _). by rewrite Ho1.
    + destruct Hs2 as (_ & row2 & Hin & Hk2 & _). rewrite Ho1, list_elem_of_singleton in Hin.
      subst row2. congruence.
Qed.

(** a pool is handed out only on a database whose migrations have all been applied; when
    the ping or a migration fails the pool that was opened has been closed. *)
Theorem Open_migrates (dsn : string) `{!DatabaseLaws D} (s : option D) (w : World) :
  let '(r, s', _) := Open dsn s w in
  match r with
  | Ok d => s' = Some d ∧
            (∀ m, m ∈ repository_migrations → Migration.Version m ∈ pool_versions d)
  | Err _ => s' = s ∨ ∃ d, s' = Some (pool_Close d)
  end.
Proof.
  unfold Open. destruct (pool_New dsn) as [d|e]; [|by left].
  destruct (pool_Ping d) as [[e|] d1]; [right; by eexists|].
  pose proof (Up_spec fs (NewRunner true) repository_migrations d1 w eq_refl All_fs
    repository_scripts_ok) as [_ Hup].
  destruct (Up fs (NewRunner true) d1 w) as [[e d2] w2]. destruct e as [e|]; [right; by eexists|].
  split; [done|]. intros m Hm. rewrite (Hup eq_refl : pool_versions d2 = _).
  apply elem_of_union_r, elem_of_list_to_set, list_elem_of_fmap. by exists m.
Qed.
End properties.

(** ** A database kept in memory, and the witnesses *)

Record Tables := mkTables {
  t_received : list string;
  t_versions : gset string;
  t_orders : list Row;
  t_fills : list Row;
}.

(** The columns of the two insert statements have their types. *)
Definition order_shape (row : Row) : bool :=
  match row with
  | [ArgText _; ArgText _; ArgText _; ArgText _; ArgText _; ArgText _; ArgText _; ArgText _;
     ArgText _; ArgText _; ArgText _; ArgTime _; ArgTime _] => true
  | _ => false
  end.

Definition fill_shape (row : Row) : bool :=
  match row with
  | [ArgText _; ArgText _; ArgText _; ArgText _; ArgText _; ArgText _; ArgText _; ArgText _;
     ArgTime _] => true
  | _ => false
  end.

Definition add_order (row : Row) (d : Tables) : result Z * Tables :=
  if existsb (same_client_order row) (t_orders d) then (Ok 0, d)
  else if existsb (same_venue_order row) (t_orders d) || negb (order_shape row)
  then (Err (ErrNew "ERROR"), d)
  else (Ok 1, mkTables (t_received d) (t_versions d) (t_orders d ++ [row]) (t_fills d)).

Definition add_fill (row : Row) (d : Tables) : result Z * Tables :=
  if existsb (same_trade row) (t_fills d) then (Ok 0, d)
  else if negb (fill_shape row) then (Err (ErrNew "ERROR"), d)
  else (Ok 1, mkTables (t_received d) (t_versions d) (t_orders d) (t_fills d ++ [row])).

Definition ts_le (r1 r2 : Row) : Prop := row_ts r1 ≤ row_ts r2.
#[export] Instance ts_le_dec : RelDecision ts_le.
Proof. intros r1 r2. unfold ts_le. apply _. Defined.

#[export] Instance ts_le_total : Total ts_le.
Proof. intros r1 r2. unfold ts_le. lia. Qed.
#[export] Instance ts_le_trans : Transitive ts_le.
Proof. intros r1 r2 r3. unfold ts_le. lia. Qed.

Definition received (q : string) (d : Tables) : Tables :=
  mkTables (t_received d ++ [q]) (t_versions d) (t_orders d) (t_fills d).

(** The runner's own statements. *)
Definition versions_after (q : string) (args : Row) (vs : gset string) : gset string :=
  match args with
  | [ArgText v; ArgTime _] => if String.eqb q insert_version then {[v]} ∪ vs else vs
  | [ArgText v] => if String.eqb q delete_version then vs ∖ {[v]} else vs
  | _ => vs
  end.

#[export] Instance tables_pool : Pool Tables := {|
  pool_New _ := Ok (mkTables [] ∅ [] []);
  pool_Ping d := (None, d);
  pool_Close d := d;
  pool_Exec q args d :=
    let d := received q d in
    if String.eqb q insert_order then add_order args d
    else if String.eqb q insert_fill then add_fill args d
    else (Ok 0, mkTables (t_received d) (versions_after q args (t_versions d))
                  (t_orders d) (t_fills d));
  pool_Query q args d :=
    (match args with
     | [ArgText id] =>
         if String.eqb q select_order
         then Ok (filter (λ row, row !! 1%nat = Some (ArgText id)) (t_orders d))
         else Ok (merge_sort ts_le (filter (λ row, row !! 0%nat = Some (ArgText id)) (t_fills d)))
     | _ => Err (ErrNew "ERROR")
     end, d);
  pool_QueryBool q args d :=
    (match args with
     | [ArgText v] => Ok (bool_decide (v ∈ t_versions d))
     | _ => Err (ErrNew "ERROR")
     end, d);
  pool_received := t_received;
  pool_versions := t_versions;
  order_rows := t_orders;
  fill_rows := t_fills;
|}.

Lemma order_shape_stored row : order_shape row = true → stored_order_row id row row.
Proof.
  do 13 (destruct row as [|[] row]; try done). destruct row; [|done]. intros _.
  repeat eexists.
Qed.

Lemma fill_shape_stored row : fill_shape row = true → stored_fill_row id row row.
Proof.
  do 9 (destruct row as [|[] row]; try done). destruct row; [|done]. intros _.
  repeat eexists.
Qed.

#[export] Instance tables_laws : PoolLaws Tables.
Proof.
  refine {| numeric_text := id |}.
  - intros args d. change (pool_Exec insert_order args d) with (add_order args (received insert_order d)).
    unfold add_order. simpl. destruct (existsb (same_client_order args) (t_orders d)) eqn:Hc; simpl;
      [done|].
    destruct (existsb (same_venue_order args) (t_orders d)) eqn:Hv; simpl; [done|].
    destruct (order_shape args) eqn:Hs; simpl; [|done]. split_and!; [done..|].
    exists args. auto using order_shape_stored.
  - intros args d. change (pool_Exec insert_fill args d) with (add_fill args (received insert_fill d)).
    unfold add_fill. simpl. destruct (existsb (same_trade args) (t_fills d)) eqn:Hc; simpl;
      [done|].
    destruct (fill_shape args) eqn:Hs; simpl; [|done]. split_and!; [done..|].
    exists args. auto using fill_shape_stored.
  - intros i d. simpl. split_and!; [done..|]. by intros rows [= <-].
  - intros i d. simpl. split_and!; [done..|]. intros rows [= <-]. split.
    + apply merge_sort_Permutation.
    + apply (StronglySorted_merge_sort ts_le).
Defined.


(** The store's statements do not touch the runner's table. *)
Lemma add_order_frame row d :
  t_received (add_order row d).2 = t_received d ∧ t_versions (add_order row d).2 = t_versions d.
Proof. unfold add_order. by repeat case_match. Qed.
Lemma add_fill_frame row d :
  t_received (add_fill row d).2 = t_received d ∧ t_versions (add_fill row d).2 = t_versions d.
Proof. unfold add_fill. by repeat case_match. Qed.

Lemma tables_exec q args (d : Tables) :
  db_received (exec q args d).2 = db_received d ++ [q] ∧
  (q ≠ insert_order → q ≠ insert_fill → (exec q args d).1 = None ∧
     db_versions (exec q args d).2 = versions_after q args (db_versions d)) ∧
  (q = insert_order ∨ q = insert_fill → db_versions (exec q args d).2 = db_versions d).
Proof.
  simpl. destruct (String.eqb_spec q insert_order) as [->|Ho].
  { pose proof (add_order_frame args (received insert_order d)) as [Hr Hv].
    destruct (add_order _ _). by split_and!. }
  destruct (String.eqb_spec q insert_fill) as [->|Hf].
  { pose proof (add_fill_frame args (received insert_fill d)) as [Hr Hv].
    destruct (add_fill _ _). by split_and!. }
  split_and!; [done|done|by intros [->| ->]].
Qed.

#[export] Instance tables_database_laws : DatabaseLaws Tables.
Proof.
  split.
  - intros q args d. apply tables_exec.
  - intros q args d Hfail. destruct (tables_exec q args d) as (_ & Hother & Hstore).
    destruct (decide (q = insert_order)), (decide (q = insert_fill)); auto.
    by destruct Hother.
  - intros args d. destruct (tables_exec create_table args d) as (_ & Hother & _).
    destruct Hother as [_ ->]; [done..|]. by destruct args as [|[] [|[] [|]]].
  - intros q d _. destruct (tables_exec q [] d) as (_ & Hother & Hstore).
    destruct (decide (q = insert_order)), (decide (q = insert_fill)); auto.
    by destruct Hother.
  - intros v t d _. by destruct (tables_exec insert_version [ArgText v; ArgTime t] d)
      as (_ & [_ ->] & _).
  - intros v d _. by destruct (tables_exec delete_version [ArgText v] d) as (_ & [_ ->] & _).
  - done.
  - by intros v d b [= <-].
Qed.

Section witnesses.
#[local] Existing Instance exact_ops.
Definition pg_env : Env := quiet_env 10 1.
#[local] Existing Instance pg_env.

Definition sample_order (venue_id venue : string) : Order.t :=
  Order.mk _ venue_id "c1" venue "BTCUSDT" "buy" "limit" "new" (mkDec 0 0) (mkDec 0 0)
    (mkDec 15 (-1)) (mkDec 100 0) 0 0.

Definition empty_tables : Tables := mkTables [] ∅ [] [].

Definition first_order : result bool * Tables * World :=
  pg_RecordOrder (sample_order "v1" "binance") empty_tables World_init.
Definition second_order : result bool * Tables * World :=
  pg_RecordOrder (sample_order "v2" "kraken") first_order.1.2 first_order.2.

Lemma first_order_new : first_order = (Ok true, first_order.1.2, first_order.2).
Proof. vm_compute. reflexivity. Qed.
Lemma second_order_new : second_order = (Ok true, second_order.1.2, second_order.2).
Proof. vm_compute. reflexivity. Qed.

Lemma stores_disagree_on_client_ids_witness : length (order_rows second_order.1.2) = 2%nat.
Proof.
  destruct (stores_disagree_on_client_ids (D := Tables) (sample_order "v1" "binance")
    (sample_order "v2" "kraken") World_init eq_refl ltac:(done) ltac:(done)) as [_ Hpg].
  by destruct (Hpg empty_tables _ _ _ _ _ _ eq_refl first_order_new second_order_new)
    as (_ & _ & Hlen).
Defined.


Lemma Open_migrates_witness :
  let '(r, s, _) := Open (D := Tables) "postgres://" None World_init in
  match r with
  | Ok d => s = Some d ∧ "0001_init" ∈ pool_versions d
  | Err _ => False
  end.
Proof.
  pose proof (Open_migrates (D := Tables) "postgres://" None World_init) as Hopen.
  assert (is_ok (Open (D := Tables) "postgres://" None World_init).1.1 = true) as Hok
    by (vm_compute; reflexivity).
  destruct (Open _ _ _) as [[[d|e] s] w]; [|done]. destruct Hopen as [-> Hm].
  split; [done|]. by apply (Hm (Migration.mk "0001_init" init_up init_down)), list_elem_of_singleton.
Defined.
End witnesses.
