(* ===== verification/Events.v ===== *)
(** * The event bus (internal/events/events.go)

    Fill and balance events, the Kafka publisher and its construction from a URL, and the
    bus with its retries and dead letters.  [json.Marshal] of the two event types goes
    through the decimal library, so the encoder is a parameter. *)

From S2P Require Import Prelude GoStd World Decimal Venue.

Open Scope Z_scope.

Module FillEvent.
Record t `{DecimalOps} := mk {
  VenueOrderID : string;
  InternalID : string;
  Venue : string;
  Pair : string;
  Price : Dec;
  Size : Dec;
  Fee : Dec;
  FeeAsset : string;
  TradeID : string;
  Timestamp : Time;
  EmittedAt : Time;
}.
End FillEvent.

Module BalanceEvent.
Record t `{DecimalOps} := mk {
  Venue : string;
  Asset : string;
  Free : Dec;
  Locked : Dec;
  Timestamp : Time;
  EmittedAt : Time;
}.
End BalanceEvent.

Class EventCodec `{DecimalOps} := {
  marshal_fill : FillEvent.t → result string;
  marshal_balance : BalanceEvent.t → result string;
}.

(** The [Publisher] interface, for a publisher whose state is [P]; [published] is what it
    has been handed so far. *)
Class Publisher (P : Type) := {
  Publish : string → string → M P (option error);
  published : P → World → list string;
}.

(** A publisher takes the data it is handed and does nothing else to the process. *)
Class PublisherLaws (P : Type) `{Publisher P} : Prop := {
  Publish_takes subject data p w :
    let '(_, p', w') := Publish subject data p w in
    published p' w' = published p w ++ [data] ∧
    w_metrics w' = w_metrics w ∧ w_ctx w' = w_ctx w;
  published_frame p w w' : w_kafka w = w_kafka w' → published p w = published p w';
}.

(** ** The Kafka publisher *)

Record KafkaPublisher := mkKafkaPublisher { kp_brokers : list string; kp_topic : string }.

Definition NewKafkaPublisher (brokers : list string) (topic : string) : result KafkaPublisher :=
  if (length brokers =? 0)%nat then Err (ErrNew "events: no kafka brokers provided")
  else Ok (mkKafkaPublisher brokers (if String.eqb topic "" then "recon" else topic)).

(** [clean := brokers[:0]; for _, b := range brokers { ...; clean = append(clean, b) }]:
    [clean] shares the array of [brokers], so each append overwrites an element of the
    list being read. [arr] is the array, [i] the element read next, [k] the length of
    [clean]. *)
Fixpoint clean_loop `{UnicodeTables} (fuel i k : nat) (arr : list string) : list string :=
  match fuel with
  | O => take k arr
  | S fuel =>
      match arr !! i with
      | None => take k arr
      | Some b =>
          let b := TrimSpace b in
          if String.eqb b "" then clean_loop fuel (S i) k arr
          else clean_loop fuel (S i) (S k) (<[k := b]> arr)
      end
  end.

Definition clean_brokers `{UnicodeTables} (brokers : list string) : list string :=
  clean_loop (length brokers) 0 0 brokers.

(** [for _, kv := range strings.Split(q, "&") { if HasPrefix(kv, "topic=") ... }] *)
Definition query_topic (q : string) : string :=
  fold_left (λ topic kv, if HasPrefix kv "topic=" then TrimPrefix kv "topic=" else topic)
    (Split q "&"%char) "".

Definition NewKafkaPublisherFromURL `{UnicodeTables} (quoted : string → string) (url : string)
    : result KafkaPublisher :=
  if negb (HasPrefix url "kafka://") then
    Err (ErrNew ("events: url must start with kafka://, got " +:+ quoted url))
  else
    let rest := TrimPrefix url "kafka://" in
    let '(rest, topic) :=
      match Index rest "?"%char with
      | Some i => (string_take i rest, query_topic (string_drop (S i) rest))
      | None => (rest, "")
      end in
    NewKafkaPublisher (clean_brokers (Split rest ","%char)) topic.

Section kafka.
Context `{Env}.

(** The receiver, and its writer, may be nil. *)
Definition kafka_Publish (subject data : string) : M (option KafkaPublisher) (option error) :=
  p ← get;
  match p with
  | None => mret (Some (ErrNew "events: kafka not connected"))
  | Some p => kafka_write {| km_topic := kp_topic p; km_key := None; km_value := data |}
  end.

(** [Close]; [writer_Close] is what closing the writer, of the Kafka client, returns. *)
Definition kafka_Close (writer_Close : KafkaPublisher → option error)
    (p : option KafkaPublisher) : option error :=
  match p with None => None | Some p => writer_Close p end.

(** A connected publisher. *)
Definition connected_Publish (subject data : string) : M KafkaPublisher (option error) := λ p w,
  let '(e, q, w') := kafka_Publish subject data (Some p) w in (e, p, w').

#[export] Instance kafka_Publisher : Publisher KafkaPublisher := {|
  Publish := connected_Publish;
  published _ w := km_value <$> w_kafka w;
|}.

#[export] Instance kafka_PublisherLaws : PublisherLaws KafkaPublisher.
Proof.
  split.
  - intros subject data p w. simpl. by rewrite fmap_app.
  - intros p w w'. simpl. by intros ->.
Qed.
End kafka.

(** ** The bus *)

Record Bus `{DecimalOps} {P : Type} := mkBus {
  publisher : P;
  subject : string;
  maxRetries : Z;
  deadLetter : nat;                           (** which handler is installed; 0 does nothing *)
  deadLetters : list (nat * FillEvent.t * option error);   (** calls of the handlers *)
  waits : list Duration;                      (** timers started between attempts *)
}.
Arguments Bus {_} P.
Arguments mkBus {_ P}.

Section bus.
Context `{Env, EventCodec, Publisher P}.

Definition NewBus (publisher : P) (subject : string) : Bus P := mkBus publisher subject 3 0 [] [].

Definition set_publisher (p : P) (b : Bus P) : Bus P :=
  mkBus p (subject b) (maxRetries b) (deadLetter b) (deadLetters b) (waits b).
Definition add_wait (d : Duration) (b : Bus P) : Bus P :=
  mkBus (publisher b) (subject b) (maxRetries b) (deadLetter b) (deadLetters b) (waits b ++ [d]).
Definition add_dead (ev : FillEvent.t) (e : option error) (b : Bus P) : Bus P :=
  mkBus (publisher b) (subject b) (maxRetries b) (deadLetter b)
    (deadLetters b ++ [(deadLetter b, ev, e)]) (waits b).

Definition SetDeadLetterHandler (h : nat) : M (Bus P) unit :=
  modify (λ b, mkBus (publisher b) (subject b) (maxRetries b) h (deadLetters b) (waits b)).

(** How a loop of attempts ends. *)
Inductive Attempts := Published | Cancelled (e : error) | Exhausted (lastErr : option error).

(** [for attempt := 0; attempt <= b.maxRetries; attempt++]: [n] attempts are left. The
    [select] takes the branch of [ctx.Done] or waits for the timer. *)
Fixpoint attempts (n : nat) (attempt : Z) (lastErr : option error) (subj data : string)
    : M (Bus P) Attempts :=
  match n with
  | O => mret (Exhausted lastErr)
  | S n =>
      e ← zoom publisher set_publisher (Publish subj data);
      match e with
      | None => mret Published
      | Some err =>
          c ← ctx_done;
          match c with
          | Some ce => mret (Cancelled ce)
          | None =>
              modify (add_wait ((attempt + 1) * 100 * Millisecond)) ;;
              attempts n (attempt + 1) (Some err) subj data
          end
      end
  end.

(** [x := time.Since(ts).Seconds(); if x < 0 { x = 0 }] *)
Definition latency_since (ts : Time) : M (Bus P) float64 :=
  d ← since ts;
  let x := Duration_Seconds d in
  mret (if SFltb x f64_zero then f64_zero else x).

(** The event as it is sent: the defaults filled in. *)
Definition fill_InternalID (ev : FillEvent.t) : FillEvent.t :=
  if String.eqb (FillEvent.InternalID ev) "" then
    FillEvent.mk _ (FillEvent.VenueOrderID ev) (FillEvent.VenueOrderID ev) (FillEvent.Venue ev)
      (FillEvent.Pair ev) (FillEvent.Price ev) (FillEvent.Size ev) (FillEvent.Fee ev)
      (FillEvent.FeeAsset ev) (FillEvent.TradeID ev) (FillEvent.Timestamp ev)
      (FillEvent.EmittedAt ev)
  else ev.

Definition fill_EmittedAt (ev : FillEvent.t) : M (Bus P) FillEvent.t :=
  if Time_IsZero (FillEvent.EmittedAt ev) then
    t ← now;
    mret (FillEvent.mk _ (FillEvent.VenueOrderID ev) (FillEvent.InternalID ev)
      (FillEvent.Venue ev) (FillEvent.Pair ev) (FillEvent.Price ev) (FillEvent.Size ev)
      (FillEvent.Fee ev) (FillEvent.FeeAsset ev) (FillEvent.TradeID ev)
      (FillEvent.Timestamp ev) t)
  else mret ev.

Definition PublishFill (ev : FillEvent.t) : M (Bus P) (option error) :=
  if String.eqb (FillEvent.VenueOrderID ev) "" then
    mret (Some (ErrNew "events: venue_order_id required"))
  else
    ev ← fill_EmittedAt (fill_InternalID ev);
    match marshal_fill ev with
    | Err e => mret (Some e)
    | Ok data =>
        b ← get;
        r ← attempts (Z.to_nat (maxRetries b + 1)) 0 None (subject b +:+ ".fills") data;
        match r with
        | Published =>
            emit_metric (EventsPublishedTotal (FillEvent.Venue ev) "fill" "ok") ;;
            l ← latency_since (FillEvent.Timestamp ev);
            emit_metric (FillLatencySeconds (FillEvent.Venue ev) l) ;;
            mret None
        | Cancelled e => mret (Some e)
        | Exhausted lastErr =>
            emit_metric (EventsPublishedTotal (FillEvent.Venue ev) "fill" "failed") ;;
            modify (add_dead ev lastErr) ;;
            mret lastErr
        end
    end.

Definition balance_EmittedAt (ev : BalanceEvent.t) : M (Bus P) BalanceEvent.t :=
  if Time_IsZero (BalanceEvent.EmittedAt ev) then
    t ← now;
    mret (BalanceEvent.mk _ (BalanceEvent.Venue ev) (BalanceEvent.Asset ev)
      (BalanceEvent.Free ev) (BalanceEvent.Locked ev) (BalanceEvent.Timestamp ev) t)
  else mret ev.

Definition PublishBalance (ev : BalanceEvent.t) : M (Bus P) (option error) :=
  if String.eqb (BalanceEvent.Venue ev) "" || String.eqb (BalanceEvent.Asset ev) "" then
    mret (Some (ErrNew "events: venue and asset required"))
  else
    ev ← balance_EmittedAt ev;
    match marshal_balance ev with
    | Err e => mret (Some e)
    | Ok data =>
        b ← get;
        r ← attempts (Z.to_nat (maxRetries b + 1)) 0 None (subject b +:+ ".balances") data;
        match r with
        | Published =>
            emit_metric (EventsPublishedTotal (BalanceEvent.Venue ev) "balance" "ok") ;;
            l ← latency_since (BalanceEvent.Timestamp ev);
            emit_metric (BalanceSyncLagSeconds (BalanceEvent.Venue ev) l) ;;
            mret None
        | Cancelled e => mret (Some e)
        | Exhausted lastErr =>
            emit_metric (EventsPublishedTotal (BalanceEvent.Venue ev) "balance" "failed") ;;
            mret lastErr
        end
    end.

Definition FillFromVenue (venueName internalID pair : string) (f : Fill.t) : FillEvent.t :=
  FillEvent.mk _ (Fill.VenueOrderID f) internalID venueName pair (Fill.Price f)
    (Fill.Quantity f) (Fill.Fee f) (Fill.FeeAsset f) (Fill.TradeID f) (Fill.Timestamp f)
    Time_zero.

Definition BalanceFromVenue {S} (venueName : string) (b : Balance.t) : M S BalanceEvent.t :=
  t ← now;
  mret (BalanceEvent.mk _ venueName (Balance.Asset b) (Balance.Free b) (Balance.Locked b)
          t Time_zero).

End bus.

(** ** Lemmas: the brokers of a URL *)

Section url_lemmas.
Context `{UnicodeTables}.

(** The loop that overwrites the list it reads computes the filter: it never overwrites
    an element it has not read yet. *)
Lemma clean_loop_spec fuel i k arr :
  (k ≤ i)%nat → (length arr ≤ i + fuel)%nat → (i ≤ length arr)%nat →
  clean_loop fuel i k arr =
    take k arr ++ filter (λ b, b ≠ "") (TrimSpace <$> drop i arr).
Proof.
  revert i k arr. induction fuel as [|fuel IH]; intros i k arr Hk Hf Hi; simpl.
  { rewrite drop_ge by lia. by rewrite app_nil_r. }
  destruct (arr !! i) as [b|] eqn:Hb.
  2: { apply lookup_ge_None in Hb. rewrite drop_ge by lia. by rewrite app_nil_r. }
  pose proof (lookup_lt_Some _ _ _ Hb) as Hlt. rewrite (drop_S _ _ _ Hb), fmap_cons.
  destruct (String.eqb_spec (TrimSpace b) "") as [He|He].
  - rewrite IH by lia. by rewrite filter_cons_False by (by intros []).
  - rewrite IH by (rewrite ?length_insert; lia). rewrite filter_cons_True by done.
    rewrite drop_insert_lt by lia.
    rewrite (take_S_r _ _ (TrimSpace b)) by (by rewrite list_lookup_insert_eq by lia).
    rewrite take_insert_ge by lia. by rewrite <- app_assoc.
Qed.

Lemma clean_brokers_spec brokers :
  clean_brokers brokers = filter (λ b, b ≠ "") (TrimSpace <$> brokers).
Proof. unfold clean_brokers. rewrite clean_loop_spec by lia. by rewrite take_0, drop_0. Qed.
End url_lemmas.

(** ** Lemmas: the attempts *)

Section attempts_lemmas.
Context `{Env, EventCodec, PublisherLaws P}.

(** The timers started before attempts [a], [a+1], ... *)
Definition backoffs (a : Z) (n : nat) : list Duration :=
  (λ i, (a + Z.of_nat i + 1) * 100 * Millisecond) <$> seq 0 n.
Arguments backoffs : simpl never.

Lemma backoffs_S a n :
  backoffs a (S n) = (a + 1) * 100 * Millisecond :: backoffs (a + 1) n.
Proof.
  unfold backoffs. cbn [seq fmap list_fmap]. f_equal; [f_equal; lia|].
  rewrite <- seq_shift, <- list_fmap_compose. apply list_fmap_ext. intros i x _.
  simpl. f_equal. lia.
Qed.

Lemma attempts_spec n a le subj data (b : Bus P) w :
  let '(r, b', w') := attempts n a le subj data b w in
  ∃ k, published (publisher b') w' = published (publisher b) w ++ replicate k data ∧
    w_metrics w' = w_metrics w ∧ (deadLetters b' = deadLetters b ∧ deadLetter b' = deadLetter b) ∧
    match r with
    | Published => (1 ≤ k ≤ n)%nat ∧ waits b' = waits b ++ backoffs a (k - 1)
    | Cancelled e => (1 ≤ k ≤ n)%nat ∧ waits b' = waits b ++ backoffs a (k - 1) ∧
                     env_ctx (w_ctx w + (k - 1)) = Some e
    | Exhausted le' => k = n ∧ waits b' = waits b ++ backoffs a n ∧
                       (le' = None → n = 0%nat ∧ le = None)
    end.
Proof.
  revert a le b w. induction n as [|n IH]; intros a le b w.
  { exists 0%nat. simpl. rewrite !app_nil_r. by split_and!. }
  cbn [attempts]. unfold zoom. munfold.
  pose proof (Publish_takes subj data (publisher b) w) as Hp.
  destruct (Publish subj data (publisher b) w) as [[e p] w1]. destruct Hp as (Hpub & Hm & Hc).
  destruct e as [err|]; simpl.
  2: { exists 1%nat. simpl. unfold backoffs. rewrite !app_nil_r. split_and!; auto; lia. }
  set (w2 := mkWorld _ _ _ _ _ _ _).
  rewrite (published_frame p w1 w2 eq_refl) in Hpub.
  destruct (env_ctx (w_ctx w1)) as [ce|] eqn:Hce.
  { exists 1%nat. simpl. unfold backoffs. rewrite !app_nil_r. rewrite Nat.add_0_r, <- Hc.
    split_and!; auto; lia. }
  specialize (IH (a + 1) (Some err) (add_wait ((a + 1) * 100 * Millisecond)
                                       (set_publisher p b)) w2).
  destruct (attempts n (a + 1) (Some err) subj data _ w2) as [[r b'] w'].
  destruct IH as (k & Hk1 & Hk2 & Hk3 & Hk4). exists (S k). simpl in Hk1, Hk2, Hk3.
  rewrite Hpub, <- app_assoc in Hk1. split_and!; [done|congruence|by apply Hk3..|].
  simpl in Hk4. rewrite Hc in Hk4. destruct r as [|e|le'].
  - destruct Hk4 as [Hk4 Hw]. split; [lia|]. rewrite Hw, <- app_assoc.
    replace (S k - 1)%nat with (S (k - 1)) by lia. by rewrite backoffs_S.
  - destruct Hk4 as (Hk4 & Hw & He). split; [lia|].
    rewrite Hw, <- app_assoc. replace (S k - 1)%nat with (S (k - 1)) by lia.
    rewrite backoffs_S. split; [done|]. rewrite <- He. f_equal. lia.
  - destruct Hk4 as (-> & Hw & Hl). rewrite backoffs_S, Hw, <- app_assoc.
    split_and!; [done|done|]. intros Hn. by destruct (Hl Hn).
Qed.
End attempts_lemmas.
Arguments attempts : simpl never.

(** ** Properties *)

Section properties.
Context `{Env, EventCodec, PublisherLaws P}.

(** The event [PublishFill] sends: defaults filled in, at time [t] when unstamped. *)
Definition sent_fill (ev : FillEvent.t) (t : Time) : FillEvent.t :=
  let ev := fill_InternalID ev in
  if Time_IsZero (FillEvent.EmittedAt ev) then
    FillEvent.mk _ (FillEvent.VenueOrderID ev) (FillEvent.InternalID ev)
      (FillEvent.Venue ev) (FillEvent.Pair ev) (FillEvent.Price ev) (FillEvent.Size ev)
      (FillEvent.Fee ev) (FillEvent.FeeAsset ev) (FillEvent.TradeID ev)
      (FillEvent.Timestamp ev) t
  else ev.

Lemma fill_EmittedAt_run (ev : FillEvent.t) (b : Bus P) w :
  ∃ w', fill_EmittedAt (fill_InternalID ev) b w = (sent_fill ev (env_now (w_now w)), b, w') ∧
    w_kafka w' = w_kafka w ∧ w_metrics w' = w_metrics w ∧ w_ctx w' = w_ctx w.
Proof.
  unfold fill_EmittedAt, sent_fill. destruct (Time_IsZero _); munfold; eexists; done.
Qed.

Lemma fill_venue ev t : FillEvent.Venue (sent_fill ev t) = FillEvent.Venue ev.
Proof.
  unfold sent_fill, fill_InternalID. by destruct (String.eqb _ _), (Time_IsZero _).
Qed.

End properties.

Lemma string_drop_char s c t : string_drop (S (String.length s)) (s +:+ String c t) = t.
Proof. induction s as [|a s IH]; [done|exact IH]. Qed.

Section url_properties.
Context `{UnicodeTables}.

(** a URL written as kafka:// followed by the brokers separated by commas and a topic
    parameter is read back as exactly those brokers and that topic, blank entries and
    surrounding spaces dropped; without a topic the topic is "recon". *)
Theorem NewKafkaPublisherFromURL_roundtrip (quoted : string → string)
    (brokers : list string) (topic : option string) :
  filter (λ b, b ≠ "") (TrimSpace <$> brokers) ≠ [] →
  Forall (λ b, contains_char ","%char b = false ∧ contains_char "?"%char b = false) brokers →
  (∀ t, topic = Some t → contains_char "&"%char t = false) →
  NewKafkaPublisherFromURL quoted
    ("kafka://" +:+ Join brokers "," +:+
       match topic with Some t => "?topic=" +:+ t | None => "" end) =
  Ok (mkKafkaPublisher (filter (λ b, b ≠ "") (TrimSpace <$> brokers))
        (match topic with Some t => if String.eqb t "" then "recon" else t
                        | None => "recon" end)).
Proof.
  intros Hne Hb Ht. unfold NewKafkaPublisherFromURL.
  rewrite HasPrefix_app, TrimPrefix_app. simpl negb. cbv iota.
  assert (Hsplit : Split (Join brokers ",") ","%char = brokers).
  { apply Split_Join; [by intros ->|]. eapply Forall_impl; [exact Hb|]. by intros b []. }
  assert (Hq : contains_char "?"%char (Join brokers ",") = false).
  { apply contains_char_Join; [done|]. eapply Forall_impl; [exact Hb|]. by intros b []. }
  assert (Hlen : ∀ t, NewKafkaPublisher (clean_brokers brokers) t =
    Ok (mkKafkaPublisher (filter (λ b, b ≠ "") (TrimSpace <$> brokers))
                         (if String.eqb t "" then "recon" else t))).
  { intros t. unfold NewKafkaPublisher. rewrite clean_brokers_spec.
    by destruct (filter _ _) eqn:Hf. }
  destruct topic as [t|].
  - change ("?topic=" +:+ t) with (String "?"%char ("topic=" +:+ t)).
    rewrite Index_app_not_in by done.
    rewrite string_take_app, Hsplit.
    rewrite string_drop_char.
    rewrite Hlen. unfold query_topic.
    rewrite Split_not_in; [|rewrite contains_char_app, (Ht t eq_refl); reflexivity].
    simpl fold_left. by rewrite HasPrefix_app, TrimPrefix_app.
  - rewrite string_app_nil_r, Index_not_in by done. by rewrite Hsplit, Hlen.
Qed.
End url_properties.

Arguments attempts : simpl nomatch.

Section kafka_properties.
Context `{Env, EventCodec}.

Definition unkeyed (topic : string) (m : KafkaMessage) : Prop :=
  km_key m = None ∧ km_topic m = topic.

Lemma attempts_unkeyed n a le subj data (b : Bus KafkaPublisher) w :
  let '(_, _, w') := attempts n a le subj data b w in
  ∃ msgs, w_kafka w' = w_kafka w ++ msgs ∧ Forall (unkeyed (kp_topic (publisher b))) msgs.
Proof.
  revert a le b w. induction n as [|n IH]; intros a le b w.
  { exists []. by rewrite app_nil_r. }
  cbn [attempts]. unfold zoom. simpl Publish. unfold connected_Publish, kafka_Publish. munfold.
  set (m := {| km_topic := kp_topic (publisher b); km_key := None; km_value := data |}).
  assert (Hm : unkeyed (kp_topic (publisher b)) m) by done.
  destruct (env_kafka (length (w_kafka w))) as [err|]; [|by exists [m]; auto].
  simpl. destruct (env_ctx (w_ctx w)) as [ce|]; [by exists [m]; auto|].
  set (w1 := mkWorld _ _ _ _ _ _ _).
  set (b1 := add_wait _ _). specialize (IH (a + 1) (Some err) b1 w1).
  destruct (attempts n _ _ _ _ b1 w1) as [[r b'] w']. destruct IH as (msgs & Hk & Hall).
  exists (m :: msgs). simpl in Hk. rewrite Hk, <- app_assoc. auto.
Qed.

(** whatever the outcome, every message a fill event leaves with the Kafka publisher
    is on the publisher's topic and has no key: nothing keeps the fills of one order in
    one partition. *)
Theorem kafka_fills_are_unkeyed (ev : FillEvent.t) (b : Bus KafkaPublisher) (w : World) :
  let '(_, _, w') := PublishFill ev b w in
  ∃ msgs, w_kafka w' = w_kafka w ++ msgs ∧ Forall (unkeyed (kp_topic (publisher b))) msgs.
Proof.
  unfold PublishFill. destruct (String.eqb _ _); [by exists []; rewrite app_nil_r|].
  destruct (fill_EmittedAt_run ev b w) as (w1 & Hrun & Hk & _).
  rewrite (M_bind_run _ _ _ _ _ _ _ Hrun).
  destruct (marshal_fill _) as [data|e]; [|by exists []; munfold; rewrite app_nil_r, Hk].
  pose proof (attempts_unkeyed (Z.to_nat (maxRetries b + 1)) 0 None (subject b +:+ ".fills")
                data b w1) as Hat.
  munfold. destruct (attempts _ 0 None _ data b w1) as [[r b1] w2].
  destruct Hat as (msgs & Hat & Hall). rewrite Hk in Hat.
  destruct r; unfold latency_since; munfold; exists msgs; auto.
Qed.
End kafka_properties.

(** ** Witnesses *)

Section witnesses.
#[local] Existing Instance exact_ops.

Definition sample_fill_event : FillEvent.t :=
  FillEvent.mk _ "v1" "" "binance" "BTCUSDT" (mkDec 5 0) (mkDec 1 0) (mkDec 0 0) "USDT" "t1" 3 0.

Definition sample_event_codec : EventCodec := {|
  marshal_fill ev := Ok (FillEvent.VenueOrderID ev +:+ "/" +:+ FillEvent.InternalID ev);
  marshal_balance ev := Ok (BalanceEvent.Asset ev);
|}.

(** A broker that refuses the first two messages. *)
Definition flaky_broker : Env :=
  linear_env 10 1 (λ _ _, Err (ErrNew "no network"))
    (λ n, if (n <? 2)%nat then Some (ErrNew "not leader") else None) (λ _, None).

#[local] Existing Instance flaky_broker.
#[local] Existing Instance sample_event_codec.
#[local] Existing Instance ascii_tables.

Definition sample_bus : Bus KafkaPublisher :=
  NewBus (mkKafkaPublisher ["b:9092"] "recon") "recon.events".


Lemma NewKafkaPublisherFromURL_roundtrip_witness :
  NewKafkaPublisherFromURL id "kafka://a:9092, b:9092,?topic=fills" =
  Ok (mkKafkaPublisher ["a:9092"; "b:9092"] "fills").
Proof.
  apply (NewKafkaPublisherFromURL_roundtrip id ["a:9092"; " b:9092"; ""] (Some "fills")).
  - done.
  - repeat constructor.
  - intros t [= <-]. done.
Defined.
End witnesses.
