(* ===== verification/Json.v ===== *)
(** * The fragment of encoding/json the adapters and the server rely on

    JSON texts are parsed to values of [JVal]; a decoder takes such a value and the
    current contents of its target, and returns the new contents with the first error it
    met, because [json.Unmarshal] skips a member of the wrong type and goes on.  The text
    of the diagnostics is the library's and is a parameter. *)

From S2P Require Import Prelude GoStd World.
From Stdlib Require Import Ascii.

Open Scope Z_scope.

Inductive JVal : Type :=
| JNull
| JBool (b : bool)
| JNum (raw : string)                     (** the literal as written *)
| JStr (s : string)
| JArr (l : list JVal)
| JObj (m : list (string * JVal)).

Class JsonDiagnostics := {
  json_syntax : string → error;           (** a text that is not JSON *)
  json_mismatch : JVal → string → error;  (** a value of the wrong type for a Go type *)
}.

(** ** Characters *)

Definition code (c : ascii) : Z := Z.of_nat (nat_of_ascii c).
Definition chr (z : Z) : ascii := ascii_of_nat (Z.to_nat z).
Definition byte (z : Z) : string := String (chr z) "".

Definition is_ws (c : ascii) : bool :=
  (code c =? 32) || (code c =? 9) || (code c =? 10) || (code c =? 13).
Definition is_digit (c : ascii) : bool := (48 <=? code c) && (code c <=? 57).

Fixpoint skip_ws (s : string) : string :=
  match s with
  | String c s' => if is_ws c then skip_ws s' else s
  | EmptyString => s
  end.

(** UTF-8 encoding of a code point; the surrogates are not code points. *)
Definition utf8 (u : Z) : string :=
  if u <? 128 then byte u
  else if u <? 2048 then byte (192 + Z.shiftr u 6) +:+ byte (128 + Z.land u 63)
  else if u <? 65536 then
    byte (224 + Z.shiftr u 12) +:+ byte (128 + Z.land (Z.shiftr u 6) 63)
      +:+ byte (128 + Z.land u 63)
  else
    byte (240 + Z.shiftr u 18) +:+ byte (128 + Z.land (Z.shiftr u 12) 63)
      +:+ byte (128 + Z.land (Z.shiftr u 6) 63) +:+ byte (128 + Z.land u 63).

Definition replacement : string := utf8 65533.

Definition is_surrogate (u : Z) : bool := (55296 <=? u) && (u <=? 57343).

Definition hex_digit (c : ascii) : option Z :=
  let n := code c in
  if (48 <=? n) && (n <=? 57) then Some (n - 48)
  else if (97 <=? n) && (n <=? 102) then Some (n - 87)
  else if (65 <=? n) && (n <=? 70) then Some (n - 55)
  else None.

(** The four digits of a [\u] escape. *)
Definition hex4 (s : string) : option (Z * string) :=
  match s with
  | String a (String b (String c (String d rest))) =>
      a ← hex_digit a; b ← hex_digit b; c ← hex_digit c; d ← hex_digit d;
      Some (4096 * a + 256 * b + 16 * c + d, rest)
  | _ => None
  end.

(** The number of bytes of the UTF-8 sequence at the head of [s], 0 when there is none:
    the ranges of the second byte exclude overlong forms and surrogates. *)
Definition cont (c : ascii) : bool := (128 <=? code c) && (code c <=? 191).
Definition utf8_len (s : string) : nat :=
  match s with
  | EmptyString => 0%nat
  | String a s1 =>
      let a := code a in
      if a <? 128 then 1%nat
      else
        match s1 with
        | String b s2 =>
            let cb := cont b in
            let b := code b in
            if (194 <=? a) && (a <=? 223) then if cb then 2%nat else 0%nat
            else
              match s2 with
              | String c s3 =>
                  if (224 <=? a) && (a <=? 239) then
                    if cb && cont c && negb ((a =? 224) && (b <? 160))
                          && negb ((a =? 237) && (159 <? b)) then 3%nat else 0%nat
                  else
                    match s3 with
                    | String d _ =>
                        if (240 <=? a) && (a <=? 244) && cb && cont c && cont d
                           && negb ((a =? 240) && (b <? 144)) && negb ((a =? 244) && (143 <? b))
                        then 4%nat else 0%nat
                    | EmptyString => 0%nat
                    end
              | EmptyString => 0%nat
              end
        | EmptyString => 0%nat
        end
  end.

(** Iterating a string by runes and appending each of them: an invalid byte becomes the
    replacement character. *)
Fixpoint valid_utf8 (fuel : nat) (s : string) : string :=
  match fuel with
  | O => ""
  | S fuel =>
      match s with
      | EmptyString => ""
      | String _ s' =>
          match utf8_len s with
          | O => replacement +:+ valid_utf8 fuel s'
          | n => string_take n s +:+ valid_utf8 fuel (string_drop n s)
          end
      end
  end.

(** ** Parsing *)

(** The body of a string literal, after its opening quote: its value and what follows the
    closing quote. Invalid UTF-8 and lone surrogates become U+FFFD. *)
Fixpoint parse_string (fuel : nat) (s : string) : option (string * string) :=
  match fuel with
  | O => None
  | S fuel =>
      match s with
      | EmptyString => None
      | String c s' =>
          let n := code c in
          if n =? 34 then Some ("", s')
          else if n <? 32 then None
          else if n =? 92 then
            match s' with
            | String e s'' =>
                let plain z := '(v, r) ← parse_string fuel s''; Some (byte z +:+ v, r) in
                let n := code e in
                if (n =? 34) || (n =? 92) || (n =? 47) then plain n
                else if n =? 98 then plain 8
                else if n =? 102 then plain 12
                else if n =? 110 then plain 10
                else if n =? 114 then plain 13
                else if n =? 116 then plain 9
                else if n =? 117 then
                  '(u, r) ← hex4 s'';
                  if is_surrogate u then
                    match r with
                    | String b (String k r') =>
                        if (code b =? 92) && (code k =? 117) then
                          '(u2, r'') ← hex4 r';
                          if (u <? 56320) && (56320 <=? u2) && (u2 <=? 57343) then
                            '(v, r3) ← parse_string fuel r'';
                            Some (utf8 (65536 + 1024 * (u - 55296) + (u2 - 56320)) +:+ v, r3)
                          else '(v, r3) ← parse_string fuel r; Some (replacement +:+ v, r3)
                        else '(v, r3) ← parse_string fuel r; Some (replacement +:+ v, r3)
                    | _ => '(v, r3) ← parse_string fuel r; Some (replacement +:+ v, r3)
                    end
                  else '(v, r3) ← parse_string fuel r; Some (utf8 u +:+ v, r3)
                else None
            | EmptyString => None
            end
          else
            match utf8_len s with
            | O => '(v, r) ← parse_string fuel s'; Some (replacement +:+ v, r)
            | k => '(v, r) ← parse_string fuel (string_drop k s);
                   Some (string_take k s +:+ v, r)
            end
      end
  end.

Fixpoint digits (s : string) : string * string :=
  match s with
  | String c s' => if is_digit c then let '(d, r) := digits s' in (String c d, r) else ("", s)
  | EmptyString => ("", "")
  end.

(** An optional fraction and an optional exponent, after the integer part. *)
Definition parse_frac (s : string) : option (string * string) :=
  match s with
  | String "."%char s' =>
      let '(d, r) := digits s' in
      if String.eqb d "" then None else Some ("." +:+ d, r)
  | _ => Some ("", s)
  end.

Definition parse_exp (s : string) : option (string * string) :=
  match s with
  | String e s' =>
      if (code e =? 101) || (code e =? 69) then
        let '(sg, s'') := match s' with
                          | String "+"%char t => ("+", t)
                          | String "-"%char t => ("-", t)
                          | _ => ("", s')
                          end in
        let '(d, r) := digits s'' in
        if String.eqb d "" then None else Some (String e (sg +:+ d), r)
      else Some ("", s)
  | EmptyString => Some ("", "")
  end.

Definition parse_number (s : string) : option (string * string) :=
  let '(sg, s1) := match s with String "-"%char t => ("-", t) | _ => ("", s) end in
  '(ip, s2) ← match s1 with
              | String "0"%char t => Some ("0", t)
              | _ => let '(d, r) := digits s1 in if String.eqb d "" then None else Some (d, r)
              end;
  '(f, s3) ← parse_frac s2;
  '(e, s4) ← parse_exp s3;
  Some (sg +:+ ip +:+ f +:+ e, s4).

Definition max_depth : Z := 10000.

(** A value at nesting depth [d]; [fuel] bounds the recursion by the text's length. *)
Fixpoint parse_value (fuel : nat) (d : Z) (s : string) : option (JVal * string) :=
  match fuel with
  | O => None
  | S fuel =>
      let s := skip_ws s in
      match s with
      | EmptyString => None
      | String c s' =>
          if code c =? 34 then '(v, r) ← parse_string (S (String.length s')) s'; Some (JStr v, r)
          else if Ascii.eqb c "["%char then
            if max_depth <=? d then None
            else
              match skip_ws s' with
              | String "]"%char r => Some (JArr [], r)
              | _ => '(l, r) ← parse_elems fuel (d + 1) s'; Some (JArr l, r)
              end
          else if Ascii.eqb c "{"%char then
            if max_depth <=? d then None
            else
              match skip_ws s' with
              | String "}"%char r => Some (JObj [], r)
              | _ => '(l, r) ← parse_members fuel (d + 1) s'; Some (JObj l, r)
              end
          else if HasPrefix s "null" then Some (JNull, string_drop 4 s)
          else if HasPrefix s "true" then Some (JBool true, string_drop 4 s)
          else if HasPrefix s "false" then Some (JBool false, string_drop 5 s)
          else '(n, r) ← parse_number s; Some (JNum n, r)
      end
  end
with parse_elems (fuel : nat) (d : Z) (s : string) : option (list JVal * string) :=
  match fuel with
  | O => None
  | S fuel =>
      '(v, r) ← parse_value fuel d s;
      match skip_ws r with
      | String ","%char r' => '(l, r'') ← parse_elems fuel d r'; Some (v :: l, r'')
      | String "]"%char r' => Some ([v], r')
      | _ => None
      end
  end
with parse_members (fuel : nat) (d : Z) (s : string) : option (list (string * JVal) * string) :=
  match fuel with
  | O => None
  | S fuel =>
      match skip_ws s with
      | String c s' =>
          if code c =? 34 then
            '(k, r) ← parse_string (S (String.length s')) s';
            match skip_ws r with
            | String ":"%char r1 =>
                '(v, r2) ← parse_value fuel d r1;
                match skip_ws r2 with
                | String ","%char r3 => '(l, r4) ← parse_members fuel d r3; Some ((k, v) :: l, r4)
                | String "}"%char r3 => Some ([(k, v)], r3)
                | _ => None
                end
            | _ => None
            end
          else None
      | EmptyString => None
      end
  end.

(** The whole text of a value, and nothing else. *)
Definition parse_json (s : string) : option JVal :=
  '(v, r) ← parse_value (S (2 * String.length s)) 0 s;
  match skip_ws r with EmptyString => Some v | _ => None end.

(** The first value of a stream, as [json.Decoder] reads it. *)
Definition parse_first (s : string) : option JVal :=
  '(v, r) ← parse_value (S (2 * String.length s)) 0 s;
  match v with
  | JArr _ | JObj _ | JStr _ => Some v
  | _ => match r with
         | EmptyString => Some v
         | String c _ => if is_ws c then Some v else None
         end
  end.

(** ** Numbers *)

(** The float64 nearest to the literal [raw], when it is finite. *)
Definition parse_float (raw : string) : option float64 :=
  let '(neg, s) := match raw with String "-"%char t => (true, t) | _ => (false, raw) end in
  let '(ip, s1) := digits s in
  let '(fp, s2) := match s1 with String "."%char t => digits t | _ => ("", s1) end in
  m ← parse_digits (ip +:+ fp) 0;
  e ← match s2 with
      | String _ t => match t with
                      | String "-"%char u => z ← parse_digits u 0; Some (- z)
                      | String "+"%char u => parse_digits u 0
                      | _ => parse_digits t 0
                      end
      | EmptyString => Some 0
      end;
  let e := e - Z.of_nat (String.length fp) in
  let m' := if neg : bool then - m else m in
  let x := if 0 <=? e then binary_normalize 53 1024 (m' * 10 ^ e) 0 neg
           else SFdiv 53 1024
                  match m' with
                  | Zpos q => S754_finite false q 0
                  | Zneg q => S754_finite true q 0
                  | Z0 => S754_zero neg
                  end
                  match 10 ^ (- e) with Zpos q => S754_finite false q 0 | _ => S754_nan end in
  match x with S754_infinity _ | S754_nan => None | _ => Some x end.

(** ** Decoders *)

Definition Decoder (T : Type) : Type := JVal → T → T * option error.

Section decoders.
Context `{JsonDiagnostics}.

Definition mismatch {T} (ty : string) (v : JVal) (old : T) : T * option error :=
  (old, Some (json_mismatch v ty)).

Definition dec_string : Decoder string := λ v old,
  match v with
  | JStr s => (s, None)
  | JNull => (old, None)
  | _ => mismatch "string" v old
  end.

Definition dec_int64 : Decoder Z := λ v old,
  match v with
  | JNum raw => match ParseInt raw with
                | Some z => (z, None)
                | None => mismatch "int64" v old
                end
  | JNull => (old, None)
  | _ => mismatch "int64" v old
  end.

Definition dec_float64 : Decoder float64 := λ v old,
  match v with
  | JNum raw => match parse_float raw with
                | Some x => (x, None)
                | None => mismatch "float64" v old
                end
  | JNull => (old, None)
  | _ => mismatch "float64" v old
  end.

(** [json.RawMessage]: the value itself; [None] is a nil message. *)
Definition dec_raw : Decoder (option JVal) := λ v _, (Some v, None).

(** The first of two errors. *)
Definition first_error (e1 e2 : option error) : option error :=
  match e1 with Some e => Some e | None => e2 end.

Fixpoint dec_elems {T} (zero : T) (d : Decoder T) (l : list JVal) : list T * option error :=
  match l with
  | [] => ([], None)
  | v :: l' =>
      let '(x, e) := d v zero in
      let '(xs, e') := dec_elems zero d l' in
      (x :: xs, first_error e e')
  end.

Definition dec_slice {T} (zero : T) (d : Decoder T) : Decoder (list T) := λ v old,
  match v with
  | JArr l => dec_elems zero d l
  | JNull => ([], None)
  | _ => mismatch "slice" v old
  end.

(** [[2]string]: missing elements become empty, extra ones are skipped. *)
Definition dec_pair : Decoder (string * string) := λ v old,
  match v with
  | JArr l =>
      let '(a, e1) := match l with x :: _ => dec_string x old.1 | [] => ("", None) end in
      let '(b, e2) := match l with _ :: y :: _ => dec_string y old.2 | _ => ("", None) end in
      ((a, b), first_error e1 e2)
  | JNull => (old, None)
  | _ => mismatch "[2]string" v old
  end.

(** A map with string keys; its elements are decoded into fresh zero values. *)
Fixpoint dec_entries {T} (zero : T) (d : Decoder T) (m : list (string * JVal))
    (acc : gmap string T) : gmap string T * option error :=
  match m with
  | [] => (acc, None)
  | (k, v) :: m' =>
      let '(x, e) := d v zero in
      let '(acc', e') := dec_entries zero d m' (<[k := x]> acc) in
      (acc', first_error e e')
  end.

Definition dec_map {T} (zero : T) (d : Decoder T) : Decoder (gmap string T) := λ v old,
  match v with
  | JObj m => dec_entries zero d m old
  | JNull => (∅, None)
  | _ => mismatch "map" v old
  end.

(** Member names match exactly or, failing that, up to case: ASCII letters, and the two
    other runes that fold to ASCII ones (Kelvin sign, long s). *)
Fixpoint fold_name (s : string) : string :=
  match s with
  | String c s' =>
      match s' with
      | String d s'' =>
          if (code c =? 197) && (code d =? 191) then String "S"%char (fold_name s'')
          else
            match s'' with
            | String e s3 =>
                if (code c =? 226) && (code d =? 132) && (code e =? 170)
                then String "K"%char (fold_name s3)
                else String (ascii_upper c) (fold_name s')
            | EmptyString => String (ascii_upper c) (fold_name s')
            end
      | EmptyString => String (ascii_upper c) ""
      end
  | EmptyString => EmptyString
  end.

Definition Field (T : Type) : Type := string * Decoder T.

Definition find_field {T} (fields : list (Field T)) (k : string) : option (Decoder T) :=
  match find (λ f : Field T, String.eqb f.1 k) fields with
  | Some f => Some f.2
  | None => match find (λ f : Field T, String.eqb (fold_name f.1) (fold_name k)) fields with
            | Some f => Some f.2
            | None => None
            end
  end.

Fixpoint dec_members {T} (fields : list (Field T)) (m : list (string * JVal)) (old : T)
    : T * option error :=
  match m with
  | [] => (old, None)
  | (k, v) :: m' =>
      let '(x, e) := match find_field fields k with
                     | Some d => d v old
                     | None => (old, None)
                     end in
      let '(x', e') := dec_members fields m' x in
      (x', first_error e e')
  end.

Definition dec_struct {T} (fields : list (Field T)) : Decoder T := λ v old,
  match v with
  | JObj m => dec_members fields m old
  | JNull => (old, None)
  | _ => mismatch "struct" v old
  end.

(** A field given by a lens on the struct. *)
Definition field {T A} (name : string) (get : T → A) (set : A → T → T) (d : Decoder A)
    : Field T :=
  (name, λ v t, let '(a, e) := d v (get t) in (set a t, e)).

(** [var r T; err := json.Unmarshal(body, &r)]: what [r] holds after, and [err]. *)
Definition Unmarshal_into {T} (d : Decoder T) (zero : T) (body : string) : T * option error :=
  match parse_json body with
  | None => (zero, Some (json_syntax body))
  | Some v => d v zero
  end.

(** The same from a [json.RawMessage]. *)
Definition Unmarshal_raw {T} (d : Decoder T) (zero : T) (raw : option JVal) : T * option error :=
  match raw with
  | None => (zero, Some (json_syntax ""))
  | Some v => d v zero
  end.

Definition to_result {T} (r : T * option error) : result T :=
  match r with (x, None) => Ok x | (_, Some e) => Err e end.

Definition Unmarshal {T} (d : Decoder T) (zero : T) (body : string) : result T :=
  to_result (Unmarshal_into d zero body).

(** [json.NewDecoder(body).Decode(&r)] *)
Definition Decode {T} (d : Decoder T) (zero : T) (body : string) : result T :=
  match parse_first body with
  | None => Err (json_syntax body)
  | Some v => to_result (d v zero)
  end.
End decoders.

(** ** Encoding of strings *)

Definition hex_char (z : Z) : ascii := if z <? 10 then chr (48 + z) else chr (87 + z).

(** The escapes of [json.Marshal]: quotes, backslashes, control characters, the HTML
    characters, invalid UTF-8 and the two line separators. *)
Fixpoint quote_body (fuel : nat) (s : string) : string :=
  match fuel with
  | O => ""
  | S fuel =>
      match s with
      | EmptyString => ""
      | String c s' =>
          let n := code c in
          if (n =? 34) || (n =? 92) then "\" +:+ String c (quote_body fuel s')
          else if n =? 8 then "\b" +:+ quote_body fuel s'
          else if n =? 12 then "\f" +:+ quote_body fuel s'
          else if n =? 10 then "\n" +:+ quote_body fuel s'
          else if n =? 13 then "\r" +:+ quote_body fuel s'
          else if n =? 9 then "\t" +:+ quote_body fuel s'
          else if (n <? 32) || (n =? 60) || (n =? 62) || (n =? 38) then
            "\u00" +:+ String (hex_char (n / 16)) (String (hex_char (n mod 16))
                        (quote_body fuel s'))
          else
            match utf8_len s with
            | O => "\ufffd" +:+ quote_body fuel s'
            | k =>
                let r := string_take k s in
                (if String.eqb r (utf8 8232) then "\u2028"
                 else if String.eqb r (utf8 8233) then "\u2029" else r)
                +:+ quote_body fuel (string_drop k s)
            end
      end
  end.

Definition quote_char : string := byte 34.
Definition quote_json (s : string) : string :=
  quote_char +:+ quote_body (String.length s) s +:+ quote_char.

(** An object with string values, keys in the given order. *)
Definition object_of_strings (m : list (string * string)) : string :=
  "{" +:+ Join ((λ kv, quote_json kv.1 +:+ ":" +:+ quote_json kv.2) <$> m) "," +:+ "}".

(** ** To evaluate the definitions *)

Definition plain_diagnostics : JsonDiagnostics := {|
  json_syntax _ := ErrNew "json: syntax";
  json_mismatch _ ty := ErrNew ("json: cannot unmarshal into " +:+ ty);
|}.
(** Text with double quotes written as back quotes. *)
Definition quoted_text (s : string) : string :=
  string_map (λ c, if Ascii.eqb c "`"%char then chr 34 else c) s.

