(* ===== verification/JsonText.v ===== *)
(** * What the JSON texts of the program mean

    The parser of Json has enough fuel for every text, and reads back what the program
    writes: strings with their escapes, and the objects and arrays built from them. *)

From S2P Require Import Prelude GoStd World Json.
From Stdlib Require Import Ascii.

Open Scope Z_scope.

(** ** Characters *)

Lemma code_bounds c : 0 <= code c < 256.
Proof. unfold code. pose proof (nat_ascii_bounded c). lia. Qed.

(** A property of each ASCII character holds when it holds of the 128 of them. *)
Lemma ascii_ind (P : ascii → Prop) :
  (∀ b0 b1 b2 b3 b4 b5 b6, P (Ascii b0 b1 b2 b3 b4 b5 b6 false)) →
  ∀ c, code c < 128 → P c.
Proof.
  intros HP [b0 b1 b2 b3 b4 b5 b6 []] Hc; [|apply HP].
  destruct b0, b1, b2, b3, b4, b5, b6; vm_compute in Hc; done.
Qed.

(** ** UTF-8 sequences *)

(** The head sequence is a first byte alone, or a first byte of 128 or more. *)
Lemma utf8_len_app s t :
  utf8_len s ≠ 0%nat →
  utf8_len (string_take (utf8_len s) s +:+ t) = utf8_len s ∧
  string_take (utf8_len s) (string_take (utf8_len s) s +:+ t) = string_take (utf8_len s) s ∧
  string_drop (utf8_len s) (string_take (utf8_len s) s +:+ t) = t.
Proof.
  destruct s as [|a [|b [|c [|d s]]]]; intros Hn; simpl in *;
    repeat (case_match; simplify_eq/=; try done); split_and!; try done;
    repeat match goal with H : _ = true |- _ => rewrite H | H : _ = false |- _ => rewrite H end;
    try done.
Qed.

(** ** Strings *)

(** One ASCII character: what the quoter writes for it, and how that is read. *)
Lemma quote_ascii c n s :
  code c < 128 → quote_body (S n) (String c s) = quote_body 1 (String c "") +:+ quote_body n s.
Proof.
  revert c. apply (ascii_ind (λ c, quote_body (S n) (String c s) =
    quote_body 1 (String c "") +:+ quote_body n s)).
  intros b0 b1 b2 b3 b4 b5 b6. destruct b0, b1, b2, b3, b4, b5, b6; reflexivity.
Qed.

Lemma parse_ascii c fuel t :
  code c < 128 →
  parse_string (S fuel) (quote_body 1 (String c "") +:+ t) =
  ('(v, r) ← parse_string fuel t; Some (String c v, r)).
Proof.
  revert c. apply (ascii_ind (λ c, parse_string (S fuel) (quote_body 1 (String c "") +:+ t) =
    ('(v, r) ← parse_string fuel t; Some (String c v, r)))).
  intros b0 b1 b2 b3 b4 b5 b6. destruct b0, b1, b2, b3, b4, b5, b6; reflexivity.
Qed.

Lemma valid_ascii c n s : code c < 128 → valid_utf8 (S n) (String c s) = String c (valid_utf8 n s).
Proof. intros Hc. simpl. by rewrite (proj2 (Z.ltb_lt _ _) Hc). Qed.

(** The tests of an ASCII character all fail on a byte of 128 or more. *)
Ltac high_byte Hc :=
  repeat match goal with
  | |- context [?x =? ?k] => rewrite (proj2 (Z.eqb_neq x k)) by lia
  | |- context [?x <? ?k] => rewrite (proj2 (Z.ltb_ge x k)) by lia
  end.

Lemma parse_high c s fuel :
  128 ≤ code c →
  parse_string (S fuel) (String c s) =
  match utf8_len (String c s) with
  | O => '(v, r) ← parse_string fuel s; Some (replacement +:+ v, r)
  | k => '(v, r) ← parse_string fuel (string_drop k (String c s));
         Some (string_take k (String c s) +:+ v, r)
  end.
Proof. intros Hc. cbn [parse_string]. cbv zeta. by high_byte Hc. Qed.

Lemma quote_high c s n :
  128 ≤ code c →
  quote_body (S n) (String c s) =
  match utf8_len (String c s) with
  | O => "\ufffd" +:+ quote_body n s
  | k => (if String.eqb (string_take k (String c s)) (utf8 8232) then "\u2028"
          else if String.eqb (string_take k (String c s)) (utf8 8233) then "\u2029"
          else string_take k (String c s)) +:+ quote_body n (string_drop k (String c s))
  end.
Proof. intros Hc. cbn [quote_body]. cbv zeta. by high_byte Hc. Qed.

(** What the quoter does with the head of a string: it writes [enc], which reads as [val],
    and goes on after at least one byte. *)
Definition quotes_head (c : ascii) (s : string) (enc val : string) (k : nat) : Prop :=
  (1 ≤ k)%nat ∧ (1 ≤ String.length enc)%nat ∧
  (∀ n, quote_body (S n) (String c s) = enc +:+ quote_body n (string_drop k (String c s))) ∧
  (∀ n, valid_utf8 (S n) (String c s) = val +:+ valid_utf8 n (string_drop k (String c s))) ∧
  (∀ fuel t, parse_string (S fuel) (enc +:+ t) =
     ('(v, r) ← parse_string fuel t; Some (val +:+ v, r))).

Lemma quote_head c s : ∃ enc val k, quotes_head c s enc val k.
Proof.
  destruct (Z.lt_ge_cases (code c) 128) as [Hc|Hc].
  { exists (quote_body 1 (String c "")), (String c ""), 1%nat. split_and!; [done| | | |].
    - revert c Hc. by apply (ascii_ind (λ c, 1 ≤ String.length (quote_body 1 (String c "")))%nat);
        intros [] [] [] [] [] [] []; vm_compute; repeat constructor.
    - intros n. by apply quote_ascii.
    - intros n. by rewrite valid_ascii.
    - intros. by apply parse_ascii. }
  destruct (utf8_len (String c s)) as [|k] eqn:Hk.
  { exists "\ufffd", replacement, 1%nat. split_and!; [done|simpl; lia| | |done].
    - intros n. rewrite quote_high by done. by rewrite Hk.
    - intros n. cbn [valid_utf8]. by rewrite Hk. }
  pose proof (λ t, utf8_len_app (String c s) t) as Happ. rewrite Hk in Happ.
  set (r := string_take (S k) (String c s)) in *.
  assert (∀ n, valid_utf8 (S n) (String c s) = r +:+ valid_utf8 n (string_drop (S k) (String c s)))
    as Hv by (intros n; cbn [valid_utf8]; by rewrite Hk).
  set (enc := if String.eqb r (utf8 8232) then "\u2028"
              else if String.eqb r (utf8 8233) then "\u2029" else r).
  exists enc, r, (S k). split_and!; [lia| | |done|].
  - unfold enc. repeat case_match; simpl; lia.
  - intros n. rewrite quote_high by done. by rewrite Hk.
  - intros fuel t. unfold enc.
    destruct (String.eqb_spec r (utf8 8232)) as [->|_]; [reflexivity|].
    destruct (String.eqb_spec r (utf8 8233)) as [->|_]; [reflexivity|].
    destruct (Happ t ltac:(done)) as (Hl & Ht & Hd).
    change (r +:+ t) with (String c (string_take k s +:+ t)) in *.
    rewrite parse_high by done. rewrite Hl. cbv zeta. by rewrite Hd, Ht.
Qed.

(** Every string reads back as itself, up to the bytes that are not UTF-8. *)
Lemma parse_quote_body n s m rest :
  (String.length s ≤ n)%nat → (String.length (quote_body n s) ≤ m)%nat →
  parse_string (S m) (quote_body n s +:+ quote_char +:+ rest) = Some (valid_utf8 n s, rest).
Proof.
  revert s m. induction n as [|n IH]; intros s m Hn Hm.
  { destruct s; [done|simpl in Hn; lia]. }
  destruct s as [|c s]; [done|]. destruct (quote_head c s) as (enc & val & k & Hk & He & Hq & Hv & Hp).
  rewrite Hq in Hm |- *. rewrite Hv, string_app_assoc, Hp. rewrite string_length_app in Hm.
  destruct m as [|m]; [lia|]. rewrite IH; [done| |lia].
  rewrite string_drop_length. simpl in *. lia.
Qed.

(** ** Texts that encode a value *)

(** A text ends at a separator, a closing bracket or a line feed, or with the whole text. *)
Definition ends (rest : string) : Prop :=
  match rest with
  | EmptyString => True
  | String c _ => c ∈ [","; "}"; "]"; chr 10]%char
  end.

(** [tx] is read as [v] wherever it stands, given fuel for its length and room for its
    nesting. *)
Record Encodes (depth : Z) (tx : string) (v : JVal) : Prop := {
  encodes_head : ∃ c tx', tx = String c tx' ∧ is_ws c = false ∧ c ≠ "]"%char;
  encodes_parse fuel d rest :
    (2 * String.length tx ≤ fuel)%nat → d + depth ≤ max_depth → ends rest →
    parse_value fuel d (tx +:+ rest) = Some (v, rest);
}.

Lemma encodes_deeper depth depth' tx v :
  Encodes depth tx v → depth ≤ depth' → Encodes depth' tx v.
Proof. intros [Hh Hp] Hd. split; [done|]. intros. apply Hp; [done|lia|done]. Qed.

(** What a Go string becomes when it is encoded and read back. *)
Definition json_string (s : string) : string := valid_utf8 (String.length s) s.

Lemma parse_quoted s rest :
  parse_string (S (String.length (quote_body (String.length s) s +:+ quote_char +:+ rest)))
    (quote_body (String.length s) s +:+ quote_char +:+ rest) = Some (json_string s, rest).
Proof. apply parse_quote_body; [done|]. rewrite !string_length_app. lia. Qed.

Lemma quote_json_app s rest :
  quote_json s +:+ rest =
  String (chr 34) (quote_body (String.length s) s +:+ quote_char +:+ rest).
Proof. unfold quote_json. by rewrite !string_app_assoc. Qed.

(** The parser at the first character of a string, an array or an object. *)
Lemma parse_value_string fuel d s :
  parse_value (S fuel) d (String (chr 34) s) =
  ('(v, r) ← parse_string (S (String.length s)) s; Some (JStr v, r)).
Proof. reflexivity. Qed.

Lemma parse_value_array fuel d s :
  d < max_depth →
  parse_value (S fuel) d (String "[" s) =
  match skip_ws s with
  | String "]"%char r => Some (JArr [], r)
  | _ => '(l, r) ← parse_elems fuel (d + 1) s; Some (JArr l, r)
  end.
Proof.
  intros Hd. apply Z.leb_gt in Hd.
  change (parse_value (S fuel) d (String "[" s)) with
    (if max_depth <=? d then None else
     match skip_ws s with
     | String "]"%char r => Some (JArr [], r)
     | _ => '(l, r) ← parse_elems fuel (d + 1) s; Some (JArr l, r)
     end). by rewrite Hd.
Qed.

Lemma parse_value_object fuel d s :
  d < max_depth →
  parse_value (S fuel) d (String "{" s) =
  match skip_ws s with
  | String "}"%char r => Some (JObj [], r)
  | _ => '(l, r) ← parse_members fuel (d + 1) s; Some (JObj l, r)
  end.
Proof.
  intros Hd. apply Z.leb_gt in Hd.
  change (parse_value (S fuel) d (String "{" s)) with
    (if max_depth <=? d then None else
     match skip_ws s with
     | String "}"%char r => Some (JObj [], r)
     | _ => '(l, r) ← parse_members fuel (d + 1) s; Some (JObj l, r)
     end). by rewrite Hd.
Qed.

Lemma parse_members_key fuel d s :
  parse_members (S fuel) d (String (chr 34) s) =
  ('(k, r) ← parse_string (S (String.length s)) s;
   match skip_ws r with
   | String ":"%char r1 =>
       '(v, r2) ← parse_value fuel d r1;
       match skip_ws r2 with
       | String ","%char r3 => '(l, r4) ← parse_members fuel d r3; Some ((k, v) :: l, r4)
       | String "}"%char r3 => Some ([(k, v)], r3)
       | _ => None
       end
   | _ => None
   end).
Proof. reflexivity. Qed.

Lemma encodes_string s : Encodes 0 (quote_json s) (JStr (json_string s)).
Proof.
  split; [by eexists _, _|].
  intros [|fuel] d rest Hf _ _.
  { exfalso. unfold quote_json in Hf. rewrite string_length_app in Hf. simpl in Hf. lia. }
  by rewrite quote_json_app, parse_value_string, parse_quoted.
Qed.

Lemma encodes_100 : Encodes 0 "100" (JNum "100").
Proof.
  split; [by eexists _, _|]. intros [|fuel] d rest Hf _ Hr; [simpl in Hf; lia|].
  destruct rest as [|c rest]; [reflexivity|].
  unfold ends in Hr. rewrite !elem_of_cons, elem_of_nil in Hr.
  destruct Hr as [->|[->|[->|[->|[]]]]]; reflexivity.
Qed.

Lemma skip_comma s : skip_ws ("," +:+ s) = String "," s.
Proof. reflexivity. Qed.
Lemma skip_colon s : skip_ws (":" +:+ s) = String ":" s.
Proof. reflexivity. Qed.
Lemma skip_brace s : skip_ws ("}" +:+ s) = String "}" s.
Proof. reflexivity. Qed.
Lemma skip_bracket s : skip_ws ("]" +:+ s) = String "]" s.
Proof. reflexivity. Qed.

(** Arrays. *)
Lemma parse_elems_encodes depth txs vs :
  Forall2 (Encodes depth) txs vs → txs ≠ [] → ∀ fuel d rest,
  (S (2 * String.length (Join txs ",")) ≤ fuel)%nat → d + depth ≤ max_depth →
  parse_elems fuel d (Join txs "," +:+ "]" +:+ rest) = Some (vs, rest).
Proof.
  induction 1 as [|tx v txs vs [_ Hp] Htxs IH]; [done|]. intros _ [|fuel] d rest Hf Hd; [lia|].
  destruct Htxs as [|tx' v' txs vs Hx Htxs].
  - simpl in *. rewrite Hp; [reflexivity|lia|done|]. simpl. set_solver.
  - set (l := tx' :: txs) in *. change (Join (tx :: l) ",") with (tx +:+ "," +:+ Join l ",") in *.
    rewrite !string_length_app in Hf. rewrite !string_app_assoc. cbn [parse_elems].
    rewrite Hp; [|lia|done|simpl; set_solver]. cbn [mbind option_bind]. rewrite skip_comma.
    rewrite IH; [done|done|simpl in *; lia|done].
Qed.

Lemma match_not_bracket {B} c t (f : string → B) y :
  c ≠ "]"%char → match String c t with String "]"%char r => f r | _ => y end = y.
Proof.
  intros Hc. destruct c as [b0 b1 b2 b3 b4 b5 b6 b7].
  by destruct b0, b1, b2, b3, b4, b5, b6, b7.
Qed.

Lemma encodes_array depth txs vs :
  0 ≤ depth → Forall2 (Encodes depth) txs vs →
  Encodes (depth + 1) ("[" +:+ Join txs "," +:+ "]") (JArr vs).
Proof.
  intros Hdep Hl. split; [by eexists _, _|]. intros [|fuel] d rest Hf Hd Hr; [simpl in Hf; lia|].
  rewrite !string_app_assoc. rewrite !string_length_app in Hf. simpl in Hf.
  change ("[" +:+ ?x) with (String "[" x). rewrite parse_value_array by lia.
  destruct Hl as [|tx v txs vs Hx Hl]; [done|].
  destruct (encodes_head _ _ _ Hx) as (c & tx' & Htx & Hws & Hc).
  assert (∃ t, Join (tx :: txs) "," +:+ "]" +:+ rest = String c t) as [t Ht].
  { rewrite Htx. destruct txs; by eexists. }
  rewrite Ht. cbn [skip_ws]. rewrite Hws.
  etrans; [exact (match_not_bracket c t (λ r, Some (JArr [], r)) _ Hc)|]. rewrite <-Ht.
  rewrite (parse_elems_encodes depth _ (v :: vs)); [done|by constructor|done|simpl in *; lia|lia].
Qed.

(** Objects: their members are written key first. *)
Definition member (m : string * string) : string := quote_json m.1 +:+ ":" +:+ m.2.

Definition encodes_member (depth : Z) (m : string * string) (kv : string * JVal) : Prop :=
  kv.1 = json_string m.1 ∧ Encodes depth m.2 kv.2.

Lemma parse_members_encodes depth ms kvs :
  Forall2 (encodes_member depth) ms kvs → ms ≠ [] → ∀ fuel d rest,
  (2 * String.length (Join (member <$> ms) ",") ≤ fuel)%nat → d + depth ≤ max_depth →
  parse_members fuel d (Join (member <$> ms) "," +:+ "}" +:+ rest) = Some (kvs, rest).
Proof.
  assert (∀ m t, member m +:+ t = String (chr 34) (quote_body (String.length m.1) m.1 +:+
            quote_char +:+ ":" +:+ m.2 +:+ t)) as Hmember.
  { intros m t. unfold member. by rewrite string_app_assoc, quote_json_app, string_app_assoc. }
  assert (∀ m, 2 + String.length m.2 ≤ String.length (member m))%nat as Hlen.
  { intros m. unfold member, quote_json. rewrite !string_length_app. simpl. lia. }
  induction 1 as [|m kv ms kvs [Hk [_ Hp]] Htxs IH]; [done|].
  intros _ [|fuel] d rest Hf Hd; destruct kv as [k v]; simpl in Hk, Hp; subst k; specialize (Hlen m).
  { destruct ms; cbn [fmap list_fmap Join] in Hf; rewrite ?string_length_app in Hf; lia. }
  destruct Htxs as [|m' kv' ms kvs Hx Htxs].
  - cbn [fmap list_fmap Join] in *. rewrite Hmember, parse_members_key, parse_quoted.
    cbn [mbind option_bind]. rewrite skip_colon, Hp; [|lia|done|simpl; set_solver].
    cbn [mbind option_bind]. by rewrite skip_brace.
  - set (l := m' :: ms) in *.
    change (Join (member <$> m :: l) ",") with (member m +:+ "," +:+ Join (member <$> l) ",") in *.
    rewrite !string_length_app in Hf. rewrite !string_app_assoc.
    rewrite Hmember, parse_members_key, parse_quoted. cbn [mbind option_bind].
    rewrite skip_colon, Hp; [|lia|done|simpl; set_solver]. cbn [mbind option_bind].
    rewrite skip_comma, IH; [done|done|simpl in *; lia|done].
Qed.

Lemma encodes_object depth ms kvs :
  0 ≤ depth → Forall2 (encodes_member depth) ms kvs →
  Encodes (depth + 1) ("{" +:+ Join (member <$> ms) "," +:+ "}") (JObj kvs).
Proof.
  intros Hdep Hl. split; [by eexists _, _|]. intros [|fuel] d rest Hf Hd Hr; [simpl in Hf; lia|].
  rewrite !string_app_assoc. rewrite !string_length_app in Hf. simpl in Hf.
  change ("{" +:+ ?x) with (String "{" x). rewrite parse_value_object by lia.
  destruct Hl as [|m kv ms kvs Hx Hl]; [done|].
  assert (∃ t, Join (member <$> m :: ms) "," +:+ "}" +:+ rest = String (chr 34) t) as [t Ht].
  { destruct ms; by eexists. }
  rewrite Ht. change (skip_ws (String (chr 34) t)) with (String (chr 34) t). cbv iota. rewrite <-Ht.
  rewrite (parse_members_encodes depth _ (kv :: kvs)); [done|by constructor|done|simpl in *; lia|lia].
Qed.

(** A whole text, possibly followed by the line feed [Encoder.Encode] adds. *)
Lemma parse_json_encodes depth tx v (newline : bool) :
  Encodes depth tx v → depth ≤ max_depth →
  parse_json (tx +:+ if newline then byte 10 else "") = Some v.
Proof.
  intros [_ Hp] Hd. unfold parse_json.
  rewrite Hp; [by destruct newline|rewrite string_length_app; lia|lia|].
  destruct newline; simpl; [set_solver|done].
Qed.

(** An object with string values. *)
Lemma parse_object_of_strings m :
  parse_json (object_of_strings m) =
  Some (JObj ((λ kv, (json_string kv.1, JStr (json_string kv.2))) <$> m)).
Proof.
  pose proof (parse_json_encodes 1 (object_of_strings m)) as Hp. 
  specialize (Hp (JObj ((λ kv, (json_string kv.1, JStr (json_string kv.2))) <$> m)) false).
  simpl in Hp. rewrite string_app_nil_r in Hp. apply Hp; [|done]. clear Hp.
  unfold object_of_strings.
  change 1 with (0 + 1).
  replace ((λ kv, quote_json kv.1 +:+ ":" +:+ quote_json kv.2) <$> m)
    with (member <$> ((λ kv, (kv.1, quote_json kv.2)) <$> m)) by (by rewrite <-list_fmap_compose).
  apply encodes_object; [done|]. apply Forall2_fmap_l, Forall2_fmap_r.
  induction m as [|[k s] m IH]; constructor; [split; [done|apply encodes_string]|done].
Qed.

(** ** The fuel suffices for every text *)

Lemma skip_ws_length s : (String.length (skip_ws s) ≤ String.length s)%nat.
Proof. induction s as [|c s IH]; simpl; [lia|]. destruct (is_ws c); simpl; lia. Qed.

Lemma hex4_length s u r : hex4 s = Some (u, r) → (String.length r < String.length s)%nat.
Proof.
  unfold hex4. destruct s as [|a [|b [|c [|d s]]]]; try done. intros Hs.
  destruct (hex_digit a), (hex_digit b), (hex_digit c), (hex_digit d); simplify_eq/=. lia.
Qed.

Lemma digits_length s d r :
  digits s = (d, r) → (String.length d + String.length r = String.length s)%nat.
Proof.
  revert d. induction s as [|c s IH]; intros d; simpl; [by intros [= <- <-]|].
  destruct (is_digit c); [|by intros [= <- <-]].
  destruct (digits s) as [d' r']. intros [= <- <-]. simpl. by rewrite (IH _ eq_refl).
Qed.

(** Decreasing on success: what a parser leaves is shorter than what it was given. *)
Definition shortens {A} (p : string → option (A * string)) : Prop :=
  ∀ s a r, p s = Some (a, r) → (String.length r < String.length s)%nat.

(** What one character of a string literal leads to, whatever the fuel: the end, a failure,
    or some text and what is left to read. *)
Inductive literal_step : Type := LStop | LFail | LGo (pre rest : string).

Definition after_step (fuel : nat) (s : string) (st : literal_step) : option (string * string) :=
  match st with
  | LStop => Some ("", s)
  | LFail => None
  | LGo pre rest => '(v, r) ← parse_string fuel rest; Some (pre +:+ v, r)
  end.

Lemma parse_string_step c s :
  ∃ st, (∀ pre rest, st = LGo pre rest → (String.length rest ≤ String.length s)%nat) ∧
        ∀ fuel, parse_string (S fuel) (String c s) = after_step fuel s st.
Proof.
  cbn [parse_string]. cbv zeta.
  destruct (code c =? 34); [by exists LStop|]. destruct (code c <? 32); [by exists LFail|].
  destruct (code c =? 92).
  - destruct s as [|e s]; [by exists LFail|].
    assert (∀ pre, ∃ st,
      (∀ p rest, st = LGo p rest → (String.length rest ≤ String.length (String e s))%nat) ∧
      ∀ fuel, ('(v, r) ← parse_string fuel s; Some (pre +:+ v, r)) =
              after_step fuel (String e s) st) as Hplain.
    { intros pre. exists (LGo pre s). split; [|done]. intros ?? [= <- <-]. simpl. lia. }
    repeat (destruct (_ : bool); [apply Hplain|]).
    destruct (code e =? 117); [|by exists LFail].
    destruct (hex4 s) as [[u r]|] eqn:Hu; [|by exists LFail]. apply hex4_length in Hu.
    cbn [mbind option_bind].
    assert (∀ pre r', (String.length r' ≤ String.length r)%nat → ∃ st,
      (∀ p rest, st = LGo p rest → (String.length rest ≤ String.length (String e s))%nat) ∧
      ∀ fuel, ('(v, r) ← parse_string fuel r'; Some (pre +:+ v, r)) =
              after_step fuel (String e s) st) as Hgo.
    { intros pre r' Hr'. exists (LGo pre r'). split; [|done]. intros ?? [= <- <-]. simpl. lia. }
    destruct (is_surrogate u); [|by apply Hgo].
    destruct r as [|b [|k r']]; [by apply Hgo..|].
    destruct (_ && _); [|by apply Hgo].
    destruct (hex4 r') as [[u2 r2]|] eqn:Hu2; [|by exists LFail]. apply hex4_length in Hu2.
    cbn [mbind option_bind]. destruct (_ && _); [|by apply Hgo].
    apply Hgo. simpl. lia.
  - destruct (utf8_len (String c s)) as [|k].
    + exists (LGo replacement s). split; [|done]. by intros ?? [= <- <-].
    + exists (LGo (string_take (S k) (String c s)) (string_drop (S k) (String c s))).
      split; [|done]. intros ?? [= <- <-]. simpl. rewrite string_drop_length. lia.
Qed.

Lemma parse_string_shortens fuel : shortens (parse_string fuel).
Proof.
  induction fuel as [|fuel IH]; [done|]. intros [|c s] v r; [done|].
  destruct (parse_string_step c s) as (st & Hst & ->). destruct st as [| |pre rest]; simpl; [|done|].
  - intros [= <- <-]. lia.
  - destruct (parse_string fuel rest) as [[v' r']|] eqn:Hp; [|done]. intros [= <- <-].
    apply IH in Hp. specialize (Hst _ _ eq_refl). lia.
Qed.

Lemma parse_string_fuel f g s :
  (String.length s < f)%nat → (String.length s < g)%nat → parse_string f s = parse_string g s.
Proof.
  revert g s. induction f as [|f IH]; intros [|g] s Hf Hg; [lia..|].
  destruct s as [|c s]; [done|]. destruct (parse_string_step c s) as (st & Hst & Heq).
  rewrite !Heq. destruct st as [| |pre rest]; [done..|]. specialize (Hst _ _ eq_refl).
  simpl in *. by rewrite (IH g rest) by lia.
Qed.

Lemma parse_frac_length s a r :
  parse_frac s = Some (a, r) → (String.length r ≤ String.length s)%nat.
Proof.
  unfold parse_frac. intros Hs. repeat case_match; simplify_eq/=; try lia.
  all: match goal with H : digits _ = _ |- _ => apply digits_length in H end; lia.
Qed.

Lemma parse_exp_length s a r :
  parse_exp s = Some (a, r) → (String.length r ≤ String.length s)%nat.
Proof.
  unfold parse_exp. destruct s as [|e s]; [by intros [= <- <-]|].
  destruct (_ || _); [|by intros [= <- <-]]. cbv zeta.
  set (sp := match s with String "+"%char t => _ | _ => _ end).
  assert (String.length sp.2 ≤ String.length s)%nat as Hsp.
  { unfold sp. repeat case_match; simpl; lia. }
  destruct sp as [sg s2]. destruct (digits s2) as [d r'] eqn:Hd. apply digits_length in Hd.
  destruct (String.eqb d ""); [done|]. intros [= <- <-]. simpl in *. lia.
Qed.

Lemma parse_number_shortens : shortens parse_number.
Proof.
  intros s a r. unfold parse_number.
  set (sp := match s with String "-"%char t => _ | _ => _ end).
  assert (String.length sp.2 ≤ String.length s)%nat as Hsp.
  { unfold sp. repeat case_match; simpl; lia. }
  destruct sp as [sg s1]. simpl in Hsp.
  set (ip := match s1 with String "0"%char t => _ | _ => _ end).
  assert (∀ i s2, ip = Some (i, s2) → (String.length s2 < String.length s1)%nat) as Hip.
  { assert (∀ i s2, (let '(d, r) := digits s1 in if String.eqb d "" then None else Some (d, r))
              = Some (i, s2) → (String.length s2 < String.length s1)%nat) as Hd.
    { intros i s2. destruct (digits s1) as [d r'] eqn:Hd. apply digits_length in Hd.
      destruct (String.eqb_spec d ""); [done|]. intros [= <- <-].
      destruct d; [done|]. simpl in Hd. lia. }
    intros i s2. unfold ip.
    repeat case_match; first [exact (Hd i s2) | intros [= <- <-]; simpl; lia]. }
  destruct ip as [[i s2]|]; [|done]. specialize (Hip _ _ eq_refl). cbn [mbind option_bind].
  destruct (parse_frac s2) as [[f s3]|] eqn:Hf; [|done]. apply parse_frac_length in Hf.
  cbn [mbind option_bind].
  destruct (parse_exp s3) as [[e s4]|] eqn:He; [|done]. apply parse_exp_length in He.
  cbn [mbind option_bind]. intros [= <- <-]. lia.
Qed.

Lemma string_drop_shorter k c s : (String.length (string_drop (S k) (String c s)) ≤ String.length s)%nat.
Proof. simpl. rewrite string_drop_length. lia. Qed.

(** The first character of a value decides what is read next. *)
Inductive value_step : Type :=
| VDone (r : option (JVal * string))
| VElems (rest : string)
| VMembers (rest : string).

Definition after_value (fuel : nat) (d : Z) (st : value_step) : option (JVal * string) :=
  match st with
  | VDone r => r
  | VElems rest => '(l, r) ← parse_elems fuel (d + 1) rest; Some (JArr l, r)
  | VMembers rest => '(l, r) ← parse_members fuel (d + 1) rest; Some (JObj l, r)
  end.

Lemma parse_value_step d s :
  ∃ st, match st with
        | VDone (Some (_, rest)) | VElems rest | VMembers rest =>
            (String.length rest < String.length s)%nat
        | VDone None => True
        end ∧ ∀ fuel, parse_value (S fuel) d s = after_value fuel d st.
Proof.
  cbn [parse_value]. cbv zeta. pose proof (skip_ws_length s) as Hs.
  destruct (skip_ws s) as [|c s']; [by exists (VDone None)|]. simpl in Hs.
  pose proof (skip_ws_length s') as Hs'.
  destruct (code c =? 34).
  { exists (VDone ('(v, r) ← parse_string (S (String.length s')) s'; Some (JStr v, r))).
    split; [|done]. destruct (parse_string _ s') as [[v r]|] eqn:Hp; [|done].
    apply parse_string_shortens in Hp. simpl. lia. }
  destruct (Ascii.eqb c "["%char).
  { destruct (max_depth <=? d); [by exists (VDone None)|].
    destruct (skip_ws s') as [|e r]; [exists (VElems s'); split; [lia|done]|].
    simpl in Hs'. destruct (ascii_dec e "]"%char) as [->|He].
    - exists (VDone (Some (JArr [], r))). split; [lia|done].
    - exists (VElems s'). split; [lia|]. intros fuel.
      exact (match_not_bracket e r (λ r, Some (JArr [], r)) _ He). }
  destruct (Ascii.eqb c "{"%char).
  { destruct (max_depth <=? d); [by exists (VDone None)|].
    destruct (skip_ws s') as [|e r]; [exists (VMembers s'); split; [lia|done]|].
    simpl in Hs'. destruct (ascii_dec e "}"%char) as [->|He].
    - exists (VDone (Some (JObj [], r))). split; [lia|done].
    - exists (VMembers s'). split; [lia|]. intros fuel.
      destruct e as [b0 b1 b2 b3 b4 b5 b6 b7].
      by destruct b0, b1, b2, b3, b4, b5, b6, b7. }
  pose proof (string_drop_shorter 3 c s'). pose proof (string_drop_shorter 4 c s').
  repeat (destruct (HasPrefix _ _); [eexists (VDone (Some (_, _))); split; [|done]; lia|]).
  exists (VDone ('(n, r) ← parse_number (String c s'); Some (JNum n, r))). split; [|done].
  destruct (parse_number _) as [[n r]|] eqn:Hp; [|done]. apply parse_number_shortens in Hp.
  simpl in *. lia.
Qed.

(** What follows an element, or a member. *)
Lemma parse_elems_step fuel d s :
  parse_elems (S fuel) d s =
  ('(v, r) ← parse_value fuel d s;
   match skip_ws r with
   | String ","%char r' => '(l, r'') ← parse_elems fuel d r'; Some (v :: l, r'')
   | String "]"%char r' => Some ([v], r')
   | _ => None
   end).
Proof. reflexivity. Qed.

Lemma bind_pair_inv {A B C} (m : option (A * B)) (k : A → B → option C) c :
  (m ≫= λ '(a, b), k a b) = Some c → ∃ a b, m = Some (a, b) ∧ k a b = Some c.
Proof. destruct m as [[a b]|]; [|done]. by eexists _, _. Qed.

(** What a separator expected at the head of a text tells about it. *)
Lemma expect_colon {B} s (f : string → option B) b :
  match s with String ":"%char r => f r | _ => None end = Some b →
  ∃ r, s = String ":" r ∧ f r = Some b.
Proof.
  destruct s as [|[b0 b1 b2 b3 b4 b5 b6 b7] r]; [done|].
  destruct b0, b1, b2, b3, b4, b5, b6, b7; try done. by exists r.
Qed.

Lemma expect_comma_bracket {B} s (f g : string → option B) b :
  match s with String ","%char r => f r | String "]"%char r => g r | _ => None end = Some b →
  ∃ c r, s = String c r ∧ (f r = Some b ∨ g r = Some b).
Proof.
  destruct s as [|[b0 b1 b2 b3 b4 b5 b6 b7] r]; [done|].
  destruct b0, b1, b2, b3, b4, b5, b6, b7; try done; eauto.
Qed.

Lemma expect_comma_brace {B} s (f g : string → option B) b :
  match s with String ","%char r => f r | String "}"%char r => g r | _ => None end = Some b →
  ∃ c r, s = String c r ∧ (f r = Some b ∨ g r = Some b).
Proof.
  destruct s as [|[b0 b1 b2 b3 b4 b5 b6 b7] r]; [done|].
  destruct b0, b1, b2, b3, b4, b5, b6, b7; try done; eauto.
Qed.

Lemma values_shorten fuel :
  (∀ d, shortens (parse_value fuel d)) ∧ (∀ d, shortens (parse_elems fuel d)) ∧
  (∀ d, shortens (parse_members fuel d)).
Proof.
  induction fuel as [|fuel (IHv & IHe & IHm)]; [done|]. split_and!; intros d s a r Hp.
  - destruct (parse_value_step d s) as (st & Hst & Heq). rewrite Heq in Hp.
    destruct st as [[[v rest]|]|rest|rest]; simplify_eq/=; [done| |];
      apply bind_pair_inv in Hp as (l & r' & Hp & [= <- <-]);
      [apply IHe in Hp|apply IHm in Hp]; lia.
  - rewrite parse_elems_step in Hp. apply bind_pair_inv in Hp as (v & r1 & Hv & Hp).
    apply IHv in Hv. pose proof (skip_ws_length r1) as Hr.
    apply expect_comma_bracket in Hp as (c & r2 & Hr2 & [Hp|[= <- <-]]); rewrite Hr2 in Hr;
      simpl in Hr; [|lia].
    apply bind_pair_inv in Hp as (l & r3 & Hp & [= <- <-]). apply IHe in Hp. lia.
  - cbn [parse_members] in Hp. pose proof (skip_ws_length s) as Hs.
    destruct (skip_ws s) as [|c s']; [done|]. destruct (code c =? 34); [|done].
    apply bind_pair_inv in Hp as (k & r1 & Hk & Hp). apply parse_string_shortens in Hk.
    pose proof (skip_ws_length r1) as Hr1. apply expect_colon in Hp as (r2 & Hr2 & Hp).
    apply bind_pair_inv in Hp as (v & r3 & Hv & Hp). apply IHv in Hv.
    pose proof (skip_ws_length r3) as Hr3. rewrite Hr2 in Hr1. simpl in *.
    apply expect_comma_brace in Hp as (e & r4 & Hr4 & [Hp|[= <- <-]]); rewrite Hr4 in Hr3;
      simpl in Hr3; [|lia].
    apply bind_pair_inv in Hp as (l & r5 & Hp & [= <- <-]). apply IHm in Hp. lia.
Qed.

(** Any two amounts of fuel above twice the length of the text give the same result. *)
Lemma values_fuel f : ∀ g d s,
  ((2 * String.length s < f → 2 * String.length s < g →
    parse_value f d s = parse_value g d s) ∧
   (2 * String.length s + 1 < f → 2 * String.length s + 1 < g →
    parse_elems f d s = parse_elems g d s) ∧
   (2 * String.length s + 1 < f → 2 * String.length s + 1 < g →
    parse_members f d s = parse_members g d s))%nat.
Proof.
  induction f as [|f IH]; intros [|g] d s; [split_and!; lia..|]. split_and!; intros Hf Hg.
  - destruct (parse_value_step d s) as (st & Hst & Heq). rewrite !Heq.
    destruct st as [r|rest|rest]; simpl; [done| |]; destruct (IH g (d + 1) rest) as (_ & He & Hm);
      [rewrite He by lia|rewrite Hm by lia]; done.
  - rewrite !parse_elems_step. destruct (IH g d s) as [Hv _]. rewrite Hv by lia.
    destruct (parse_value g d s) as [[v r]|] eqn:Hp; [|done]. apply values_shorten in Hp.
    cbn [mbind option_bind]. pose proof (skip_ws_length r) as Hr.
    destruct (skip_ws r) as [|c r']; [done|]. simpl in Hr.
    destruct (IH g d r') as (_ & He & _). by rewrite He by lia.
  - cbn [parse_members]. pose proof (skip_ws_length s) as Hs.
    destruct (skip_ws s) as [|c s']; [done|]. destruct (code c =? 34); [|done].
    destruct (parse_string _ s') as [[k r1]|] eqn:Hk; [|done]. apply parse_string_shortens in Hk.
    cbn [mbind option_bind]. pose proof (skip_ws_length r1) as Hr1.
    destruct (skip_ws r1) as [|e r2]; [done|]. simpl in Hr1, Hs.
    destruct (IH g d r2) as [Hv _]. rewrite Hv by lia.
    destruct (parse_value g d r2) as [[v r3]|] eqn:Hp; [|done]. apply values_shorten in Hp.
    cbn [mbind option_bind]. pose proof (skip_ws_length r3) as Hr3.
    destruct (skip_ws r3) as [|e' r4]; [done|]. simpl in Hr3.
    destruct (IH g d r4) as (_ & _ & Hm). by rewrite Hm by lia.
Qed.

(** The parser never runs out of fuel: more of it changes no answer. *)
Theorem parse_json_enough_fuel (s : string) (fuel : nat) :
  (2 * String.length s < fuel)%nat →
  parse_json s =
  ('(v, r) ← parse_value fuel 0 s; match skip_ws r with EmptyString => Some v | _ => None end).
Proof.
  intros Hf. unfold parse_json. destruct (values_fuel (S (2 * String.length s)) fuel 0 s) as [Hv _].
  by rewrite Hv by lia.
Qed.
