(* ===== verification/Http.v ===== *)
(** * net/http and net/url as the adapters use them

    Query encoding, headers, and one exchange over the default client.  Cryptographic
    primitives, base64 and the parser of URLs are parameters: the program only passes
    strings through them. *)

From S2P Require Import Prelude GoStd World Json.
From Stdlib Require Import Ascii.

Open Scope Z_scope.

Class GoLib := {
  hmac_sha256_hex : string → string → string;        (** key, message *)
  sha256_sum : string → string;                      (** the 32 bytes *)
  hmac_sha512_base64 : string → string → string;     (** key, message *)
  base64_decode : string → string;                   (** what was decoded, errors ignored *)
  parse_url : string → option error;                 (** error of [http.NewRequest] *)
}.

(** The order in which a [range] over a map visits it is chosen by the runtime. *)
Class MapOrder := {
  range_map : ∀ {A : Type}, gmap string A → list (string * A);
  range_map_perm : ∀ {A : Type} (m : gmap string A), range_map m ≡ₚ map_to_list m;
}.

(** The canonical order, used to evaluate the definitions. *)
Definition sorted_maps : MapOrder := {|
  range_map A m := map_to_list m;
  range_map_perm A m := reflexivity _;
|}.

(** The default of an environment variable. *)
Definition env_or `{OsEnv} (name dflt : string) : string :=
  let v := getenv name in if String.eqb v "" then dflt else v.

(** ** Instants and Unix time *)

(** 1970-01-01T00:00:00Z in nanoseconds since the zero time. *)
Definition unix_epoch : Time := 62135596800 * Second.

(** [t.UnixMilli()], [t.Unix()] and [t.UnixNano()] round down, in [int64]. *)
Definition UnixMilli_of (t : Time) : Z := wrap64 ((t - unix_epoch) / Millisecond).
Definition Unix_of (t : Time) : Z := wrap64 ((t - unix_epoch) / Second).
Definition UnixNano_of (t : Time) : Z := wrap64 (t - unix_epoch).

(** [time.UnixMilli(ms)] and [time.Unix(s, 0)]. *)
Definition time_UnixMilli (ms : Z) : Time := unix_epoch + ms * Millisecond.
Definition time_Unix (s : Z) : Time := unix_epoch + s * Second.

(** [int64(x)] for a [float64] [x]: towards zero; out of range, the result of the amd64
    conversion instruction. *)
Definition f64_to_int64 (x : float64) : Z :=
  match x with
  | S754_finite sg m e =>
      let v := if 0 <=? e then Z.pos m * 2 ^ e else Z.pos m / 2 ^ (- e) in
      let v := if sg : bool then - v else v in
      if (int64_min <=? v) && (v <=? int64_max) then v else int64_min
  | S754_zero _ => 0
  | _ => int64_min
  end.

(** ** Query strings *)

Definition unreserved (c : ascii) : bool :=
  let n := code c in
  ((48 <=? n) && (n <=? 57)) || ((65 <=? n) && (n <=? 90)) || ((97 <=? n) && (n <=? 122))
  || (n =? 45) || (n =? 95) || (n =? 46) || (n =? 126).

Definition upper_hex (z : Z) : ascii := if z <? 10 then chr (48 + z) else chr (55 + z).

(** [url.QueryEscape] *)
Fixpoint QueryEscape (s : string) : string :=
  match s with
  | EmptyString => ""
  | String c s' =>
      if unreserved c then String c (QueryEscape s')
      else if code c =? 32 then String "+"%char (QueryEscape s')
      else String "%"%char (String (upper_hex (code c / 16))
             (String (upper_hex (code c mod 16)) (QueryEscape s')))
  end.

(** [url.Values] with one value per key, as the adapters build them ([Set] only). *)
Abbreviation Values := (gmap string string).

Definition Set_ (k v : string) (p : Values) : Values := <[k := v]> p.

(** [Values.Encode]: sorted by key. *)
Definition Encode (p : Values) : string :=
  Join ((λ k, QueryEscape k +:+ "=" +:+ QueryEscape (default "" (p !! k)))
          <$> merge_sort String.le (map_to_list p).*1) "&".

(** ** Headers *)

(** [Header.Get]: names compare up to case, the first value is returned. *)
Definition header_get (name : string) (h : list (string * string)) : string :=
  match find (λ kv : string * string,
                String.eqb (string_map ascii_lower kv.1) (string_map ascii_lower name)) h with
  | Some kv => kv.2
  | None => ""
  end.

(** ** One exchange *)

Section exchange.
Context `{Env, GoLib}.

(** What the adapters do with a request: send it and read the whole body. *)
Definition fetch {S} (rq : HttpRequest) : M S (result (HttpResponse * string)) :=
  r ← http_do rq;
  mret (match r with
        | Err e => Err e
        | Ok rs => match rs_body rs with
                   | Err e => Err e
                   | Ok body => Ok (rs, body)
                   end
        end).

Lemma fetch_run {S} (rq : HttpRequest) (s : S) w :
  ∃ r w', fetch rq s w = (r, s, w') ∧ w_http w' = w_http w ++ [rq] ∧
    w_now w' = w_now w ∧ w_ctx w' = w_ctx w ∧ w_kafka w' = w_kafka w ∧
    w_metrics w' = w_metrics w ∧
    r = match env_http (length (w_http w)) rq with
        | Err e => Err e
        | Ok rs => match rs_body rs with Err e => Err e | Ok body => Ok (rs, body) end
        end.
Proof. unfold fetch. munfold. eexists _, _. by split_and!. Qed.
End exchange.

(** ** Lemmas *)

(** Decoding a [%XX] escape and ['+'], for the round trip of [QueryEscape]. *)
Definition unhex (c : ascii) : Z := let n := code c in if n <=? 57 then n - 48 else n - 55.

Fixpoint QueryUnescape (s : string) : string :=
  match s with
  | String c s' =>
      if Ascii.eqb c "+"%char then String " "%char (QueryUnescape s')
      else if Ascii.eqb c "%"%char then
        match s' with
        | String a (String b s'') =>
            String (chr (16 * unhex a + unhex b)) (QueryUnescape s'')
        | _ => s
        end
      else String c (QueryUnescape s')
  | EmptyString => EmptyString
  end.

Lemma code_range c : 0 ≤ code c < 256.
Proof.
  unfold code. pose proof (nat_ascii_bounded c). lia.
Qed.

Lemma chr_code c : chr (code c) = c.
Proof. unfold chr, code. rewrite Nat2Z.id. apply ascii_nat_embedding. Qed.

(** One escaped character, decided on the 256 bytes. *)
Lemma QueryEscape_char (c : ascii) (s : string) :
  QueryUnescape (QueryEscape (String c s)) = String c (QueryUnescape (QueryEscape s)).
Proof. destruct c as [[] [] [] [] [] [] [] []]; reflexivity. Qed.

Lemma QueryUnescape_Escape s : QueryUnescape (QueryEscape s) = s.
Proof. induction s as [|c s IH]; [done|]. by rewrite QueryEscape_char, IH. Qed.

Lemma QueryEscape_inj s t : QueryEscape s = QueryEscape t → s = t.
Proof.
  intros Heq. rewrite <- (QueryUnescape_Escape s), Heq. apply QueryUnescape_Escape.
Qed.

(** An escaped string has neither separator. *)
Lemma QueryEscape_no_sep s :
  contains_char "&"%char (QueryEscape s) = false ∧ contains_char "="%char (QueryEscape s) = false.
Proof.
  induction s as [|c s [IH1 IH2]]; [done|].
  destruct c as [[] [] [] [] [] [] [] []]; cbn -[contains_char];
    cbn [contains_char]; rewrite ?IH1, ?IH2; done.
Qed.

(** The [k=v] parts of an encoded query, each key and value escaped. *)
Definition query_part (kv : string * string) : string :=
  QueryEscape kv.1 +:+ "=" +:+ QueryEscape kv.2.

Lemma query_part_no_sep kv : contains_char "&"%char (query_part kv) = false.
Proof.
  unfold query_part. rewrite !contains_char_app.
  destruct (QueryEscape_no_sep kv.1) as [-> _], (QueryEscape_no_sep kv.2) as [-> _]. done.
Qed.

(** Splitting an encoded query at ['&'] gives back its parts: nothing in a key or a value
    can pass for a separator. *)
Lemma Split_Encode (p : Values) :
  p ≠ ∅ → Split (Encode p) "&"%char ≡ₚ query_part <$> map_to_list p.
Proof.
  intros Hp. unfold Encode. set (ks := merge_sort _ _).
  assert (Hks : ks ≡ₚ (map_to_list p).*1) by apply merge_sort_Permutation.
  assert (Hparts : (λ k, QueryEscape k +:+ "=" +:+ QueryEscape (default "" (p !! k))) <$> ks =
                   query_part <$> ((λ k, (k, default "" (p !! k))) <$> ks)).
  { rewrite <- list_fmap_compose. done. }
  assert (Hpairs : (λ k, (k, default "" (p !! k))) <$> (map_to_list p).*1 = map_to_list p).
  { rewrite <- list_fmap_compose. rewrite <- (list_fmap_id (map_to_list p)) at 2.
    apply list_fmap_ext. intros i [k v] Hi. simpl.
    apply list_elem_of_lookup_2, elem_of_map_to_list in Hi. by rewrite Hi. }
  rewrite Hparts, Split_Join.
  - by rewrite Hks, Hpairs.
  - intros He. apply fmap_nil_inv, fmap_nil_inv in He. rewrite He in Hks.
    apply Permutation_nil in Hks. apply fmap_nil_inv in Hks.
    by apply Hp, map_to_list_empty_iff.
  - apply Forall_fmap, Forall_true. intros kv. apply query_part_no_sep.
Qed.

(** ** Concrete parameters, to evaluate the definitions *)

(** Cryptography that keeps its input, URLs that always parse. *)
Definition plain_lib : GoLib := {|
  hmac_sha256_hex k m := k;
  sha256_sum m := m;
  hmac_sha512_base64 k m := k;
  base64_decode s := s;
  parse_url _ := None;
|}.
