(* ===== verification/Throttle.v ===== *)
(** * What the adapters owe to the venue's rate limits

    Each adapter guards its requests with its limiter and backs off when the venue says
    so.  The interface states what one call does to the deadline and to the network; the
    consequence, that nothing is sent until the deadline, is proved once for every
    adapter. *)

From S2P Require Import Prelude GoStd World Http.

Open Scope Z_scope.

(** A call, keeping only whether it failed. *)
Definition outcome {A} (r : result A) : option error :=
  match r with Ok _ => None | Err e => Some e end.

(** An adapter in state [C] with calls [call]; [limited] are the replies that tell it to
    back off, for [pause]. *)
Class Throttled `{Env} (C : Type) := {
  call : Type;
  run_call : call → M C (option error);
  deadline : C → Time;
  limited : Z → bool;
  pause : Duration;
  run_call_clock x c w r c' w' :
    run_call x c w = (r, c', w') → (w_now w ≤ w_now w')%nat;
  run_call_blocked x c w r c' w' :
    run_call x c w = (r, c', w') → deadline c ≠ 0 →
    (∀ i, (w_now w ≤ i < w_now w')%nat → env_now i < deadline c) →
    w_http w' = w_http w ∧ deadline c' = deadline c ∧ r ≠ None;
  run_call_limited x c w r c' w' pre rq rs body :
    run_call x c w = (r, c', w') → w_http w' = pre ++ [rq] →
    (length (w_http w) ≤ length pre)%nat →
    env_http (length pre) rq = Ok rs → rs_body rs = Ok body → limited (rs_status rs) = true →
    r ≠ None ∧ deadline c' = env_now (w_now w' - 1) + pause;
}.

Section throttled.
Context `{Throttled C}.

Fixpoint run_calls (xs : list call) : M C (list (option error)) :=
  match xs with
  | [] => mret []
  | x :: xs => r ← run_call x; rs ← run_calls xs; mret (r :: rs)
  end.

Lemma run_calls_cons x xs c w :
  run_calls (x :: xs) c w =
  let '(r, c1, w1) := run_call x c w in
  let '(rs, c2, w2) := run_calls xs c1 w1 in (r :: rs, c2, w2).
Proof. done. Qed.

Lemma run_calls_clock xs c w rs c' w' :
  run_calls xs c w = (rs, c', w') → (w_now w ≤ w_now w')%nat.
Proof.
  revert c w rs. induction xs as [|x xs IH]; intros c w rs Hr; simpl in Hr; munfold; [simplify_eq; auto|].
  destruct (run_call x c w) as [[r c1] w1] eqn:H1.
  destruct (run_calls xs c1 w1) as [[rs2 c2] w2] eqn:H2. simplify_eq.
  apply run_call_clock in H1. apply IH in H2. lia.
Qed.

(** While every reading of the clock is before the deadline nothing is sent and every
    call fails. *)
Lemma run_calls_blocked xs c w rs c' w' :
  run_calls xs c w = (rs, c', w') → deadline c ≠ 0 →
  (∀ i, (w_now w ≤ i < w_now w')%nat → env_now i < deadline c) →
  w_http w' = w_http w ∧ Forall (λ r, r ≠ None) rs.
Proof.
  revert c w rs. induction xs as [|x xs IH]; intros c w rs Hr Hz Hi; simpl in Hr; munfold;
    [simplify_eq; by split|].
  destruct (run_call x c w) as [[r c1] w1] eqn:H1.
  destruct (run_calls xs c1 w1) as [[rs2 c2] w2] eqn:H2. simplify_eq.
  pose proof (run_call_clock _ _ _ _ _ _ H1). pose proof (run_calls_clock _ _ _ _ _ _ H2).
  destruct (run_call_blocked _ _ _ _ _ _ H1) as (Hh & Hd & Hr); [done|intros i Hi'; apply Hi; lia|].
  destruct (IH _ _ _ H2) as [Hh2 Hr2]; [by rewrite Hd|intros i Hi'; rewrite Hd; apply Hi; lia|].
  split; [congruence|by constructor].
Qed.

(** After a rate-limit reply, nothing is sent as long as the clock stays below the
    deadline that reply set. *)
Lemma limited_then_quiet x c w r c1 w1 pre rq rs body xs outs c2 w2 :
  run_call x c w = (r, c1, w1) → w_http w1 = pre ++ [rq] →
  (length (w_http w) ≤ length pre)%nat →
  env_http (length pre) rq = Ok rs → rs_body rs = Ok body → limited (rs_status rs) = true →
  env_now (w_now w1 - 1) + pause ≠ 0 →
  run_calls xs c1 w1 = (outs, c2, w2) →
  (∀ i, (w_now w1 ≤ i < w_now w2)%nat → env_now i < env_now (w_now w1 - 1) + pause) →
  r ≠ None ∧ w_http w2 = w_http w1 ∧ Forall (λ r, r ≠ None) outs.
Proof.
  intros Hx Hh Hl He Hb Hlim Hz Hxs Hi.
  destruct (run_call_limited _ _ _ _ _ _ _ _ _ _ Hx Hh Hl He Hb Hlim) as [Hr Hd].
  split; [done|]. rewrite <- Hd in Hi, Hz. by eapply run_calls_blocked.
Qed.
End throttled.

(** ** Composing guarded exchanges

    A computation that starts with an exchange and goes on only when it succeeded keeps
    the promises of the exchange. *)

Section guarded.
Context `{Env} {C : Type} (deadline : C → Time) (limited : Z → bool) (pause : Duration).

(** The limiter's deadline after a reply that asks to back off. *)
Definition backs_off {A} (c : C) (w : World) (out : result A * C * World) : Prop :=
  let '(r, c', w') := out in
  ∀ pre rq rs body, w_http w' = pre ++ [rq] → (length (w_http w) ≤ length pre)%nat →
    env_http (length pre) rq = Ok rs → rs_body rs = Ok body → limited (rs_status rs) = true →
    is_ok r = false ∧ deadline c' = env_now (w_now w' - 1) + pause.

Definition follows {A} (m : M C (result A)) : Prop := ∀ c w,
  (w_now w ≤ w_now (m c w).2)%nat ∧ (∃ l, w_http (m c w).2 = w_http w ++ l) ∧
  backs_off c w (m c w).

Definition guarded {A} (m : M C (result A)) : Prop :=
  follows m ∧ ∀ c w, deadline c ≠ 0 →
  (∀ i, (w_now w ≤ i < w_now (m c w).2)%nat → env_now i < deadline c) →
  w_http (m c w).2 = w_http w ∧ deadline (m c w).1.2 = deadline c ∧ is_ok (m c w).1.1 = false.

(** What sends nothing backs off for nothing. *)
Lemma follows_silent {A} (m : M C (result A)) :
  (∀ c w, (w_now w ≤ w_now (m c w).2)%nat ∧ w_http (m c w).2 = w_http w) → follows m.
Proof.
  intros Hm c w. destruct (Hm c w) as [Hn Hh]. split_and!; [done|exists []; by rewrite app_nil_r|].
  unfold backs_off. destruct (m c w) as [[r c'] w']. simpl in *.
  intros pre rq rs body Heq Hlen. rewrite Heq in Hh. rewrite <- Hh, length_app in Hlen.
  simpl in Hlen. lia.
Qed.

Lemma guarded_follows {A} (m : M C (result A)) : guarded m → follows m.
Proof. by intros []. Qed.

Definition bind_ok {A B} (m : M C (result A)) (k : A → M C (result B)) : M C (result B) :=
  r ← m; match r with Err e => mret (Err e) | Ok a => k a end.

Lemma follows_bind {A B} (m : M C (result A)) (k : A → M C (result B)) :
  follows m → (∀ a, follows (k a)) → follows (bind_ok m k).
Proof.
  intros Hm Hk c w. unfold bind_ok. munfold. destruct (Hm c w) as (Hn & [l Hl] & Hb).
  destruct (m c w) as [[r c1] w1]. simpl in Hn, Hl. destruct r as [a|e]; simpl.
  2: { split_and!; [done|by exists l|exact Hb]. }
  destruct (Hk a c1 w1) as (Hn2 & [l2 Hl2] & Hb2).
  destruct (k a c1 w1) as [[r2 c2] w2]. simpl in *.
  split_and!; [lia|exists (l ++ l2); by rewrite Hl2, Hl, <- app_assoc|].
  intros pre rq rs body Heq Hlen He Hbo Hli.
  destruct l2 as [|x l2 _] using rev_ind.
  - rewrite app_nil_r in Hl2.
    destruct (Hb pre rq rs body) as [Hok _]; [congruence|done..].
  - eapply Hb2; try done. rewrite Hl2, app_assoc in Heq.
    apply app_inj_tail in Heq as [<- _]. rewrite length_app. lia.
Qed.

Lemma guarded_bind {A B} (m : M C (result A)) (k : A → M C (result B)) :
  guarded m → (∀ a, follows (k a)) → guarded (bind_ok m k).
Proof.
  intros [Hm Hg] Hk. split; [by apply follows_bind|]. intros c w Hz Hi.
  specialize (Hg c w Hz). destruct (follows_bind m k Hm Hk c w) as (Hn & _).
  unfold bind_ok in *. munfold. destruct (Hm c w) as (Hn1 & _).
  destruct (m c w) as [[r c1] w1]. simpl in *. destruct r as [a|e]; simpl in *.
  - destruct Hg as (_ & _ & Hok); [|done]. intros i Hi'. apply Hi.
    destruct (Hk a c1 w1) as (Hn2 & _). lia.
  - apply Hg. intros i Hi'. by apply Hi.
Qed.

(** A call refused before anything is sent. *)
Lemma guarded_refuse {A} (e : error) : guarded (A := A) (mret (Err e)).
Proof. split; [by apply follows_silent|]. intros c w _ _. done. Qed.

(** The interface, for a call given by a guarded computation. *)
Definition outcome_of {A} (m : M C (result A)) : M C (option error) := r ← m; mret (outcome r).

Lemma outcome_of_run {A} (m : M C (result A)) c w :
  outcome_of m c w = let '(r, c', w') := m c w in (outcome r, c', w').
Proof. done. Qed.

Lemma outcome_error {A} (r : result A) : is_ok r = false → outcome r ≠ None.
Proof. by destruct r. Qed.

Lemma guarded_laws {A} (m : M C (result A)) c w r c' w' :
  guarded m → outcome_of m c w = (r, c', w') →
  (w_now w ≤ w_now w')%nat ∧
  (deadline c ≠ 0 → (∀ i, (w_now w ≤ i < w_now w')%nat → env_now i < deadline c) →
     w_http w' = w_http w ∧ deadline c' = deadline c ∧ r ≠ None) ∧
  (∀ pre rq rs body, w_http w' = pre ++ [rq] → (length (w_http w) ≤ length pre)%nat →
     env_http (length pre) rq = Ok rs → rs_body rs = Ok body → limited (rs_status rs) = true →
     r ≠ None ∧ deadline c' = env_now (w_now w' - 1) + pause).
Proof.
  intros [Hf Hg]. rewrite outcome_of_run. destruct (Hf c w) as (Hn & _ & Hb).
  specialize (Hg c w). unfold backs_off in Hb.
  destruct (m c w) as [[r0 c0] w0]. simpl in *. intros [= <- <- <-]. split_and!; [done| |].
  - intros Hz Hi. destruct (Hg Hz Hi) as (Hh & Hd & Hok). auto using outcome_error.
  - intros pre rq rs body Hpre Hlen He Hbo Hli.
    destruct (Hb pre rq rs body Hpre Hlen He Hbo Hli) as [Hok Hd]. auto using outcome_error.
Qed.
End guarded.
