(* ===== verification/Numbered.v ===== *)
(** * Requests that carry a number, sent by goroutines that share a connector

    The Binance and the Kraken adapters stamp every private request with a number drawn from
    an atomic counter, pay the limiter for it and then send it.  The interface says what the
    counter, the limiter and the code that reads the reply promise; the consequence, under
    every schedule of any number of calls, is proved once. *)

From S2P Require Import Prelude GoStd World Threads Http.

Open Scope Z_scope.

Class Numbered `{Env} (C R : Type) := {
  number : C → Z;                       (** the last number drawn *)
  numbers : Z;                          (** the counter wraps here *)
  build : C → Z → R → HttpRequest;      (** the request under a number *)
  charge : R → Z;                       (** what the limiter counts it for *)
  chargeable : R → Prop;                (** requests the adapter makes *)
  spent : Time → C → Z;                 (** what the limiter has let through since a base *)
  granted : C → Duration → Z;           (** what it may let through in a duration *)
  settled : C → World → Prop;           (** the limiter is well formed *)
  take : R → M C HttpRequest;           (** draw a number and build the request *)
  pay : R → M C (option error);         (** wait for the limiter *)
}.

Section laws.
Context `{Numbered C R}.

(** The same credentials and the same limits. *)
Definition kept (c c' : C) : Prop :=
  (∀ n r, build c' n r = build c n r) ∧ (∀ d, granted c' d = granted c d).

(** A step that neither numbers nor sends anything, and leaves the limiter as strict. *)
Definition quiet {A} (m : M C A) : Prop := ∀ c w base, settled c w →
  let '(_, c', w') := m c w in
  kept c c' ∧ number c' = number c ∧ settled c' w' ∧ w_http w' = w_http w ∧
  spent base c ≤ spent base c'.

Fixpoint steps_quiet {A} (p : Prog C A) : Prop :=
  match p with
  | Done _ => True
  | Atom m k => quiet m ∧ ∀ b, steps_quiet (k b)
  end.

Lemma steps_quiet_bind {A B} (p : Prog C A) (f : A → Prog C B) :
  steps_quiet p → (∀ a, steps_quiet (f a)) → steps_quiet (p ≫= f).
Proof. induction p as [a|D m k IH]; simpl; [auto|]. intros [Hm Hk] Hf. split; [done|]. eauto. Qed.

Class NumberedLaws : Prop := {
  charge_nonneg r : chargeable r → 0 ≤ charge r;
  take_law r c w base : 0 ≤ number c → number c + 1 < numbers → settled c w →
    ∃ c', take r c w = (build c (number c + 1) r, c', w) ∧ kept c c' ∧
      number c' = number c + 1 ∧ settled c' w ∧ spent base c' = spent base c;
  pay_law r c w e c' w' base : chargeable r → settled c w → pay r c w = (e, c', w') →
    kept c c' ∧ number c' = number c ∧ settled c' w' ∧ w_http w' = w_http w ∧
    match e with None => charge r | Some _ => 0 end + spent base c ≤ spent base c';
  spent_law base c w : settled c w → spent base c ≤ granted c (env_now (w_now w) - base);
  settled_now c w w' : w_now w' = w_now w → settled c w → settled c w';
}.
End laws.
Arguments NumberedLaws {_} C R {_}.

(** A request numbered, paid for and sent; [after] reads the reply. *)
Definition numbered_call `{Numbered C R, GoLib} {A} (r : R) (refuse : error → A)
    (after : result (HttpResponse * string) → Prog C A) : Prog C A :=
  rq ← atom (take r);
  match parse_url (rq_url rq) with
  | Some e => mret (refuse e)
  | None =>
      e ← atom (pay r);
      match e with
      | Some e => mret (refuse e)
      | None => res ← atom (fetch rq); after res
      end
  end.

(** ** What a goroutine has done with its call *)

Inductive Phase : Type :=
| Fresh                     (** no number yet *)
| Numbered_ (n : Z)         (** a number, not let through (yet) *)
| Paid (n : Z)              (** let through by the limiter *)
| Sent (n : Z).             (** on the wire *)

Definition number_of (p : Phase) : option Z :=
  match p with Fresh => None | Numbered_ n | Paid n | Sent n => Some n end.

Section pool.
Context `{!Env, !Numbered C R, !NumberedLaws C R, !GoLib} {X : Type} (request : X → option R).

Abbreviation Ghost := (X * Phase)%type.

Definition taken (g : Ghost) : Z := match g.2 with Fresh => 0 | _ => 1 end.
Definition paid (g : Ghost) : Z :=
  match g.2, request g.1 with Paid _, Some r | Sent _, Some r => charge r | _, _ => 0 end.
Definition sent_of (g : Ghost) : option (Z * R) :=
  match g.2, request g.1 with Sent n, Some r => Some (n, r) | _, _ => None end.

Context (base : Time) (c0 : C) (h0 : list HttpRequest) (xs : list X).

(** The invariant of the pool. *)
Record ledger (gs : list Ghost) (c : C) (w : World) : Prop := {
  ledger_calls : gs.*1 = xs;
  ledger_kept : kept c0 c;
  ledger_settled : settled c w;
  ledger_number : number c = number c0 + total taken gs;
  ledger_distinct : NoDup (omap (number_of ∘ snd) gs);
  ledger_range : Forall (λ n, number c0 < n ≤ number c) (omap (number_of ∘ snd) gs);
  ledger_spent : total paid gs ≤ spent base c;
  ledger_sent : ∃ sent, sent ≡ₚ omap sent_of gs ∧
    w_http w = h0 ++ ((λ nr, build c0 nr.1 nr.2) <$> sent);
}.

Lemma kept_trans c c' c'' : kept c c' → kept c' c'' → kept c c''.
Proof. intros [Hb Hg] [Hb' Hg']. split; congruence. Qed.

(** A quiet step, taken by a goroutine that learns nothing from it. *)
Lemma ledger_quiet gs c w i g g' c' w' :
  ledger gs c w → gs !! i = Some g → g'.1 = g.1 →
  number_of g'.2 = number_of g.2 → taken g' = taken g → sent_of g' = sent_of g →
  kept c c' → number c' = number c → settled c' w' → w_http w' = w_http w →
  paid g' - paid g + spent base c ≤ spent base c' →
  ledger (<[i := g']> gs) c' w'.
Proof.
  intros [Hc Hk _ Hn Hd Hr Hs Hh] Hi H1 H2 Ht Hse Hk' Hn' Hset Hh' Hp. split.
  - by rewrite (fmap_insert_same fst gs i g).
  - by eapply kept_trans.
  - done.
  - rewrite (total_insert _ _ _ g) by done. lia.
  - by rewrite (omap_insert_same _ gs i g).
  - rewrite (omap_insert_same _ gs i g), Hn' by done. done.
  - rewrite (total_insert _ _ _ g) by done. lia.
  - rewrite (omap_insert_same _ gs i g), Hh' by done. done.
Qed.

Context (Hpos : 0 ≤ number c0) (Hroom : number c0 + Z.of_nat (length xs) < numbers).

Lemma taken_le g : taken g ≤ 1.
Proof. unfold taken. by destruct (g.2). Qed.

Lemma ledger_take gs c w i x r :
  ledger gs c w → gs !! i = Some (x, Fresh) →
  let '(rq, c', w') := take r c w in
  ∃ n, rq = build c0 n r ∧ ledger (<[i := (x, Numbered_ n)]> gs) c' w'.
Proof.
  intros [Hc Hk Hset Hn Hd Hr Hs Hh] Hi.
  assert (Hlen : length gs = length xs) by (by rewrite <- Hc, length_fmap).
  pose proof (total_le taken (<[i := (x, Numbered_ 0)]> gs) 1 taken_le) as Hle.
  rewrite (total_insert _ _ _ _ _ Hi), length_insert, Hlen in Hle. unfold taken in Hle at 2 3.
  simpl in Hle.
  assert (Hnn : 0 ≤ total taken gs).
  { clear -gs. induction gs as [|g gs IH]; unfold total in *; csimpl; [done|].
    unfold taken at 1. destruct (g.2); lia. }
  destruct (take_law r c w base) as (c' & -> & Hk' & Hn' & Hset' & Hsp); [lia|lia|done|].
  exists (number c + 1). split; [by rewrite (proj1 Hk)|].
  assert (Hom : omap (number_of ∘ snd) (<[i := (x, Numbered_ (number c + 1))]> gs)
                ≡ₚ (number c + 1) :: omap (number_of ∘ snd) gs)
    by (by apply (omap_insert_new _ _ _ (x, Fresh))).
  split.
  - by rewrite (fmap_insert_same fst gs i (x, Fresh)).
  - by eapply kept_trans.
  - done.
  - rewrite (total_insert _ _ _ (x, Fresh)) by done. unfold taken at 2 3. simpl. lia.
  - rewrite Hom. constructor; [|done]. intros Hin. rewrite Forall_forall in Hr.
    specialize (Hr _ Hin). lia.
  - rewrite Hom. constructor; [lia|]. eapply Forall_impl; [done|]. simpl. lia.
  - rewrite (total_insert _ _ _ (x, Fresh)), Hsp by done. unfold paid at 2 3. simpl. lia.
  - by rewrite (omap_insert_same _ gs i (x, Fresh)).
Qed.

Lemma ledger_send gs c w i x n r :
  ledger gs c w → gs !! i = Some (x, Paid n) → request x = Some r →
  let '(_, c', w') := fetch (build c0 n r) c w in ledger (<[i := (x, Sent n)]> gs) c' w'.
Proof.
  intros [Hc Hk Hset Hn Hd Hr Hs (sent & Hperm & Hh)] Hi Hx.
  destruct (fetch_run (build c0 n r) c w) as (res & w' & -> & Hh' & Hnow & _).
  split; try done.
  - by rewrite (fmap_insert_same fst gs i (x, Paid n)).
  - by eapply settled_now.
  - by rewrite (total_insert _ _ _ (x, Paid n)) by done; unfold taken at 2 3; simpl; lia.
  - by rewrite (omap_insert_same _ gs i (x, Paid n)).
  - by rewrite (omap_insert_same _ gs i (x, Paid n)).
  - rewrite (total_insert _ _ _ (x, Paid n)) by done. unfold paid at 2 3. simpl. lia.
  - exists (sent ++ [(n, r)]). split.
    + rewrite (omap_insert_new _ gs i (x, Paid n) _ (n, r)), <- Hperm by
        (first [done | unfold sent_of; simpl; by rewrite Hx]).
      symmetry. apply Permutation_cons_append.
    + by rewrite Hh', Hh, fmap_app, <- app_assoc.
Qed.

Abbreviation fine := (thread_ok ledger (λ _ _, True)).

Lemma steps_quiet_fine {A} (p : Prog C A) g : steps_quiet p → fine g p.
Proof.
  revert g. induction p as [a|B m k IH]; intros g; [done|]. intros [Hm Hk] i gs c w HI Hi.
  specialize (Hm c w base (ledger_settled _ _ _ HI)). destruct (m c w) as [[b c'] w'].
  destruct Hm as (? & ? & ? & ? & ?). exists g. split; [|by apply IH].
  eapply ledger_quiet; try done. lia.
Qed.

Lemma numbered_call_fine {A} x r (refuse : error → A) after :
  request x = Some r → chargeable r → (∀ res, steps_quiet (after res)) →
  fine (x, Fresh) (numbered_call r refuse after).
Proof.
  intros Hx Hch Hafter. intros i gs c w HI Hi.
  pose proof (ledger_take gs c w i x r HI Hi) as Ht. destruct (take r c w) as [[rq c1] w1].
  destruct Ht as (n & -> & HI1). exists (x, Numbered_ n). split; [done|]. clear i gs c w c1 w1 HI Hi HI1.
  cbn. destruct (parse_url _); [done|]. intros i gs c w HI1 Hi.
  destruct (pay r c w) as [[e c1] w1] eqn:Hp.
  destruct (pay_law r c w e c1 w1 base) as (Hk & Hn & Hset & Hh & Hs);
    [done|by destruct HI1|done|].
  destruct e as [e|].
  - exists (x, Numbered_ n). split; [|done]. eapply ledger_quiet; try done.
  - exists (x, Paid n). split.
    { eapply ledger_quiet; try done. unfold paid. simpl. rewrite Hx. lia. }
    clear i gs c w c1 w1 HI1 Hi Hp Hk Hn Hset Hh Hs. intros i gs c w HI1 Hi.
    pose proof (ledger_send gs c w i x n r HI1 Hi Hx) as Hf.
    destruct (fetch (build c0 n r) c w) as [[res c1] w1].
    exists (x, Sent n). split; [done|]. by apply steps_quiet_fine.
Qed.
End pool.

(** ** Any number of calls, under any schedule *)

Section calls.
Context `{!Env, !Numbered C R, !NumberedLaws C R, !GoLib} {X A : Type} (request : X → option R).

(** Every request carries a number of its own, drawn since the start; each call sends at most
    the request it is for; together they stay within what the limiter grants. *)
Lemma numbered_calls (steps : X → Prog C A) (xs : list X) base c0 w0 schedule :
  0 ≤ number c0 → number c0 + Z.of_nat (length xs) < numbers → settled c0 w0 →
  0 ≤ spent base c0 → (∀ x r, request x = Some r → chargeable r) →
  (∀ x, thread_ok (ledger request base c0 (w_http w0) xs) (λ _ _, True) (x, Fresh) (steps x)) →
  let after := pool_run schedule (mkPool (steps <$> xs) c0 w0) in
  ∃ sent : list (Z * R),
    w_http (outside after) = w_http w0 ++ ((λ nr, build c0 nr.1 nr.2) <$> sent) ∧
    NoDup sent.*1 ∧ Forall (λ n, number c0 < n ≤ number c0 + Z.of_nat (length xs)) sent.*1 ∧
    sent.*2 ⊆+ omap request xs ∧
    total charge sent.*2 ≤ granted c0 (env_now (w_now (outside after)) - base).
Proof.
  intros Hpos Hroom Hset Hspent Hch Hsteps after.
  destruct (pool_rule (ledger request base c0 (w_http w0) xs) (λ _ _, True) schedule
    (mkPool (steps <$> xs) c0 w0) ((λ x, (x, Fresh)) <$> xs)) as (gs & _ & HI).
  - apply Forall2_fmap. by apply Forall_Forall2_diag, Forall_true.
  - assert (Hz : ∀ f, (∀ x, f (x, Fresh) = 0) → total f ((λ x, (x, Fresh)) <$> xs) = 0).
    { intros f Hf. unfold total. clear -Hf. induction xs as [|x xs IH]; [done|].
      csimpl. rewrite Hf, IH. done. }
    assert (Ho : ∀ B (f : X * Phase → option B), (∀ x, f (x, Fresh) = None) →
      omap f ((λ x, (x, Fresh)) <$> xs) = []).
    { intros B f Hf. clear -Hf. induction xs as [|x xs IH]; [done|]. csimpl. by rewrite Hf. }
    split; simpl; try rewrite !Ho by done; try done.
    + rewrite <- list_fmap_compose. apply list_fmap_id.
    + rewrite Hz by done. lia.
    + constructor.
    + rewrite Hz by done. done.
    + exists []. by rewrite app_nil_r.
  - destruct HI as [Hc [_ Hg] Hs Hn Hd Hr Hp (sent & Hperm & Hh)]. exists sent.
    assert (Hn1 : sent.*1 ⊆+ omap (number_of ∘ snd) gs).
    { rewrite Hperm. rewrite list_fmap_omap. apply omap_submseteq. intros [x p].
      unfold sent_of. simpl. destruct p; auto. destruct (request x); auto. }
    apply submseteq_Permutation in Hn1 as [rest Hrest]. rewrite Hrest in Hd, Hr.
    apply NoDup_app in Hd as [Hd _]. apply Forall_app in Hr as [Hr _].
    split_and!; [done|done| | |].
    + eapply Forall_impl; [exact Hr|]. simpl. intros n Hn'.
      pose proof (total_le taken gs 1 taken_le) as Hle.
      rewrite <- Hc, length_fmap. lia.
    + rewrite Hperm, list_fmap_omap, <- Hc, omap_fmap.
      apply omap_submseteq. intros [x p]. unfold sent_of. simpl. destruct p; auto.
      destruct (request x); auto.
    + rewrite <- Hg. etrans; [|by apply spent_law]. etrans; [|exact Hp].
      rewrite Hperm, list_fmap_omap. apply total_omap. intros [x p]. unfold sent_of, paid. simpl.
      destruct p; try done; destruct (request x) eqn:Hx; simpl; try done.
      by eapply charge_nonneg, Hch.
Qed.
End calls.
