(* ===== verification/Binance.v ===== *)
(** * The Binance adapter (internal/adapters/binance/binance.go)

    Signed REST calls through the weighted limiter, the mapping of the venue's orders,
    fills and balances, and the connector as an instance of the common contract. *)

From S2P Require Import Prelude GoStd World RateLimit Decimal Venue Json Http Throttle.

Open Scope Z_scope.

(** ** Responses of the venue *)

Module restError.
Record t := mk { Code : Z; Msg : string }.
End restError.

Module binanceFill.
Record t := mk {
  Price : string; Qty : string; Commission : string; CommissionAsset : string; TradeID : Z }.
End binanceFill.

Module placeOrderResp.
Record t := mk {
  OrderID : Z;
  ClientOrderID : string;
  Status : string;
  ExecutedQty : string;
  CummulativeQuoteQty : string;
  Fills : list binanceFill.t;
  Symbol : string;
}.
End placeOrderResp.

Module orderResp.
Record t := mk {
  OrderID : Z;
  ClientOrderID : string;
  Status : string;
  ExecutedQty : string;
  CummulativeQuoteQty : string;
  Symbol : string;
}.
End orderResp.

Module tradeRow.
Record t := mk {
  TradeID : Z; Price : string; Qty : string; Commission : string; CommissionAsset : string;
  Time_ : Z }.
End tradeRow.

Module balanceRow.
Record t := mk { Asset : string; Free : string; Locked : string }.
End balanceRow.

Section decoding.
Context `{JsonDiagnostics}.

Definition dec_restError : Decoder restError.t := dec_struct [
  field "code" restError.Code (λ a r, restError.mk a (restError.Msg r)) dec_int64;
  field "msg" restError.Msg (λ a r, restError.mk (restError.Code r) a) dec_string].

Definition dec_binanceFill : Decoder binanceFill.t :=
  let f := binanceFill.mk in dec_struct [
  field "price" binanceFill.Price
    (λ a '(binanceFill.mk p q c ca t), f a q c ca t) dec_string;
  field "qty" binanceFill.Qty
    (λ a '(binanceFill.mk p q c ca t), f p a c ca t) dec_string;
  field "commission" binanceFill.Commission
    (λ a '(binanceFill.mk p q c ca t), f p q a ca t) dec_string;
  field "commissionAsset" binanceFill.CommissionAsset
    (λ a '(binanceFill.mk p q c ca t), f p q c a t) dec_string;
  field "tradeId" binanceFill.TradeID
    (λ a '(binanceFill.mk p q c ca t), f p q c ca a) dec_int64].

Definition dec_placeOrderResp : Decoder placeOrderResp.t :=
  let f := placeOrderResp.mk in dec_struct [
  field "orderId" placeOrderResp.OrderID
    (λ a '(placeOrderResp.mk o c s e q fs y), f a c s e q fs y) dec_int64;
  field "clientOrderId" placeOrderResp.ClientOrderID
    (λ a '(placeOrderResp.mk o c s e q fs y), f o a s e q fs y) dec_string;
  field "status" placeOrderResp.Status
    (λ a '(placeOrderResp.mk o c s e q fs y), f o c a e q fs y) dec_string;
  field "executedQty" placeOrderResp.ExecutedQty
    (λ a '(placeOrderResp.mk o c s e q fs y), f o c s a q fs y) dec_string;
  field "cummulativeQuoteQty" placeOrderResp.CummulativeQuoteQty
    (λ a '(placeOrderResp.mk o c s e q fs y), f o c s e a fs y) dec_string;
  field "fills" placeOrderResp.Fills
    (λ a '(placeOrderResp.mk o c s e q fs y), f o c s e q a y)
    (dec_slice (binanceFill.mk "" "" "" "" 0) dec_binanceFill);
  field "symbol" placeOrderResp.Symbol
    (λ a '(placeOrderResp.mk o c s e q fs y), f o c s e q fs a) dec_string].

Definition dec_orderResp : Decoder orderResp.t :=
  let f := orderResp.mk in dec_struct [
  field "orderId" orderResp.OrderID
    (λ a '(orderResp.mk o c s e q y), f a c s e q y) dec_int64;
  field "clientOrderId" orderResp.ClientOrderID
    (λ a '(orderResp.mk o c s e q y), f o a s e q y) dec_string;
  field "status" orderResp.Status
    (λ a '(orderResp.mk o c s e q y), f o c a e q y) dec_string;
  field "executedQty" orderResp.ExecutedQty
    (λ a '(orderResp.mk o c s e q y), f o c s a q y) dec_string;
  field "cummulativeQuoteQty" orderResp.CummulativeQuoteQty
    (λ a '(orderResp.mk o c s e q y), f o c s e a y) dec_string;
  field "symbol" orderResp.Symbol
    (λ a '(orderResp.mk o c s e q y), f o c s e q a) dec_string].

Definition dec_tradeRow : Decoder tradeRow.t :=
  let f := tradeRow.mk in dec_struct [
  field "id" tradeRow.TradeID (λ a '(tradeRow.mk i p q c ca t), f a p q c ca t) dec_int64;
  field "price" tradeRow.Price (λ a '(tradeRow.mk i p q c ca t), f i a q c ca t) dec_string;
  field "qty" tradeRow.Qty (λ a '(tradeRow.mk i p q c ca t), f i p a c ca t) dec_string;
  field "commission" tradeRow.Commission
    (λ a '(tradeRow.mk i p q c ca t), f i p q a ca t) dec_string;
  field "commissionAsset" tradeRow.CommissionAsset
    (λ a '(tradeRow.mk i p q c ca t), f i p q c a t) dec_string;
  field "time" tradeRow.Time_ (λ a '(tradeRow.mk i p q c ca t), f i p q c ca a) dec_int64].

(** [fillsResp] and [accountResp] have one member each. *)
Definition dec_fillsResp : Decoder (list tradeRow.t) := dec_struct [
  field "fills" id (λ a _, a) (dec_slice (tradeRow.mk 0 "" "" "" "" 0) dec_tradeRow)].

Definition dec_balanceRow : Decoder balanceRow.t :=
  let f := balanceRow.mk in dec_struct [
  field "asset" balanceRow.Asset (λ a '(balanceRow.mk x y z), f a y z) dec_string;
  field "free" balanceRow.Free (λ a '(balanceRow.mk x y z), f x a z) dec_string;
  field "locked" balanceRow.Locked (λ a '(balanceRow.mk x y z), f x y a) dec_string].

Definition dec_accountResp : Decoder (list balanceRow.t) := dec_struct [
  field "balances" id (λ a _, a) (dec_slice (balanceRow.mk "" "" "") dec_balanceRow)].
End decoding.

(** ** Connector *)

Record Connector := mkConnector {
  cfg : VenueConfig.t;
  apiKey : string;
  apiSecret : string;
  limiter : Weighted.WeightedLimiter;
  nonce : Z;
}.

Definition set_limiter (l : Weighted.WeightedLimiter) (c : Connector) : Connector :=
  mkConnector (cfg c) (apiKey c) (apiSecret c) l (nonce c).
Definition set_nonce (n : Z) (c : Connector) : Connector :=
  mkConnector (cfg c) (apiKey c) (apiSecret c) (limiter c) n.

Definition readBudget `{OsEnv} : Z :=
  let b := getenv "RATE_LIMIT_WEIGHT_BUDGET" in
  if String.eqb b "" then 1200 else match ParseInt b with Some n => n | None => 1200 end.

Definition NewConnector `{Env, OsEnv} {S} (apiKey apiSecret : string)
    (limiter : option Weighted.WeightedLimiter) : M S Connector :=
  let rest := env_or "BINANCE_REST_URL" "https://api.binance.com" in
  let wsBase := env_or "BINANCE_WS_URL" "wss://stream.binance.com:9443/ws" in
  let budget := readBudget in
  l ← match limiter with
      | Some l => mret l
      | None => Weighted.NewWeightedLimiter "binance" budget
      end;
  t ← now;
  mret (mkConnector (VenueConfig.mk "binance" rest wsBase ∅) apiKey apiSecret l
                    (UnixMilli_of t)).

Definition Config (c : Connector) : VenueConfig.t := cfg c.

Section connector.
Context `{Env, DecimalOps, UnicodeTables, GoLib, JsonDiagnostics}.

Definition sign (c : Connector) (query : string) : string := hmac_sha256_hex (apiSecret c) query.

Definition lim {A} (m : M Weighted.WeightedLimiter A) : M Connector A :=
  zoom limiter set_limiter m.

Definition rate_limited (status : Z) : bool := (status =? 429) || (status =? 418).

(** The weight the venue reports is taken over. *)
Definition track_weight (headers : list (string * string)) : M Connector unit :=
  let h := header_get "X-MBX-USED-WEIGHT-1M" headers in
  if String.eqb h "" then mret tt
  else match ParseInt h with
       | Some used => lim (Weighted.UpdateUsed "binance" used)
       | None => mret tt
       end.

Definition do (rq : HttpRequest) (weight : Z) :
    M Connector (result (string * list (string * string))) :=
  e ← lim (Weighted.Wait weight);
  match e with
  | Some e => mret (Err e)
  | None =>
      r ← fetch rq;
      match r with
      | Err e => mret (Err e)
      | Ok (rs, body) =>
          track_weight (rs_headers rs) ;;
          if rate_limited (rs_status rs) then
            lim (Weighted.Backoff "binance" (30 * Second)) ;;
            mret (Err (ErrNew ("binance: rate limited (status " +:+ FormatInt (rs_status rs)
                               +:+ ")")))
          else if 400 <=? rs_status rs then
            let '(re, _) := Unmarshal_into dec_restError (restError.mk 0 "") body in
            mret (Err (ErrNew ("binance: status " +:+ FormatInt (rs_status rs) +:+ " code "
                               +:+ FormatInt (restError.Code re) +:+ " msg "
                               +:+ restError.Msg re)))
          else mret (Ok (body, rs_headers rs))
      end
  end.

(** The query that is signed: the parameters with the time stamp and the window. *)
Definition signed_query (ts : Z) (params : Values) : string :=
  Encode (Set_ "recvWindow" "5000" (Set_ "timestamp" (FormatInt ts) params)).

Definition signed_request (c : Connector) (method path : string) (params : Values) (ts : Z) :
    HttpRequest :=
  let query := signed_query ts params in
  {| rq_method := method;
     rq_url := VenueConfig.RESTBase (cfg c) +:+ path +:+ "?" +:+
               (query +:+ "&signature=" +:+ sign c query);
     rq_headers := [("X-MBX-APIKEY", apiKey c)];
     rq_body := "" |}.

Definition doSigned (method path : string) (params : Values) (weight : Z) :
    M Connector (result (string * list (string * string))) :=
  c ← get;
  let ts := i64_add (nonce c) 1 in
  modify (set_nonce ts) ;;
  let rq := signed_request c method path params ts in
  match parse_url (rq_url rq) with
  | Some e => mret (Err e)
  | None => do rq weight
  end.

(** Decode the body of a successful reply and map it. *)
Definition decoded {T U} (d : Decoder T) (zero : T) (f : T → U)
    (r : result (string * list (string * string))) : result U :=
  match r with
  | Err e => Err e
  | Ok (body, _) => match Unmarshal d zero body with Err e => Err e | Ok x => Ok (f x) end
  end.

Definition normalizeSymbol (s : string) : string := ToUpper s.

Definition mapStatus (s : string) : OrderStatus :=
  let u := ToUpper s in
  if String.eqb u "NEW" then OrderStatusNew
  else if String.eqb u "PARTIALLY_FILLED" || String.eqb u "PARTIALLYFILLED" then OrderStatusPartial
  else if String.eqb u "FILLED" then OrderStatusFilled
  else if String.eqb u "CANCELED" || String.eqb u "CANCELLED" then OrderStatusCanceled
  else s.

(** The loop of [mapOrder] over the fills: each is stamped with its own [time.Now()]. *)
Fixpoint map_fills {S} (orderID : Z) (fs : list binanceFill.t) : M S (list Fill.t) :=
  match fs with
  | [] => mret []
  | f :: fs =>
      t ← now;
      rest ← map_fills orderID fs;
      mret (Fill.mk _ (FormatInt orderID) (FormatInt (binanceFill.TradeID f))
              (ParseOrZero (binanceFill.Price f)) (ParseOrZero (binanceFill.Qty f))
              (ParseOrZero (binanceFill.Commission f)) (binanceFill.CommissionAsset f) t
            :: rest)
  end.

Definition mapOrder {S} (r : placeOrderResp.t) : M S OrderResponse.t :=
  let exec := ParseOrZero (placeOrderResp.ExecutedQty r) in
  let avg := if negb (String.eqb (placeOrderResp.CummulativeQuoteQty r) "") && negb (IsZero exec)
             then dec_Div (ParseOrZero (placeOrderResp.CummulativeQuoteQty r)) exec
             else dec_zero in
  fills ← map_fills (placeOrderResp.OrderID r) (placeOrderResp.Fills r);
  let avg := match fills with
             | f :: _ => if IsZero avg then Fill.Price f else avg
             | [] => avg
             end in
  mret (OrderResponse.mk _ (FormatInt (placeOrderResp.OrderID r))
          (placeOrderResp.ClientOrderID r) (mapStatus (placeOrderResp.Status r)) exec avg fills).

Definition mapOrderSimple (r : orderResp.t) : OrderResponse.t :=
  let exec := ParseOrZero (orderResp.ExecutedQty r) in
  let quote := ParseOrZero (orderResp.CummulativeQuoteQty r) in
  let avg := if negb (IsZero exec) then dec_Div quote exec else dec_zero in
  OrderResponse.mk _ (FormatInt (orderResp.OrderID r)) (orderResp.ClientOrderID r)
    (mapStatus (orderResp.Status r)) exec avg [].

Definition order_params (req : OrderRequest.t) : Values :=
  let params := Set_ "newClientOrderId" (OrderRequest.ClientOrderID req)
    (Set_ "quantity" (dec_String (OrderRequest.Quantity req))
    (Set_ "type" (OrderRequest.Type_ req)
    (Set_ "side" (OrderRequest.Side req)
    (Set_ "symbol" (normalizeSymbol (OrderRequest.Symbol req)) ∅)))) in
  if String.eqb (OrderRequest.Type_ req) OrderTypeLimit then
    Set_ "timeInForce" "GTC" (Set_ "price" (dec_String (OrderRequest.Price req)) params)
  else params.

Definition binance_PlaceOrder (req : OrderRequest.t) : M Connector (result OrderResponse.t) :=
  if String.eqb (OrderRequest.ClientOrderID req) "" then
    mret (Err (ErrNew "binance: client_order_id required"))
  else
    r ← doSigned "POST" "/api/v3/order" (order_params req) 1;
    match r with
    | Err e => mret (Err e)
    | Ok (body, _) =>
        match Unmarshal dec_placeOrderResp (placeOrderResp.mk 0 "" "" "" "" [] "") body with
        | Err e => mret (Err e)
        | Ok r => o ← mapOrder r; mret (Ok o)
        end
    end.

Definition binance_GetOrder (venueOrderID : string) : M Connector (result OrderResponse.t) :=
  r ← doSigned "GET" "/api/v3/order" (Set_ "orderId" venueOrderID ∅) 1;
  mret (decoded dec_orderResp (orderResp.mk 0 "" "" "" "" "") mapOrderSimple r).

Definition cancel_params (req : CancelRequest.t) : option Values :=
  if negb (String.eqb (CancelRequest.VenueOrderID req) "") then
    Some (Set_ "orderId" (CancelRequest.VenueOrderID req) ∅)
  else if negb (String.eqb (CancelRequest.ClientOrderID req) "") then
    Some (Set_ "origClientOrderId" (CancelRequest.ClientOrderID req) ∅)
  else None.

Definition binance_CancelOrder (req : CancelRequest.t) : M Connector (option error) :=
  match cancel_params req with
  | None => mret (Some (ErrNew "binance: cancel requires venue or client order id"))
  | Some params =>
      r ← doSigned "DELETE" "/api/v3/order" params 1;
      mret (match r with Ok _ => None | Err e => Some e end)
  end.

Definition fills_params (q : FillQuery.t) : Values :=
  let p0 := if negb (String.eqb (FillQuery.VenueOrderID q) "")
            then Set_ "orderId" (FillQuery.VenueOrderID q) ∅ else ∅ in
  let p1 := if negb (Time_IsZero (FillQuery.Start q))
            then Set_ "startTime" (FormatInt (UnixMilli_of (FillQuery.Start q))) p0 else p0 in
  let p2 := if negb (Time_IsZero (FillQuery.End_ q))
            then Set_ "endTime" (FormatInt (UnixMilli_of (FillQuery.End_ q))) p1 else p1 in
  if 0 <? FillQuery.Limit q then Set_ "limit" (FormatInt (FillQuery.Limit q)) p2
  else Set_ "limit" "500" p2.

Definition fill_of_row (q : FillQuery.t) (f : tradeRow.t) : Fill.t :=
  Fill.mk _ (FillQuery.VenueOrderID q) (FormatInt (tradeRow.TradeID f))
    (ParseOrZero (tradeRow.Price f)) (ParseOrZero (tradeRow.Qty f))
    (ParseOrZero (tradeRow.Commission f)) (tradeRow.CommissionAsset f)
    (time_UnixMilli (tradeRow.Time_ f)).

Definition binance_GetFills (q : FillQuery.t) : M Connector (result (list Fill.t)) :=
  r ← doSigned "GET" "/api/v3/myTrades" (fills_params q) 10;
  mret (decoded dec_fillsResp [] (map (fill_of_row q)) r).

Definition balance_of_row (b : balanceRow.t) : Balance.t :=
  Balance.mk _ (balanceRow.Asset b) (ParseOrZero (balanceRow.Free b))
             (ParseOrZero (balanceRow.Locked b)).

Definition balances_of_rows (rows : list balanceRow.t) : Balances.t :=
  Balances.mk _ (fold_left (λ m b, <[balanceRow.Asset b := balance_of_row b]> m) rows ∅).

Definition binance_GetBalances : M Connector (result Balances.t) :=
  r ← doSigned "GET" "/api/v3/account" ∅ 5;
  mret (decoded dec_accountResp [] balances_of_rows r).

(** What the caller of [SubscribeBook] gets; the feed itself is modelled apart. *)
Definition binance_SubscribeBook (pairs : list string) : M Connector (result Chan) :=
  mret (if (length pairs =? 0)%nat then Err (ErrNew "binance: no pairs")
        else Ok (mkChan 64 pairs)).

#[export] Instance binance_VenueConnector : VenueConnector Connector := {|
  PlaceOrder := binance_PlaceOrder;
  CancelOrder := binance_CancelOrder;
  GetOrder := binance_GetOrder;
  GetFills := binance_GetFills;
  GetBalances := binance_GetBalances;
  SubscribeBook := binance_SubscribeBook;
|}.

End connector.

(** ** Calls

    A call of the connector and the request it makes, if its arguments are accepted. *)

Section calls.
Context `{Env, DecimalOps, UnicodeTables, GoLib, JsonDiagnostics}.

Inductive binance_call : Type :=
| CPlace (req : OrderRequest.t)
| CCancel (req : CancelRequest.t)
| CGet (id : string)
| CFills (q : FillQuery.t)
| CBalances.

Record Request := mkRequest {
  r_method : string; r_path : string; r_params : Values; r_weight : Z }.

Definition request_of (x : binance_call) : option Request :=
  match x with
  | CPlace req =>
      if String.eqb (OrderRequest.ClientOrderID req) "" then None
      else Some (mkRequest "POST" "/api/v3/order" (order_params req) 1)
  | CCancel req =>
      match cancel_params req with
      | Some p => Some (mkRequest "DELETE" "/api/v3/order" p 1)
      | None => None
      end
  | CGet id => Some (mkRequest "GET" "/api/v3/order" (Set_ "orderId" id ∅) 1)
  | CFills q => Some (mkRequest "GET" "/api/v3/myTrades" (fills_params q) 10)
  | CBalances => Some (mkRequest "GET" "/api/v3/account" ∅ 5)
  end.

Definition run_binance (x : binance_call) : M Connector (option error) :=
  match x with
  | CPlace req => r ← binance_PlaceOrder req; mret (outcome r)
  | CCancel req => binance_CancelOrder req
  | CGet id => r ← binance_GetOrder id; mret (outcome r)
  | CFills q => r ← binance_GetFills q; mret (outcome r)
  | CBalances => r ← binance_GetBalances; mret (outcome r)
  end.
End calls.

(** ** Lemmas *)

Section lemmas.
Context `{Env, DecimalOps, UnicodeTables, GoLib, JsonDiagnostics}.

(** What is not the limiter, in a connector. *)
Definition same_but_limiter (c c' : Connector) : Prop :=
  cfg c' = cfg c ∧ apiKey c' = apiKey c ∧ apiSecret c' = apiSecret c ∧ nonce c' = nonce c.

Definition rate_limit_reply (k : nat) (rq : HttpRequest) : Prop :=
  ∃ rs body, env_http k rq = Ok rs ∧ rs_body rs = Ok body ∧ rate_limited (rs_status rs) = true.

Lemma track_weight_frame headers c w :
  let '(_, c', w') := track_weight headers c w in
  same_but_limiter c c' ∧ w_http w' = w_http w ∧ w_now w' = w_now w.
Proof.
  unfold track_weight. destruct (String.eqb _ _); [done|]. by destruct (ParseInt _).
Qed.

(** Where an exchange leaves the clock, the network log and the limiter's deadline: no
    request when the limiter refuses, one otherwise; a rate-limit reply moves the deadline
    to thirty seconds after the last reading of the clock. *)
Lemma do_spec rq weight c w r c' w' :
  do rq weight c w = (r, c', w') →
  same_but_limiter c c' ∧ (w_now w < w_now w')%nat ∧
  ((∃ l1 w1, Weighted.Wait weight (limiter c) w = (None, l1, w1) ∧
     (w_now w1 ≤ w_now w')%nat ∧ w_http w' = w_http w ++ [rq] ∧
     (rate_limit_reply (length (w_http w)) rq → is_ok r = false ∧
        lim_until (limiter c') = env_now (w_now w' - 1) + 30 * Second)) ∨
   (∃ e l1 w1, Weighted.Wait weight (limiter c) w = (Some e, l1, w1) ∧
     w' = w1 ∧ w_http w' = w_http w ∧ r = Err e ∧
     lim_until (limiter c') = lim_until (limiter c))).
Proof.
  unfold do, lim, zoom. munfold. pose proof (lim_wait_frame (L := Weighted.WeightedLimiter)) as Hf.
  simpl in Hf. destruct (Weighted.Wait weight (limiter c) w) as [[e l] w1] eqn:Hw.
  destruct (Hf _ _ _ _ _ _ Hw) as (Hu & Hh & _ & _ & Hn). destruct e as [e|].
  { intros [= <- <- <-]. split; [done|]. split; [lia|]. right. by exists e, l, w1. }
  destruct (fetch_run rq (set_limiter l c) w1) as (fr & w2 & Hfe & Hh2 & Hn2 & _ & _ & _ & Hfr).
  rewrite Hfe. rewrite Hh in Hh2, Hfr. intros Hd.
  assert (Hdo : same_but_limiter c c' ∧ (w_now w2 ≤ w_now w')%nat ∧ w_http w' = w_http w2 ∧
    ((∃ rs body, fr = Ok (rs, body) ∧ rate_limited (rs_status rs) = true) →
     is_ok r = false ∧ lim_until (limiter c') = env_now (w_now w' - 1) + 30 * Second)).
  { destruct fr as [[rs body]|e]; simplify_eq/=.
    2: { split_and!; [done|done|done|]. by intros (? & ? & ? & ?). }
    pose proof (track_weight_frame (rs_headers rs) (set_limiter l c) w2) as Ht.
    destruct (track_weight _ _ _) as [[[] c3] w3]. destruct Ht as (Hc3 & Hh3 & Hn3).
    destruct (rate_limited (rs_status rs)) eqn:Hrl.
    - simplify_eq/=. split_and!; [done|lia|done|]. intros _. split; [done|].
      unfold Time_Add. do 2 f_equal. lia.
    - destruct (400 <=? rs_status rs); simplify_eq/=.
      + destruct (Unmarshal_into _ _ _) as [re ?]. simplify_eq/=.
        split_and!; [done|lia|done|]. intros (? & ? & ? & ?). congruence.
      + split_and!; [done|lia|done|]. intros (? & ? & ? & ?). congruence. }
  destruct Hdo as (Hs & Hn' & Hh' & Hlim). split; [done|]. split; [lia|]. left.
  exists l, w1. split; [done|]. split; [lia|]. split; [congruence|]. intros (rs & body & He & Hb & Hrl).
  apply Hlim. exists rs, body. by rewrite Hfr, He, Hb.
Qed.

(** The mapping of a reply only reads the clock. *)
Lemma map_fills_frame {S} id fs (s : S) w :
  ∃ l w', map_fills id fs s w = (l, s, w') ∧ w_http w' = w_http w ∧ (w_now w ≤ w_now w')%nat ∧
          length l = length fs.
Proof.
  revert w. induction fs as [|f fs IH]; intros w; simpl; munfold; [by eexists _, _|].
  set (w1 := mkWorld _ _ _ _ _ _ _). destruct (IH w1) as (l & w' & -> & Hh & Hn & Hl).
  eexists _, _. split; [done|]. simpl in *. split_and!; [done|lia|congruence].
Qed.

Lemma mapOrder_frame {S} r (s : S) w :
  ∃ o w', mapOrder r s w = (o, s, w') ∧ w_http w' = w_http w ∧ (w_now w ≤ w_now w')%nat.
Proof.
  unfold mapOrder. munfold.
  destruct (map_fills_frame (placeOrderResp.OrderID r) (placeOrderResp.Fills r) s w)
    as (l & w' & -> & Hh & Hn & _). by eexists _, _.
Qed.

Lemma doSigned_run m p v wt c w :
  doSigned m p v wt c w =
  let ts := i64_add (nonce c) 1 in
  let rq := signed_request c m p v ts in
  match parse_url (rq_url rq) with
  | Some e => (Err e, set_nonce ts c, w)
  | None => do rq wt (set_nonce ts c) w
  end.
Proof. unfold doSigned. munfold. by destruct (parse_url _). Qed.

(** A call that makes a request, as what happens around [do]. *)
Lemma run_binance_do x c w out c' w' :
  run_binance x c w = (out, c', w') →
  match request_of x with
  | None => out ≠ None ∧ c' = c ∧ w' = w
  | Some q =>
      let ts := i64_add (nonce c) 1 in
      let rq := signed_request c (r_method q) (r_path q) (r_params q) ts in
      (parse_url (rq_url rq) ≠ None ∧ out ≠ None ∧ c' = set_nonce ts c ∧ w' = w) ∨
      (parse_url (rq_url rq) = None ∧ ∃ r w1, do rq (r_weight q) (set_nonce ts c) w = (r, c', w1) ∧
         w_http w' = w_http w1 ∧ (w_now w1 ≤ w_now w')%nat ∧
         (is_ok r = false → out ≠ None ∧ w' = w1))
  end.
Proof.
  intros Hr. destruct x as [req|req|id|q|]; cbn [run_binance request_of] in *;
    unfold binance_PlaceOrder, binance_CancelOrder, binance_GetOrder, binance_GetFills,
      binance_GetBalances in Hr.
  1: destruct (String.eqb _ _); [munfold; by simplify_eq|].
  2: destruct (cancel_params req) as [p|]; [|munfold; by simplify_eq].
  all: munfold; rewrite doSigned_run in Hr; cbn zeta in *.
  all: destruct (parse_url _) as [e|] eqn:Hp; [left; simpl in *; by simplify_eq|right].
  all: split; [done|].
  all: destruct (do _ _ _ _) as [[[[body hs]|e] c1] w1] eqn:Hd; simpl in Hr;
    [|simplify_eq; eexists _, _; by split_and!].
  1: destruct (Unmarshal _ _ _) as [r|e]; simpl in Hr;
    [destruct (mapOrder_frame r c1 w1) as (o & w2 & Ho & Hh & Hn); munfold;
     rewrite Ho in Hr; simpl in Hr|].
  all: simplify_eq; eexists _, _; by split_and!.
Qed.

(** The clock and the network over one call: what the interface asks for. *)
Lemma run_binance_clock x c w r c' w' :
  run_binance x c w = (r, c', w') → (w_now w ≤ w_now w')%nat.
Proof.
  intros Hr. apply run_binance_do in Hr. destruct (request_of x) as [q|]; [|by destruct Hr as (_ & _ & ->)].
  destruct Hr as [(_ & _ & _ & ->)|(_ & r' & w1 & Hd & _ & Hn & _)]; [done|].
  apply do_spec in Hd as (_ & Hlt & _). lia.
Qed.

Lemma run_binance_blocked x c w r c' w' :
  run_binance x c w = (r, c', w') → lim_until (limiter c) ≠ 0 →
  (∀ i, (w_now w ≤ i < w_now w')%nat → env_now i < lim_until (limiter c)) →
  w_http w' = w_http w ∧ lim_until (limiter c') = lim_until (limiter c) ∧ r ≠ None.
Proof.
  intros Hr Hz Hi. apply run_binance_do in Hr.
  destruct (request_of x) as [q|]; [|by destruct Hr as (? & -> & ->)].
  destruct Hr as [(_ & ? & -> & ->)|(_ & r' & w1 & Hd & Hh & Hn & He)]; [done|].
  apply do_spec in Hd as (_ & _ & [(l1 & w2 & Hw & Hn2 & _)|(e & l1 & w2 & Hw & -> & Hh1 & -> & Hu)]).
  - pose proof (lim_wait_blocked (L := Weighted.WeightedLimiter) _ _ _ _ _ _ Hw Hz) as Hb.
    discriminate Hb. intros i Hi'. apply Hi. lia.
  - destruct (He eq_refl) as [? ->]. done.
Qed.

Lemma run_binance_limited x c w r c' w' pre rq rs body :
  run_binance x c w = (r, c', w') → w_http w' = pre ++ [rq] →
  (length (w_http w) ≤ length pre)%nat →
  env_http (length pre) rq = Ok rs → rs_body rs = Ok body → rate_limited (rs_status rs) = true →
  r ≠ None ∧ lim_until (limiter c') = env_now (w_now w' - 1) + 30 * Second.
Proof.
  intros Hr Hpre Hlen Hrep Hbody Hrl. apply run_binance_do in Hr.
  assert (Hsame : w_http w' ≠ w_http w).
  { intros Heq. rewrite Hpre in Heq. rewrite <- Heq, length_app in Hlen. simpl in Hlen. lia. }
  destruct (request_of x) as [q|]; [|by destruct Hr as (? & -> & ->)].
  destruct Hr as [(_ & ? & -> & ->)|(_ & r' & w1 & Hd & Hh & Hn & He)]; [done|].
  apply do_spec in Hd as (_ & _ & [(l1 & w2 & Hw & Hn2 & Hh1 & Hlim)|(e & l1 & w2 & Hw & -> & Hh1 & -> & Hu)]).
  - rewrite Hpre, Hh1 in Hh. apply app_inj_tail in Hh as [-> ->].
    destruct Hlim as [Hok Hdl]; [by exists rs, body|]. destruct (He Hok) as [? ->]. done.
  - congruence.
Qed.

#[export] Instance binance_Throttled : Throttled Connector := {|
  call := binance_call;
  run_call := run_binance;
  deadline c := lim_until (limiter c);
  limited := rate_limited;
  pause := 30 * Second;
  run_call_clock := run_binance_clock;
  run_call_blocked := run_binance_blocked;
  run_call_limited := run_binance_limited;
|}.

(** The requests of a run: each is the signed request of its call, under the next value
    of the counter. *)
Lemma run_binance_requests x c w r c' w' :
  run_binance x c w = (r, c', w') →
  cfg c' = cfg c ∧ apiKey c' = apiKey c ∧ apiSecret c' = apiSecret c ∧
  ((nonce c' = nonce c ∧ w_http w' = w_http w) ∨
   (nonce c' = i64_add (nonce c) 1 ∧
    (w_http w' = w_http w ∨
     ∃ q, request_of x = Some q ∧
       w_http w' = w_http w ++
         [signed_request c (r_method q) (r_path q) (r_params q) (i64_add (nonce c) 1)]))).
Proof.
  intros Hr. apply run_binance_do in Hr.
  destruct (request_of x) as [q|]; [|destruct Hr as (_ & -> & ->); by auto 6].
  destruct Hr as [(_ & _ & -> & ->)|(_ & r' & w1 & Hd & Hh & _ & _)]; [by auto 8|].
  apply do_spec in Hd as ((Hc & Hk & Hs & Hno) & _ & Hcase). simpl in *.
  split_and!; [done..|]. right. split; [done|].
  destruct Hcase as [(l1 & w2 & _ & _ & Hh1 & _)|(e & l1 & w2 & _ & _ & Hh1 & _)].
  - right. exists q. split; [done|]. congruence.
  - left. congruence.
Qed.

Definition request_at (c : Connector) (tq : Z * Request) : HttpRequest :=
  signed_request c (r_method tq.2) (r_path tq.2) (r_params tq.2) tq.1.

Lemma request_at_same c c1 :
  cfg c1 = cfg c → apiKey c1 = apiKey c → apiSecret c1 = apiSecret c →
  ∀ tq, request_at c1 tq = request_at c tq.
Proof. intros Hc Hk Hs tq. unfold request_at, signed_request, sign. by rewrite Hc, Hk, Hs. Qed.

Lemma run_binance_stamps (xs : list (call (C := Connector))) c w outs c' w' :
  run_calls xs c w = (outs, c', w') →
  int64_min ≤ nonce c → nonce c + Z.of_nat (length xs) ≤ int64_max →
  nonce c ≤ nonce c' ≤ nonce c + Z.of_nat (length xs) ∧
  ∃ sent, w_http w' = w_http w ++ (request_at c <$> sent) ∧
    StronglySorted Z.lt sent.*1 ∧ Forall (λ tq, nonce c < tq.1 ≤ nonce c') sent.
Proof.
  revert c w outs. induction xs as [|x xs IH]; intros c w outs Hr Hmin Hmax.
  { simpl in Hr. munfold. simplify_eq. split; [lia|]. exists [].
    split_and!; [by rewrite app_nil_r|constructor..]. }
  rewrite run_calls_cons in Hr. cbn [length] in Hmax.
  destruct (run_call x c w) as [[o c1] w1] eqn:Hx.
  destruct (run_calls xs c1 w1) as [[os c2] w2] eqn:Hxs. simplify_eq.
  apply run_binance_requests in Hx as (Hc & Hk & Hs & Hcase).
  assert (Hstep : ∃ pre, w_http w1 = w_http w ++ (request_at c <$> pre) ∧
    nonce c ≤ nonce c1 ≤ nonce c + 1 ∧ StronglySorted Z.lt pre.*1 ∧
    Forall (λ tq, nonce c < tq.1 ≤ nonce c1) pre).
  { assert (i64_add (nonce c) 1 = nonce c + 1) as Hadd.
    { unfold i64_add. apply wrap64_id. unfold is_int64. lia. }
    rewrite Hadd in Hcase. destruct Hcase as [[Hn Hh]|[Hn [Hh|(q & Hq & Hh)]]].
    - exists []. rewrite app_nil_r. simpl. split_and!; [done|lia|lia|constructor..].
    - exists []. rewrite app_nil_r. simpl. split_and!; [done|lia|lia|constructor..].
    - exists [(nonce c + 1, q)]. simpl.
      split_and!; [done|lia|lia|repeat constructor|repeat constructor; simpl; lia]. }
  destruct Hstep as (pre & Hh1 & Hn & Hps & Hpre).
  destruct (IH _ _ _ Hxs) as (Hn2 & sent & Hh2 & Hsort & Hall); [lia|lia|].
  cbn [length]; split; [lia|]. exists (pre ++ sent).
  rewrite (list_fmap_ext _ (request_at c) sent) in Hh2
    by (intros; by apply request_at_same).
  rewrite Hh2, Hh1, fmap_app, <- app_assoc. split; [done|]. split.
  - rewrite fmap_app. apply StronglySorted_app. split_and!; [|done|done].
    intros t1 t2 (tq1 & -> & H1')%list_elem_of_fmap (tq2 & -> & H2')%list_elem_of_fmap.
    rewrite Forall_forall in Hpre, Hall. specialize (Hpre _ H1'). specialize (Hall _ H2'). lia.
  - apply Forall_app. split; (eapply Forall_impl; [done|]); simpl; lia.
Qed.
End lemmas.

(** ** Properties *)

Section properties.
Context `{Env, DecimalOps, UnicodeTables, GoLib, JsonDiagnostics}.

(** over any run of calls the adapter sends at most one request per call, in order,
    each signed with its own time stamp. The stamps strictly increase, and they only
    count the calls: after [n] calls the stamp is within [n] of the start-up reading of
    the clock, however late it is by then. *)
Theorem binance_stamps_count_calls (xs : list (call (C := Connector))) (c : Connector) (w : World)
    (outs : list (option error)) (c' : Connector) (w' : World) :
  run_calls xs c w = (outs, c', w') →
  int64_min ≤ nonce c → nonce c + Z.of_nat (length xs) ≤ int64_max →
  ∃ sent : list (Z * Request),
    w_http w' = w_http w ++
      ((λ tq, signed_request c (r_method tq.2) (r_path tq.2) (r_params tq.2) tq.1) <$> sent) ∧
    StronglySorted Z.lt (fst <$> sent) ∧
    Forall (λ tq, nonce c < tq.1 ≤ nonce c + Z.of_nat (length xs)) sent.
Proof.
  intros Hrun Hmin Hmax.
  destruct (run_binance_stamps xs c w outs c' w' Hrun Hmin Hmax) as (Hn & sent & Hh & Hs & Hall).
  exists sent. split_and!; [exact Hh|done|]. eapply Forall_impl; [done|]. intros tq Htq; cbn beta in *; lia.
Qed.

(** C24: an accepted order becomes one POST to /api/v3/order whose signed query splits back
    into exactly the venue's parameters: symbol in upper case, side, type, quantity, the
    caller's id as idempotency key, price and "GTC" for limit orders only, the time stamp
    and the window, and the signature is the keyed hash of that query. *)
Theorem binance_order_request (req : OrderRequest.t) (c : Connector) (w : World)
    (out : option error) (c' : Connector) (w' : World) :
  run_binance (CPlace req) c w = (out, c', w') → w_http w' ≠ w_http w →
  ∃ query,
    w_http w' = w_http w ++
      [{| rq_method := "POST";
          rq_url := VenueConfig.RESTBase (cfg c) +:+ "/api/v3/order" +:+ "?" +:+ query +:+
                    "&signature=" +:+ hmac_sha256_hex (apiSecret c) query;
          rq_headers := [("X-MBX-APIKEY", apiKey c)]; rq_body := "" |}] ∧
    Split query "&"%char ≡ₚ query_part <$>
      [("recvWindow", "5000"); ("timestamp", FormatInt (i64_add (nonce c) 1));
       ("newClientOrderId", OrderRequest.ClientOrderID req);
       ("quantity", dec_String (OrderRequest.Quantity req));
       ("type", OrderRequest.Type_ req); ("side", OrderRequest.Side req);
       ("symbol", ToUpper (OrderRequest.Symbol req))] ++
      (if String.eqb (OrderRequest.Type_ req) OrderTypeLimit
       then [("timeInForce", "GTC"); ("price", dec_String (OrderRequest.Price req))] else []).
Proof.
  intros Hr Hne. apply run_binance_requests in Hr as (_ & _ & _ & Hcase).
  destruct Hcase as [[_ Hh]|[_ [Hh|(q & Hq & Hh)]]]; [done..|].
  simpl in Hq. destruct (String.eqb _ ""); [done|]. injection Hq as <-.
  exists (signed_query (i64_add (nonce c) 1) (order_params req)).
  split; [exact Hh|]. unfold signed_query.
  rewrite Split_Encode by apply insert_non_empty. apply fmap_Permutation.
  unfold order_params, Set_, normalizeSymbol.
  destruct (String.eqb (OrderRequest.Type_ req) OrderTypeLimit);
    repeat rewrite map_to_list_insert by (by simplify_map_eq);
    rewrite map_to_list_empty; [|done].
  do 2 constructor. apply (Permutation_app_comm [_; _] [_; _; _; _; _]).
Qed.

(** the average price of a placed order: the quote amount over the executed quantity
    when both are there and the quotient is not zero; otherwise the price of the first
    fill, or zero when there is none. The fills keep the venue's order, each carries the
    order's id, and a number that does not parse reads as zero. *)
Theorem binance_mapOrder_average {S} (r : placeOrderResp.t) (s : S) (w : World) :
  let '(o, s', w') := mapOrder r s w in
  let exec := ParseOrZero (placeOrderResp.ExecutedQty r) in
  let quotient := dec_Div (ParseOrZero (placeOrderResp.CummulativeQuoteQty r)) exec in
  let quoted := negb (String.eqb (placeOrderResp.CummulativeQuoteQty r) "") && negb (IsZero exec) in
  s' = s ∧ OrderResponse.FilledQty o = exec ∧
  OrderResponse.ClientOrderID o = placeOrderResp.ClientOrderID r ∧
  map (λ f, (Fill.VenueOrderID f, Fill.TradeID f, Fill.Price f, Fill.Quantity f))
    (OrderResponse.Fills o) =
  map (λ f, (OrderResponse.VenueOrderID o, FormatInt (binanceFill.TradeID f),
             ParseOrZero (binanceFill.Price f), ParseOrZero (binanceFill.Qty f)))
    (placeOrderResp.Fills r) ∧
  OrderResponse.AvgPrice o =
    (let avg := if quoted then quotient else dec_zero in
     match placeOrderResp.Fills r with
     | f :: _ => if IsZero avg then ParseOrZero (binanceFill.Price f) else avg
     | [] => avg
     end).
Proof.
  assert (Hfills : ∀ fs w, let '(l, s', w') := map_fills (placeOrderResp.OrderID r) fs s w in
    s' = s ∧
    map (λ f, (Fill.VenueOrderID f, Fill.TradeID f, Fill.Price f, Fill.Quantity f)) l =
    map (λ f, (FormatInt (placeOrderResp.OrderID r), FormatInt (binanceFill.TradeID f),
               ParseOrZero (binanceFill.Price f), ParseOrZero (binanceFill.Qty f))) fs).
  { induction fs as [|f fs IH]; intros w'; [done|]. simpl. munfold.
    set (w1 := mkWorld _ _ _ _ _ _ _). specialize (IH w1).
    destruct (map_fills _ fs s w1) as [[l s'] w2]. destruct IH as [-> IH].
    split; [done|]. simpl. by rewrite IH. }
  unfold mapOrder. munfold. specialize (Hfills (placeOrderResp.Fills r) w).
  destruct (map_fills _ _ s w) as [[l s'] w'] eqn:Hl. destruct Hfills as [-> Hf]. simpl.
  split_and!; try done.
  destruct (placeOrderResp.Fills r) as [|f fs]; destruct l as [|g l]; try done.
  simpl in Hf. injection Hf as _ _ Hp _ _. by rewrite Hp.
Qed.

(** C15: after a reply with status 429 or 418, whatever calls follow, the adapter sends no
    request and every call fails, as long as the clock is less than thirty seconds past
    the moment it backed off. *)
Theorem binance_quiet_after_rate_limit (x : call (C := Connector)) (c : Connector) (w : World)
    (r : option error) (c1 : Connector) (w1 : World) (pre : list HttpRequest)
    (rq : HttpRequest) (rs : HttpResponse) (body : string)
    (xs : list (call (C := Connector))) (outs : list (option error)) (c2 : Connector)
    (w2 : World) :
  run_call x c w = (r, c1, w1) → w_http w1 = pre ++ [rq] →
  (length (w_http w) ≤ length pre)%nat →
  env_http (length pre) rq = Ok rs → rs_body rs = Ok body → rate_limited (rs_status rs) = true →
  env_now (w_now w1 - 1) + 30 * Second ≠ 0 →
  run_calls xs c1 w1 = (outs, c2, w2) →
  (∀ i, (w_now w1 ≤ i < w_now w2)%nat → env_now i < env_now (w_now w1 - 1) + 30 * Second) →
  r ≠ None ∧ w_http w2 = w_http w1 ∧ Forall (λ r, r ≠ None) outs.
Proof. exact (@limited_then_quiet _ _ binance_Throttled x c w r c1 w1 pre rq rs body xs outs c2 w2). Qed.
End properties.

(** ** Witnesses *)

Section witnesses.
#[local] Existing Instance exact_ops.
#[local] Existing Instance ascii_tables.

#[local] Existing Instance plain_lib.

#[local] Existing Instance plain_diagnostics.

Definition order_reply : string := quoted_text
  "{`orderId`:7,`clientOrderId`:`c1`,`status`:`FILLED`,`executedQty`:`2`,`cummulativeQuoteQty`:`10`,`fills`:[{`price`:`5`,`qty`:`2`,`commission`:`0.1`,`commissionAsset`:`USDT`,`tradeId`:9}]}".

(** A venue that answers the first request and rate-limits the others; the clock advances
    by one second at every reading. *)
Definition sample_venue : Env :=
  linear_env (unix_epoch + 5 * Second) Second
    (λ k _, if (k =? 0)%nat then Ok {| rs_status := 200; rs_headers := []; rs_body := Ok order_reply |}
            else Ok {| rs_status := 429; rs_headers := []; rs_body := Ok "" |})
    (λ _, None) (λ _, None).
#[local] Existing Instance sample_venue.

Definition sample_limit_order : OrderRequest.t :=
  OrderRequest.mk _ "c1" "btcusdt" "buy" "limit" (mkDec 2 0) (mkDec 5 0).

Definition sample_connector : Connector :=
  mkConnector (VenueConfig.mk "binance" "https://b" "wss://b" ∅) "key" "secret"
    (Weighted.mk "binance" 1200 0 (60 * Second) (unix_epoch + 5 * Second) 0) 5000.

(** The reply is decoded and mapped. *)
Example sample_order_placed :
  let '(r, _, _) := binance_PlaceOrder sample_limit_order sample_connector World_init in
  match r with
  | Ok o => (OrderResponse.VenueOrderID o, OrderResponse.Status o, OrderResponse.AvgPrice o,
             length (OrderResponse.Fills o)) = ("7", "filled", mkDec (5 * 10 ^ 16) (-16), 1%nat)
  | Err _ => False
  end.
Proof. vm_compute. reflexivity. Qed.

Definition sample_calls : list (call (C := Connector)) := [CPlace sample_limit_order; CBalances].

Lemma binance_stamps_count_calls_witness :
  ∃ outs c' w', run_calls sample_calls sample_connector World_init = (outs, c', w') ∧
    length (w_http w') = 2%nat ∧
    ∃ sent : list (Z * Request), w_http w' =
      ((λ tq, signed_request sample_connector (r_method tq.2) (r_path tq.2) (r_params tq.2) tq.1)
         <$> sent) ∧ Forall (λ tq, 5000 < tq.1 ≤ 5002) sent.
Proof.
  destruct (run_calls sample_calls sample_connector World_init) as [[outs c'] w'] eqn:Hr.
  exists outs, c', w'. split; [done|]. split.
  - change w' with (outs, c', w').2. rewrite <- Hr. vm_compute. reflexivity.
  - destruct (binance_stamps_count_calls sample_calls sample_connector World_init outs c' w' Hr)
      as (sent & Hh & _ & Hall); [done|done|]. by exists sent.
Defined.

Lemma binance_order_request_witness :
  ∃ out c' w', run_binance (CPlace sample_limit_order) sample_connector World_init = (out, c', w') ∧
    ∃ query, rq_url <$> w_http w' =
      ["https://b" +:+ "/api/v3/order" +:+ "?" +:+ query +:+ "&signature=" +:+ "secret"] ∧
    "newClientOrderId=c1" ∈ Split query "&"%char.
Proof.
  destruct (run_binance (CPlace sample_limit_order) sample_connector World_init)
    as [[out c'] w'] eqn:Hr.
  exists out, c', w'. split; [done|].
  assert (Hlen : length (w_http w') = 1%nat).
  { change w' with (out, c', w').2. rewrite <- Hr. vm_compute. reflexivity. }
  destruct (binance_order_request sample_limit_order sample_connector World_init out c' w' Hr)
    as (query & Hq & Hparts).
  { intros Heq. by rewrite Heq in Hlen. }
  exists query. rewrite Hq. split; [done|]. rewrite Hparts.
  apply list_elem_of_fmap. exists ("newClientOrderId", "c1"). split; [done|].
  apply elem_of_app. left. do 2 apply list_elem_of_further. apply list_elem_of_here.
Defined.

Lemma binance_quiet_after_rate_limit_witness :
  let '(_, c0, w0) := run_binance (CPlace sample_limit_order) sample_connector
                        World_init in
  let '(r, c1, w1) := run_binance CBalances c0 w0 in
  let '(outs, c2, w2) := run_calls sample_calls c1 w1 in
  r ≠ None ∧ w_http w2 = w_http w1 ∧ length (w_http w1) = 2%nat ∧ length outs = 2%nat.
Proof.
  destruct (run_binance (CPlace sample_limit_order) sample_connector World_init) as [[r0 c0] w0] eqn:H0.
  destruct (run_binance CBalances c0 w0) as [[r c1] w1] eqn:H1.
  destruct (run_calls sample_calls c1 w1) as [[outs c2] w2] eqn:H2.
  pose proof H0 as E0. vm_compute in E0. injection E0 as <- <- <-.
  pose proof H1 as E1. vm_compute in E1. injection E1 as <- <- <-.
  pose proof H2 as E2. vm_compute in E2. injection E2 as <- <- <-.
  destruct (binance_quiet_after_rate_limit _ _ _ _ _ _ [_] _
    {| rs_status := 429; rs_headers := []; rs_body := Ok "" |} "" _ _ _ _
    H1 eq_refl (le_n _) eq_refl eq_refl eq_refl ltac:(done) H2) as (Hr & Hh & _).
  - intros i Hi. simpl in Hi. cbv [env_now sample_venue linear_env w_now Second]. simpl. lia.
  - by split_and!.
Defined.
End witnesses.
