(* ===== verification/Kraken.v ===== *)
(** * The Kraken adapter (internal/adapters/kraken/kraken.go)

    Private REST calls through the counter limiter, the error envelope, and the mapping
    of orders, trades and balances. *)

From S2P Require Import Prelude GoStd World RateLimit Decimal Venue Json Http Throttle.

Open Scope Z_scope.

Module krakenOrder.
Record t := mk {
  Status : string; Vol : string; VolExec : string; Price : string; UserRef : string }.
End krakenOrder.

Module tradeEntry.
Record t := mk {
  OrderTxID : string; Pair : string; Time_ : float64; Type_ : string; Price : string;
  Vol : string; Fee : string; FeeAsset : string }.
End tradeEntry.

Module balanceEntry.
Record t := mk { Available : string; Balance : string }.
End balanceEntry.

Module envelope.
Record t := mk { Error : list string; Result : option JVal }.
End envelope.

Section decoding.
Context `{JsonDiagnostics}.

Definition dec_envelope : Decoder envelope.t := dec_struct [
  field "error" envelope.Error (λ a e, envelope.mk a (envelope.Result e))
    (dec_slice "" dec_string);
  field "result" envelope.Result (λ a e, envelope.mk (envelope.Error e) a) dec_raw].

(** [addOrderResp] has one member. *)
Definition dec_addOrderResp : Decoder (list string) := dec_struct [
  field "txid" id (λ a _, a) (dec_slice "" dec_string)].

Definition dec_krakenOrder : Decoder krakenOrder.t :=
  let f := krakenOrder.mk in dec_struct [
  field "status" krakenOrder.Status
    (λ a '(krakenOrder.mk s v e p u), f a v e p u) dec_string;
  field "vol" krakenOrder.Vol
    (λ a '(krakenOrder.mk s v e p u), f s a e p u) dec_string;
  field "vol_exec" krakenOrder.VolExec
    (λ a '(krakenOrder.mk s v e p u), f s v a p u) dec_string;
  field "price" krakenOrder.Price
    (λ a '(krakenOrder.mk s v e p u), f s v e a u) dec_string;
  field "userref" krakenOrder.UserRef
    (λ a '(krakenOrder.mk s v e p u), f s v e p a) dec_string].

Definition dec_tradeEntry : Decoder tradeEntry.t :=
  let f := tradeEntry.mk in dec_struct [
  field "ordertxid" tradeEntry.OrderTxID
    (λ a '(tradeEntry.mk o p t y r v e s), f a p t y r v e s) dec_string;
  field "pair" tradeEntry.Pair
    (λ a '(tradeEntry.mk o p t y r v e s), f o a t y r v e s) dec_string;
  field "time" tradeEntry.Time_
    (λ a '(tradeEntry.mk o p t y r v e s), f o p a y r v e s) dec_float64;
  field "type" tradeEntry.Type_
    (λ a '(tradeEntry.mk o p t y r v e s), f o p t a r v e s) dec_string;
  field "price" tradeEntry.Price
    (λ a '(tradeEntry.mk o p t y r v e s), f o p t y a v e s) dec_string;
  field "vol" tradeEntry.Vol
    (λ a '(tradeEntry.mk o p t y r v e s), f o p t y r a e s) dec_string;
  field "fee" tradeEntry.Fee
    (λ a '(tradeEntry.mk o p t y r v e s), f o p t y r v a s) dec_string;
  field "fee_currency" tradeEntry.FeeAsset
    (λ a '(tradeEntry.mk o p t y r v e s), f o p t y r v e a) dec_string].

Definition dec_balanceEntry : Decoder balanceEntry.t := dec_struct [
  field "available" balanceEntry.Available
    (λ a e, balanceEntry.mk a (balanceEntry.Balance e)) dec_string;
  field "balance" balanceEntry.Balance
    (λ a e, balanceEntry.mk (balanceEntry.Available e) a) dec_string].
End decoding.

Definition zero_order : krakenOrder.t := krakenOrder.mk "" "" "" "" "".
Definition zero_trade : tradeEntry.t := tradeEntry.mk "" "" f64_zero "" "" "" "" "".

(** ** Connector *)

Record Connector := mkConnector {
  cfg : VenueConfig.t;
  apiKey : string;
  apiSecret : string;
  limiter : Counter.CounterLimiter;
  nonce : Z;                                   (** [uint64] *)
}.

Definition set_limiter (l : Counter.CounterLimiter) (c : Connector) : Connector :=
  mkConnector (cfg c) (apiKey c) (apiSecret c) l (nonce c).
Definition set_nonce (n : Z) (c : Connector) : Connector :=
  mkConnector (cfg c) (apiKey c) (apiSecret c) (limiter c) n.

Definition NewConnector `{Env, OsEnv} {S} (apiKey apiSecret : string)
    (limiter : option Counter.CounterLimiter) : M S Connector :=
  let rest := env_or "KRAKEN_REST_URL" "https://api.kraken.com" in
  let wsBase := env_or "KRAKEN_WS_URL" "wss://ws.kraken.com" in
  l ← match limiter with
      | Some l => mret l
      | None => Counter.NewCounterLimiter "kraken" 20
      end;
  t ← now;
  mret (mkConnector (VenueConfig.mk "kraken" rest wsBase ∅) apiKey apiSecret l
                    (wrapu64 (UnixNano_of t) / 1000000)).

Definition Config (c : Connector) : VenueConfig.t := cfg c.

Section connector.
Context `{Env, DecimalOps, UnicodeTables, GoLib, JsonDiagnostics, MapOrder}.

(** [nextNonce]: the counter after the atomic increment. *)
Definition next_nonce (c : Connector) : Z := wrapu64 (nonce c + 1).

Definition sign (c : Connector) (path nonce postData : string) : string :=
  let hash := sha256_sum (nonce +:+ postData) in
  hmac_sha512_base64 (base64_decode (apiSecret c)) (path +:+ hash).

(** The same computation from a given secret, for tests. *)
Definition signExample (secret path nonce postData : string) : string :=
  let hash := sha256_sum (nonce +:+ postData) in
  hmac_sha512_base64 (base64_decode secret) (path +:+ hash).

Definition lim {A} (m : M Counter.CounterLimiter A) : M Connector A :=
  zoom limiter set_limiter m.

Definition rate_limited (status : Z) : bool := (status =? 429) || (status =? 418).

(** What a reply with a status below 400 means. *)
Definition open_envelope (body : string) : result (option JVal) :=
  match Unmarshal dec_envelope (envelope.mk [] None) body with
  | Err e => Err (ErrWrap "kraken: bad json: " e)
  | Ok env =>
      match envelope.Error env with
      | [] => Ok (envelope.Result env)
      | errs => Err (ErrNew ("kraken: " +:+ Join errs "; "))
      end
  end.

Definition do (rq : HttpRequest) (cost : Z) : M Connector (result (option JVal)) :=
  e ← lim (Counter.Wait cost);
  match e with
  | Some e => mret (Err e)
  | None =>
      r ← fetch rq;
      match r with
      | Err e => mret (Err e)
      | Ok (rs, body) =>
          if rate_limited (rs_status rs) then
            lim (Counter.Backoff "kraken" (30 * Second)) ;;
            mret (Err (ErrNew ("kraken: rate limited (status " +:+ FormatInt (rs_status rs)
                               +:+ ")")))
          else if 400 <=? rs_status rs then
            mret (Err (ErrNew ("kraken: status " +:+ FormatInt (rs_status rs) +:+ " body "
                               +:+ body)))
          else mret (open_envelope body)
      end
  end.

Definition private_request (c : Connector) (path : string) (params : Values) (n : Z) :
    HttpRequest :=
  let postData := Encode (Set_ "nonce" (FormatInt n) params) in
  {| rq_method := "POST";
     rq_url := VenueConfig.RESTBase (cfg c) +:+ path;
     rq_headers := [("API-Key", apiKey c); ("API-Sign", sign c path (FormatInt n) postData);
                    ("Content-Type", "application/x-www-form-urlencoded")];
     rq_body := postData |}.

Definition doPrivate (path : string) (params : Values) (cost : Z) :
    M Connector (result (option JVal)) :=
  c ← get;
  let n := next_nonce c in
  modify (set_nonce n) ;;
  let rq := private_request c path params n in
  match parse_url (rq_url rq) with
  | Some e => mret (Err e)
  | None => do rq cost
  end.

(** Decode the result of a successful reply and map it. *)
Definition decoded {T U} (d : Decoder T) (zero : T) (f : T → result U)
    (r : result (option JVal)) : result U :=
  match r with
  | Err e => Err e
  | Ok raw => match to_result (Unmarshal_raw d zero raw) with Err e => Err e | Ok x => f x end
  end.

Definition normalizePair (s : string) : string := s.

Definition order_params (req : OrderRequest.t) : Values :=
  let p0 := Set_ "type" (OrderRequest.Side req)
              (Set_ "pair" (normalizePair (OrderRequest.Symbol req)) ∅) in
  let p1 := if String.eqb (OrderRequest.Type_ req) OrderTypeMarket
            then Set_ "ordertype" "market" p0
            else Set_ "price" (dec_String (OrderRequest.Price req))
                   (Set_ "ordertype" "limit" p0) in
  Set_ "userref" (OrderRequest.ClientOrderID req)
    (Set_ "volume" (dec_String (OrderRequest.Quantity req)) p1).

Definition placed (req : OrderRequest.t) (txids : list string) : result OrderResponse.t :=
  match txids with
  | [] => Err (ErrNew "kraken: no txid")
  | id :: _ => Ok (OrderResponse.mk _ id (OrderRequest.ClientOrderID req) OrderStatusNew
                     dec_zero dec_zero [])
  end.

Definition kraken_PlaceOrder (req : OrderRequest.t) : M Connector (result OrderResponse.t) :=
  if String.eqb (OrderRequest.ClientOrderID req) "" then
    mret (Err (ErrNew "kraken: client_order_id required"))
  else
    r ← doPrivate "/0/private/AddOrder" (order_params req) 6;
    mret (decoded dec_addOrderResp [] (placed req) r).

Definition map_status (o : krakenOrder.t) : OrderStatus :=
  let exec := ParseOrZero (krakenOrder.VolExec o) in
  let vol := ParseOrZero (krakenOrder.Vol o) in
  let s := ToLower (krakenOrder.Status o) in
  if String.eqb s "pending" then OrderStatusNew
  else if String.eqb s "open" then OrderStatusNew
  else if String.eqb s "closed" then
    if dec_Equal exec vol then OrderStatusFilled
    else if GreaterThan exec dec_zero then OrderStatusPartial
    else OrderStatusCanceled
  else if String.eqb s "canceled" || String.eqb s "cancelled" then OrderStatusCanceled
  else OrderStatusNew.

Definition mapOrder (id : string) (o : krakenOrder.t) : OrderResponse.t :=
  let exec := ParseOrZero (krakenOrder.VolExec o) in
  let price := ParseOrZero (krakenOrder.Price o) in
  let avg := if negb (IsZero exec) then price else dec_zero in
  OrderResponse.mk _ id (krakenOrder.UserRef o) (map_status o) exec avg [].

Definition find_order (id : string) (m : gmap string krakenOrder.t) : result OrderResponse.t :=
  match m !! id with
  | Some o => Ok (mapOrder id o)
  | None => Err (ErrNew "kraken: order not found")
  end.

Definition kraken_GetOrder (venueOrderID : string) : M Connector (result OrderResponse.t) :=
  r ← doPrivate "/0/private/QueryOrders" (Set_ "txid" venueOrderID ∅) 2;
  mret (decoded (dec_map zero_order dec_krakenOrder) ∅ (find_order venueOrderID) r).

Definition cancel_params (req : CancelRequest.t) : option Values :=
  if negb (String.eqb (CancelRequest.VenueOrderID req) "") then
    Some (Set_ "txid" (CancelRequest.VenueOrderID req) ∅)
  else if negb (String.eqb (CancelRequest.ClientOrderID req) "") then
    Some (Set_ "userref" (CancelRequest.ClientOrderID req) ∅)
  else None.

Definition kraken_CancelOrder (req : CancelRequest.t) : M Connector (option error) :=
  match cancel_params req with
  | None => mret (Some (ErrNew "kraken: cancel requires venue or client order id"))
  | Some params =>
      r ← doPrivate "/0/private/CancelOrder" params 6;
      mret (match r with Ok _ => None | Err e => Some e end)
  end.

Definition fills_params (q : FillQuery.t) : Values :=
  let p0 := if negb (String.eqb (FillQuery.VenueOrderID q) "")
            then Set_ "txid" (FillQuery.VenueOrderID q) ∅ else ∅ in
  let p1 := if negb (Time_IsZero (FillQuery.Start q))
            then Set_ "start" (FormatInt (Unix_of (FillQuery.Start q))) p0 else p0 in
  if negb (Time_IsZero (FillQuery.End_ q))
  then Set_ "end" (FormatInt (Unix_of (FillQuery.End_ q))) p1 else p1.

Definition fill_of_trade (it : string * tradeEntry.t) : Fill.t :=
  let '(id, tr) := it in
  Fill.mk _ (tradeEntry.OrderTxID tr) id (ParseOrZero (tradeEntry.Price tr))
    (ParseOrZero (tradeEntry.Vol tr)) (ParseOrZero (tradeEntry.Fee tr))
    (tradeEntry.FeeAsset tr) (time_Unix (f64_to_int64 (tradeEntry.Time_ tr))).

Definition fills_of_trades (limit : Z) (r : gmap string tradeEntry.t) : list Fill.t :=
  truncate_limit limit (map fill_of_trade (range_map r)).

Definition kraken_GetFills (q : FillQuery.t) : M Connector (result (list Fill.t)) :=
  r ← doPrivate "/0/private/QueryTrades" (fills_params q) 2;
  mret (decoded (dec_map zero_trade dec_tradeEntry) ∅
          (λ m, Ok (fills_of_trades (FillQuery.Limit q) m)) r).

Definition balance_of_entry (asset : string) (b : balanceEntry.t) : Balance.t :=
  let free := ParseOrZero (balanceEntry.Available b) in
  let total := ParseOrZero (balanceEntry.Balance b) in
  let locked := dec_Sub total free in
  let locked := if LessThan locked dec_zero then dec_zero else locked in
  Balance.mk _ asset free locked.

(** The keys of [r] are distinct, so the order of the loop does not matter. *)
Definition balances_of_entries (r : gmap string balanceEntry.t) : Balances.t :=
  Balances.mk _ (fold_left (λ m it, <[it.1 := balance_of_entry it.1 it.2]> m) (range_map r) ∅).

Definition kraken_GetBalances : M Connector (result Balances.t) :=
  r ← doPrivate "/0/private/Balance" ∅ 2;
  mret (decoded (dec_map (balanceEntry.mk "" "") dec_balanceEntry) ∅
          (λ m, Ok (balances_of_entries m)) r).

Definition kraken_SubscribeBook (pairs : list string) : M Connector (result Chan) :=
  mret (if (length pairs =? 0)%nat then Err (ErrNew "kraken: no pairs")
        else Ok (mkChan 64 pairs)).

#[export] Instance kraken_VenueConnector : VenueConnector Connector := {|
  PlaceOrder := kraken_PlaceOrder;
  CancelOrder := kraken_CancelOrder;
  GetOrder := kraken_GetOrder;
  GetFills := kraken_GetFills;
  GetBalances := kraken_GetBalances;
  SubscribeBook := kraken_SubscribeBook;
|}.

End connector.

(** ** Calls *)

Section calls.
Context `{Env, DecimalOps, UnicodeTables, GoLib, JsonDiagnostics, MapOrder}.

Inductive kraken_call : Type :=
| KPlace (req : OrderRequest.t)
| KCancel (req : CancelRequest.t)
| KGet (id : string)
| KFills (q : FillQuery.t)
| KBalances.

(** Path, parameters and cost of the request a call makes, if it makes one. *)
Definition request_of (x : kraken_call) : option (string * Values * Z) :=
  match x with
  | KPlace req =>
      if String.eqb (OrderRequest.ClientOrderID req) "" then None
      else Some ("/0/private/AddOrder", order_params req, 6)
  | KCancel req =>
      match cancel_params req with
      | Some p => Some ("/0/private/CancelOrder", p, 6)
      | None => None
      end
  | KGet id => Some ("/0/private/QueryOrders", Set_ "txid" id ∅, 2)
  | KFills q => Some ("/0/private/QueryTrades", fills_params q, 2)
  | KBalances => Some ("/0/private/Balance", ∅, 2)
  end.

Definition run_kraken (x : kraken_call) : M Connector (option error) :=
  match x with
  | KPlace req => r ← kraken_PlaceOrder req; mret (outcome r)
  | KCancel req => kraken_CancelOrder req
  | KGet id => r ← kraken_GetOrder id; mret (outcome r)
  | KFills q => r ← kraken_GetFills q; mret (outcome r)
  | KBalances => r ← kraken_GetBalances; mret (outcome r)
  end.
End calls.

(** ** Lemmas *)

Section lemmas.
Context `{Env, DecimalOps, UnicodeTables, GoLib, JsonDiagnostics, MapOrder}.

Definition same_but_limiter (c c' : Connector) : Prop :=
  cfg c' = cfg c ∧ apiKey c' = apiKey c ∧ apiSecret c' = apiSecret c ∧ nonce c' = nonce c.

Definition rate_limit_reply (k : nat) (rq : HttpRequest) : Prop :=
  ∃ rs body, env_http k rq = Ok rs ∧ rs_body rs = Ok body ∧ rate_limited (rs_status rs) = true.

(** One exchange: refused by the limiter without a request, or one request and, on a
    rate-limit reply, the deadline moved. *)
Lemma kraken_do_spec rq cost c w r c' w' :
  do rq cost c w = (r, c', w') →
  same_but_limiter c c' ∧ (w_now w < w_now w')%nat ∧
  ((∃ l1 w1, Counter.Wait cost (limiter c) w = (None, l1, w1) ∧
     (w_now w1 ≤ w_now w')%nat ∧ w_http w' = w_http w ++ [rq] ∧
     (rate_limit_reply (length (w_http w)) rq → is_ok r = false ∧
        lim_until (limiter c') = env_now (w_now w' - 1) + 30 * Second)) ∨
   (∃ e l1 w1, Counter.Wait cost (limiter c) w = (Some e, l1, w1) ∧
     w' = w1 ∧ w_http w' = w_http w ∧ r = Err e ∧
     lim_until (limiter c') = lim_until (limiter c))).
Proof.
  unfold do, lim, zoom. munfold. pose proof (lim_wait_frame (L := Counter.CounterLimiter)) as Hf.
  simpl in Hf. destruct (Counter.Wait cost (limiter c) w) as [[e l] w1] eqn:Hw.
  destruct (Hf _ _ _ _ _ _ Hw) as (Hu & Hh & _ & _ & Hn). destruct e as [e|].
  { intros [= <- <- <-]. split; [done|]. split; [lia|]. right. by exists e, l, w1. }
  destruct (fetch_run rq (set_limiter l c) w1) as (fr & w2 & Hfe & Hh2 & Hn2 & _ & _ & _ & Hfr).
  rewrite Hfe. rewrite Hh in Hh2, Hfr. intros Hd.
  assert (Hdo : same_but_limiter c c' ∧ (w_now w2 ≤ w_now w')%nat ∧ w_http w' = w_http w2 ∧
    ((∃ rs body, fr = Ok (rs, body) ∧ rate_limited (rs_status rs) = true) →
     is_ok r = false ∧ lim_until (limiter c') = env_now (w_now w' - 1) + 30 * Second)).
  { destruct fr as [[rs body]|e]; simplify_eq/=.
    2: { split_and!; [done|done|done|]. by intros (? & ? & ? & ?). }
    destruct (rate_limited (rs_status rs)) eqn:Hrl.
    - simplify_eq/=. split_and!; [done|lia|done|]. intros _. split; [done|].
      unfold Time_Add. do 2 f_equal. lia.
    - destruct (400 <=? rs_status rs); simplify_eq/=;
        (split_and!; [done|lia|done|]; intros (? & ? & ? & ?); congruence). }
  destruct Hdo as (Hs & Hn' & Hh' & Hlim). split; [done|]. split; [lia|]. left.
  exists l, w1. split; [done|]. split; [lia|]. split; [congruence|]. intros (rs & body & He & Hb & Hrl).
  apply Hlim. exists rs, body. by rewrite Hfr, He, Hb.
Qed.

Lemma doPrivate_run p v cost c w :
  doPrivate p v cost c w =
  let n := next_nonce c in
  let rq := private_request c p v n in
  match parse_url (rq_url rq) with
  | Some e => (Err e, set_nonce n c, w)
  | None => do rq cost (set_nonce n c) w
  end.
Proof. unfold doPrivate. munfold. by destruct (parse_url _). Qed.

(** A call that makes a request, as what happens around [do]. *)
Lemma run_kraken_do x c w out c' w' :
  run_kraken x c w = (out, c', w') →
  match request_of x with
  | None => out ≠ None ∧ c' = c ∧ w' = w
  | Some (path, params, cost) =>
      let n := next_nonce c in
      let rq := private_request c path params n in
      (parse_url (rq_url rq) ≠ None ∧ out ≠ None ∧ c' = set_nonce n c ∧ w' = w) ∨
      (parse_url (rq_url rq) = None ∧ ∃ r, do rq cost (set_nonce n c) w = (r, c', w') ∧
         (is_ok r = false → out ≠ None))
  end.
Proof.
  intros Hr. destruct x as [req|req|id|q|]; cbn [run_kraken request_of] in *;
    unfold kraken_PlaceOrder, kraken_CancelOrder, kraken_GetOrder, kraken_GetFills,
      kraken_GetBalances in Hr.
  1: destruct (String.eqb _ _); [munfold; by simplify_eq|].
  2: destruct (cancel_params req) as [p|]; [|munfold; by simplify_eq].
  all: munfold; rewrite doPrivate_run in Hr; cbn zeta in *.
  all: destruct (parse_url _) as [e|] eqn:Hp; [left; simpl in *; by simplify_eq|right].
  all: split; [done|].
  all: destruct (do _ _ _ _) as [[[raw|e] c1] w1] eqn:Hd; simpl in Hr;
    simplify_eq; eexists; by split_and!.
Qed.

Lemma run_kraken_clock x c w r c' w' :
  run_kraken x c w = (r, c', w') → (w_now w ≤ w_now w')%nat.
Proof.
  intros Hr. apply run_kraken_do in Hr.
  destruct (request_of x) as [[[p v] cost]|]; [|by destruct Hr as (_ & _ & ->)].
  destruct Hr as [(_ & _ & _ & ->)|(_ & r' & Hd & _)]; [done|].
  apply kraken_do_spec in Hd as (_ & Hlt & _). lia.
Qed.

Lemma run_kraken_blocked x c w r c' w' :
  run_kraken x c w = (r, c', w') → lim_until (limiter c) ≠ 0 →
  (∀ i, (w_now w ≤ i < w_now w')%nat → env_now i < lim_until (limiter c)) →
  w_http w' = w_http w ∧ lim_until (limiter c') = lim_until (limiter c) ∧ r ≠ None.
Proof.
  intros Hr Hz Hi. apply run_kraken_do in Hr.
  destruct (request_of x) as [[[p v] cost]|]; [|by destruct Hr as (? & -> & ->)].
  destruct Hr as [(_ & ? & -> & ->)|(_ & r' & Hd & He)]; [done|].
  apply kraken_do_spec in Hd
    as (_ & _ & [(l1 & w2 & Hw & Hn2 & _)|(e & l1 & w2 & Hw & -> & Hh1 & -> & Hu)]).
  - pose proof (lim_wait_blocked (L := Counter.CounterLimiter) _ _ _ _ _ _ Hw Hz) as Hb.
    discriminate Hb. intros i Hi'. apply Hi. lia.
  - split_and!; [done|done|by apply He].
Qed.

Lemma run_kraken_limited x c w r c' w' pre rq rs body :
  run_kraken x c w = (r, c', w') → w_http w' = pre ++ [rq] →
  (length (w_http w) ≤ length pre)%nat →
  env_http (length pre) rq = Ok rs → rs_body rs = Ok body → rate_limited (rs_status rs) = true →
  r ≠ None ∧ lim_until (limiter c') = env_now (w_now w' - 1) + 30 * Second.
Proof.
  intros Hr Hpre Hlen Hrep Hbody Hrl. apply run_kraken_do in Hr.
  assert (Hsame : w_http w' ≠ w_http w).
  { intros Heq. rewrite Hpre in Heq. rewrite <- Heq, length_app in Hlen. simpl in Hlen. lia. }
  destruct (request_of x) as [[[p v] cost]|]; [|by destruct Hr as (? & -> & ->)].
  destruct Hr as [(_ & ? & -> & ->)|(_ & r' & Hd & He)]; [done|].
  apply kraken_do_spec in Hd
    as (_ & _ & [(l1 & w2 & Hw & Hn2 & Hh1 & Hlim)|(e & l1 & w2 & Hw & -> & Hh1 & -> & Hu)]).
  - rewrite Hpre in Hh1. apply app_inj_tail in Hh1 as [-> ->].
    destruct Hlim as [Hok Hdl]; [by exists rs, body|]. by split; [apply He|].
  - congruence.
Qed.

#[export] Instance kraken_Throttled : Throttled Connector := {|
  call := kraken_call;
  run_call := run_kraken;
  deadline c := lim_until (limiter c);
  limited := rate_limited;
  pause := 30 * Second;
  run_call_clock := run_kraken_clock;
  run_call_blocked := run_kraken_blocked;
  run_call_limited := run_kraken_limited;
|}.

(** The request of a call is its private request under the next nonce. *)
Lemma run_kraken_requests x c w r c' w' :
  run_kraken x c w = (r, c', w') →
  cfg c' = cfg c ∧ apiKey c' = apiKey c ∧ apiSecret c' = apiSecret c ∧
  ((nonce c' = nonce c ∧ w_http w' = w_http w) ∨
   (nonce c' = next_nonce c ∧
    (w_http w' = w_http w ∨
     ∃ path params cost, request_of x = Some (path, params, cost) ∧
       w_http w' = w_http w ++ [private_request c path params (next_nonce c)]))).
Proof.
  intros Hr. apply run_kraken_do in Hr.
  destruct (request_of x) as [[[p v] cost]|]; [|destruct Hr as (_ & -> & ->); by auto 6].
  destruct Hr as [(_ & _ & -> & ->)|(_ & r' & Hd & _)]; [by auto 8|].
  apply kraken_do_spec in Hd as ((Hc & Hk & Hs & Hno) & _ & Hcase). simpl in *.
  split_and!; [done..|]. right. split; [done|].
  destruct Hcase as [(l1 & w2 & _ & _ & Hh1 & _)|(e & l1 & w2 & _ & _ & Hh1 & _)].
  - right. by exists p, v, cost.
  - by left.
Qed.
End lemmas.

(** ** Lemmas: nonces over a run *)

Section nonces.
Context `{Env, DecimalOps, UnicodeTables, GoLib, JsonDiagnostics, MapOrder}.

Definition request_at (c : Connector) (nq : Z * (string * Values)) : HttpRequest :=
  private_request c nq.2.1 nq.2.2 nq.1.

Lemma kraken_request_at_same c c1 :
  cfg c1 = cfg c → apiKey c1 = apiKey c → apiSecret c1 = apiSecret c →
  ∀ nq, request_at c1 nq = request_at c nq.
Proof. intros Hc Hk Hs nq. unfold request_at, private_request, sign. by rewrite Hc, Hk, Hs. Qed.

Lemma next_nonce_step c :
  0 ≤ nonce c → nonce c + 1 < 2 ^ 64 → next_nonce c = nonce c + 1.
Proof. intros. unfold next_nonce, wrapu64. apply Z.mod_small. lia. Qed.

Lemma run_kraken_nonces (xs : list (call (C := Connector))) c w outs c' w' :
  run_calls xs c w = (outs, c', w') → 0 ≤ nonce c → nonce c + Z.of_nat (length xs) < 2 ^ 64 →
  nonce c ≤ nonce c' ≤ nonce c + Z.of_nat (length xs) ∧
  ∃ sent, w_http w' = w_http w ++ (request_at c <$> sent) ∧
    StronglySorted Z.lt sent.*1 ∧ Forall (λ nq, nonce c < nq.1 ≤ nonce c') sent.
Proof.
  revert c w outs. induction xs as [|x xs IH]; intros c w outs Hr Hmin Hmax.
  { simpl in Hr. munfold. simplify_eq. split; [lia|]. exists [].
    split_and!; [by rewrite app_nil_r|constructor..]. }
  rewrite run_calls_cons in Hr. cbn [length] in *.
  destruct (run_call x c w) as [[o c1] w1] eqn:Hx.
  destruct (run_calls xs c1 w1) as [[os c2] w2] eqn:Hxs. simplify_eq.
  apply run_kraken_requests in Hx as (Hc & Hk & Hs & Hcase).
  rewrite next_nonce_step in Hcase by lia.
  assert (Hstep : ∃ pre, w_http w1 = w_http w ++ (request_at c <$> pre) ∧
    nonce c ≤ nonce c1 ≤ nonce c + 1 ∧ StronglySorted Z.lt pre.*1 ∧
    Forall (λ nq, nonce c < nq.1 ≤ nonce c1) pre).
  { destruct Hcase as [[Hn Hh]|[Hn [Hh|(p & v & cost & Hq & Hh)]]].
    - exists []. rewrite app_nil_r. simpl. split_and!; [done|lia|lia|constructor..].
    - exists []. rewrite app_nil_r. simpl. split_and!; [done|lia|lia|constructor..].
    - exists [(nonce c + 1, (p, v))]. simpl.
      split_and!; [done|lia|lia|repeat constructor|repeat constructor; simpl; lia]. }
  destruct Hstep as (pre & Hh1 & Hn & Hps & Hpre).
  destruct (IH _ _ _ Hxs) as (Hn2 & sent & Hh2 & Hsort & Hall); [lia|lia|].
  split; [lia|]. exists (pre ++ sent).
  rewrite (list_fmap_ext _ (request_at c) sent) in Hh2
    by (intros; by apply kraken_request_at_same).
  rewrite Hh2, Hh1, fmap_app, <- app_assoc. split; [done|]. split.
  - rewrite fmap_app. apply StronglySorted_app. split_and!; [|done|done].
    intros t1 t2 (tq1 & -> & H1')%list_elem_of_fmap (tq2 & -> & H2')%list_elem_of_fmap.
    rewrite Forall_forall in Hpre, Hall. specialize (Hpre _ H1'). specialize (Hall _ H2'). lia.
  - apply Forall_app. split; (eapply Forall_impl; [done|]); simpl; lia.
Qed.

(** A map built entry by entry from any visiting order. *)
Lemma fold_insert_lookup {A B} (f : string → A → B) (l : list (string * A)) acc k :
  NoDup l.*1 →
  fold_left (λ m it, <[it.1 := f it.1 it.2]> m) l acc !! k =
  match (list_to_map l : gmap string A) !! k with
  | Some a => Some (f k a)
  | None => (acc : gmap string B) !! k
  end.
Proof.
  revert acc. induction l as [|[k' a] l IH]; intros acc Hnd; [done|].
  simpl in Hnd. apply NoDup_cons in Hnd as [Hni Hnd]. simpl. rewrite IH by done.
  destruct (decide (k = k')) as [->|Hne].
  - by rewrite (not_elem_of_list_to_map_1 (M := gmap string) l k' Hni), !lookup_insert_eq.
  - by rewrite !lookup_insert_ne by done.
Qed.
End nonces.

(** ** Properties *)

Section properties.
Context `{Env, DecimalOps, UnicodeTables, GoLib, JsonDiagnostics, MapOrder}.

(** C16: over any run of calls, no nonce is ever used twice: the requests sent carry
    strictly increasing nonces, each in the signed body, at most one per call. *)
Theorem kraken_nonces_increase (xs : list (call (C := Connector))) (c : Connector) (w : World)
    (outs : list (option error)) (c' : Connector) (w' : World) :
  run_calls xs c w = (outs, c', w') → 0 ≤ nonce c → nonce c + Z.of_nat (length xs) < 2 ^ 64 →
  ∃ sent : list (Z * (string * Values)),
    w_http w' = w_http w ++ ((λ nq, private_request c nq.2.1 nq.2.2 nq.1) <$> sent) ∧
    StronglySorted Z.lt (fst <$> sent) ∧
    Forall (λ nq, nonce c < nq.1 ≤ nonce c + Z.of_nat (length xs)) sent.
Proof.
  intros Hr Hmin Hmax.
  destruct (run_kraken_nonces xs c w outs c' w' Hr Hmin Hmax) as (Hn & sent & Hh & Hs & Hall).
  exists sent. split_and!; [exact Hh|done|]. eapply Forall_impl; [done|].
  intros nq Hnq. cbn beta in *. lia.
Qed.

(** after a reply with status 429 or 418 the adapter sends nothing and every call
    fails while the clock is less than thirty seconds past the moment it backed off. *)
Theorem kraken_quiet_after_rate_limit (x : call (C := Connector)) (c : Connector) (w : World)
    (r : option error) (c1 : Connector) (w1 : World) (pre : list HttpRequest)
    (rq : HttpRequest) (rs : HttpResponse) (body : string)
    (xs : list (call (C := Connector))) (outs : list (option error)) (c2 : Connector)
    (w2 : World) :
  run_call x c w = (r, c1, w1) → w_http w1 = pre ++ [rq] →
  (length (w_http w) ≤ length pre)%nat →
  env_http (length pre) rq = Ok rs → rs_body rs = Ok body → rate_limited (rs_status rs) = true →
  env_now (w_now w1 - 1) + 30 * Second ≠ 0 →
  run_calls xs c1 w1 = (outs, c2, w2) →
  (∀ i, (w_now w1 ≤ i < w_now w2)%nat → env_now i < env_now (w_now w1 - 1) + 30 * Second) →
  r ≠ None ∧ w_http w2 = w_http w1 ∧ Forall (λ r, r ≠ None) outs.
Proof.
  exact (@limited_then_quiet _ _ kraken_Throttled x c w r c1 w1 pre rq rs body xs outs c2 w2).
Qed.

(** the status of an order. Only "closed" and the two spellings of "canceled" are told
    apart from "new": an open order that is partly filled and an expired one are both
    reported as new. A closed order is filled, partial or canceled by its executed
    volume, and the average price is zero exactly when nothing was executed or the
    venue's price is zero. *)
Theorem kraken_status_table (id : string) (o : krakenOrder.t) :
  let s := ToLower (krakenOrder.Status o) in
  let exec := ParseOrZero (krakenOrder.VolExec o) in
  let st := OrderResponse.Status (mapOrder id o) in
  (s ≠ "closed" → s ≠ "canceled" → s ≠ "cancelled" → st = OrderStatusNew) ∧
  (s = "canceled" ∨ s = "cancelled" → st = OrderStatusCanceled) ∧
  (s = "closed" →
     (st = OrderStatusFilled ↔ dec_Cmp exec (ParseOrZero (krakenOrder.Vol o)) = Eq) ∧
     (st = OrderStatusPartial ↔ dec_Cmp exec (ParseOrZero (krakenOrder.Vol o)) ≠ Eq ∧
                                dec_Cmp exec dec_zero = Gt)) ∧
  (OrderResponse.FilledQty (mapOrder id o) = exec) ∧
  (OrderResponse.AvgPrice (mapOrder id o) =
     if IsZero exec then dec_zero else ParseOrZero (krakenOrder.Price o)).
Proof.
  cbn zeta. unfold mapOrder, map_status. simpl.
  generalize (ToLower (krakenOrder.Status o)) as s; intros s.
  unfold dec_Equal, GreaterThan.
  set (exec := ParseOrZero (krakenOrder.VolExec o)).
  split_and!; [| | |done|by destruct (IsZero exec)].
  - intros Hc1 Hc2 Hc3. by destruct (String.eqb_spec s "pending"), (String.eqb_spec s "open"),
      (String.eqb_spec s "closed"), (String.eqb_spec s "canceled"), (String.eqb_spec s "cancelled").
  - by intros [-> | ->].
  - intros ->. simpl.
    destruct (dec_Cmp exec (ParseOrZero (krakenOrder.Vol o))), (dec_Cmp exec dec_zero);
      split_and!; split; try done; by intros [].
Qed.

(** the balances reported do not depend on the order in which the venue's map is
    visited: every asset of the reply has exactly one balance, its free amount as
    reported, and a locked amount that is the total less the free one, never negative. *)
Theorem kraken_balances_spec `{!DecimalLaws} (r : gmap string balanceEntry.t) (asset : string) :
  match Balances.Assets (balances_of_entries r) !! asset with
  | None => r !! asset = None
  | Some b =>
      ∃ e, r !! asset = Some e ∧ Balance.Asset b = asset ∧
        Balance.Free b = ParseOrZero (balanceEntry.Available e) ∧
        LessThan (Balance.Locked b) dec_zero = false ∧
        (LessThan (dec_Sub (ParseOrZero (balanceEntry.Balance e))
                           (ParseOrZero (balanceEntry.Available e))) dec_zero = false →
         Balance.Locked b = dec_Sub (ParseOrZero (balanceEntry.Balance e))
                                    (ParseOrZero (balanceEntry.Available e)))
  end.
Proof.
  unfold balances_of_entries. simpl.
  assert (Hnd : NoDup (range_map r).*1)
    by (rewrite range_map_perm; apply NoDup_fst_map_to_list).
  rewrite (fold_insert_lookup balance_of_entry) by done.
  rewrite (list_to_map_proper (M := gmap string) _ _ Hnd (range_map_perm r)).
  rewrite list_to_map_to_list, lookup_empty.
  destruct (r !! asset) as [e|]; [|done]. exists e. split_and!; try done.
  - simpl. destruct (LessThan (dec_Sub _ _) dec_zero) eqn:Hl; [apply LessThan_irrefl|done].
  - simpl. by intros ->.
Qed.

(** the fills returned are trades of the reply, each at most once, as many as the
    limit allows: all of them when there is no limit or they fit. Which ones a smaller
    limit keeps is up to the order in which the map is visited. *)
Theorem kraken_fills_spec (limit : Z) (r : gmap string tradeEntry.t) :
  let out := fills_of_trades limit r in
  NoDup (map Fill.TradeID out) ∧
  (∀ f, f ∈ out → ∃ id tr, r !! id = Some tr ∧ f = fill_of_trade (id, tr)) ∧
  Z.of_nat (length out) =
    if 0 <? limit then Z.min limit (Z.of_nat (size r)) else Z.of_nat (size r).
Proof.
  cbn zeta. unfold fills_of_trades.
  destruct (truncate_limit_prefix limit (map fill_of_trade (range_map r))) as [rest Hpre].
  set (out := truncate_limit limit _) in *. split_and!.
  - assert (Hnd : NoDup (map Fill.TradeID (map fill_of_trade (range_map r)))).
    { rewrite map_map. replace (map _ (range_map r)) with (range_map r).*1
        by (apply map_ext; by intros [id tr]).
      rewrite range_map_perm. apply NoDup_fst_map_to_list. }
    rewrite Hpre, map_app in Hnd. by apply NoDup_app in Hnd as [? _].
  - intros f Hf. assert (Hin : f ∈ map fill_of_trade (range_map r))
      by (rewrite Hpre; apply elem_of_app; by left).
    apply list_elem_of_fmap in Hin as ([id tr] & -> & Hin). exists id, tr. split; [|done].
    rewrite range_map_perm in Hin. by apply elem_of_map_to_list.
  - assert (Hlen : length (map fill_of_trade (range_map r)) = size r).
    { rewrite length_map, range_map_perm. apply length_map_to_list. }
    destruct (Z.ltb_spec 0 limit).
    + unfold out. by rewrite truncate_limit_length, Hlen by done.
    + unfold out. by rewrite truncate_limit_none, Hlen by done.
Qed.
End properties.

(** ** Witnesses *)

Section witnesses.
#[local] Existing Instance exact_ops.
#[local] Existing Instance ascii_tables.
#[local] Existing Instance plain_lib.
#[local] Existing Instance plain_diagnostics.
#[local] Existing Instance sorted_maps.

Definition kraken_reply : string := quoted_text
  "{`error`:[],`result`:{`txid`:[`O-1`]}}".

Definition sample_venue : Env :=
  linear_env (unix_epoch + 5 * Second) Second
    (λ k _, if (k =? 0)%nat then Ok {| rs_status := 200; rs_headers := []; rs_body := Ok kraken_reply |}
            else Ok {| rs_status := 429; rs_headers := []; rs_body := Ok "" |})
    (λ _, None) (λ _, None).
#[local] Existing Instance sample_venue.

Definition sample_limit_order : OrderRequest.t :=
  OrderRequest.mk _ "c1" "XBTUSD" "buy" "limit" (mkDec 2 0) (mkDec 5 0).

Definition sample_connector : Connector :=
  mkConnector (VenueConfig.mk "kraken" "https://k" "wss://k" ∅) "key" "secret"
    (Counter.mk "kraken" 20 0 (unix_epoch + 5 * Second) (3 * Second) 0) 5000.

(** The reply is opened and decoded. *)
Example sample_kraken_order_placed :
  let '(r, _, _) := kraken_PlaceOrder sample_limit_order sample_connector World_init in
  match r with
  | Ok o => (OrderResponse.VenueOrderID o, OrderResponse.Status o) = ("O-1", "new")
  | Err _ => False
  end.
Proof. vm_compute. reflexivity. Qed.

Definition sample_calls : list (call (C := Connector)) := [KPlace sample_limit_order; KBalances].

Lemma kraken_nonces_increase_witness :
  ∃ outs c' w', run_calls sample_calls sample_connector World_init = (outs, c', w') ∧
    length (w_http w') = 2%nat ∧
    ∃ sent : list (Z * (string * Values)), w_http w' =
      ((λ nq, private_request sample_connector nq.2.1 nq.2.2 nq.1) <$> sent) ∧
      StronglySorted Z.lt (fst <$> sent).
Proof.
  destruct (run_calls sample_calls sample_connector World_init) as [[outs c'] w'] eqn:Hr.
  exists outs, c', w'. split; [done|]. split.
  - change w' with (outs, c', w').2. rewrite <- Hr. vm_compute. reflexivity.
  - destruct (kraken_nonces_increase sample_calls sample_connector World_init outs c' w' Hr)
      as (sent & Hh & Hs & _); [done|done|]. by exists sent.
Defined.

Lemma kraken_quiet_after_rate_limit_witness :
  let '(_, c0, w0) := run_kraken (KPlace sample_limit_order) sample_connector World_init in
  let '(r, c1, w1) := run_kraken KBalances c0 w0 in
  let '(outs, c2, w2) := run_calls sample_calls c1 w1 in
  r ≠ None ∧ w_http w2 = w_http w1 ∧ length (w_http w1) = 2%nat ∧ length outs = 2%nat.
Proof.
  destruct (run_kraken (KPlace sample_limit_order) sample_connector World_init)
    as [[r0 c0] w0] eqn:H0.
  destruct (run_kraken KBalances c0 w0) as [[r c1] w1] eqn:H1.
  destruct (run_calls sample_calls c1 w1) as [[outs c2] w2] eqn:H2.
  pose proof H0 as E0. vm_compute in E0. injection E0 as <- <- <-.
  pose proof H1 as E1. vm_compute in E1. injection E1 as <- <- <-.
  pose proof H2 as E2. vm_compute in E2. injection E2 as <- <- <-.
  destruct (kraken_quiet_after_rate_limit _ _ _ _ _ _ [_] _
    {| rs_status := 429; rs_headers := []; rs_body := Ok "" |} "" _ _ _ _
    H1 eq_refl (le_n _) eq_refl eq_refl eq_refl ltac:(done) H2) as (Hr & Hh & _).
  - intros i Hi. simpl in Hi. cbv [env_now sample_venue linear_env w_now Second]. simpl. lia.
  - by split_and!.
Defined.

Lemma kraken_balances_spec_witness :
  ∃ b, Balances.Assets (balances_of_entries {["ZUSD" := balanceEntry.mk "5" "3"]}) !! "ZUSD"
         = Some b ∧ LessThan (Balance.Locked b) dec_zero = false.
Proof.
  pose proof (@kraken_balances_spec _ _ exact_laws {["ZUSD" := balanceEntry.mk "5" "3"]} "ZUSD")
    as Hspec.
  destruct (Balances.Assets _ !! _) as [b|] eqn:Hb;
    [|by rewrite lookup_singleton_eq in Hspec].
  exists b. split; [done|]. by destruct Hspec as (e & _ & _ & _ & Hl & _).
Defined.
End witnesses.
