(* ===== verification/Sftp.v ===== *)
(** * Confirmation files (internal/adapters/otc/sftp.go)

    [fetchSFTP] reads a file named after an order id under a base directory.  The lexical
    path processing of [path/filepath] on Unix is modelled; the file system is a
    parameter. *)

From S2P Require Import Prelude GoStd.

(** The file system: what [os.ReadFile] returns. *)
Class FileSystem := { ReadFile : string → result string }.

(** One element of a path being cleaned: [stack] is what is kept so far, latest first. *)
Definition clean_step (rooted : bool) (stack : list string) (comp : string) : list string :=
  if String.eqb comp "" || String.eqb comp "." then stack
  else if String.eqb comp ".." then
    match stack with
    | [] => if rooted then [] else [".."]
    | top :: rest => if String.eqb top ".." then ".." :: stack else rest
    end
  else comp :: stack.

Definition clean_stack (rooted : bool) (comps : list string) : list string :=
  fold_left (clean_step rooted) comps [].

(** [filepath.Clean] *)
Definition Clean (p : string) : string :=
  if String.eqb p "" then "."
  else
    let rooted := HasPrefix p "/" in
    let out := (if rooted then "/" else "") +:+
               Join (rev (clean_stack rooted (Split p "/"%char))) "/" in
    if String.eqb out "" then "." else out.

(** [filepath.Join a b] for a non-empty [a]. *)
Definition filepath_Join (a b : string) : string :=
  if String.eqb b "" then Clean a else Clean (a +:+ "/" +:+ b).

Definition fetchSFTP `{FileSystem} (basePath orderID : string) : result string :=
  if String.eqb basePath "" then Err (ErrNew "otc: sftp path not configured")
  else
    match ReadFile (filepath_Join basePath (orderID +:+ ".json")) with
    | Err e => Err (ErrWrap "otc: sftp read: " e)
    | Ok data => Ok data
    end.

(** ** Lemmas *)

(** A path element that cleaning keeps. *)
Definition plain_comp (c : string) : Prop :=
  c ≠ "" ∧ c ≠ "." ∧ c ≠ ".." ∧ contains_char "/"%char c = false.

Lemma clean_plain rooted comps stack :
  Forall plain_comp comps → fold_left (clean_step rooted) comps stack = rev comps ++ stack.
Proof.
  intros Hc. revert stack. induction Hc as [|c comps (H1 & H2 & H3 & _) _ IH]; intros stack; [done|].
  simpl. rewrite IH. unfold clean_step.
  rewrite !(proj2 (String.eqb_neq _ _)) by done. simpl. by rewrite <- app_assoc.
Qed.

(** The name of a confirmation file is never special. *)
Lemma json_plain name :
  contains_char "/"%char name = false → plain_comp (name +:+ ".json").
Proof.
  intros Hs.
  assert (Hne : ∀ t, (String.length t < 5)%nat → name +:+ ".json" ≠ t).
  { intros t Ht Heq. apply (f_equal String.length) in Heq.
    rewrite string_length_app in Heq. simpl in Heq. lia. }
  split_and!; [apply Hne; simpl; lia..|]. rewrite contains_char_app, Hs. done.
Qed.

(** An absolute directory given by its elements. *)
Definition abs_dir (comps : list string) : string := "/" +:+ Join comps "/".

Lemma Split_abs comps name :
  comps ≠ [] → Forall plain_comp comps →
  Split (abs_dir comps +:+ "/" +:+ name) "/"%char = "" :: comps ++ Split name "/"%char.
Proof.
  intros Hne Hc. change ("/" +:+ name) with (String "/"%char name). rewrite Split_concat.
  unfold abs_dir. change ("/" +:+ Join comps "/") with (String "/"%char (Join comps "/")).
  simpl. f_equal. f_equal. change "/" with (String "/"%char "").
  apply Split_Join; [done|]. eapply Forall_impl; [exact Hc|]. by intros c (_ & _ & _ & Hn).
Qed.

(** Cleaning an absolute path, from what is left of its elements. *)
Lemma Clean_abs comps name rest :
  comps ≠ [] → Forall plain_comp comps →
  fold_left (clean_step true) (Split name "/"%char) (rev comps) = rev rest →
  Clean (abs_dir comps +:+ "/" +:+ name) = abs_dir rest.
Proof.
  intros Hne Hc Hrest. unfold Clean, clean_stack.
  rewrite Split_abs by done.
  assert (Hroot : HasPrefix (abs_dir comps +:+ "/" +:+ name) "/" = true)
    by (unfold abs_dir; rewrite string_app_assoc; apply HasPrefix_app).
  rewrite Hroot. simpl String.eqb. cbv iota. cbn [fold_left]. change (clean_step true [] "") with (@nil string).
  rewrite fold_left_app, (clean_plain true comps []), app_nil_r by done.
  by rewrite Hrest, rev_involutive.
Qed.

(** ** Properties *)

Section properties.
Context `{FileSystem}.

(** What [fetchSFTP] makes of the file at [path]. *)
Definition confirmation_at (path : string) : result string :=
  match ReadFile path with Err e => Err (ErrWrap "otc: sftp read: " e) | Ok data => Ok data end.

Lemma fetchSFTP_path comps id rest :
  comps ≠ [] → Forall plain_comp comps →
  fold_left (clean_step true) (Split (id +:+ ".json") "/"%char) (rev comps) = rev rest →
  fetchSFTP (abs_dir comps) id = confirmation_at (abs_dir rest).
Proof.
  intros Hne Hc Hrest. unfold fetchSFTP, filepath_Join.
  rewrite (proj2 (String.eqb_neq (id +:+ ".json") "")) by (by destruct id).
  by rewrite (Clean_abs comps _ rest).
Qed.

(** for an order id without a slash the file read is the one of that name, with the suffix
    [.json], in the configured directory itself. *)
Theorem sftp_stays_in_directory (comps : list string) (id : string) :
  comps ≠ [] → Forall plain_comp comps → contains_char "/"%char id = false →
  fetchSFTP (abs_dir comps) id = confirmation_at (abs_dir (comps ++ [id +:+ ".json"])).
Proof.
  intros Hne Hc Hid. apply fetchSFTP_path; [done..|].
  pose proof (json_plain id Hid) as Hj. rewrite Split_not_in by apply Hj.
  rewrite clean_plain by (by constructor). by rewrite rev_app_distr.
Qed.

(** an order id that starts with a parent reference leaves the configured directory: the
    file read is in the directory above it. *)
Theorem sftp_escapes_directory (comps : list string) (dir name : string) :
  Forall plain_comp (comps ++ [dir]) → contains_char "/"%char name = false →
  fetchSFTP (abs_dir (comps ++ [dir])) ("../" +:+ name) =
  confirmation_at (abs_dir (comps ++ [name +:+ ".json"])).
Proof.
  intros Hc Hname. apply fetchSFTP_path; [by destruct comps|done|].
  pose proof (json_plain name Hname) as Hj. rewrite string_app_assoc.
  change ("../" +:+ name +:+ ".json") with (".." +:+ String "/"%char (name +:+ ".json")).
  rewrite Split_app by done. rewrite (Split_not_in _ (name +:+ ".json")) by apply Hj.
  apply Forall_app in Hc as [_ (_ & _ & Hdots & _)%Forall_singleton].
  assert (Hup : clean_step true (dir :: rev comps) ".." = rev comps).
  { unfold clean_step. simpl. by rewrite (proj2 (String.eqb_neq dir "..")) by done. }
  rewrite !rev_app_distr. cbn [fold_left rev app]. rewrite Hup.
  exact (clean_plain true [name +:+ ".json"] (rev comps) ltac:(by constructor)).
Qed.
End properties.

(** ** Concrete runs *)

Definition sample_files : FileSystem :=
  {| ReadFile p := if String.eqb p "/sftp/in/o1.json" then Ok "confirmed"
                   else if String.eqb p "/sftp/secret.json" then Ok "secret"
                   else Err (ErrNew "no such file") |}.
#[local] Existing Instance sample_files.

Lemma sample_dir_plain : Forall plain_comp ["sftp"; "in"].
Proof. repeat constructor; done. Qed.

Lemma sftp_stays_in_directory_witness : fetchSFTP "/sftp/in" "o1" = Ok "confirmed".
Proof.
  exact (sftp_stays_in_directory ["sftp"; "in"] "o1" ltac:(done) sample_dir_plain eq_refl).
Defined.

Lemma sftp_escapes_directory_witness : fetchSFTP "/sftp/in" "../secret" = Ok "secret".
Proof. exact (sftp_escapes_directory ["sftp"] "in" "secret" sample_dir_plain eq_refl). Defined.
