(* ===== verification/Otc.v ===== *)
(** * The OTC desk adapter (internal/adapters/otc/otc.go, sftp.go)

    Requests for quotes and their acceptance, order status with settlement, and the
    orders and fills the adapter remembers.  Decimals are read and written by the decimal
    library's own JSON methods, which are a parameter. *)

From S2P Require Import Sftp.
From S2P Require Import Prelude GoStd World RateLimit Decimal Venue Json JsonText Http Throttle.

Open Scope Z_scope.

Definition ErrUnsupported : error := ErrNew "otc: SubscribeOrderBook unsupported".

(** [decimal.Decimal]'s [UnmarshalJSON] and [MarshalJSON]. *)
Class DecimalJson `{DecimalOps} := {
  dec_decimal : JVal → Dec → Dec * option error;
  marshal_decimal : Dec → string;
}.

(** Unless the program sets [MarshalJSONWithoutQuotes], and it does not, a decimal is written
    as a JSON string. *)
Class DecimalJsonLaws `{DecimalJson} : Prop :=
  marshal_decimal_quoted d : marshal_decimal d = quote_json (dec_String d).

(** ** RFC 3339 instants, as [time.Time] reads them *)

Definition is_leap (y : Z) : bool :=
  ((y mod 4 =? 0) && negb (y mod 100 =? 0)) || (y mod 400 =? 0).

Definition days_in (y m : Z) : Z :=
  if m =? 2 then if is_leap y then 29 else 28
  else if (m =? 4) || (m =? 6) || (m =? 9) || (m =? 11) then 30 else 31.

Fixpoint days_before_month (y : Z) (n : nat) : Z :=
  match n with O => 0 | S n' => days_before_month y n' + days_in y (Z.of_nat n) end.

(** Days from 0001-01-01 to the date. *)
Definition days_of (y m d : Z) : Z :=
  365 * (y - 1) + (y - 1) / 4 - (y - 1) / 100 + (y - 1) / 400
  + days_before_month y (Z.to_nat (m - 1)) + (d - 1).

(** [n] digits at the head of [s]. *)
Definition take_num (n : nat) (s : string) : option (Z * string) :=
  let d := string_take n s in
  if (String.length d =? n)%nat then z ← parse_digits d 0; Some (z, string_drop n s) else None.

Definition expect (c : Ascii.ascii) (s : string) : option string :=
  match s with String c' s' => if Ascii.eqb c c' then Some s' else None | EmptyString => None end.

(** The fraction of a second in nanoseconds; digits after the ninth are dropped. *)
Definition take_frac (s : string) : Z * string :=
  match s with
  | String "."%char s' =>
      let '(d, r) := digits s' in
      if String.eqb d "" then (0, s)
      else let d9 := string_take 9 d in
           (match parse_digits d9 0 with
            | Some z => z * 10 ^ (9 - Z.of_nat (String.length d9))
            | None => 0
            end, r)
  | _ => (0, s)
  end.

(** The offset from UTC in minutes, at the end of the text. *)
Definition take_zone (s : string) : option Z :=
  match s with
  | String "Z"%char EmptyString => Some 0
  | String sg s' =>
      if Ascii.eqb sg "+"%char || Ascii.eqb sg "-"%char then
        '(hh, s1) ← take_num 2 s'; s2 ← expect ":"%char s1; '(mm, s3) ← take_num 2 s2;
        if (hh <? 24) && (mm <? 60) && String.eqb s3 "" then
          Some (if Ascii.eqb sg "-"%char then - (60 * hh + mm) else 60 * hh + mm)
        else None
      else None
  | EmptyString => None
  end.

Definition parse_RFC3339 (s : string) : option Time :=
  '(y, s) ← take_num 4 s; s ← expect "-"%char s;
  '(mo, s) ← take_num 2 s; s ← expect "-"%char s;
  '(d, s) ← take_num 2 s; s ← expect "T"%char s;
  '(h, s) ← take_num 2 s; s ← expect ":"%char s;
  '(mi, s) ← take_num 2 s; s ← expect ":"%char s;
  '(se, s) ← take_num 2 s;
  let '(ns, s) := take_frac s in
  zone ← take_zone s;
  if (1 <=? mo) && (mo <=? 12) && (1 <=? d) && (d <=? days_in y mo) && (h <? 24) && (mi <? 60)
     && (se <? 60)
  then Some ((days_of y mo d * 86400 + h * 3600 + mi * 60 + se - zone * 60) * Second + ns)
  else None.

(** ** Messages of the desk *)

Module quoteResp.
Record t `{DecimalOps} := mk { QuoteID : string; Price : Dec; ExpiresAt : Time; Status : string }.
End quoteResp.

Module acceptResp.
Record t `{DecimalOps} := mk {
  OrderID : string; Status : string; FilledQty : Dec; Price : Dec; Fee : Dec;
  FeeAsset : string; TradeID : string }.
End acceptResp.

Module orderStatusResp.
Record t `{DecimalOps} := mk {
  OrderID : string; Status : string; FilledQty : Dec; Price : Dec; SettlementStatus : string }.
End orderStatusResp.

Module fillRow.
Record t `{DecimalOps} := mk {
  TradeID : string; Price : Dec; Qty : Dec; Fee : Dec; FeeAsset : string; Time_ : Time }.
End fillRow.

Section decoding.
Context `{DecimalOps, !DecimalJson, JsonDiagnostics}.

Definition dec_time : Decoder Time := λ v old,
  match v with
  | JNull => (old, None)
  | JStr s => match parse_RFC3339 s with
              | Some t => (t, None)
              | None => mismatch "time.Time" v old
              end
  | _ => mismatch "time.Time" v old
  end.

Definition dec_quoteResp : Decoder quoteResp.t :=
  let f := quoteResp.mk _ in dec_struct [
  field "quote_id" quoteResp.QuoteID
    (λ a '(quoteResp.mk _ i p e s), f a p e s) dec_string;
  field "price" quoteResp.Price (λ a '(quoteResp.mk _ i p e s), f i a e s) dec_decimal;
  field "expires_at" quoteResp.ExpiresAt (λ a '(quoteResp.mk _ i p e s), f i p a s) dec_time;
  field "status" quoteResp.Status (λ a '(quoteResp.mk _ i p e s), f i p e a) dec_string].

Definition dec_acceptResp : Decoder acceptResp.t :=
  let f := acceptResp.mk _ in dec_struct [
  field "order_id" acceptResp.OrderID
    (λ a '(acceptResp.mk _ o s q p e x t), f a s q p e x t) dec_string;
  field "status" acceptResp.Status
    (λ a '(acceptResp.mk _ o s q p e x t), f o a q p e x t) dec_string;
  field "filled_qty" acceptResp.FilledQty
    (λ a '(acceptResp.mk _ o s q p e x t), f o s a p e x t) dec_decimal;
  field "price" acceptResp.Price
    (λ a '(acceptResp.mk _ o s q p e x t), f o s q a e x t) dec_decimal;
  field "fee" acceptResp.Fee
    (λ a '(acceptResp.mk _ o s q p e x t), f o s q p a x t) dec_decimal;
  field "fee_asset" acceptResp.FeeAsset
    (λ a '(acceptResp.mk _ o s q p e x t), f o s q p e a t) dec_string;
  field "trade_id" acceptResp.TradeID
    (λ a '(acceptResp.mk _ o s q p e x t), f o s q p e x a) dec_string].

Definition dec_orderStatusResp : Decoder orderStatusResp.t :=
  let f := orderStatusResp.mk _ in dec_struct [
  field "order_id" orderStatusResp.OrderID
    (λ a '(orderStatusResp.mk _ o s q p e), f a s q p e) dec_string;
  field "status" orderStatusResp.Status
    (λ a '(orderStatusResp.mk _ o s q p e), f o a q p e) dec_string;
  field "filled_qty" orderStatusResp.FilledQty
    (λ a '(orderStatusResp.mk _ o s q p e), f o s a p e) dec_decimal;
  field "price" orderStatusResp.Price
    (λ a '(orderStatusResp.mk _ o s q p e), f o s q a e) dec_decimal;
  field "settlement_status" orderStatusResp.SettlementStatus
    (λ a '(orderStatusResp.mk _ o s q p e), f o s q p a) dec_string].

Definition dec_fillRow : Decoder fillRow.t :=
  let f := fillRow.mk _ in dec_struct [
  field "trade_id" fillRow.TradeID (λ a '(fillRow.mk _ i p q e x t), f a p q e x t) dec_string;
  field "price" fillRow.Price (λ a '(fillRow.mk _ i p q e x t), f i a q e x t) dec_decimal;
  field "qty" fillRow.Qty (λ a '(fillRow.mk _ i p q e x t), f i p a e x t) dec_decimal;
  field "fee" fillRow.Fee (λ a '(fillRow.mk _ i p q e x t), f i p q a x t) dec_decimal;
  field "fee_asset" fillRow.FeeAsset (λ a '(fillRow.mk _ i p q e x t), f i p q e a t) dec_string;
  field "time" fillRow.Time_ (λ a '(fillRow.mk _ i p q e x t), f i p q e x a) dec_time].

Definition zero_fillRow : fillRow.t := fillRow.mk _ "" dec_zero dec_zero dec_zero "" Time_zero.

Definition dec_fillsResp : Decoder (list fillRow.t) := dec_struct [
  field "fills" id (λ a _, a) (dec_slice zero_fillRow dec_fillRow)].

(** A row of the balances is already a [Balance]. *)
Definition dec_balanceRow : Decoder Balance.t :=
  let f := Balance.mk _ in dec_struct [
  field "asset" Balance.Asset (λ a '(Balance.mk _ s x l), f a x l) dec_string;
  field "free" Balance.Free (λ a '(Balance.mk _ s x l), f s a l) dec_decimal;
  field "locked" Balance.Locked (λ a '(Balance.mk _ s x l), f s x a) dec_decimal].

Definition dec_balancesResp : Decoder (list Balance.t) := dec_struct [
  field "balances" id (λ a _, a) (dec_slice (Balance.mk _ "" dec_zero dec_zero) dec_balanceRow)].
End decoding.

(** ** Connector *)

Record Connector `{DecimalOps} := mkConnector {
  cfg : VenueConfig.t;
  apiKey : string;
  limiter : RPS.RPSLimiter;
  orders : gmap string OrderResponse.t;
  fills : list Fill.t;
  sftpPath : string;
}.

Section connector.
Context `{Env, DecimalOps, !DecimalJson, UnicodeTables, GoLib, JsonDiagnostics}.

Definition set_limiter (l : RPS.RPSLimiter) (c : Connector) : Connector :=
  mkConnector _ (cfg c) (apiKey c) l (orders c) (fills c) (sftpPath c).

(** Remember a placed order and its fill. *)
Definition remember (id : string) (o : OrderResponse.t) (f : Fill.t) (c : Connector) : Connector :=
  mkConnector _ (cfg c) (apiKey c) (limiter c) (<[id := o]> (orders c)) (fills c ++ [f])
    (sftpPath c).

Definition NewConnector `{OsEnv} {S} (apiKey : string) (limiter : option RPS.RPSLimiter) :
    M S Connector :=
  let rest := env_or "OTC_DESK_URL" "http://localhost:9000" in
  let v := getenv "RATE_LIMIT_WEIGHT_BUDGET" in
  let rps := if negb (String.eqb v "")
             then match ParseInt v with Some n => n | None => 10 end else 10 in
  l ← match limiter with Some l => mret l | None => RPS.NewRPSLimiter "otc" rps end;
  mret (mkConnector _ (VenueConfig.mk "otc" rest "" ∅) apiKey l ∅ [] (getenv "OTC_SFTP_PATH")).

Definition Config (c : Connector) : VenueConfig.t := cfg c.

Definition lim {A} (m : M RPS.RPSLimiter A) : M Connector A := zoom limiter set_limiter m.

Definition rate_limited (status : Z) : bool := status =? 429.

Definition desk_request (c : Connector) (method path : string) (payload : option string) :
    HttpRequest :=
  {| rq_method := method;
     rq_url := VenueConfig.RESTBase (cfg c) +:+ path;
     rq_headers := (if negb (String.eqb (apiKey c) "")
                    then [("Authorization", "Bearer " +:+ apiKey c)] else [])
                   ++ [("Content-Type", "application/json")];
     rq_body := default "" payload |}.

Definition do (method path : string) (payload : option string) : M Connector (result string) :=
  e ← lim (RPS.Wait 1);
  match e with
  | Some e => mret (Err e)
  | None =>
      c ← get;
      let rq := desk_request c method path payload in
      match parse_url (rq_url rq) with
      | Some e => mret (Err e)
      | None =>
          r ← fetch rq;
          match r with
          | Err e => mret (Err e)
          | Ok (rs, body) =>
              if rate_limited (rs_status rs) then
                lim (RPS.Backoff "otc" (5 * Second)) ;;
                mret (Err (ErrNew "otc: rate limited"))
              else if 400 <=? rs_status rs then
                mret (Err (ErrNew ("otc: status " +:+ FormatInt (rs_status rs) +:+ " body "
                                   +:+ body)))
              else mret (Ok body)
          end
      end
  end.

Definition mapStatus (s : string) : OrderStatus :=
  let l := ToLower s in
  if String.eqb l "new" || String.eqb l "pending" || String.eqb l "open" then OrderStatusNew
  else if String.eqb l "partial" || String.eqb l "partially_filled" then OrderStatusPartial
  else if String.eqb l "filled" || String.eqb l "settled" || String.eqb l "completed"
  then OrderStatusFilled
  else if String.eqb l "canceled" || String.eqb l "cancelled" || String.eqb l "rejected"
  then OrderStatusCanceled
  else s.

(** The request for a quote, as [json.Marshal] writes [rfqRequest]. *)
Definition rfq_body (req : OrderRequest.t) : string :=
  "{" +:+ Join [quote_json "client_order_id" +:+ ":" +:+ quote_json (OrderRequest.ClientOrderID req);
                quote_json "symbol" +:+ ":" +:+ quote_json (OrderRequest.Symbol req);
                quote_json "side" +:+ ":" +:+ quote_json (OrderRequest.Side req);
                quote_json "quantity" +:+ ":" +:+ marshal_decimal (OrderRequest.Quantity req)] ","
      +:+ "}".

Definition zero_quote : quoteResp.t := quoteResp.mk _ "" dec_zero Time_zero "".
Definition zero_accept : acceptResp.t :=
  acceptResp.mk _ "" "" dec_zero dec_zero dec_zero "" "".

Definition quote_refused (q : quoteResp.t) : bool :=
  String.eqb (ToLower (quoteResp.Status q)) "rejected" ||
  String.eqb (ToLower (quoteResp.Status q)) "expired".

(** What follows the acceptance: the order is remembered with its fill, whatever the
    status of the acceptance. *)
Definition settle (clientID : string) (a : acceptResp.t) :
    M Connector (result OrderResponse.t) :=
  t ← now;
  let fill := Fill.mk _ (acceptResp.OrderID a) (acceptResp.TradeID a) (acceptResp.Price a)
                (acceptResp.FilledQty a) (acceptResp.Fee a) (acceptResp.FeeAsset a) t in
  let resp := OrderResponse.mk _ (acceptResp.OrderID a) clientID (mapStatus (acceptResp.Status a))
                (acceptResp.FilledQty a) (acceptResp.Price a) [fill] in
  modify (remember (acceptResp.OrderID a) resp fill) ;;
  mret (Ok resp).

Definition accept (clientID : string) (q : quoteResp.t) : M Connector (result OrderResponse.t) :=
  if quote_refused q then mret (Err (ErrNew ("otc: quote " +:+ quoteResp.Status q)))
  else
    bind_ok (do "POST" ("/v1/quotes/" +:+ quoteResp.QuoteID q +:+ "/accept")
                (Some (object_of_strings [("client_order_id", clientID)])))
      (λ body, match Unmarshal dec_acceptResp zero_accept body with
               | Err e => mret (Err e)
               | Ok a => settle clientID a
               end).

Definition otc_PlaceOrder (req : OrderRequest.t) : M Connector (result OrderResponse.t) :=
  if String.eqb (OrderRequest.ClientOrderID req) "" then
    mret (Err (ErrNew "otc: client_order_id required"))
  else
    bind_ok (do "POST" "/v1/rfq" (Some (rfq_body req)))
      (λ body, match Unmarshal dec_quoteResp zero_quote body with
               | Err e => mret (Err e)
               | Ok q => accept (OrderRequest.ClientOrderID req) q
               end).

(** Decode the body of a successful reply and map it. *)
Definition decoded {T U} (d : Decoder T) (zero : T) (f : T → U) (body : string) :
    M Connector (result U) :=
  mret (match Unmarshal d zero body with Err e => Err e | Ok x => Ok (f x) end).

Definition order_of_status (r : orderStatusResp.t) : OrderResponse.t :=
  let status := mapStatus (orderStatusResp.Status r) in
  let settled := negb (String.eqb (orderStatusResp.SettlementStatus r) "") &&
    String.eqb (ToLower (orderStatusResp.SettlementStatus r)) "settled" &&
    String.eqb status OrderStatusNew in
  OrderResponse.mk _ (orderStatusResp.OrderID r) ""
    (if settled then OrderStatusFilled else status)
    (orderStatusResp.FilledQty r) (orderStatusResp.Price r) [].

Definition otc_GetOrder (venueOrderID : string) : M Connector (result OrderResponse.t) :=
  bind_ok (do "GET" ("/v1/orders/" +:+ venueOrderID) None)
    (decoded dec_orderStatusResp (orderStatusResp.mk _ "" "" dec_zero dec_zero "") order_of_status).

Definition cancel_id (req : CancelRequest.t) : string :=
  if String.eqb (CancelRequest.VenueOrderID req) "" then CancelRequest.ClientOrderID req
  else CancelRequest.VenueOrderID req.

Definition otc_CancelOrder (req : CancelRequest.t) : M Connector (option error) :=
  let id := cancel_id req in
  if String.eqb id "" then mret (Some (ErrNew "otc: cancel requires order id"))
  else r ← do "POST" ("/v1/orders/" +:+ id +:+ "/cancel") None; mret (outcome r).

Definition fill_of_row (q : FillQuery.t) (f : fillRow.t) : Fill.t :=
  Fill.mk _ (FillQuery.VenueOrderID q) (fillRow.TradeID f) (fillRow.Price f) (fillRow.Qty f)
    (fillRow.Fee f) (fillRow.FeeAsset f) (fillRow.Time_ f).

Definition otc_GetFills (q : FillQuery.t) : M Connector (result (list Fill.t)) :=
  bind_ok (do "GET" ("/v1/orders/" +:+ FillQuery.VenueOrderID q +:+ "/fills") None)
    (decoded dec_fillsResp [] (λ rows, truncate_limit (FillQuery.Limit q) (map (fill_of_row q) rows))).

Definition balances_of_rows (rows : list Balance.t) : Balances.t :=
  Balances.mk _ (fold_left (λ m b, <[Balance.Asset b := b]> m) rows ∅).

Definition otc_GetBalances : M Connector (result Balances.t) :=
  bind_ok (do "GET" "/v1/balances" None) (decoded dec_balancesResp [] balances_of_rows).

Definition otc_SubscribeBook (pairs : list string) : M Connector (result Chan) :=
  mret (Err ErrUnsupported).

Definition FetchSFTPConfirmation `{FileSystem} (orderID : string) : M Connector (result string) :=
  c ← get;
  mret (if String.eqb (sftpPath c) "" then Err (ErrNew "otc: sftp not configured")
        else fetchSFTP (sftpPath c) orderID).

#[export] Instance otc_VenueConnector : VenueConnector Connector := {|
  PlaceOrder := otc_PlaceOrder;
  CancelOrder := otc_CancelOrder;
  GetOrder := otc_GetOrder;
  GetFills := otc_GetFills;
  GetBalances := otc_GetBalances;
  SubscribeBook := otc_SubscribeBook;
|}.

End connector.

(** ** Calls *)

Section calls.
Context `{Env, DecimalOps, !DecimalJson, UnicodeTables, GoLib, JsonDiagnostics}.

Inductive otc_call : Type :=
| OPlace (req : OrderRequest.t)
| OCancel (req : CancelRequest.t)
| OGet (id : string)
| OFills (q : FillQuery.t)
| OBalances.

Definition run_otc (x : otc_call) : M Connector (option error) :=
  match x with
  | OPlace req => outcome_of (otc_PlaceOrder req)
  | OCancel req => otc_CancelOrder req
  | OGet id => outcome_of (otc_GetOrder id)
  | OFills q => outcome_of (otc_GetFills q)
  | OBalances => outcome_of otc_GetBalances
  end.

(** ** Lemmas *)

Definition until (c : Connector) : Time := lim_until (limiter c).

Abbreviation otc_guarded := (guarded until rate_limited (5 * Second)).
Abbreviation otc_follows := (follows until rate_limited (5 * Second)).

(** One exchange: refused by the limiter, or at most one request and, on a rate-limit
    reply, the deadline moved. *)
Lemma otc_do_spec method path payload c w r c' w' e l w1 :
  do method path payload c w = (r, c', w') → RPS.Wait 1 (limiter c) w = (e, l, w1) →
  (w_now w1 ≤ w_now w')%nat ∧
  (is_Some e → is_ok r = false ∧ w' = w1 ∧ c' = set_limiter l c) ∧
  (e = None → w_http w' = w_http w1 ∨
     ∃ rq, w_http w' = w_http w1 ++ [rq] ∧
       ∀ rs body, env_http (length (w_http w1)) rq = Ok rs → rs_body rs = Ok body →
         rate_limited (rs_status rs) = true →
         is_ok r = false ∧ until c' = env_now (w_now w' - 1) + 5 * Second).
Proof.
  unfold do, lim, zoom. munfold. intros Hd Hw. rewrite Hw in Hd.
  destruct e as [e|]; [simplify_eq/=; by split_and!|].
  destruct (parse_url _) as [pe|]; [simplify_eq/=; split_and!; [done|by intros []|by left]|].
  set (rq := desk_request _ _ _ _) in *.
  destruct (fetch_run rq (set_limiter l c) w1) as (fr & w2 & Hfe & Hh2 & Hn2 & _ & _ & _ & Hfr).
  rewrite Hfe in Hd. destruct fr as [[rs body]|e].
  2: { simplify_eq/=. split_and!; [lia|by intros []|]. intros _. right. exists rq.
       split; [done|]. intros rs body He Hb. by rewrite He, Hb in Hfr. }
  destruct (rate_limited (rs_status rs)) eqn:Hrl.
  - simplify_eq/=. split_and!; [lia|by intros []|]. intros _. right. exists rq.
    split; [done|]. intros _ _ _ _ _. split; [done|]. unfold Time_Add. do 2 f_equal. lia.
  - assert (w' = w2) as -> by (destruct (400 <=? rs_status rs); by simplify_eq/=).
    split_and!; [lia|by intros []|]. intros _. right. exists rq. split; [done|].
    intros rs' body' He Hb Hrl'. rewrite He, Hb in Hfr. congruence.
Qed.

Lemma otc_do_guarded method path payload : otc_guarded (do method path payload).
Proof.
  pose proof (lim_wait_frame (L := RPS.RPSLimiter)) as Hf. simpl in Hf.
  pose proof (lim_wait_blocked (L := RPS.RPSLimiter)) as Hbl. simpl in Hbl.
  split.
  - intros c w. destruct (RPS.Wait 1 (limiter c) w) as [[e l] w1] eqn:Hw.
    destruct (Hf _ _ _ _ _ _ Hw) as (Hu & Hh & _ & _ & Hn).
    unfold backs_off. destruct (do method path payload c w) as [[r c'] w'] eqn:Hd. simpl.
    destruct (otc_do_spec _ _ _ _ _ _ _ _ _ _ _ Hd Hw) as (Hn' & Hs & Hnone).
    assert (Happ : ∃ l, w_http w' = w_http w ++ l).
    { destruct e as [e|]; [destruct Hs as (_ & -> & _); [done|]; exists []; by rewrite app_nil_r|].
      destruct (Hnone eq_refl) as [Heq|(rq & Heq & _)]; rewrite Heq, Hh;
        [exists []; by rewrite app_nil_r|by exists [rq]]. }
    split_and!; [lia|done|]. intros pre rq rs body Hpre Hlen He Hb Hl.
    assert (Hne : w_http w' ≠ w_http w).
    { intros Heq. rewrite Hpre in Heq. rewrite <- Heq, length_app in Hlen. simpl in Hlen. lia. }
    destruct e as [e|]; [destruct Hs as (_ & -> & _); done|].
    destruct (Hnone eq_refl) as [Heq|(rq' & Heq & Hlim)]; [congruence|].
    rewrite Hpre in Heq. apply app_inj_tail in Heq as [-> ->]. by apply (Hlim rs body).
  - intros c w Hz Hi. destruct (RPS.Wait 1 (limiter c) w) as [[e l] w1] eqn:Hw.
    destruct (Hf _ _ _ _ _ _ Hw) as (Hu & Hh & _ & _ & Hn).
    destruct (do method path payload c w) as [[r c'] w'] eqn:Hd. simpl in *.
    destruct (otc_do_spec _ _ _ _ _ _ _ _ _ _ _ Hd Hw) as (Hn' & Hs & _).
    assert (He : e = Some ErrBudgetExhausted).
    { eapply Hbl; [done|done|]. intros i Hi'. apply Hi. lia. }
    destruct Hs as (Hok & -> & ->); [by rewrite He|]. by split_and!.
Qed.

Lemma decoded_follows {T U} (d : Decoder T) zero (f : T → U) body :
  otc_follows (decoded d zero f body).
Proof. by apply follows_silent. Qed.

Lemma settle_follows id a : otc_follows (settle id a).
Proof. apply follows_silent. intros c w. unfold settle. munfold. split; [lia|done]. Qed.

Lemma accept_follows id q : otc_follows (accept id q).
Proof.
  unfold accept. destruct (quote_refused q); [by apply follows_silent|].
  apply follows_bind; [apply guarded_follows, otc_do_guarded|]. intros body.
  destruct (Unmarshal _ _ _); [apply settle_follows|by apply follows_silent].
Qed.

(** Every call is guarded. *)
Lemma run_otc_guarded x : ∃ A (m : M Connector (result A)),
  otc_guarded m ∧ ∀ c w, run_otc x c w = outcome_of m c w.
Proof.
  destruct x as [req|req|id|q|]; simpl.
  - eexists _, _. split; [|done]. unfold otc_PlaceOrder.
    destruct (String.eqb _ _); [apply guarded_refuse|].
    apply guarded_bind; [apply otc_do_guarded|]. intros body.
    destruct (Unmarshal _ _ _); [apply accept_follows|by apply follows_silent].
  - unfold otc_CancelOrder. destruct (String.eqb _ _).
    + exists unit, (mret (Err (ErrNew "otc: cancel requires order id"))).
      split; [apply guarded_refuse|done].
    + eexists _, _. split; [apply otc_do_guarded|done].
  - eexists _, _. split; [|done].
    apply guarded_bind; [apply otc_do_guarded|apply decoded_follows].
  - eexists _, _. split; [|done].
    apply guarded_bind; [apply otc_do_guarded|apply decoded_follows].
  - eexists _, _. split; [|done].
    apply guarded_bind; [apply otc_do_guarded|apply decoded_follows].
Qed.

#[export] Instance otc_Throttled : Throttled Connector.
Proof.
  refine {| call := otc_call; run_call := run_otc; deadline := until; limited := rate_limited;
            pause := 5 * Second |}.
  - intros x c w r c' w' Hr. destruct (run_otc_guarded x) as (A & m & Hm & Hx).
    rewrite Hx in Hr. apply (guarded_laws _ _ _ _ _ _ _ _ _ Hm Hr).
  - intros x c w r c' w' Hr. destruct (run_otc_guarded x) as (A & m & Hm & Hx).
    rewrite Hx in Hr. apply (guarded_laws _ _ _ _ _ _ _ _ _ Hm Hr).
  - intros x c w r c' w' pre rq rs body Hr. destruct (run_otc_guarded x) as (A & m & Hm & Hx).
    rewrite Hx in Hr. apply (guarded_laws _ _ _ _ _ _ _ _ _ Hm Hr).
Defined.
End calls.

(** ** Lemmas: what a placement leaves behind *)

Section placement.
Context `{Env, DecimalOps, !DecimalJson, UnicodeTables, GoLib, JsonDiagnostics}.

(** An exchange touches the limiter only, and a successful one sent its request. *)
Lemma otc_do_frame method path payload c w r c' w' :
  do method path payload c w = (r, c', w') →
  cfg c' = cfg c ∧ apiKey c' = apiKey c ∧ orders c' = orders c ∧ fills c' = fills c ∧
  (is_ok r = true → w_http w' = w_http w ++ [desk_request c method path payload]).
Proof.
  pose proof (lim_wait_frame (L := RPS.RPSLimiter)) as Hf. simpl in Hf.
  unfold do, lim, zoom. munfold.
  destruct (RPS.Wait 1 (limiter c) w) as [[e l] w1] eqn:Hw.
  destruct (Hf _ _ _ _ _ _ Hw) as (_ & Hh & _). destruct e as [e|]; [by intros; simplify_eq/=|].
  destruct (parse_url _) as [pe|]; [by intros; simplify_eq/=|].
  change (desk_request (set_limiter l c) method path payload)
    with (desk_request c method path payload).
  destruct (fetch_run (desk_request c method path payload) (set_limiter l c) w1)
    as (fr & w2 & Hfe & Hh2 & _). rewrite Hfe. rewrite Hh in Hh2.
  destruct fr as [[rs body]|e]; [|by intros; simplify_eq/=].
  destruct (rate_limited _); [by intros; simplify_eq/=|].
  destruct (400 <=? _); by intros; simplify_eq/=.
Qed.

Lemma bind_ok_run {C A B} (m : M C (result A)) (k : A → M C (result B)) c w :
  bind_ok m k c w =
  let '(r, c1, w1) := m c w in
  match r with Err e => (Err e, c1, w1) | Ok a => k a c1 w1 end.
Proof. unfold bind_ok. munfold. by destruct (m c w) as [[[a|e] c1] w1]. Qed.
End placement.

(** ** Properties *)

Section properties.
Context `{Env, DecimalOps, !DecimalJson, UnicodeTables, GoLib, JsonDiagnostics}.



(** the status of the acceptance is not looked at: an acceptance the desk answers
    with "rejected" is reported as a canceled order that nevertheless carries a fill, and
    that fill is remembered with the others. *)
Theorem otc_rejected_acceptance_is_filled (clientID : string) (a : acceptResp.t)
    (c : Connector) (w : World) :
  ToLower (acceptResp.Status a) = "rejected" →
  let '(r, c', _) := settle clientID a c w in
  ∃ o f, r = Ok o ∧ OrderResponse.Status o = OrderStatusCanceled ∧
    OrderResponse.Fills o = [f] ∧ fills c' = fills c ++ [f] ∧
    Fill.Quantity f = acceptResp.FilledQty a.
Proof.
  intros Hs. unfold settle. munfold. eexists _, _. split; [done|].
  split_and!; try done. simpl. unfold mapStatus. by rewrite Hs.
Qed.

(** after a reply with status 429 the adapter sends nothing and every call fails while
    the clock is less than five seconds past the moment it backed off, even when the
    reply came to the second request of a placement. *)
Theorem otc_quiet_after_rate_limit (x : call (C := Connector)) (c : Connector) (w : World)
    (r : option error) (c1 : Connector) (w1 : World) (pre : list HttpRequest)
    (rq : HttpRequest) (rs : HttpResponse) (body : string)
    (xs : list (call (C := Connector))) (outs : list (option error)) (c2 : Connector)
    (w2 : World) :
  run_call x c w = (r, c1, w1) → w_http w1 = pre ++ [rq] →
  (length (w_http w) ≤ length pre)%nat →
  env_http (length pre) rq = Ok rs → rs_body rs = Ok body → rate_limited (rs_status rs) = true →
  env_now (w_now w1 - 1) + 5 * Second ≠ 0 →
  run_calls xs c1 w1 = (outs, c2, w2) →
  (∀ i, (w_now w1 ≤ i < w_now w2)%nat → env_now i < env_now (w_now w1 - 1) + 5 * Second) →
  r ≠ None ∧ w_http w2 = w_http w1 ∧ Forall (λ r, r ≠ None) outs.
Proof.
  exact (@limited_then_quiet _ _ otc_Throttled x c w r c1 w1 pre rq rs body xs outs c2 w2).
Qed.
End properties.

(** ** Witnesses *)

Section witnesses.
#[local] Existing Instance exact_ops.
#[local] Existing Instance ascii_tables.
#[local] Existing Instance plain_lib.
#[local] Existing Instance plain_diagnostics.

Definition exact_json : DecimalJson := {|
  dec_decimal v old := match v with
                       | JStr s | JNum s => match exact_parse s with
                                            | Some d => (d, None)
                                            | None => (old, Some (ErrNew "bad decimal"))
                                            end
                       | JNull => (old, None)
                       | _ => (old, Some (ErrNew "bad decimal"))
                       end;
  marshal_decimal d := quote_json (dec_String d);
|}.
#[local] Existing Instance exact_json.

#[local] Instance exact_json_laws : DecimalJsonLaws.
Proof. done. Qed.


Example rfc3339_epoch : parse_RFC3339 "1970-01-01T00:00:00Z" = Some unix_epoch.
Proof. vm_compute. reflexivity. Qed.

Example rfc3339_zone :
  parse_RFC3339 "2024-02-29T23:30:00.25+01:30" =
  Some (unix_epoch + 1709244000 * Second + 250 * Millisecond).
Proof. vm_compute. reflexivity. Qed.

(** A desk that quotes, rejects the acceptance, then limits the rate. *)
Definition sample_desk : Env :=
  linear_env (unix_epoch + 5 * Second) (100 * Millisecond)
    (λ k _, if (k =? 0)%nat then
              Ok {| rs_status := 200; rs_headers := [];
                    rs_body := Ok (quoted_text
                      "{`quote_id`:`q1`,`price`:`5`,`expires_at`:`2024-01-01T00:00:00Z`,`status`:`quoted`}") |}
            else if (k =? 1)%nat then
              Ok {| rs_status := 200; rs_headers := [];
                    rs_body := Ok (quoted_text
                      "{`order_id`:`o1`,`status`:`Rejected`,`filled_qty`:`0`,`price`:`5`,`fee`:`0`,`trade_id`:`t1`}") |}
            else Ok {| rs_status := 429; rs_headers := []; rs_body := Ok "" |})
    (λ _, None) (λ _, None).
#[local] Existing Instance sample_desk.

Definition sample_otc_order : OrderRequest.t :=
  OrderRequest.mk _ "c1" "BTCUSD" "buy" "market" (mkDec 2 0) (mkDec 0 0).

Definition sample_connector : Connector :=
  mkConnector _ (VenueConfig.mk "otc" "http://d" "" ∅) "key"
    (RPS.mk "otc" 10 0 Second (unix_epoch + 5 * Second) 0) ∅ [] "".

(** The desk's rejection comes back as a canceled order with a fill. *)
Example sample_rejected_order :
  let '(r, c', _) := otc_PlaceOrder sample_otc_order sample_connector World_init in
  match r with
  | Ok o => (OrderResponse.VenueOrderID o, OrderResponse.Status o, length (OrderResponse.Fills o),
             length (fills c')) = ("o1", "canceled", 1%nat, 1%nat)
  | Err _ => False
  end.
Proof. vm_compute. reflexivity. Qed.

Lemma otc_rejected_acceptance_is_filled_witness :
  let '(_, c', _) := settle "c1" (acceptResp.mk _ "o1" "Rejected" (mkDec 0 0) (mkDec 5 0)
                                    (mkDec 0 0) "" "t1") sample_connector World_init in
  length (fills c') = 1%nat.
Proof.
  pose proof (otc_rejected_acceptance_is_filled "c1"
    (acceptResp.mk _ "o1" "Rejected" (mkDec 0 0) (mkDec 5 0) (mkDec 0 0) "" "t1")
    sample_connector World_init eq_refl) as Hs.
  destruct (settle _ _ _ _) as [[r c'] w']. destruct Hs as (o & f & _ & _ & _ & -> & _). done.
Defined.

Definition sample_calls : list (call (C := Connector)) := [OPlace sample_otc_order; OBalances].

Lemma length_three {A} (l : list A) : length l = 3%nat → ∃ a b c, l = [a; b; c].
Proof. destruct l as [|a [|b [|c []]]]; try done. intros _. by exists a, b, c. Qed.

Definition after_order : option error * Connector * World :=
  run_otc (OPlace sample_otc_order) sample_connector World_init.
Definition after_limit : option error * Connector * World :=
  run_otc OBalances after_order.1.2 after_order.2.
Definition after_quiet : list (option error) * Connector * World :=
  run_calls sample_calls after_limit.1.2 after_limit.2.

Lemma otc_quiet_after_rate_limit_witness :
  after_limit.1.1 ≠ None ∧ w_http after_quiet.2 = w_http after_limit.2 ∧
  length (w_http after_limit.2) = 3%nat ∧ length after_quiet.1.1 = 2%nat.
Proof.
  assert (Hlen : length (w_http after_limit.2) = 3%nat) by (vm_compute; reflexivity).
  assert (Hlen0 : length (w_http after_order.2) = 2%nat) by (vm_compute; reflexivity).
  assert (Hnow1 : w_now after_limit.2 = 5%nat) by (vm_compute; reflexivity).
  assert (Hnow2 : w_now after_quiet.2 = 7%nat) by (vm_compute; reflexivity).
  assert (Houts : length after_quiet.1.1 = 2%nat) by (vm_compute; reflexivity).
  destruct (length_three _ Hlen) as (r1 & r2 & r3 & Hh).
  destruct (otc_quiet_after_rate_limit OBalances after_order.1.2 after_order.2
    after_limit.1.1 after_limit.1.2 after_limit.2 [r1; r2] r3
    {| rs_status := 429; rs_headers := []; rs_body := Ok "" |} ""
    sample_calls after_quiet.1.1 after_quiet.1.2 after_quiet.2) as (Hr & Hq & _).
  - change (run_otc OBalances after_order.1.2 after_order.2 =
            (after_limit.1.1, after_limit.1.2, after_limit.2)).
    unfold after_limit. by destruct (run_otc _ _ _) as [[] ?].
  - exact Hh.
  - rewrite Hlen0. exact (le_n 2).
  - reflexivity.
  - reflexivity.
  - reflexivity.
  - rewrite Hnow1. cbv [env_now sample_desk linear_env unix_epoch Second Millisecond]. simpl. lia.
  - unfold after_quiet. by destruct (run_calls _ _ _) as [[] ?].
  - intros i Hi. rewrite Hnow1, Hnow2 in Hi. rewrite Hnow1.
    cbv [env_now sample_desk linear_env unix_epoch Second Millisecond]. simpl. lia.
  - exact (conj Hr (conj Hq (conj Hlen Houts))).
Defined.
End witnesses.
