(* ===== verification/Concurrent.v ===== *)
(** * The adapters under concurrent calls (internal/adapters)

    An HTTP server runs each handler in its own goroutine, so the calls of one connector
    overlap.  Here the calls are cut at the places where another goroutine can come in: the
    atomic increment of the nonce, the limiter's critical section, the exchange with the
    venue, the back-off, the critical section of the adapter's own maps.  Run alone, each is
    the call as modelled before; run together, under any schedule, they keep the limits. *)

From S2P Require Import Prelude GoStd World Threads Decimal Venue Dummy.

Open Scope Z_scope.

(** ** The interface: a connector whose calls are made of atomic steps *)

Class ConcurrentConnector `{Env, DecimalOps} (C : Type) `{!VenueConnector C} := {
  PlaceOrderT : OrderRequest.t → Prog C (result OrderResponse.t);
  CancelOrderT : CancelRequest.t → Prog C (option error);
  GetOrderT : string → Prog C (result OrderResponse.t);
  GetFillsT : FillQuery.t → Prog C (result (list Fill.t));
  GetBalancesT : Prog C (result Balances.t);
  PlaceOrder_alone r : runs_as (PlaceOrderT r) (PlaceOrder r);
  CancelOrder_alone r : runs_as (CancelOrderT r) (CancelOrder r);
  GetOrder_alone i : runs_as (GetOrderT i) (GetOrder i);
  GetFills_alone q : runs_as (GetFillsT q) (GetFills q);
  GetBalances_alone : runs_as GetBalancesT GetBalances;
}.

#[export] Hint Resolve PlaceOrder_alone CancelOrder_alone GetOrder_alone GetFills_alone
  GetBalances_alone : runs.

(** ** The dummy venue

    An order is made up outside the critical section that stores it, and the response is
    read through the shared pointer once the lock is released. *)

Module DummyT.
Section steps.
Context `{Env, DecimalOps}.

Definition PlaceOrder_loc (req : OrderRequest.t) : Prog DummyVenueConnector nat :=
  id ← (if String.eqb (OrderRequest.ClientOrderID req) "" then atom new_uuid
        else mret (OrderRequest.ClientOrderID req));
  px ← (if IsZero (OrderRequest.Price req) then d ← atom get; mret (price d)
        else mret (OrderRequest.Price req));
  let qty := OrderRequest.Quantity req in
  trade ← atom new_uuid;
  let fee := dec_Mul (dec_Mul px qty) (NewFromFloat (f64_lit 1 1000)) in
  ts ← atom now;
  let fill := Fill.mk _ id trade px qty fee "USDT" ts in
  let resp := OrderResponse.mk _ id id OrderStatusFilled qty px [fill] in
  atom (d ← get;
        modify (λ d, mkDummy (price d) (fills d ++ [fill])
                             (<[id := next_loc d]> (orders d))
                             (<[next_loc d := resp]> (heap d)) (S (next_loc d))) ;;
        mret (next_loc d)).

Definition PlaceOrder (req : OrderRequest.t) :
    Prog DummyVenueConnector (result OrderResponse.t) :=
  l ← PlaceOrder_loc req;
  d ← atom get;
  mret (match deref l d with Some o => Ok o | None => Err (ErrNew "nil pointer") end).

Lemma dummy_PlaceOrder_runs req : runs_as (PlaceOrder req) (dummy_PlaceOrder req).
Proof.
  apply runs_as_bind; [|runs]. intros d w. unfold PlaceOrder_loc, Dummy.PlaceOrder_loc.
  by destruct (String.eqb _ _), (IsZero _).
Qed.
End steps.
End DummyT.

#[export] Instance dummy_Concurrent `{Env, DecimalOps} : ConcurrentConnector DummyVenueConnector.
Proof.
  refine {| PlaceOrderT := DummyT.PlaceOrder; CancelOrderT r := atom (CancelOrder r);
            GetOrderT i := atom (GetOrder i); GetFillsT q := atom (GetFills q);
            GetBalancesT := atom GetBalances |}; auto using DummyT.dummy_PlaceOrder_runs with runs.
Defined.
