(* ===== verification/BinanceThreads.v ===== *)
(** * The Binance adapter under concurrent calls (internal/adapters/binance/binance.go)

    A call is cut at the nonce's critical section, the limiter's, the exchange, the reading
    of the usage header and the back-off.  Under any schedule every request keeps a time stamp
    of its own; but the usage header of one reply erases what was counted for the requests
    still in flight. *)

From S2P Require Import Prelude GoStd World Threads RateLimit Decimal Venue Dummy Json Http Throttle.
From S2P Require Import Numbered Binance Concurrent.

Open Scope Z_scope.

Module BinanceT.
Section steps.
Context `{Env, DecimalOps, UnicodeTables, GoLib, JsonDiagnostics}.

Definition track_weight (headers : list (string * string)) : Prog Connector unit :=
  let h := header_get "X-MBX-USED-WEIGHT-1M" headers in
  if String.eqb h "" then mret tt
  else match ParseInt h with
       | Some used => atom (lim (Weighted.UpdateUsed "binance" used))
       | None => mret tt
       end.

Definition reply (r : result (HttpResponse * string)) :
    Prog Connector (result (string * list (string * string))) :=
  match r with
  | Err e => mret (Err e)
  | Ok (rs, body) =>
      track_weight (rs_headers rs) ;;
      if rate_limited (rs_status rs) then
        atom (lim (Weighted.Backoff "binance" (30 * Second))) ;;
        mret (Err (ErrNew ("binance: rate limited (status " +:+ FormatInt (rs_status rs) +:+ ")")))
      else if 400 <=? rs_status rs then
        let '(re, _) := Unmarshal_into dec_restError (restError.mk 0 "") body in
        mret (Err (ErrNew ("binance: status " +:+ FormatInt (rs_status rs) +:+ " code "
                           +:+ FormatInt (restError.Code re) +:+ " msg "
                           +:+ restError.Msg re)))
      else mret (Ok (body, rs_headers rs))
  end.

Definition do (rq : HttpRequest) (weight : Z) :
    Prog Connector (result (string * list (string * string))) :=
  e ← atom (lim (Weighted.Wait weight));
  match e with
  | Some e => mret (Err e)
  | None => r ← atom (fetch rq); reply r
  end.

(** The nonce under its mutex, and the request signed with it. *)
Definition take_request (q : Request) : M Connector HttpRequest :=
  c ← get;
  let ts := i64_add (nonce c) 1 in
  modify (set_nonce ts) ;;
  mret (signed_request c (r_method q) (r_path q) (r_params q) ts).

Definition doSigned (method path : string) (params : Values) (weight : Z) :
    Prog Connector (result (string * list (string * string))) :=
  rq ← atom (take_request (mkRequest method path params weight));
  match parse_url (rq_url rq) with
  | Some e => mret (Err e)
  | None => do rq weight
  end.

Fixpoint map_fills (orderID : Z) (fs : list binanceFill.t) : Prog Connector (list Fill.t) :=
  match fs with
  | [] => mret []
  | f :: fs =>
      t ← atom now;
      rest ← map_fills orderID fs;
      mret (Fill.mk _ (FormatInt orderID) (FormatInt (binanceFill.TradeID f))
              (ParseOrZero (binanceFill.Price f)) (ParseOrZero (binanceFill.Qty f))
              (ParseOrZero (binanceFill.Commission f)) (binanceFill.CommissionAsset f) t
            :: rest)
  end.

Definition mapOrder (r : placeOrderResp.t) : Prog Connector OrderResponse.t :=
  let exec := ParseOrZero (placeOrderResp.ExecutedQty r) in
  let avg := if negb (String.eqb (placeOrderResp.CummulativeQuoteQty r) "") && negb (IsZero exec)
             then dec_Div (ParseOrZero (placeOrderResp.CummulativeQuoteQty r)) exec
             else dec_zero in
  fills ← map_fills (placeOrderResp.OrderID r) (placeOrderResp.Fills r);
  let avg := match fills with
             | f :: _ => if IsZero avg then Fill.Price f else avg
             | [] => avg
             end in
  mret (OrderResponse.mk _ (FormatInt (placeOrderResp.OrderID r))
          (placeOrderResp.ClientOrderID r) (mapStatus (placeOrderResp.Status r)) exec avg fills).

Definition PlaceOrder (req : OrderRequest.t) : Prog Connector (result OrderResponse.t) :=
  if String.eqb (OrderRequest.ClientOrderID req) "" then
    mret (Err (ErrNew "binance: client_order_id required"))
  else
    r ← doSigned "POST" "/api/v3/order" (order_params req) 1;
    match r with
    | Err e => mret (Err e)
    | Ok (body, _) =>
        match Unmarshal dec_placeOrderResp (placeOrderResp.mk 0 "" "" "" "" [] "") body with
        | Err e => mret (Err e)
        | Ok r => o ← mapOrder r; mret (Ok o)
        end
    end.

Definition GetOrder (venueOrderID : string) : Prog Connector (result OrderResponse.t) :=
  r ← doSigned "GET" "/api/v3/order" (Set_ "orderId" venueOrderID ∅) 1;
  mret (decoded dec_orderResp (orderResp.mk 0 "" "" "" "" "") mapOrderSimple r).

Definition CancelOrder (req : CancelRequest.t) : Prog Connector (option error) :=
  match cancel_params req with
  | None => mret (Some (ErrNew "binance: cancel requires venue or client order id"))
  | Some params =>
      r ← doSigned "DELETE" "/api/v3/order" params 1;
      mret (match r with Ok _ => None | Err e => Some e end)
  end.

Definition GetFills (q : FillQuery.t) : Prog Connector (result (list Fill.t)) :=
  r ← doSigned "GET" "/api/v3/myTrades" (fills_params q) 10;
  mret (decoded dec_fillsResp [] (map (fill_of_row q)) r).

Definition GetBalances : Prog Connector (result Balances.t) :=
  r ← doSigned "GET" "/api/v3/account" ∅ 5;
  mret (decoded dec_accountResp [] balances_of_rows r).

(** A call, as [run_binance]. *)
Definition steps (x : binance_call) : Prog Connector (option error) :=
  match x with
  | CPlace req => r ← PlaceOrder req; mret (outcome r)
  | CCancel req => CancelOrder req
  | CGet id => r ← GetOrder id; mret (outcome r)
  | CFills q => r ← GetFills q; mret (outcome r)
  | CBalances => r ← GetBalances; mret (outcome r)
  end.

(** *** Alone, each is the call *)

Lemma track_weight_runs headers : runs_as (track_weight headers) (Binance.track_weight headers).
Proof. unfold track_weight, Binance.track_weight. runs. Qed.
#[local] Hint Resolve track_weight_runs : runs.

Lemma binance_do_runs rq weight : runs_as (do rq weight) (Binance.do rq weight).
Proof. unfold do, reply, Binance.do. runs. Qed.

Lemma doSigned_runs method path params weight :
  runs_as (doSigned method path params weight) (Binance.doSigned method path params weight).
Proof.
  apply (runs_as_same _ (rq ← take_request (mkRequest method path params weight);
    match parse_url (rq_url rq) with
    | Some e => mret (Err e)
    | None => Binance.do rq weight
    end)); [|done].
  pose proof binance_do_runs. unfold doSigned. runs.
Qed.
#[local] Hint Resolve doSigned_runs : runs.

Lemma map_fills_runs orderID fs : runs_as (map_fills orderID fs) (Binance.map_fills orderID fs).
Proof. induction fs as [|f fs IH]; cbn [map_fills Binance.map_fills]; runs. Qed.
#[local] Hint Resolve map_fills_runs : runs.

Lemma mapOrder_runs r : runs_as (mapOrder r) (Binance.mapOrder r).
Proof. unfold mapOrder, Binance.mapOrder. runs. Qed.
#[local] Hint Resolve mapOrder_runs : runs.

Lemma binance_PlaceOrder_runs req : runs_as (PlaceOrder req) (binance_PlaceOrder req).
Proof. unfold PlaceOrder, binance_PlaceOrder. runs. Qed.
Lemma binance_CancelOrder_runs req : runs_as (CancelOrder req) (binance_CancelOrder req).
Proof. unfold CancelOrder, binance_CancelOrder. runs. Qed.
Lemma binance_GetOrder_runs i : runs_as (GetOrder i) (binance_GetOrder i).
Proof. unfold GetOrder, binance_GetOrder. runs. Qed.
Lemma binance_GetFills_runs q : runs_as (GetFills q) (binance_GetFills q).
Proof. unfold GetFills, binance_GetFills. runs. Qed.
Lemma binance_GetBalances_runs : runs_as GetBalances binance_GetBalances.
Proof. unfold GetBalances, binance_GetBalances. runs. Qed.
End steps.
End BinanceT.

#[export] Instance binance_Concurrent
    `{Env, DecimalOps, UnicodeTables, GoLib, JsonDiagnostics} :
  ConcurrentConnector Connector := {|
  PlaceOrderT := BinanceT.PlaceOrder; CancelOrderT := BinanceT.CancelOrder;
  GetOrderT := BinanceT.GetOrder; GetFillsT := BinanceT.GetFills;
  GetBalancesT := BinanceT.GetBalances;
  PlaceOrder_alone := BinanceT.binance_PlaceOrder_runs; CancelOrder_alone := BinanceT.binance_CancelOrder_runs;
  GetOrder_alone := BinanceT.binance_GetOrder_runs; GetFills_alone := BinanceT.binance_GetFills_runs;
  GetBalances_alone := BinanceT.binance_GetBalances_runs;
|}.

(** ** Calls under any schedule

    The count of the limiter is set by the venue's replies, so nothing is metered here. *)

Section binance_pool.
Context `{Env, DecimalOps, UnicodeTables, GoLib, JsonDiagnostics}.

#[export] Instance binance_Numbered : Numbered Connector Request := {|
  number := nonce;
  numbers := 2 ^ 63;
  build c n q := signed_request c (r_method q) (r_path q) (r_params q) n;
  charge _ := 0;
  chargeable _ := True;
  spent _ _ := 0;
  granted _ _ := 0;
  settled _ _ := True;
  take := BinanceT.take_request;
  pay q := lim (Weighted.Wait (r_weight q));
|}.

#[export] Instance binance_NumberedLaws : NumberedLaws Connector Request.
Proof.
  split; [done| | |done|done].
  - intros q c w base Hpos Hroom _. simpl in *. exists (set_nonce (nonce c + 1) c).
    split; [|done]. unfold BinanceT.take_request. munfold. unfold i64_add.
    rewrite wrap64_id; [done|]. unfold is_int64, int64_min, int64_max. lia.
  - intros q c w e c' w' base _ _ Hp. simpl in Hp. unfold lim, zoom in Hp.
    destruct (Weighted.Wait _ _ w) as [[e1 l] w1] eqn:Hw. simplify_eq.
    change (lim_Wait (r_weight q) (limiter c) w = (e, l, w')) in Hw.
    destruct (lim_wait_frame (L := Weighted.WeightedLimiter) _ _ _ _ _ _ Hw) as (_ & Hh & _).
    split_and!; try done. by destruct e.
Qed.

Lemma lim_quiet {A} (m : M Weighted.WeightedLimiter A) :
  (∀ l w, w_http (m l w).2 = w_http w) → quiet (R := Request) (lim m).
Proof.
  intros Hm c w base _. unfold lim, zoom. specialize (Hm (limiter c) w).
  by destruct (m (limiter c) w) as [[a l] w'].
Qed.

Lemma binance_reply_quiet r : steps_quiet (R := Request) (BinanceT.reply r).
Proof.
  destruct r as [[rs body]|e]; [|done]. unfold BinanceT.reply, BinanceT.track_weight.
  assert (Htail : ∀ u : unit, steps_quiet (R := Request)
    (if rate_limited (rs_status rs) then
        atom (lim (Weighted.Backoff "binance" (30 * Second))) ;;
        mret (Err (ErrNew ("binance: rate limited (status " +:+ FormatInt (rs_status rs) +:+ ")")))
      else if 400 <=? rs_status rs then
        let '(re, _) := Unmarshal_into dec_restError (restError.mk 0 "") body in
        mret (Err (ErrNew ("binance: status " +:+ FormatInt (rs_status rs) +:+ " code "
                           +:+ FormatInt (restError.Code re) +:+ " msg "
                           +:+ restError.Msg re)))
      else mret (Ok (body, rs_headers rs)) : Prog Connector _)).
  { intros _. destruct (rate_limited _); [|destruct (400 <=? _); [|done]].
    - split; [by apply lim_quiet|done].
    - by destruct (Unmarshal_into _ _ _). }
  destruct (String.eqb _ _); [by apply (Htail tt)|].
  destruct (ParseInt _); [|by apply (Htail tt)].
  split; [by apply lim_quiet|exact Htail].
Qed.

Lemma mapOrder_quiet r : steps_quiet (R := Request) (BinanceT.mapOrder r).
Proof.
  unfold BinanceT.mapOrder. apply steps_quiet_bind; [|done].
  induction (placeOrderResp.Fills r) as [|f fs IH]; [done|]. split; [done|]. intros t.
  by apply steps_quiet_bind.
Qed.

Lemma doSigned_numbered method path params weight :
  BinanceT.doSigned method path params weight =
  numbered_call (mkRequest method path params weight) Err BinanceT.reply.
Proof. done. Qed.

Lemma binance_steps_fine base c0 h0 xs x :
  0 ≤ nonce c0 → nonce c0 + Z.of_nat (length xs) < 2 ^ 63 →
  thread_ok (ledger request_of base c0 h0 xs) (λ _ _, True) (x, Fresh) (BinanceT.steps x).
Proof.
  intros Hpos Hroom.
  assert (Hcall : ∀ q, request_of x = Some q →
    thread_ok (ledger request_of base c0 h0 xs) (λ _ _, True) (x, Fresh)
      (BinanceT.doSigned (r_method q) (r_path q) (r_params q) (r_weight q))).
  { intros [m p v wt] Hx. cbn [r_method r_path r_params r_weight]. rewrite doSigned_numbered.
    apply numbered_call_fine; [done..|]. apply binance_reply_quiet. }
  destruct x as [req|req|id|q|]; unfold BinanceT.steps, BinanceT.PlaceOrder, BinanceT.CancelOrder,
    BinanceT.GetOrder, BinanceT.GetFills, BinanceT.GetBalances; cbn [request_of] in Hcall.
  1: destruct (String.eqb _ _); [done|].
  2: destruct (cancel_params req) as [p|]; [|done].
  all: repeat (apply (Hcall _ eq_refl) || apply thread_ok_then || done).
  intros g [[body h]|e]; [|done].
  simpl. destruct (Unmarshal _ _ _) as [r|e]; [|done]. simpl.
  apply (steps_quiet_fine _ _ _ _ _ (o ← BinanceT.mapOrder r; mret (Ok o))).
  apply steps_quiet_bind; [apply mapOrder_quiet|done].
Qed.
End binance_pool.

(** ** Properties *)

Section properties.
Context `{Env, DecimalOps, UnicodeTables, GoLib, JsonDiagnostics}.

(** C7: any number of concurrent calls, under any schedule: every request sent is the signed
    request of one of the calls, no call is sent twice, and no time stamp is used twice. *)
Theorem binance_concurrent_calls (xs : list binance_call) (schedule : list nat) (c : Connector)
    (w : World) :
  0 ≤ nonce c → nonce c + Z.of_nat (length xs) < 2 ^ 63 →
  let after := pool_run schedule (mkPool (BinanceT.steps <$> xs) c w) in
  ∃ sent : list (Z * Request),
    w_http (outside after) = w_http w ++
      ((λ tq, signed_request c (r_method tq.2) (r_path tq.2) (r_params tq.2) tq.1) <$> sent) ∧
    NoDup sent.*1 ∧ Forall (λ ts, nonce c < ts ≤ nonce c + Z.of_nat (length xs)) sent.*1 ∧
    sent.*2 ⊆+ omap request_of xs.
Proof.
  intros Hpos Hroom after.
  destruct (numbered_calls request_of BinanceT.steps xs 0 c w schedule)
    as (sent & Hs & Hnd & Hr & Hsub & _); try done.
  - intros x. by apply binance_steps_fine.
  - exists sent. by split_and!.
Qed.
End properties.

(** ** Witnesses *)

Section witnesses.
#[local] Existing Instance exact_ops.
#[local] Existing Instance ascii_tables.
#[local] Existing Instance plain_lib.
#[local] Existing Instance plain_diagnostics.

(** A venue that counts ten for each request and reports the count in its replies; the clock
    advances by a millisecond at every reading. *)
Definition counting_venue : Env :=
  linear_env (unix_epoch + 5 * Second) Millisecond
    (λ k _, Ok {| rs_status := 200;
                  rs_headers := [("X-MBX-USED-WEIGHT-1M", FormatInt (10 * (Z.of_nat k + 1)))];
                  rs_body := Ok "{}" |})
    (λ _, None) (λ _, None).
#[local] Existing Instance counting_venue.

(** A budget of twenty for a minute. *)
Definition small_connector : Connector :=
  mkConnector (VenueConfig.mk "binance" "https://b" "wss://b" ∅) "key" "secret"
    (Weighted.mk "binance" 20 0 (60 * Second) (unix_epoch + 5 * Second) 0) 5000.

Definition three_queries : list binance_call :=
  replicate 3 (CFills (FillQuery.mk "7" Time_zero Time_zero 0)).

(** The first two requests are on the wire when the reply to the first is read. *)
Definition two_in_flight : list nat := [0; 0; 0; 1; 1; 1; 0; 2; 2; 2]%nat.

(** The count a reply carries replaces the limiter's own, requests in flight included: one
    after the other the third query is refused; with two in flight it is sent, and the
    venue counts thirty in a minute against the budget of twenty. *)
Lemma binance_inflight_weight_is_forgotten :
  length (w_http (run_calls (C := Connector) three_queries small_connector World_init).2) = 2%nat ∧
  let after := pool_run two_in_flight (mkPool (BinanceT.steps <$> three_queries) small_connector
                                              World_init) in
  length (w_http (outside after)) = 3%nat ∧ (w_now (outside after) ≤ 60)%nat.
Proof. vm_compute. split_and!; [done..|]. lia. Qed.

Lemma binance_concurrent_calls_witness :
  let after := pool_run two_in_flight (mkPool (BinanceT.steps <$> three_queries) small_connector
                                              World_init) in
  ∃ sent : list (Z * Request), length sent = 3%nat ∧ NoDup sent.*1 ∧
    Forall (λ ts, 5000 < ts ≤ 5003) sent.*1.
Proof.
  intros after. assert (Hlen : length (w_http (outside after)) = 3%nat) by (by vm_compute).
  destruct (binance_concurrent_calls three_queries two_in_flight small_connector World_init)
    as (sent & Hh & Hnd & Hr & _); [done|done|].
  exists sent. split_and!; [|done|done]. fold after in Hh.
  rewrite Hh, length_app, length_fmap in Hlen. exact Hlen.
Defined.
End witnesses.
