(* ===== verification/KrakenThreads.v ===== *)
(** * The Kraken adapter under concurrent calls (internal/adapters/kraken/kraken.go)

    A call is cut where another goroutine can come in: the atomic increment of the nonce, the
    limiter's critical section, the exchange, the back-off.  Under any schedule the nonces stay
    distinct and the cost stays within the counter's allowance; their order is another matter. *)

From S2P Require Import Prelude GoStd World Threads RateLimit Metered Decimal Venue Dummy Json Http Throttle.
From S2P Require Import Numbered Kraken Concurrent.

Open Scope Z_scope.

Module KrakenT.
Section steps.
Context `{Env, DecimalOps, UnicodeTables, GoLib, JsonDiagnostics, MapOrder}.

Definition reply (r : result (HttpResponse * string)) :
    Prog Connector (result (option JVal)) :=
  match r with
  | Err e => mret (Err e)
  | Ok (rs, body) =>
      if rate_limited (rs_status rs) then
        atom (lim (Counter.Backoff "kraken" (30 * Second))) ;;
        mret (Err (ErrNew ("kraken: rate limited (status " +:+ FormatInt (rs_status rs) +:+ ")")))
      else if 400 <=? rs_status rs then
        mret (Err (ErrNew ("kraken: status " +:+ FormatInt (rs_status rs) +:+ " body "
                           +:+ body)))
      else mret (open_envelope body)
  end.

Definition do (rq : HttpRequest) (cost : Z) : Prog Connector (result (option JVal)) :=
  e ← atom (lim (Counter.Wait cost));
  match e with
  | Some e => mret (Err e)
  | None => r ← atom (fetch rq); reply r
  end.

(** The atomic increment, and the request signed with the number it gave. *)
Definition take_request (path : string) (params : Values) : M Connector HttpRequest :=
  c ← get;
  let n := next_nonce c in
  modify (set_nonce n) ;;
  mret (private_request c path params n).

Definition doPrivate (path : string) (params : Values) (cost : Z) :
    Prog Connector (result (option JVal)) :=
  rq ← atom (take_request path params);
  match parse_url (rq_url rq) with
  | Some e => mret (Err e)
  | None => do rq cost
  end.

Definition PlaceOrder (req : OrderRequest.t) : Prog Connector (result OrderResponse.t) :=
  if String.eqb (OrderRequest.ClientOrderID req) "" then
    mret (Err (ErrNew "kraken: client_order_id required"))
  else
    r ← doPrivate "/0/private/AddOrder" (order_params req) 6;
    mret (decoded dec_addOrderResp [] (placed req) r).

Definition GetOrder (venueOrderID : string) : Prog Connector (result OrderResponse.t) :=
  r ← doPrivate "/0/private/QueryOrders" (Set_ "txid" venueOrderID ∅) 2;
  mret (decoded (dec_map zero_order dec_krakenOrder) ∅ (find_order venueOrderID) r).

Definition CancelOrder (req : CancelRequest.t) : Prog Connector (option error) :=
  match cancel_params req with
  | None => mret (Some (ErrNew "kraken: cancel requires venue or client order id"))
  | Some params =>
      r ← doPrivate "/0/private/CancelOrder" params 6;
      mret (match r with Ok _ => None | Err e => Some e end)
  end.

Definition GetFills (q : FillQuery.t) : Prog Connector (result (list Fill.t)) :=
  r ← doPrivate "/0/private/QueryTrades" (fills_params q) 2;
  mret (decoded (dec_map zero_trade dec_tradeEntry) ∅
          (λ m, Ok (fills_of_trades (FillQuery.Limit q) m)) r).

Definition GetBalances : Prog Connector (result Balances.t) :=
  r ← doPrivate "/0/private/Balance" ∅ 2;
  mret (decoded (dec_map (balanceEntry.mk "" "") dec_balanceEntry) ∅
          (λ m, Ok (balances_of_entries m)) r).

(** A call, as [run_kraken]. *)
Definition steps (x : kraken_call) : Prog Connector (option error) :=
  match x with
  | KPlace req => r ← PlaceOrder req; mret (outcome r)
  | KCancel req => CancelOrder req
  | KGet id => r ← GetOrder id; mret (outcome r)
  | KFills q => r ← GetFills q; mret (outcome r)
  | KBalances => r ← GetBalances; mret (outcome r)
  end.

Lemma kraken_do_runs rq cost : runs_as (do rq cost) (Kraken.do rq cost).
Proof. unfold do, reply, Kraken.do. runs. Qed.

Lemma doPrivate_runs path params cost :
  runs_as (doPrivate path params cost) (Kraken.doPrivate path params cost).
Proof.
  apply (runs_as_same _ (rq ← take_request path params;
    match parse_url (rq_url rq) with
    | Some e => mret (Err e)
    | None => Kraken.do rq cost
    end)); [|done].
  pose proof kraken_do_runs. unfold doPrivate. runs.
Qed.
#[local] Hint Resolve doPrivate_runs : runs.

Lemma kraken_PlaceOrder_runs req : runs_as (PlaceOrder req) (kraken_PlaceOrder req).
Proof. unfold PlaceOrder, kraken_PlaceOrder. runs. Qed.
Lemma kraken_CancelOrder_runs req : runs_as (CancelOrder req) (kraken_CancelOrder req).
Proof. unfold CancelOrder, kraken_CancelOrder. runs. Qed.
Lemma kraken_GetOrder_runs i : runs_as (GetOrder i) (kraken_GetOrder i).
Proof. unfold GetOrder, kraken_GetOrder. runs. Qed.
Lemma kraken_GetFills_runs q : runs_as (GetFills q) (kraken_GetFills q).
Proof. unfold GetFills, kraken_GetFills. runs. Qed.
Lemma kraken_GetBalances_runs : runs_as GetBalances kraken_GetBalances.
Proof. unfold GetBalances, kraken_GetBalances. runs. Qed.
End steps.
End KrakenT.

#[export] Instance kraken_Concurrent
    `{Env, DecimalOps, UnicodeTables, GoLib, JsonDiagnostics, MapOrder} :
  ConcurrentConnector Kraken.Connector := {|
  PlaceOrderT := KrakenT.PlaceOrder; CancelOrderT := KrakenT.CancelOrder;
  GetOrderT := KrakenT.GetOrder; GetFillsT := KrakenT.GetFills;
  GetBalancesT := KrakenT.GetBalances;
  PlaceOrder_alone := KrakenT.kraken_PlaceOrder_runs; CancelOrder_alone := KrakenT.kraken_CancelOrder_runs;
  GetOrder_alone := KrakenT.kraken_GetOrder_runs; GetFills_alone := KrakenT.kraken_GetFills_runs;
  GetBalances_alone := KrakenT.kraken_GetBalances_runs;
|}.

(** ** Calls under any schedule *)

Section kraken_pool.
Context `{Env, DecimalOps, UnicodeTables, GoLib, JsonDiagnostics, MapOrder}.

#[export] Instance kraken_Numbered : Numbered Kraken.Connector (string * Values * Z) := {|
  number := Kraken.nonce;
  numbers := 2 ^ 64;
  build c n '(path, params, _) := private_request c path params n;
  charge '(_, _, cost) := cost;
  chargeable '(_, _, cost) := 0 ≤ cost ≤ 6;
  spent base c := meter base (Kraken.limiter c);
  granted c d := allowance (Kraken.limiter c) d;
  settled c w := met_inv (Kraken.limiter c) w ∧ quota (Kraken.limiter c) = 20;
  take '(path, params, _) := KrakenT.take_request path params;
  pay '(_, _, cost) := Kraken.lim (Counter.Wait cost);
|}.

Lemma doPrivate_numbered path params cost :
  KrakenT.doPrivate path params cost = numbered_call (path, params, cost) Err KrakenT.reply.
Proof. done. Qed.

Lemma kraken_NumberedLaws : clock_monotone → NumberedLaws Kraken.Connector (string * Values * Z).
Proof.
  intros Hm. split.
  - intros [[p v] cost]. simpl. lia.
  - intros [[p v] cost] c w base Hpos Hroom Hset. simpl in *. eexists. split.
    + unfold KrakenT.take_request. munfold. rewrite next_nonce_step by lia. done.
    + split_and!; try done; by destruct Hset.
  - intros [[p v] cost] c w e c' w' base Hch [Hset Hq] Hp. simpl in Hch, Hp.
    unfold Kraken.lim, zoom in Hp. destruct (Counter.Wait cost _ w) as [[e1 l] w1] eqn:Hw.
    simplify_eq. change (lim_Wait cost (Kraken.limiter c) w = (e, l, w')) in Hw.
    destruct (lim_wait_frame (L := Counter.CounterLimiter) _ _ _ _ _ _ Hw) as (_ & Hh & _).
    destruct (met_wait (L := Counter.CounterLimiter) base cost (Kraken.limiter c) w e l w')
      as (Hi & Hq' & Ha & Hs); [done|done|lia|unfold int64_max in *; lia|done|].
    split_and!; simpl; try done; try congruence. split; [done|]. by rewrite <- Hq, <- Hq'.
  - intros base c w [Hset _]. by apply met_bound.
  - intros c w w' Hw [Hset Hq]. split; [|done]. eapply met_later; [done|done|]. by rewrite Hw.
Qed.

Lemma kraken_reply_quiet r : clock_monotone → steps_quiet (R := string * Values * Z) (KrakenT.reply r).
Proof.
  intros Hm. destruct r as [[rs body]|e]; [|done]. unfold KrakenT.reply.
  destruct (Kraken.rate_limited _); [|by destruct (400 <=? _)]. split; [|done].
  intros c w base [Hset Hq]. unfold Kraken.lim, zoom.
  destruct (Counter.Backoff _ _ _ w) as [[u l] w'] eqn:Hb.
  change (lim_Backoff "kraken" (30 * Second) (Kraken.limiter c) w = (u, l, w')) in Hb.
  destruct (lim_backoff_spec (L := Counter.CounterLimiter) _ _ _ _ _ _ _ Hb) as (_ & _ & Hh & _).
  destruct (met_backoff base _ _ _ _ _ _ _ Hm Hset Hb) as (Hi & Hq' & Ha & Hs).
  split_and!; try done; [split; [done|by rewrite <- Hq, <- Hq']|].
  change (meter base (limiter c) ≤ meter base l). by rewrite Hs.
Qed.

Lemma kraken_steps_fine base c0 h0 xs x :
  clock_monotone → 0 ≤ nonce c0 → nonce c0 + Z.of_nat (length xs) < 2 ^ 64 →
  thread_ok (ledger request_of base c0 h0 xs) (λ _ _, True) (x, Fresh) (KrakenT.steps x).
Proof.
  intros Hm Hpos Hroom.
  assert (Hcall : ∀ path params cost, request_of x = Some (path, params, cost) → 0 ≤ cost ≤ 6 →
    thread_ok (ledger request_of base c0 h0 xs) (λ _ _, True) (x, Fresh)
      (KrakenT.doPrivate path params cost)).
  { intros path params cost Hx Hc. pose proof (kraken_NumberedLaws Hm).
    rewrite doPrivate_numbered. apply numbered_call_fine; [done..|]. intros r. by apply kraken_reply_quiet. }
  destruct x as [req|req|id|q|]; unfold KrakenT.steps, KrakenT.PlaceOrder, KrakenT.CancelOrder,
    KrakenT.GetOrder, KrakenT.GetFills, KrakenT.GetBalances; cbn [request_of] in Hcall.
  1: destruct (String.eqb _ _); [done|].
  2: destruct (cancel_params req) as [p|]; [|done].
  all: repeat (by apply Hcall) || apply thread_ok_then || done.
Qed.
End kraken_pool.

(** ** Properties *)

Section properties.
Context `{Env, OsEnv, DecimalOps, UnicodeTables, GoLib, JsonDiagnostics, MapOrder}.

Lemma kraken_NewConnector_start (key secret : string) w c0 w0 :
  clock_monotone → NewConnector key secret None tt w = (c0, tt, w0) →
  0 ≤ nonce c0 < 2 ^ 63 ∧ settled c0 w0 ∧ spent (env_now (w_now w)) c0 = 0 ∧
  (∀ d, granted c0 d = 20 + d / (3 * Second)) ∧ w_http w0 = w_http w.
Proof.
  intros Hm Hnew. unfold NewConnector, mbind, M_bind in Hnew.
  destruct (Counter.NewCounterLimiter "kraken" 20 tt w) as [[l u] w1] eqn:Hl.
  destruct (counter_fresh "kraken" 20 tt w l u w1 Hm) as (Hinv & Hzero & Hq & Ha);
    [unfold int64_max; lia|done|].
  assert (Hh : w_http w1 = w_http w)
    by (unfold Counter.NewCounterLimiter in Hl; munfold; by simplify_eq/=).
  unfold now, mret, M_ret in Hnew. simplify_eq. split_and!; try done.
  - apply Z.div_pos; [|lia]. by apply Z.mod_pos_bound.
  - apply Z.div_lt_upper_bound; [lia|]. unfold wrapu64.
    pose proof (Z.mod_pos_bound (UnixNano_of (env_now (w_now w1))) (2 ^ 64) ltac:(lia)). simpl nonce. lia.
  - split; [|done]. eapply met_later; [done..|]. simpl. lia.
Qed.

(** C6: any number of concurrent calls on a connector just made, under any schedule, finished or
    not: every request sent is the request of one of the calls, signed with a nonce of its
    own drawn since the start, no call is sent twice, and the total cost of what was sent is
    at most 20 plus one per three seconds since the connector was made. *)
Theorem kraken_concurrent_calls (xs : list kraken_call) (schedule : list nat)
    (key secret : string) (w w0 : World) (c0 : Connector) :
  clock_monotone → Z.of_nat (length xs) < 2 ^ 63 →
  NewConnector key secret None tt w = (c0, tt, w0) →
  let after := pool_run schedule (mkPool (KrakenT.steps <$> xs) c0 w0) in
  ∃ sent : list (Z * (string * Values * Z)),
    w_http (outside after) =
      w_http w ++ ((λ nr, private_request c0 nr.2.1.1 nr.2.1.2 nr.1) <$> sent) ∧
    NoDup sent.*1 ∧
    Forall (λ n, nonce c0 < n ≤ nonce c0 + Z.of_nat (length xs)) sent.*1 ∧
    sent.*2 ⊆+ omap request_of xs ∧
    total snd sent.*2
      ≤ 20 + (env_now (w_now (outside after)) - env_now (w_now w)) / (3 * Second).
Proof.
  intros Hm Hlen Hnew after. pose proof (kraken_NumberedLaws Hm).
  destruct (kraken_NewConnector_start _ _ _ _ _ Hm Hnew) as (Hn & Hset & Hz & Hg & Hh).
  destruct (numbered_calls request_of KrakenT.steps xs (env_now (w_now w)) c0 w0 schedule)
    as (sent & Hs & Hnd & Hr & Hsub & Ht); try (unfold number, numbers; simpl; lia); [done|lia|..].
  - intros x [[p v] cost] Hx. destruct x as [req|req|id|q|]; simpl in *; try simplify_eq; try done.
    + by destruct (String.eqb _ _); simplify_eq.
    + by destruct (cancel_params _); simplify_eq.
  - intros x. apply kraken_steps_fine; [done|lia..].
  - fold after in Hs, Ht. exists sent. rewrite <- Hh, <- Hg. split_and!; try done.
    + rewrite Hs. f_equal. by apply list_fmap_ext; intros ? [n [[p v] cost]] ?.
    + etrans; [|exact Ht]. apply Z.eq_le_incl. unfold total. f_equal.
      by apply list_fmap_ext; intros ? [[p v] cost] ?.
Qed.
End properties.

(** ** Witnesses *)

Section witnesses.
#[local] Existing Instance exact_ops.
#[local] Existing Instance ascii_tables.
#[local] Existing Instance plain_lib.
#[local] Existing Instance plain_diagnostics.
#[local] Existing Instance sorted_maps.
#[local] Existing Instance sample_venue.

Definition two_calls : list kraken_call := [KPlace sample_limit_order; KBalances].

(** The first goroutine draws its nonce and is overtaken by the second. *)
Definition overtaken : list nat := [0; 1; 1; 1; 0; 0]%nat.

(** A nonce is drawn before the limiter is waited for, so of two concurrent calls the one
    with the later nonce can be sent first. *)
Lemma kraken_nonces_can_go_back :
  w_http (outside (pool_run overtaken (mkPool (KrakenT.steps <$> two_calls) sample_connector
                                              World_init))) =
  [private_request sample_connector "/0/private/Balance" ∅ 5002;
   private_request sample_connector "/0/private/AddOrder" (order_params sample_limit_order) 5001].
Proof. vm_compute. reflexivity. Qed.

Lemma kraken_concurrent_calls_witness :
  let '(c0, _, w0) := @NewConnector _ no_vars unit "key" "secret" None tt World_init in
  let after := pool_run overtaken (mkPool (KrakenT.steps <$> two_calls) c0 w0) in
  length (w_http (outside after)) = 2%nat ∧
  ∃ sent : list (Z * (string * Values * Z)),
    length sent = 2%nat ∧ NoDup sent.*1 ∧ sent.*2 ⊆+ omap request_of two_calls.
Proof.
  destruct (@NewConnector _ no_vars unit "key" "secret" None tt World_init)
    as [[c0 []] w0] eqn:Hnew.
  assert (Hlen : length (w_http (outside (pool_run overtaken
            (mkPool (KrakenT.steps <$> two_calls) c0 w0)))) = 2%nat).
  { pose proof Hnew as E. vm_compute in E. injection E as <- <-. vm_compute. reflexivity. }
  split; [exact Hlen|].
  assert (Hm : clock_monotone) by (apply linear_env_monotone; unfold Second; lia).
  destruct (@kraken_concurrent_calls _ no_vars _ _ _ _ _ two_calls overtaken "key"
    "secret" World_init w0 c0 Hm ltac:(done) Hnew)
    as (sent & Hh & Hnd & _ & Hsub & _).
  exists sent. split_and!; [|done|done]. rewrite Hh, length_app, length_fmap in Hlen. exact Hlen.
Defined.
End witnesses.
