(* ===== verification/OtcThreads.v ===== *)
(** * The OTC adapter under concurrent calls (internal/adapters/otc/otc.go)

    A call is cut at the limiter's critical section, the exchange, the back-off, and the
    critical section that remembers a placed order.  Under any schedule the requests stay
    within the limiter's windows, and every placement that succeeds is remembered once. *)

From S2P Require Import Prelude GoStd World Threads RateLimit Metered Decimal Venue Dummy Json Http.
From S2P Require Import Throttle Otc Concurrent.

Open Scope Z_scope.

Module OtcT.
Section steps.
Context `{Env, DecimalOps, !DecimalJson, UnicodeTables, GoLib, JsonDiagnostics}.

Definition bind_ok {A B} (p : Prog Connector (result A)) (k : A → Prog Connector (result B)) :
    Prog Connector (result B) :=
  r ← p; match r with Err e => mret (Err e) | Ok a => k a end.

Definition do (method path : string) (payload : option string) : Prog Connector (result string) :=
  e ← atom (lim (RPS.Wait 1));
  match e with
  | Some e => mret (Err e)
  | None =>
      c ← atom get;
      let rq := desk_request c method path payload in
      match parse_url (rq_url rq) with
      | Some e => mret (Err e)
      | None =>
          r ← atom (fetch rq);
          match r with
          | Err e => mret (Err e)
          | Ok (rs, body) =>
              if rate_limited (rs_status rs) then
                atom (lim (RPS.Backoff "otc" (5 * Second))) ;;
                mret (Err (ErrNew "otc: rate limited"))
              else if 400 <=? rs_status rs then
                mret (Err (ErrNew ("otc: status " +:+ FormatInt (rs_status rs) +:+ " body "
                                   +:+ body)))
              else mret (Ok body)
          end
      end
  end.

Definition settle (clientID : string) (a : acceptResp.t) :
    Prog Connector (result OrderResponse.t) :=
  t ← atom now;
  let fill := Fill.mk _ (acceptResp.OrderID a) (acceptResp.TradeID a) (acceptResp.Price a)
                (acceptResp.FilledQty a) (acceptResp.Fee a) (acceptResp.FeeAsset a) t in
  let resp := OrderResponse.mk _ (acceptResp.OrderID a) clientID (mapStatus (acceptResp.Status a))
                (acceptResp.FilledQty a) (acceptResp.Price a) [fill] in
  atom (modify (remember (acceptResp.OrderID a) resp fill)) ;;
  mret (Ok resp).

Definition accept (clientID : string) (q : quoteResp.t) :
    Prog Connector (result OrderResponse.t) :=
  if quote_refused q then mret (Err (ErrNew ("otc: quote " +:+ quoteResp.Status q)))
  else
    bind_ok (do "POST" ("/v1/quotes/" +:+ quoteResp.QuoteID q +:+ "/accept")
                (Some (object_of_strings [("client_order_id", clientID)])))
      (λ body, match Unmarshal dec_acceptResp zero_accept body with
               | Err e => mret (Err e)
               | Ok a => settle clientID a
               end).

Definition PlaceOrder (req : OrderRequest.t) : Prog Connector (result OrderResponse.t) :=
  if String.eqb (OrderRequest.ClientOrderID req) "" then
    mret (Err (ErrNew "otc: client_order_id required"))
  else
    bind_ok (do "POST" "/v1/rfq" (Some (rfq_body req)))
      (λ body, match Unmarshal dec_quoteResp zero_quote body with
               | Err e => mret (Err e)
               | Ok q => accept (OrderRequest.ClientOrderID req) q
               end).

Definition decoded {T U} (d : Decoder T) (zero : T) (f : T → U) (body : string) :
    Prog Connector (result U) :=
  mret (match Unmarshal d zero body with Err e => Err e | Ok x => Ok (f x) end).

Definition GetOrder (venueOrderID : string) : Prog Connector (result OrderResponse.t) :=
  bind_ok (do "GET" ("/v1/orders/" +:+ venueOrderID) None)
    (decoded dec_orderStatusResp (orderStatusResp.mk _ "" "" dec_zero dec_zero "") order_of_status).

Definition CancelOrder (req : CancelRequest.t) : Prog Connector (option error) :=
  let id := cancel_id req in
  if String.eqb id "" then mret (Some (ErrNew "otc: cancel requires order id"))
  else r ← do "POST" ("/v1/orders/" +:+ id +:+ "/cancel") None; mret (outcome r).

Definition GetFills (q : FillQuery.t) : Prog Connector (result (list Fill.t)) :=
  bind_ok (do "GET" ("/v1/orders/" +:+ FillQuery.VenueOrderID q +:+ "/fills") None)
    (decoded dec_fillsResp [] (λ rows, truncate_limit (FillQuery.Limit q) (map (fill_of_row q) rows))).

Definition GetBalances : Prog Connector (result Balances.t) :=
  bind_ok (do "GET" "/v1/balances" None) (decoded dec_balancesResp [] balances_of_rows).

(** A call, as [run_otc]. *)
Definition steps (x : otc_call) : Prog Connector (option error) :=
  match x with
  | OPlace req => r ← PlaceOrder req; mret (outcome r)
  | OCancel req => CancelOrder req
  | OGet id => r ← GetOrder id; mret (outcome r)
  | OFills q => r ← GetFills q; mret (outcome r)
  | OBalances => r ← GetBalances; mret (outcome r)
  end.

(** *** Alone, each is the call *)

Lemma otc_do_runs method path payload :
  runs_as (do method path payload) (Otc.do method path payload).
Proof. unfold do, Otc.do. runs. Qed.
#[local] Hint Resolve otc_do_runs : runs.

Lemma bind_ok_runs {A B} (p : Prog Connector (result A)) m (f : A → Prog Connector (result B)) k :
  runs_as p m → (∀ a, runs_as (f a) (k a)) → runs_as (bind_ok p f) (Throttle.bind_ok m k).
Proof. unfold bind_ok, Throttle.bind_ok. runs. Qed.

Lemma decoded_runs {T U} (d : Decoder T) zero (f : T → U) body :
  runs_as (decoded d zero f body) (Otc.decoded d zero f body).
Proof. unfold decoded, Otc.decoded. runs. Qed.
#[local] Hint Resolve bind_ok_runs decoded_runs : runs.

Lemma settle_runs clientID a : runs_as (settle clientID a) (Otc.settle clientID a).
Proof. unfold settle, Otc.settle. runs. Qed.
#[local] Hint Resolve settle_runs : runs.

Lemma accept_runs clientID q : runs_as (accept clientID q) (Otc.accept clientID q).
Proof.
  unfold accept, Otc.accept. destruct (quote_refused q); [runs|].
  apply bind_ok_runs; runs.
Qed.
#[local] Hint Resolve accept_runs : runs.

Lemma otc_PlaceOrder_runs req : runs_as (PlaceOrder req) (otc_PlaceOrder req).
Proof.
  unfold PlaceOrder, otc_PlaceOrder. destruct (String.eqb _ _); [runs|].
  apply bind_ok_runs; runs.
Qed.
Lemma otc_CancelOrder_runs req : runs_as (CancelOrder req) (otc_CancelOrder req).
Proof. unfold CancelOrder, otc_CancelOrder. runs. Qed.
Lemma otc_GetOrder_runs i : runs_as (GetOrder i) (otc_GetOrder i).
Proof. apply bind_ok_runs; runs. Qed.
Lemma otc_GetFills_runs q : runs_as (GetFills q) (otc_GetFills q).
Proof. apply bind_ok_runs; runs. Qed.
Lemma otc_GetBalances_runs : runs_as GetBalances otc_GetBalances.
Proof. apply bind_ok_runs; runs. Qed.
End steps.
End OtcT.

#[export] Instance otc_Concurrent
    `{Env, DecimalOps, !DecimalJson, UnicodeTables, GoLib, JsonDiagnostics} :
  ConcurrentConnector Connector := {|
  PlaceOrderT := OtcT.PlaceOrder; CancelOrderT := OtcT.CancelOrder;
  GetOrderT := OtcT.GetOrder; GetFillsT := OtcT.GetFills;
  GetBalancesT := OtcT.GetBalances;
  PlaceOrder_alone := OtcT.otc_PlaceOrder_runs; CancelOrder_alone := OtcT.otc_CancelOrder_runs;
  GetOrder_alone := OtcT.otc_GetOrder_runs; GetFills_alone := OtcT.otc_GetFills_runs;
  GetBalances_alone := OtcT.otc_GetBalances_runs;
|}.

(** ** Calls under any schedule *)

(** What a goroutine has done with its call: how often the limiter let it through, how many
    requests it sent, and whether it has remembered an order. *)
Record Deal `{DecimalOps} := mkDeal { d_call : otc_call; d_paid : Z; d_sent : Z; d_settled : bool }.

Section otc_pool.
Context `{!Env, !DecimalOps, !DecimalJson, !UnicodeTables, !GoLib, !JsonDiagnostics}.
Context (clock : clock_monotone) (base : Time) (c0 : Connector) (n0 : Z) (xs : list otc_call).
Context (Hquota : quota (limiter c0) + 1 ≤ int64_max).

Definition settled_one (g : Deal) : Z := if d_settled g then 1 else 0.

Record desk (gs : list Deal) (c : Connector) (w : World) : Prop := {
  desk_calls : d_call <$> gs = xs;
  desk_inv : met_inv (limiter c) w;
  desk_quota : quota (limiter c) = quota (limiter c0);
  desk_allowance d : allowance (limiter c) d = allowance (limiter c0) d;
  desk_paid : total d_paid gs ≤ meter base (limiter c);
  desk_sent : Z.of_nat (length (w_http w)) = n0 + total d_sent gs;
  desk_within : Forall (λ g, d_sent g ≤ d_paid g) gs;
  desk_fills : Z.of_nat (length (fills c)) = Z.of_nat (length (fills c0)) + total settled_one gs;
}.

(** A step on the limiter and the network alone. *)
Lemma desk_step gs c w i g g' c' w' :
  desk gs c w → gs !! i = Some g → d_call g' = d_call g → d_settled g' = d_settled g →
  met_inv (limiter c') w' → quota (limiter c') = quota (limiter c) →
  (∀ d, allowance (limiter c') d = allowance (limiter c) d) →
  d_paid g' - d_paid g + meter base (limiter c) ≤ meter base (limiter c') →
  Z.of_nat (length (w_http w')) = Z.of_nat (length (w_http w)) + (d_sent g' - d_sent g) →
  d_sent g' ≤ d_paid g' → fills c' = fills c → desk (<[i := g']> gs) c' w'.
Proof.
  intros [Hc Hi Hq Ha Hp Hs Hw Hf] Hg Hcall Hset Hi' Hq' Ha' Hp' Hs' Hw' Hf'. split.
  - by rewrite (fmap_insert_same d_call gs i g).
  - done.
  - congruence.
  - intros d. by rewrite Ha'.
  - rewrite (total_insert _ _ _ g) by done. lia.
  - rewrite (total_insert _ _ _ g) by done. lia.
  - by apply Forall_insert.
  - rewrite (total_insert _ _ _ g), Hf' by done. unfold settled_one at 2 3. rewrite Hset. lia.
Qed.

(** What an exchange leaves as it was. *)
Definition same_deal (g : Deal) {A} (g' : Deal) (_ : A) : Prop :=
  d_call g' = d_call g ∧ d_settled g' = d_settled g.

(** Any step that leaves the adapter's maps and the network alone, and the limiter as strict. *)
Lemma desk_quiet gs c w i g c' w' :
  desk gs c w → gs !! i = Some g →
  met_inv (limiter c') w' → quota (limiter c') = quota (limiter c) →
  (∀ d, allowance (limiter c') d = allowance (limiter c) d) →
  meter base (limiter c) ≤ meter base (limiter c') →
  w_http w' = w_http w → fills c' = fills c → desk (<[i := g]> gs) c' w'.
Proof.
  intros HI Hg Hi Hq Ha Hp Hh Hf. pose proof (Forall_lookup_1 _ _ _ _ (desk_within _ _ _ HI) Hg).
  eapply desk_step; try done; [lia|]. rewrite Hh. lia.
Qed.

Lemma reply_fine g (r : result (HttpResponse * string)) :
  thread_ok desk (same_deal g) g
    (match r with
     | Err e => mret (Err e)
     | Ok (rs, body) =>
         if rate_limited (rs_status rs) then
           atom (lim (RPS.Backoff "otc" (5 * Second))) ;;
           mret (Err (ErrNew "otc: rate limited"))
         else if 400 <=? rs_status rs then
           mret (Err (ErrNew ("otc: status " +:+ FormatInt (rs_status rs) +:+ " body "
                              +:+ body)))
         else mret (Ok body)
     end : Prog Connector (result string)).
Proof.
  destruct r as [[rs body]|e]; [|done].
  destruct (rate_limited _); [|by destruct (400 <=? _)].
  intros i gs c w HI Hg. unfold lim, zoom.
  destruct (RPS.Backoff "otc" _ (limiter c) w) as [[u l] w'] eqn:Hb.
  change (lim_Backoff "otc" (5 * Second) (limiter c) w = (u, l, w')) in Hb.
  destruct (lim_backoff_spec (L := RPS.RPSLimiter) _ _ _ _ _ _ _ Hb) as (_ & _ & Hh & _).
  destruct (met_backoff base _ _ _ _ _ _ _ clock (desk_inv _ _ _ HI) Hb) as (Hi & Hq & Ha & Hp).
  exists g. split; [|done]. eapply desk_quiet; try done.
  change (meter base (limiter c) ≤ meter base l). by rewrite Hp.
Qed.

(** Once let through, at most one request. *)
Lemma exchange_fine method path payload g :
  d_sent g + 1 ≤ d_paid g →
  thread_ok desk (same_deal g) g
    (c ← atom get;
     let rq := desk_request c method path payload in
     match parse_url (rq_url rq) with
     | Some e => mret (Err e)
     | None =>
         r ← atom (fetch rq);
         match r with
         | Err e => mret (Err e)
         | Ok (rs, body) =>
             if rate_limited (rs_status rs) then
               atom (lim (RPS.Backoff "otc" (5 * Second))) ;;
               mret (Err (ErrNew "otc: rate limited"))
             else if 400 <=? rs_status rs then
               mret (Err (ErrNew ("otc: status " +:+ FormatInt (rs_status rs) +:+ " body "
                                  +:+ body)))
             else mret (Ok body)
         end
     end : Prog Connector (result string)).
Proof.
  intros Hroom i gs c w HI Hg. exists g. split; [by rewrite list_insert_id|].
  cbn. destruct (parse_url _); [done|]. clear i gs w HI Hg. intros i gs c' w HI Hg.
  destruct (fetch_run (desk_request c method path payload) c' w)
    as (r & w' & -> & Hh & Hn & _).
  exists (mkDeal _ (d_call g) (d_paid g) (d_sent g + 1) (d_settled g)). split.
  - pose proof (desk_inv _ _ _ HI). eapply desk_step; try done; simpl; try lia.
    + eapply met_later; [done|done|]. by rewrite Hn.
    + rewrite Hh, length_app. simpl. lia.
  - exact (reply_fine (mkDeal _ (d_call g) (d_paid g) (d_sent g + 1) (d_settled g)) r).
Qed.

Lemma do_fine method path payload g :
  thread_ok desk (same_deal g) g (OtcT.do method path payload).
Proof.
  intros i gs c w HI Hg. pose proof HI as [Hc Hi Hq Ha Hp Hs Hw Hf].
  unfold lim, zoom. destruct (RPS.Wait 1 (limiter c) w) as [[e l] w1] eqn:Hwait.
  change (lim_Wait 1 (limiter c) w = (e, l, w1)) in Hwait.
  destruct (lim_wait_frame (L := RPS.RPSLimiter) _ _ _ _ _ _ Hwait) as (_ & Hh & _).
  destruct (met_wait (L := RPS.RPSLimiter) base 1 (limiter c) w e l w1)
    as (Hi1 & Hq1 & Ha1 & Hp1); [done|done|lia|by rewrite Hq|done|].
  assert (Hwi : d_sent g ≤ d_paid g) by (eapply (Forall_lookup_1 _ _ _ _ Hw Hg)).
  destruct e as [e|].
  - exists g. split; [|done]. by eapply desk_quiet.
  - exists (mkDeal _ (d_call g) (d_paid g + 1) (d_sent g) (d_settled g)). split.
    + change (1 + meter base (limiter c) ≤ meter base l) in Hp1.
      eapply desk_step; try done; simpl; [|by rewrite Hh; lia|lia].
      change (d_paid g + 1 - d_paid g + meter base (limiter c) ≤ meter base l). lia.
    + apply (exchange_fine method path payload
               (mkDeal _ (d_call g) (d_paid g + 1) (d_sent g) (d_settled g))). simpl. lia.
Qed.

Lemma bind_ok_fine {A B} (Q : Deal → result B → Prop) g (p : Prog Connector (result A)) k :
  thread_ok desk (same_deal g) g p →
  (∀ g' e, same_deal g g' tt → Q g' (Err e)) →
  (∀ g' a, same_deal g g' tt → thread_ok desk Q g' (k a)) →
  thread_ok desk Q g (OtcT.bind_ok p k).
Proof.
  intros Hp He Hk. eapply thread_ok_bind; [exact Hp|]. intros g' [a|e] Hg; [by apply Hk|by apply He].
Qed.

(** A placement has remembered its order when it succeeds, and only then. *)
Definition remembered {A} (g g' : Deal) (r : result A) : Prop :=
  d_call g' = d_call g ∧ d_settled g' = is_ok r.

Lemma settle_fine clientID a g :
  d_settled g = false → thread_ok desk (remembered g) g (OtcT.settle clientID a).
Proof.
  intros Hg i gs c w HI Hi. exists g. split.
  { pose proof (desk_inv _ _ _ HI). eapply desk_quiet; try done. eapply met_later; [done..|].
    simpl. lia. }
  generalize (env_now (w_now w)). clear i gs w c HI Hi. intros t i gs c w HI Hi.
  exists (mkDeal _ (d_call g) (d_paid g) (d_sent g) true). split; [|done].
  destruct HI as [Hc Hinv Hq Ha Hp Hs Hw Hf]. split; try done; simpl.
  - by rewrite (fmap_insert_same d_call gs i g).
  - rewrite (total_insert _ _ _ g) by done. simpl. lia.
  - rewrite (total_insert _ _ _ g) by done. simpl. lia.
  - apply Forall_insert; [done|]. apply (Forall_lookup_1 _ _ _ _ Hw Hi).
  - rewrite (total_insert _ _ _ g), length_app by done. unfold settled_one at 2 3. rewrite Hg.
    simpl. lia.
Qed.

Lemma PlaceOrder_fine req g :
  d_settled g = false → thread_ok desk (remembered g) g (OtcT.PlaceOrder req).
Proof.
  intros Hg. assert (Herr : ∀ g' e, same_deal g g' tt → remembered (A := OrderResponse.t) g g' (Err e))
    by (intros g' e [Ha Hb]; split; [done|by rewrite Hb]).
  unfold OtcT.PlaceOrder. destruct (String.eqb _ _); [by apply Herr|].
  apply bind_ok_fine; [apply do_fine|done|]. intros g1 body [Hc1 Hs1].
  destruct (Unmarshal dec_quoteResp _ _) as [q|e]; [|by apply Herr]. unfold OtcT.accept.
  destruct (quote_refused q); [by apply Herr|].
  apply bind_ok_fine; [apply do_fine| |].
  - intros g2 e [Hc2 Hs2]. apply Herr. split; congruence.
  - intros g2 body2 [Hc2 Hs2].
    destruct (Unmarshal dec_acceptResp _ _) as [a|e]; [|apply Herr; split; congruence].
    eapply thread_ok_impl; [apply settle_fine; congruence|]. intros g3 r [Hc3 Hs3].
    split; congruence.
Qed.

Definition placed_ok (x : otc_call) (r : option error) : bool :=
  match x, r with OPlace _, None => true | _, _ => false end.

Lemma otc_steps_fine x :
  thread_ok desk (λ g r, d_settled g = placed_ok (d_call g) r) (mkDeal _ x 0 0 false) (OtcT.steps x).
Proof.
  assert (Hother : ∀ g' r, same_deal (mkDeal _ x 0 0 false) g' tt → (∀ req, x ≠ OPlace req) →
    d_settled g' = placed_ok (d_call g') r).
  { intros g' r [Ha Hb] Hx. rewrite Ha, Hb. destruct x; try done. by destruct (Hx req). }
  destruct x as [req|req|id|q|]; unfold OtcT.steps.
  - eapply thread_ok_bind; [by apply PlaceOrder_fine|]. intros g' r [Ha Hb]. simpl in *.
    rewrite Ha, Hb. by destruct r.
  - unfold OtcT.CancelOrder. destruct (String.eqb _ _); [done|].
    eapply thread_ok_bind; [apply do_fine|]. intros g' r Hg. by apply Hother.
  - eapply thread_ok_bind; [apply (bind_ok_fine (same_deal (mkDeal _ (OGet id) 0 0 false)));
      [apply do_fine|done|done]|]. intros g' r Hg. by apply Hother.
  - eapply thread_ok_bind; [apply (bind_ok_fine (same_deal (mkDeal _ (OFills q) 0 0 false)));
      [apply do_fine|done|done]|]. intros g' r Hg. by apply Hother.
  - eapply thread_ok_bind; [apply (bind_ok_fine (same_deal (mkDeal _ OBalances 0 0 false)));
      [apply do_fine|done|done]|]. intros g' r Hg. by apply Hother.
Qed.
End otc_pool.

(** ** Properties *)

Section properties.
Context `{!Env, !OsEnv, !DecimalOps, !DecimalJson, !UnicodeTables, !GoLib, !JsonDiagnostics}.

Lemma otc_NewConnector_start (key : string) w c0 w0 :
  clock_monotone → NewConnector key None tt w = (c0, tt, w0) →
  0 ≤ quota (limiter c0) < int64_max →
  met_inv (limiter c0) w0 ∧ meter (env_now (w_now w)) (limiter c0) = 0 ∧
  (∀ d, allowance (limiter c0) d = quota (limiter c0) * (1 + d / Second)) ∧
  w_http w0 = w_http w ∧ fills c0 = [].
Proof.
  intros Hm Hnew Hq. unfold NewConnector, mbind, M_bind in Hnew.
  destruct (RPS.NewRPSLimiter "otc" _ tt w) as [[l u] w1] eqn:Hl. unfold mret, M_ret in Hnew.
  simplify_eq. simpl in *. revert Hl. generalize (if negb (String.eqb (getenv "RATE_LIMIT_WEIGHT_BUDGET") "")
    then match ParseInt (getenv "RATE_LIMIT_WEIGHT_BUDGET") with Some n => n | None => 10 end else 10).
  intros b Hl.
  assert (quota l = b ∧ w_http w0 = w_http w) as [Hql Hh]
    by (unfold RPS.NewRPSLimiter in Hl; munfold; by simplify_eq/=).
  destruct (rps_fresh "otc" b tt w l tt w0 Hm) as (Hi & Hz & _ & Ha); [lia|done|].
  split_and!; try done. intros d. by rewrite Ha, Hql.
Qed.

Lemma settled_count (gs : list Deal) rs :
  Forall2 (λ g r, d_settled g = placed_ok (d_call g) r) gs rs →
  total settled_one gs =
  Z.of_nat (length (filter (λ xr, placed_ok xr.1 xr.2 = true) (zip (d_call <$> gs) rs))).
Proof.
  induction 1 as [|g r gs rs Hg _ IH]; [done|]. unfold total in *. csimpl. rewrite IH, filter_cons.
  simpl. unfold settled_one. rewrite Hg. destruct (placed_ok _ _) eqn:Hp; case_decide; try done.
  simpl. lia.
Qed.

(** C8: any number of concurrent calls on a connector just made, under any schedule: the
    requests sent since are at most the configured number for each second begun; and once
    every call has returned, the fills remembered are as many as the placements that
    succeeded. *)
Theorem otc_concurrent_calls (xs : list otc_call) (schedule : list nat) (key : string)
    (w w0 : World) (c0 : Connector) :
  clock_monotone → NewConnector key None tt w = (c0, tt, w0) →
  0 ≤ RPS.limit (limiter c0) < int64_max →
  let after := pool_run schedule (mkPool (OtcT.steps <$> xs) c0 w0) in
  Z.of_nat (length (w_http (outside after))) ≤ Z.of_nat (length (w_http w)) +
    RPS.limit (limiter c0) * (1 + (env_now (w_now (outside after)) - env_now (w_now w)) / Second) ∧
  ∀ rs, returned <$> threads after = Some <$> rs →
    length (fills (shared after)) =
    length (filter (λ xr, placed_ok xr.1 xr.2 = true) (zip xs rs)).
Proof.
  intros Hm Hnew Hq after. destruct (otc_NewConnector_start key w c0 w0 Hm Hnew Hq) as (Hi & Hz & Ha & Hh & Hf).
  destruct (pool_rule (desk (env_now (w_now w)) c0 (Z.of_nat (length (w_http w))) xs)
    (λ g r, d_settled g = placed_ok (d_call g) r) schedule (mkPool (OtcT.steps <$> xs) c0 w0)
    ((λ x, mkDeal _ x 0 0 false) <$> xs)) as (gs & Hgs & HI).
  - apply Forall2_fmap, Forall_Forall2_diag, Forall_true. intros x.
    apply otc_steps_fine; [done|]. change (RPS.limit (limiter c0) + 1 ≤ int64_max). lia.
  - assert (Hzero : ∀ f : Deal → Z, (∀ x, f (mkDeal _ x 0 0 false) = 0) →
      total f ((λ x, mkDeal _ x 0 0 false) <$> xs) = 0).
    { intros f Hf0. unfold total. clear -Hf0. induction xs as [|x xs IH]; [done|].
      csimpl. by rewrite Hf0, IH. }
    split; simpl; rewrite ?Hzero, ?Hz, ?Hh by done; try done; try lia.
    + rewrite <- list_fmap_compose. apply list_fmap_id.
    + apply Forall_fmap, Forall_true. done.
  - fold after in Hgs, HI. destruct HI as [Hc Hi' _ Ha' Hp Hs Hw Hfl]. split.
    + assert (Hle : total d_sent gs ≤ total d_paid gs).
      { clear -Hw. induction Hw as [|g gs Hg _ IH]; [done|]. unfold total in *. csimpl. lia. }
      pose proof (met_bound (env_now (w_now w)) _ _ Hi') as Hb. rewrite Ha', Ha in Hb.
      change (quota (limiter c0)) with (RPS.limit (limiter c0)) in Hb. lia.
    + intros rs Hrs. apply (all_returned _ _ _ _ rs) in Hgs; [|done].
      rewrite Hf, (settled_count gs rs), Hc in Hfl by done. simpl in Hfl. lia.
Qed.
End properties.

(** ** Witnesses *)

Section witnesses.
#[local] Existing Instance exact_ops.
#[local] Existing Instance ascii_tables.
#[local] Existing Instance plain_lib.
#[local] Existing Instance plain_diagnostics.
#[local] Existing Instance exact_json.
#[local] Existing Instance sample_desk.

(** A placement and a query, interleaved; the desk limits the rate of the query. *)
Definition interleaved : list nat := [0; 0; 0; 1; 0; 0; 0; 1; 1; 1; 0; 0; 1]%nat.

Definition placing : list otc_call := [OPlace sample_otc_order; OBalances].

Definition fresh : Connector * unit * World :=
  @NewConnector _ _ no_vars unit "key" None tt World_init.
Abbreviation after_placing :=
  (pool_run interleaved (mkPool (OtcT.steps <$> placing) fresh.1.1 fresh.2)).

Lemma otc_concurrent_calls_witness :
  length (w_http (outside after_placing)) = 3%nat ∧ length (fills (shared after_placing)) = 1%nat.
Proof.
  assert (Hm : clock_monotone) by (apply linear_env_monotone; unfold Millisecond; lia).
  assert (Hnew : @NewConnector _ _ no_vars unit "key" None tt World_init = (fresh.1.1, tt, fresh.2))
    by reflexivity.
  assert (Hq : 0 ≤ RPS.limit (limiter fresh.1.1) < int64_max)
    by (split; [done|vm_compute; reflexivity]).
  pose proof (proj2 (@otc_concurrent_calls _ no_vars _ _ _ _ _ placing interleaved "key"
    World_init fresh.2 fresh.1.1 Hm Hnew Hq)) as Hfills.
  assert (Hend : returned <$> threads after_placing =
                 Some <$> [None; Some (ErrNew "otc: rate limited")])
    by (vm_compute; reflexivity).
  split; [vm_compute; reflexivity|]. rewrite (Hfills _ Hend). reflexivity.
Defined.
End witnesses.
