(* ===== verification/EventsThreads.v ===== *)
(** * Publishing from several goroutines (internal/events/events.go)

    Each attempt to publish is a step of its own: while one goroutine waits for its timer,
    others publish.  Only the dead-letter handler runs under the bus's mutex. *)

From S2P Require Import Prelude GoStd World Threads Decimal Venue Events.

Open Scope Z_scope.

Module BusT.
Section steps.
Context `{!Env, !DecimalOps, !EventCodec, !Publisher P}.

Fixpoint attempts (n : nat) (attempt : Z) (lastErr : option error) (subj data : string)
    : Prog (Bus P) Attempts :=
  match n with
  | O => mret (Exhausted lastErr)
  | S n =>
      e ← atom (zoom publisher set_publisher (Publish subj data));
      match e with
      | None => mret Published
      | Some err =>
          c ← atom ctx_done;
          match c with
          | Some ce => mret (Cancelled ce)
          | None =>
              atom (modify (add_wait ((attempt + 1) * 100 * Millisecond))) ;;
              attempts n (attempt + 1) (Some err) subj data
          end
      end
  end.

Definition PublishFill (ev : FillEvent.t) : Prog (Bus P) (option error) :=
  if String.eqb (FillEvent.VenueOrderID ev) "" then
    mret (Some (ErrNew "events: venue_order_id required"))
  else
    ev ← atom (fill_EmittedAt (fill_InternalID ev));
    match marshal_fill ev with
    | Err e => mret (Some e)
    | Ok data =>
        b ← atom get;
        r ← attempts (Z.to_nat (maxRetries b + 1)) 0 None (subject b +:+ ".fills") data;
        match r with
        | Published =>
            atom (emit_metric (EventsPublishedTotal (FillEvent.Venue ev) "fill" "ok")) ;;
            l ← atom (latency_since (FillEvent.Timestamp ev));
            atom (emit_metric (FillLatencySeconds (FillEvent.Venue ev) l)) ;;
            mret None
        | Cancelled e => mret (Some e)
        | Exhausted lastErr =>
            atom (emit_metric (EventsPublishedTotal (FillEvent.Venue ev) "fill" "failed")) ;;
            atom (modify (add_dead ev lastErr)) ;;
            mret lastErr
        end
    end.

Definition PublishBalance (ev : BalanceEvent.t) : Prog (Bus P) (option error) :=
  if String.eqb (BalanceEvent.Venue ev) "" || String.eqb (BalanceEvent.Asset ev) "" then
    mret (Some (ErrNew "events: venue and asset required"))
  else
    ev ← atom (balance_EmittedAt ev);
    match marshal_balance ev with
    | Err e => mret (Some e)
    | Ok data =>
        b ← atom get;
        r ← attempts (Z.to_nat (maxRetries b + 1)) 0 None (subject b +:+ ".balances") data;
        match r with
        | Published =>
            atom (emit_metric (EventsPublishedTotal (BalanceEvent.Venue ev) "balance" "ok")) ;;
            l ← atom (latency_since (BalanceEvent.Timestamp ev));
            atom (emit_metric (BalanceSyncLagSeconds (BalanceEvent.Venue ev) l)) ;;
            mret None
        | Cancelled e => mret (Some e)
        | Exhausted lastErr =>
            atom (emit_metric (EventsPublishedTotal (BalanceEvent.Venue ev) "balance" "failed")) ;;
            mret lastErr
        end
    end.

(** *** Alone, each is the method *)

Lemma attempts_runs n a le subj data :
  runs_as (attempts n a le subj data) (Events.attempts n a le subj data).
Proof.
  revert a le. induction n as [|n IH]; intros a le; [runs|].
  cbn [attempts Events.attempts]. runs.
Qed.
#[local] Hint Resolve attempts_runs : runs.

Lemma PublishFill_runs ev : runs_as (PublishFill ev) (Events.PublishFill ev).
Proof. unfold PublishFill, Events.PublishFill. runs. Qed.

Lemma PublishBalance_runs ev : runs_as (PublishBalance ev) (Events.PublishBalance ev).
Proof. unfold PublishBalance, Events.PublishBalance. runs. Qed.
End steps.
End BusT.
#[export] Hint Resolve BusT.PublishFill_runs BusT.PublishBalance_runs : runs.
