(* ===== verification/Feeds.v ===== *)
(** * The order-book feeds (internal/adapters/binance/book.go, kraken/book.go)

    What the websocket handlers do with each message: Binance's numbered depth events with
    snapshot refresh on a gap, Kraken's arrays, and the updates both put on their bounded
    channel.  The transport is the client of WsClient. *)

From S2P Require Import Prelude GoStd World Decimal Venue Json JsonText Http.
From S2P Require BookRecon WsClient.
Import BookRecon (BookReconstructor, NewBookReconstructor, ApplySnapshot, ApplyDiff, TopN,
  MarkGap, Lag).

Open Scope Z_scope.

Abbreviation Level := (string * string)%type (only parsing).

(** ** The state of a feed: one reconstructor per key, and the channel's buffer *)

Record Feed `{DecimalOps} := mkFeed {
  recons : gmap string BookReconstructor;
  out : list BookUpdate.t;
}.

Definition channel_capacity : nat := 64.

Section feed.
Context `{Env, DecimalOps}.

(** Work on the reconstructor stored at [key], through its pointer. *)
Definition on_recon {A} (key : string) (dflt : A) (m : M BookReconstructor A) : M Feed A :=
  λ f w, match recons f !! key with
         | Some r => let '(a, r', w') := m r w in
                     (a, mkFeed _ (<[key := r']> (recons f)) (out f), w')
         | None => (dflt, f, w)
         end.

Definition book_level (lvl : Level) : BookLevel.t :=
  BookLevel.mk _ (ParseOrZero lvl.1) (ParseOrZero lvl.2).

(** The non-blocking send of the [select]. *)
Definition try_send (u : BookUpdate.t) : M Feed unit :=
  modify (λ f, if (length (out f) <? channel_capacity)%nat
               then mkFeed _ (recons f) (out f ++ [u]) else f).

(** [emitUpdate]: [shown] is the pair as the update names it. *)
Definition emitUpdate (venue key pair shown : string) : M Feed unit :=
  tops ← on_recon key ([], []) (TopN 20);
  t ← now;
  let upd := BookUpdate.mk _ shown (map book_level (tops : list Level * list Level).1)
               (map book_level tops.2) t in
  if (0 <? length (BookUpdate.Bids upd))%nat && (0 <? length (BookUpdate.Asks upd))%nat then
    lag ← on_recon key f64_zero Lag;
    emit_metric (WSBookLagSeconds venue pair lag) ;;
    try_send upd
  else mret tt.
End feed.

(** ** Binance *)

Module depthEvent.
Record t := mk { Stream : string; LastUpdateID : Z; Bids : list Level; Asks : list Level }.
End depthEvent.

Module snapshotResp.
Record t := mk { LastUpdateID : Z; Bids : list Level; Asks : list Level }.
End snapshotResp.

Section binance.
Context `{Env, DecimalOps, UnicodeTables, GoLib, JsonDiagnostics}.

Definition dec_levels : Decoder (list Level) := dec_slice ("", "") dec_pair.

(** The members of [data], then the event around it. *)
Definition dec_depthData : Decoder depthEvent.t :=
  let f := depthEvent.mk in dec_struct [
  field "lastUpdateId" depthEvent.LastUpdateID (λ a '(depthEvent.mk s l b k), f s a b k) dec_int64;
  field "bids" depthEvent.Bids (λ a '(depthEvent.mk s l b k), f s l a k) dec_levels;
  field "asks" depthEvent.Asks (λ a '(depthEvent.mk s l b k), f s l b a) dec_levels].

Definition dec_depthEvent : Decoder depthEvent.t :=
  let f := depthEvent.mk in dec_struct [
  field "stream" depthEvent.Stream (λ a '(depthEvent.mk s l b k), f a l b k) dec_string;
  field "data" id (λ a _, a) dec_depthData].

Definition dec_snapshotResp : Decoder snapshotResp.t :=
  let f := snapshotResp.mk in dec_struct [
  field "lastUpdateID" snapshotResp.LastUpdateID (λ a '(snapshotResp.mk l b k), f a b k) dec_int64;
  field "bids" snapshotResp.Bids (λ a '(snapshotResp.mk l b k), f l a k) dec_levels;
  field "asks" snapshotResp.Asks (λ a '(snapshotResp.mk l b k), f l b a) dec_levels].

Definition streamToPair (stream : string) : string :=
  match Index stream "@"%char with
  | Some (S i) => string_take (S i) stream
  | _ => stream
  end.

Definition stream_path (pairs : list string) : string :=
  Join (map (λ p, ToLower p +:+ "@depth") pairs) "/".

(** The request of a snapshot; it does not go through the limiter. *)
Definition snapshot_request (restBase pair : string) : HttpRequest :=
  {| rq_method := "GET";
     rq_url := restBase +:+ "/api/v3/depth?symbol=" +:+ ToUpper pair +:+ "&limit=100";
     rq_headers := []; rq_body := "" |}.

(** Binance shows pairs in upper case. *)
Definition binance_emitUpdate (key pair : string) : M Feed unit :=
  emitUpdate "binance" key pair (ToUpper pair).

Definition refreshSnapshot (restBase pair key : string) : M Feed (option error) :=
  let rq := snapshot_request restBase pair in
  match parse_url (rq_url rq) with
  | Some e => mret (Some e)
  | None =>
      r ← fetch rq;
      match r with
      | Err e => mret (Some e)
      | Ok (rs, body) =>
          if 400 <=? rs_status rs then
            mret (Some (ErrNew ("snapshot status " +:+ FormatInt (rs_status rs))))
          else
            match Unmarshal dec_snapshotResp (snapshotResp.mk 0 [] []) body with
            | Err e => mret (Some e)
            | Ok sn =>
                on_recon key tt (ApplySnapshot (snapshotResp.Bids sn) (snapshotResp.Asks sn)) ;;
                mret None
            end
      end
  end.

(** What the handler does with a decoded event. *)
Definition on_event (restBase : string) (ev : depthEvent.t) : M Feed unit :=
  let pair := streamToPair (depthEvent.Stream ev) in
  let key := ToLower pair in
  f ← get;
  match recons f !! key with
  | None => mret tt
  | Some _ =>
      r ← on_recon key (false, false)
            (ApplyDiff (depthEvent.LastUpdateID ev) (depthEvent.Bids ev) (depthEvent.Asks ev));
      let '(ok2, gap) := r in
      if (gap : bool) then
        on_recon key tt MarkGap ;;
        e ← refreshSnapshot restBase pair key;
        match e with
        | None => emit_metric (WSGapCount "binance")
        | Some _ => mret tt
        end
      else if negb ok2 then mret tt
      else binance_emitUpdate key pair
  end.

Definition on_message (restBase msg : string) : M Feed unit :=
  match Unmarshal dec_depthEvent (depthEvent.mk "" 0 [] []) msg with
  | Err _ => mret tt
  | Ok ev => on_event restBase ev
  end.

(** [SubscribeBook]: the address dialled and the feed before its first message. *)
Definition subscribe (wsBase : string) (pairs : list string) : result (string * Feed) :=
  if (length pairs =? 0)%nat then Err (ErrNew "binance: no pairs")
  else Ok (wsBase +:+ "/" +:+ stream_path pairs,
           mkFeed _ (fold_left (λ m p, <[ToLower p := NewBookReconstructor "binance" p]> m)
                       pairs ∅) []).

(** What the goroutine does before it runs the client: for one pair, then for all. *)
Definition initial_snapshot (restBase p : string) : M Feed unit :=
  e ← refreshSnapshot restBase p (ToLower p);
  match e with
  | Some _ => mret tt
  | None => binance_emitUpdate (ToLower p) p
  end.

Definition initial_snapshots (restBase : string) (pairs : list string) : M Feed unit :=
  for_each (initial_snapshot restBase) pairs.
End binance.

(** ** Kraken *)

Section kraken.
Context `{Env, DecimalOps, JsonDiagnostics}.

(** [pairToInt], then its inverse [intToPair]: channels are numbered by the last position
    of their pair. *)
Definition pair_numbers (pairs : list string) : gmap string Z :=
  fold_left (λ m ip, <[(ip : nat * string).2 := Z.of_nat ip.1 + 1]> m)
    (imap (λ i p, (i, p)) pairs) ∅.

Definition channel_pair (pairs : list string) (id : Z) : option string :=
  fst <$> find (λ pi : string * Z, pi.2 =? id) (map_to_list (pair_numbers pairs)).

(** Kraken shows pairs as they were subscribed. *)
Definition kraken_emitUpdate (p : string) : M Feed unit := emitUpdate "kraken" p p p.

(** What an accepted message does to its pair's book. *)
Definition on_levels (p : string) (bids asks : list Level) : M Feed unit :=
  (if (0 <? length bids)%nat && (0 <? length asks)%nat then
     on_recon p tt (ApplySnapshot bids asks)
   else if (0 <? length bids)%nat then
     t ← now; _ ← on_recon p (false, false) (ApplyDiff (UnixNano_of t) bids []); mret tt
   else if (0 <? length asks)%nat then
     t ← now; _ ← on_recon p (false, false) (ApplyDiff (UnixNano_of t) [] asks); mret tt
   else mret tt) ;;
  kraken_emitUpdate p.

(** The two sides of a message; what does not decode is left as decoded so far. *)
Definition raw_levels (raw : option JVal) : list Level :=
  (Unmarshal_raw dec_levels [] raw).1.

Definition kraken_on_message (pairs : list string) (msg : string) : M Feed unit :=
  match Unmarshal (dec_slice None dec_raw) [] msg with
  | Err _ => mret tt
  | Ok arr =>
      match arr with
      | id :: b :: a :: _ :: _ =>
          match to_result (Unmarshal_raw dec_int64 0 id) with
          | Err _ => mret tt
          | Ok channelID =>
              match channel_pair pairs channelID with
              | None => mret tt
              | Some p => on_levels p (raw_levels b) (raw_levels a)
              end
          end
      | _ => mret tt
      end
  end.

Definition kraken_subscribe (pairs : list string) : result Feed :=
  if (length pairs =? 0)%nat then Err (ErrNew "kraken: no pairs")
  else Ok (mkFeed _ (fold_left (λ m p, <[p := NewBookReconstructor "kraken" p]> m) pairs ∅) []).

(** The subscription message, as [WriteJSON] encodes it. *)
Definition subscription_text (pairs : list string) : string :=
  "{" +:+ Join [quote_json "event" +:+ ":" +:+ quote_json "subscribe";
    quote_json "subscription" +:+ ":{" +:+ quote_json "name" +:+ ":" +:+ quote_json "book" +:+ ","
      +:+ quote_json "depth" +:+ ":100}";
    quote_json "pair" +:+ ":[" +:+ Join (quote_json <$> pairs) "," +:+ "]"] "," +:+ "}" +:+ byte 10.

(** What the goroutine has done when it calls [Run]: [Connect], which may fail and end it,
    then the subscription; [h] is the handler registered before. *)
Definition kraken_goroutine (wsBase : string) (pairs : list string) (h : nat)
    (dial : option error) : option WsClient.Config :=
  let client := WsClient.SetHandler h (WsClient.NewClient wsBase "kraken") in
  match dial with
  | Some _ => None
  | None => Some (WsClient.connect_then_write (subscription_text pairs) client)
  end.
End kraken.

(** ** Lemmas *)

Section lemmas.
Context `{Env, DecimalOps}.

Lemma on_recon_run {A} key (d : A) (m : M BookReconstructor A) (f : Feed) r w :
  recons f !! key = Some r →
  on_recon key d m f w =
  let '(a, r', w') := m r w in (a, mkFeed _ (<[key := r']> (recons f)) (out f), w').
Proof. unfold on_recon. by intros ->. Qed.

Lemma on_recon_same {A} key (d a : A) (m : M BookReconstructor A) (f : Feed) r w w' :
  recons f !! key = Some r → m r w = (a, r, w') → on_recon key d m f w = (a, f, w').
Proof.
  intros Hr Hm. rewrite (on_recon_run _ _ _ _ _ _ Hr), Hm, insert_id by done. by destruct f.
Qed.

(** The update that shows the book of [r]. *)
Definition update_of (shown : string) (r : BookReconstructor) (t : Time) : BookUpdate.t :=
  BookUpdate.mk _ shown
    (map book_level (BookRecon.collectLevels (map_to_list (BookRecon.bids r)) true 20))
    (map book_level (BookRecon.collectLevels (map_to_list (BookRecon.asks r)) false 20)) t.

Definition both_sides (u : BookUpdate.t) : bool :=
  (0 <? length (BookUpdate.Bids u))%nat && (0 <? length (BookUpdate.Asks u))%nat.

(** The channel's buffer after an offered update. *)
Definition offered (u : BookUpdate.t) (l : list BookUpdate.t) : list BookUpdate.t :=
  if both_sides u && (length l <? channel_capacity)%nat then l ++ [u] else l.

Lemma Lag_run (r : BookReconstructor) w :
  ∃ lag w', Lag r w = (lag, r, w') ∧ (w_now w ≤ w_now w')%nat ∧ w_http w' = w_http w.
Proof. unfold Lag. munfold. destruct (Time_IsZero _); eexists _, _; split_and!; try done; simpl; lia. Qed.

Lemma emitUpdate_run v key pair shown (f : Feed) r w :
  recons f !! key = Some r →
  ∃ w', emitUpdate v key pair shown f w =
          (tt, mkFeed _ (recons f) (offered (update_of shown r (env_now (w_now w))) (out f)), w') ∧
        (w_now w ≤ w_now w')%nat ∧ w_http w' = w_http w.
Proof.
  intros Hr. unfold emitUpdate.
  erewrite M_bind_run by (eapply on_recon_same; [done|reflexivity]).
  erewrite M_bind_run by reflexivity. cbv zeta.
  change (BookUpdate.mk _ _ _ _ _) with (update_of shown r (env_now (w_now w))).
  set (u := update_of _ _ _). fold (both_sides u). unfold offered. destruct (both_sides u); cbn [andb].
  2: { eexists. split_and!; [by destruct f|simpl; lia|done]. }
  destruct (Lag_run r (mkWorld (S (w_now w)) (w_uuid w) (w_rand w) (w_ctx w) (w_http w)
                         (w_kafka w) (w_metrics w))) as (lag & w1 & Hl & Hn & Hh).
  erewrite M_bind_run by (eapply on_recon_same; [done|exact Hl]).
  exists (emit_metric (S := unit) (WSBookLagSeconds v pair lag) tt w1).2.
  split_and!; [|cbn in *; lia|exact Hh].
  unfold try_send, modify, mbind, M_bind, emit_metric.
  destruct (_ <? _)%nat; [done|by destruct f].
Qed.

Lemma refreshSnapshot_run `{UnicodeTables, GoLib, JsonDiagnostics} rest p key (f : Feed) r w :
  recons f !! key = Some r →
  ∃ e r' w', refreshSnapshot rest p key f w = (e, mkFeed _ (<[key := r']> (recons f)) (out f), w') ∧
    (w_now w ≤ w_now w')%nat ∧ w_metrics w' = w_metrics w ∧
    match e with
    | Some _ => r' = r
    | None => ∃ sn, r' = (ApplySnapshot (snapshotResp.Bids sn) (snapshotResp.Asks sn) r w).1.2
    end.
Proof.
  intros Hr.
  assert (Hsame : f = mkFeed _ (<[key := r]> (recons f)) (out f))
    by (rewrite insert_id by done; by destruct f).
  unfold refreshSnapshot. destruct (parse_url _) as [e|].
  { exists (Some e), r, w. rewrite <- Hsame. by split_and!. }
  destruct (fetch_run (snapshot_request rest p) f w) as (x & w1 & Hf & _ & Hn & _ & _ & Hm & _).
  erewrite M_bind_run by exact Hf.
  destruct x as [[rs body]|e]; [|exists (Some e), r, w1; rewrite <- Hsame; split_and!; auto; lia].
  destruct (400 <=? rs_status rs); [eexists (Some _), r, w1; rewrite <- Hsame; split_and!; auto; lia|].
  destruct (Unmarshal _ _ _) as [sn|e];
    [|exists (Some e), r, w1; rewrite <- Hsame; split_and!; auto; lia].
  eexists None, _, _. split_and!.
  - erewrite M_bind_run by (erewrite on_recon_run by done; reflexivity). reflexivity.
  - simpl. lia.
  - done.
  - exists sn. unfold ApplySnapshot. munfold. by rewrite Hn.
Qed.

Lemma offered_bound u l :
  (length l ≤ channel_capacity)%nat → (length (offered u l) ≤ channel_capacity)%nat.
Proof.
  unfold offered. destruct (both_sides u), (Nat.ltb_spec (length l) channel_capacity); simpl;
    rewrite ?length_app; simpl; lia.
Qed.

Lemma offered_both u l :
  Forall (λ u, both_sides u = true) l → Forall (λ u, both_sides u = true) (offered u l).
Proof.
  unfold offered. destruct (both_sides u) eqn:Hb; [|done]. destruct (_ <? _)%nat; [|done].
  intros. apply Forall_app. split; [done|by constructor].
Qed.
End lemmas.

(** What can happen to a feed, in any order: the transport delivers a message, a pair's
    first snapshot is taken, the subscriber takes the oldest update. *)
Inductive feed_step `{Env, DecimalOps} (handle start : string → M Feed unit) :
    Feed * World → Feed * World → Prop :=
| step_message msg f w :
    feed_step handle start (f, w) ((handle msg f w).1.2, (handle msg f w).2)
| step_start p f w :
    feed_step handle start (f, w) ((start p f w).1.2, (start p f w).2)
| step_receive f w u l :
    out f = u :: l → feed_step handle start (f, w) (mkFeed _ (recons f) l, w).

(** A well-formed feed for the keys [ks]: the channel holds at most its capacity of
    updates, each with both sides, and the reconstructors are those of the keys. *)
Definition feed_ok `{DecimalOps} (ks : gset string) (f : Feed) : Prop :=
  (length (out f) ≤ channel_capacity)%nat ∧
  Forall (λ u, both_sides u = true) (out f) ∧ dom (recons f) = ks.

Section feed_lemmas.
Context `{Env, DecimalOps}.

Context (ks : gset string).

Lemma keeps_on_recon {A} key (d : A) m : keeps (feed_ok ks) (on_recon key d m).
Proof.
  intros f w (Hl & Hb & Hd). unfold on_recon.
  destruct (recons f !! key) as [r|] eqn:Hr; [|done].
  destruct (m r w) as [[a r'] w']. split_and!; simpl; [done..|].
  rewrite dom_insert_L. apply elem_of_dom_2 in Hr. set_solver.
Qed.

Lemma keeps_emitUpdate v key p shown : keeps (feed_ok ks) (emitUpdate v key p shown).
Proof.
  intros f w Hf. destruct (recons f !! key) as [r|] eqn:Hr.
  - destruct (emitUpdate_run v key p shown f r w Hr) as (w' & -> & _).
    destruct Hf as (Hl & Hb & Hd).
    split_and!; simpl; auto using offered_bound, offered_both.
  - unfold emitUpdate, mbind, M_bind, on_recon. by rewrite Hr.
Qed.

Context `{UnicodeTables, GoLib, JsonDiagnostics}.

Lemma keeps_refreshSnapshot rest p key : keeps (feed_ok ks) (refreshSnapshot rest p key).
Proof.
  unfold refreshSnapshot. destruct (parse_url _); [apply keeps_ret|].
  apply keeps_bind; [by intros f w; unfold fetch; munfold|].
  intros [[rs body]|e]; [|apply keeps_ret].
  destruct (400 <=? _); [apply keeps_ret|].
  destruct (Unmarshal _ _ _); [|apply keeps_ret].
  apply keeps_bind; [apply keeps_on_recon|intros; apply keeps_ret].
Qed.
End feed_lemmas.

#[export] Hint Resolve keeps_on_recon keeps_emitUpdate keeps_refreshSnapshot : keeps.

Section step_lemmas.
Context `{Env, DecimalOps, UnicodeTables, GoLib, JsonDiagnostics}.

Context (ks : gset string).

Lemma keeps_on_message rest msg : keeps (feed_ok ks) (on_message rest msg).
Proof.
  unfold on_message. destruct (Unmarshal _ _ _) as [ev|]; [|auto with keeps].
  unfold on_event, binance_emitUpdate. apply keeps_bind; [by intros f w|]. intros f.
  destruct (recons f !! _); [|auto with keeps].
  apply keeps_bind; [auto with keeps|]. intros [ok2 []]; [|destruct ok2; simpl; auto with keeps].
  apply keeps_bind; [auto with keeps|]. intros _.
  apply keeps_bind; [auto with keeps|]. intros []; auto with keeps.
Qed.

Lemma keeps_initial_snapshot rest p : keeps (feed_ok ks) (initial_snapshot rest p).
Proof.
  unfold initial_snapshot, binance_emitUpdate. apply keeps_bind; [auto with keeps|].
  intros []; auto with keeps.
Qed.

Lemma keeps_kraken_on_message pairs msg : keeps (feed_ok ks) (kraken_on_message pairs msg).
Proof.
  unfold kraken_on_message. destruct (Unmarshal _ _ _) as [arr|]; [|auto with keeps].
  do 4 (destruct arr as [|? arr]; [auto with keeps|]).
  destruct (to_result _); [|auto with keeps].
  destruct (channel_pair _ _); [|auto with keeps].
  unfold on_levels, kraken_emitUpdate. apply keeps_bind; [|auto with keeps].
  destruct (_ && _); [auto with keeps|].
  repeat (case_match; auto with keeps).
Qed.

Lemma steps_keep handle start x y :
  (∀ msg, keeps (feed_ok ks) (handle msg)) → (∀ p, keeps (feed_ok ks) (start p)) →
  rtc (feed_step handle start) x y → feed_ok ks x.1 → feed_ok ks y.1.
Proof.
  intros Hh Hs. induction 1 as [|x y z Hxy _ IH]; [done|]. intros Hx. apply IH. clear IH.
  destruct Hxy as [msg f w|p f w|f w u l Hu]; [by apply Hh|by apply Hs|].
  destruct Hx as (Hl & Hb & Hd). simpl in *. rewrite Hu in *.
  split_and!; simpl; [simpl in Hl; lia|by inversion Hb|done].
Qed.
End step_lemmas.

(** ** Binance: what an event does *)

Section binance_lemmas.
Context `{Env, DecimalOps, UnicodeTables, GoLib, JsonDiagnostics}.

Definition event_key (ev : depthEvent.t) : string := ToLower (streamToPair (depthEvent.Stream ev)).

(** Is the event's number beyond the next one of [r]? *)
Definition leaves_gap (ev : depthEvent.t) (r : BookReconstructor) : Prop :=
  0 < BookRecon.lastSeq r < int64_max ∧
  BookRecon.lastSeq r + 1 < depthEvent.LastUpdateID ev ≤ int64_max.

Lemma ApplyDiff_gap ev (r : BookReconstructor) w :
  leaves_gap ev r →
  ApplyDiff (depthEvent.LastUpdateID ev) (depthEvent.Bids ev) (depthEvent.Asks ev) r w =
  (false, true, r, w).
Proof.
  intros [Hr Hs]. rewrite BookRecon.ApplyDiff_run by lia.
  by rewrite decide_False, bool_decide_eq_true_2 by lia.
Qed.

(** The reconstructor after [MarkGap]. *)
Definition gap_marked (r : BookReconstructor) : BookReconstructor :=
  BookRecon.mk (BookRecon.venue r) (BookRecon.pair r) (BookRecon.bids r) (BookRecon.asks r) 0
    (BookRecon.lastUpdate r) (BookRecon.snapshotTTL r).

Lemma on_event_gap rest ev (f : Feed) r w :
  recons f !! event_key ev = Some r → leaves_gap ev r →
  on_event rest ev f w =
  (e ← refreshSnapshot rest (streamToPair (depthEvent.Stream ev)) (event_key ev);
   match e with None => emit_metric (WSGapCount "binance") | Some _ => mret tt end)
    (mkFeed _ (<[event_key ev := gap_marked r]> (recons f)) (out f))
    (emit_metric (S := unit) (WSGapCount (BookRecon.venue r)) tt w).2.
Proof.
  intros Hr Hg. unfold on_event. erewrite M_bind_run by reflexivity.
  fold (event_key ev). rewrite Hr.
  erewrite M_bind_run by (eapply on_recon_same; [done|by apply ApplyDiff_gap]).
  cbv beta iota zeta. erewrite M_bind_run; [reflexivity|].
  rewrite (on_recon_run _ _ _ _ _ _ Hr). unfold MarkGap. by munfold.
Qed.

(** An event whose diff is applied publishes the resulting book. *)
Lemma on_event_applied rest ev (f : Feed) r r' w w1 :
  recons f !! event_key ev = Some r →
  ApplyDiff (depthEvent.LastUpdateID ev) (depthEvent.Bids ev) (depthEvent.Asks ev) r w =
    (true, false, r', w1) →
  ∃ w', on_event rest ev f w =
    (tt, mkFeed _ (<[event_key ev := r']> (recons f))
           (offered (update_of (ToUpper (streamToPair (depthEvent.Stream ev))) r'
                       (env_now (w_now w1))) (out f)), w') ∧
    (w_now w1 ≤ w_now w')%nat ∧ w_http w' = w_http w1.
Proof.
  intros Hr Ha. unfold on_event, binance_emitUpdate. erewrite M_bind_run by reflexivity.
  fold (event_key ev). rewrite Hr.
  erewrite M_bind_run by (rewrite (on_recon_run _ _ _ _ _ _ Hr), Ha; reflexivity).
  cbv beta iota zeta. cbn [negb].
  edestruct (emitUpdate_run "binance" (event_key ev) (streamToPair (depthEvent.Stream ev))
    (ToUpper (streamToPair (depthEvent.Stream ev)))
    (mkFeed _ (<[event_key ev := r']> (recons f)) (out f)) r' w1) as (w' & -> & Hn & Hh);
    [apply lookup_insert_eq|]. by exists w'.
Qed.

(** A reconstructor without a number takes any diff, one with a number the next one. *)
Lemma ApplyDiff_applied sq bs as_ (r : BookReconstructor) w :
  BookRecon.lastSeq r = 0 ∨
    0 < BookRecon.lastSeq r ∧ sq = BookRecon.lastSeq r + 1 ∧ sq ≤ int64_max →
  ApplyDiff sq bs as_ r w =
  (true, false,
   BookRecon.mk (BookRecon.venue r) (BookRecon.pair r)
     (fold_left BookRecon.diff_level bs (BookRecon.bids r))
     (fold_left BookRecon.diff_level as_ (BookRecon.asks r)) sq (env_now (w_now w))
     (BookRecon.snapshotTTL r),
   (now (S := unit) tt w).2).
Proof.
  intros [Hz|(Hp & -> & Hm)].
  - unfold ApplyDiff. munfold. by rewrite Hz.
  - rewrite BookRecon.ApplyDiff_run by lia. by rewrite decide_True.
Qed.

Lemma subscribed_dom (g : string → string) v pairs (m : gmap string BookReconstructor) :
  dom (fold_left (λ m p, <[g p := NewBookReconstructor v p]> m) pairs m) =
  list_to_set (map g pairs) ∪ dom m.
Proof.
  revert m. induction pairs as [|p ps IH]; intros m; simpl; [set_solver|].
  rewrite IH, dom_insert_L. set_solver.
Qed.

Lemma refreshSnapshot_fails rest p key (f : Feed) w e :
  env_http (length (w_http w)) (snapshot_request rest p) = Err e →
  ∃ e' w', refreshSnapshot rest p key f w = (Some e', f, w') ∧ w_metrics w' = w_metrics w.
Proof.
  intros He. unfold refreshSnapshot. destruct (parse_url _) as [e'|]; [by eexists _, _|].
  unfold fetch. munfold. rewrite He. by eexists _, _.
Qed.
End binance_lemmas.

(** ** Streams of messages *)

Section streams.
Context `{Env, DecimalOps, UnicodeTables, GoLib, JsonDiagnostics}.

Lemma offered_extends u l : ∃ us, offered u l = l ++ us ∧ (length us ≤ 1)%nat ∧ Forall (eq u) us.
Proof.
  unfold offered. destruct (_ && _); [by exists [u]; split_and!; auto|].
  exists []. rewrite app_nil_r. split_and!; auto.
Qed.

Lemma on_events_run rest key evs : ∀ (f : Feed) r w,
  recons f !! key = Some r → 0 < BookRecon.lastSeq r →
  BookRecon.lastSeq r + Z.of_nat (length evs) ≤ int64_max →
  (∀ i ev, evs !! i = Some ev →
     event_key ev = key ∧ depthEvent.LastUpdateID ev = BookRecon.lastSeq r + 1 + Z.of_nat i) →
  let '(_, f', w') := for_each (on_event rest) evs f w in
  w_http w' = w_http w ∧ (∃ us, out f' = out f ++ us ∧ (length us ≤ length evs)%nat) ∧
  ∃ r', recons f' !! key = Some r' ∧
    BookRecon.lastSeq r' = BookRecon.lastSeq r + Z.of_nat (length evs) ∧
    (∀ p, BookRecon.abook_of (BookRecon.bids r') p =
       BookRecon.abook_diff (mjoin (depthEvent.Bids <$> evs))
         (BookRecon.abook_of (BookRecon.bids r)) p) ∧
    (∀ p, BookRecon.abook_of (BookRecon.asks r') p =
       BookRecon.abook_diff (mjoin (depthEvent.Asks <$> evs))
         (BookRecon.abook_of (BookRecon.asks r)) p).
Proof.
  induction evs as [|ev evs IH]; intros f r w Hr Hpos Hmax Hevs.
  { simpl. split_and!; [done|exists []; by rewrite app_nil_r|]. exists r.
    split_and!; [done|lia|done..]. }
  destruct (Hevs 0%nat ev eq_refl) as [Hk Hs]. cbn [length] in Hmax.
  cbn [for_each].
  edestruct (on_event_applied rest ev f r) as (w1 & Hrun & Hn & Hh).
  { by rewrite Hk. }
  { apply ApplyDiff_applied. right. split_and!; lia. }
  erewrite M_bind_run by exact Hrun. clear Hrun.
  set (r1 := BookRecon.mk _ _ _ _ _ _ _) in *. set (f1 := mkFeed _ _ _).
  specialize (IH f1 r1 w1).
  destruct (for_each (on_event rest) evs f1 w1) as [[[] f2] w2].
  destruct IH as (Hh2 & (us & Hus & Hlen) & r2 & Hr2 & Hseq & Hb & Ha).
  { subst f1. simpl. rewrite <- Hk. apply lookup_insert_eq. }
  { simpl. lia. }
  { simpl. lia. }
  { intros i ev' Hi. destruct (Hevs (S i) ev' Hi) as [Hk' Hs']. split; [done|]. simpl. lia. }
  split_and!; [by rewrite Hh2, Hh|..].
  - subst f1. simpl in Hus. edestruct offered_extends as (us1 & Hus1 & Hl1 & _).
    rewrite Hus1, <- app_assoc in Hus. exists (us1 ++ us). split; [done|].
    rewrite length_app. simpl. lia.
  - exists r2. split_and!; [done|simpl in Hseq; simpl length; lia|..]; intros p.
    + rewrite Hb. cbn. rewrite BookRecon.abook_diff_app.
      apply BookRecon.abook_diff_ext, BookRecon.diff_levels_lookup.
    + rewrite Ha. cbn. rewrite BookRecon.abook_diff_app.
      apply BookRecon.abook_diff_ext, BookRecon.diff_levels_lookup.
Qed.

(** One one-sided message for a numbered reconstructor, while the clock is past it. *)
Lemma on_levels_one p bids asks (f : Feed) r w :
  recons f !! p = Some r → 0 < BookRecon.lastSeq r < int64_max →
  (∀ i, (w_now w ≤ i)%nat → BookRecon.lastSeq r + 1 < UnixNano_of (env_now i) ≤ int64_max) →
  length bids = 0%nat ∨ length asks = 0%nat →
  ∃ t w', on_levels p bids asks f w =
    (tt, mkFeed _ (recons f) (offered (update_of p r t) (out f)), w') ∧ (w_now w ≤ w_now w')%nat.
Proof.
  intros Hr Hpos Hclk Hone.
  assert (Hdiff : ∀ bs as_, ∃ b, ∀ w0,
    ApplyDiff (UnixNano_of (env_now (w_now w))) bs as_ r w0 = (b, r, w0)).
  { intros bs as_. exists (false, true). intros w0. specialize (Hclk (w_now w) ltac:(lia)).
    rewrite BookRecon.ApplyDiff_run by lia. by rewrite decide_False, bool_decide_eq_true_2 by lia. }
  assert (Hside : ∀ bs as_, ∃ w1,
    (t ← now; _ ← on_recon p (false, false) (ApplyDiff (UnixNano_of t) bs as_); mret tt) f w =
    (tt, f, w1) ∧ (w_now w ≤ w_now w1)%nat).
  { intros bs as_. destruct (Hdiff bs as_) as [b Hb]. eexists. split.
    - erewrite M_bind_run by reflexivity.
      erewrite M_bind_run by (eapply on_recon_same; [done|apply Hb]). reflexivity.
    - simpl. lia. }
  assert (∃ w1, (if (0 <? length bids)%nat && (0 <? length asks)%nat then
     on_recon p tt (ApplySnapshot bids asks)
   else if (0 <? length bids)%nat then
     t ← now; _ ← on_recon p (false, false) (ApplyDiff (UnixNano_of t) bids []); mret tt
   else if (0 <? length asks)%nat then
     t ← now; _ ← on_recon p (false, false) (ApplyDiff (UnixNano_of t) [] asks); mret tt
   else mret tt) f w = (tt, f, w1) ∧ (w_now w ≤ w_now w1)%nat) as (w1 & Hw1 & Hn1).
  { destruct (Nat.ltb_spec 0 (length bids)), (Nat.ltb_spec 0 (length asks)); simpl;
      [lia|apply Hside..|by eexists]. }
  unfold on_levels, kraken_emitUpdate. erewrite M_bind_run by exact Hw1.
  destruct (emitUpdate_run "kraken" p p p f r w1 Hr) as (w2 & -> & Hn2 & _).
  eexists _, _. split; [done|lia].
Qed.

Lemma offered_length u l :
  both_sides u = true → (length (offered u l) =
    Nat.max (length l) (Nat.min channel_capacity (length l + 1)))%nat.
Proof.
  intros Hu. unfold offered. rewrite Hu. cbn [andb].
  destruct (Nat.ltb_spec (length l) channel_capacity); rewrite ?length_app; cbn [length]; lia.
Qed.

Lemma on_levels_stale p msgs : ∀ (f : Feed) r w,
  recons f !! p = Some r → 0 < BookRecon.lastSeq r < int64_max →
  (∀ i, (w_now w ≤ i)%nat → BookRecon.lastSeq r + 1 < UnixNano_of (env_now i) ≤ int64_max) →
  Forall (λ m, length m.1 = 0%nat ∨ length m.2 = 0%nat) msgs →
  let '(_, f', _) := for_each (λ m : list Level * list Level, on_levels p m.1 m.2) msgs f w in
  recons f' = recons f ∧
  ∃ us, out f' = out f ++ us ∧ Forall (λ u, ∃ t, u = update_of p r t) us ∧
    (both_sides (update_of p r 0) = true →
     length (out f') = Nat.max (length (out f))
                         (Nat.min channel_capacity (length (out f) + length msgs))).
Proof.
  induction msgs as [|m msgs IH]; intros f r w Hr Hpos Hclk Hone.
  { split; [done|]. exists []. rewrite app_nil_r. split_and!; [done..|]. intros _. cbn [length]. lia. }
  inversion Hone as [|m0 l0 Hm Hms]; subst. cbn [for_each].
  destruct (on_levels_one p m.1 m.2 f r w Hr Hpos Hclk Hm) as (t & w1 & Hrun & Hn).
  erewrite M_bind_run by exact Hrun. set (f1 := mkFeed _ _ _).
  specialize (IH f1 r w1 Hr Hpos ltac:(intros; apply Hclk; lia) Hms).
  destruct (for_each _ msgs f1 w1) as [[[] f2] w2].
  destruct IH as (Hrec & us & Hus & Hall & Hlen). split; [done|].
  destruct (offered_extends (update_of p r t) (out f)) as (us1 & Hus1 & _ & Heq).
  exists (us1 ++ us). cbn [out f1] in Hus, Hlen. rewrite Hus1, <- app_assoc in Hus.
  split_and!; [done| |].
  - apply Forall_app. split; [|done]. eapply Forall_impl; [exact Heq|]. intros u <-. by exists t.
  - intros Hb. rewrite (Hlen Hb), offered_length by exact Hb. cbn [length]. lia.
Qed.
End streams.

(** ** The subscription message *)

Lemma subscription_parses (pairs : list string) :
  parse_json (subscription_text pairs) =
  Some (JObj [("event", JStr "subscribe");
              ("subscription", JObj [("name", JStr "book"); ("depth", JNum "100")]);
              ("pair", JArr ((λ p, JStr (json_string p)) <$> pairs))]).
Proof.
  set (subscription := "{" +:+ Join (member <$> [("name", quote_json "book"); ("depth", "100")]) ","
                         +:+ "}").
  set (pair := "[" +:+ Join (quote_json <$> pairs) "," +:+ "]").
  set (tx := "{" +:+ Join (member <$> [("event", quote_json "subscribe");
                 ("subscription", subscription); ("pair", pair)]) "," +:+ "}").
  assert (subscription_text pairs = tx +:+ byte 10) as ->.
  { unfold subscription_text, tx, pair. cbn [fmap list_fmap Join]. unfold member; simpl fst; simpl snd.
    by rewrite !string_app_assoc. }
  apply (parse_json_encodes 2 tx _ true); [|done].
  apply (encodes_object 1); [done|].
  constructor; [split; [done|by apply (encodes_deeper 0); [apply encodes_string|]]|].
  constructor; [split; [done|]|constructor; [split; [done|]|constructor]].
  - apply (encodes_object 0); [done|].
    constructor; [split; [done|apply encodes_string]|].
    constructor; [split; [done|apply encodes_100]|constructor].
  - apply (encodes_array 0); [done|]. apply Forall2_fmap_l, Forall2_fmap_r.
    induction pairs as [|p pairs IH]; constructor; [apply encodes_string|done].
Qed.

(** ** Properties *)

Section properties.
Context `{Env, DecimalOps, UnicodeTables, GoLib, JsonDiagnostics}.

(** whatever messages arrive, in whatever order with first snapshots and receptions, the
    channel of a feed never holds more than its 64 updates, every update in it shows both
    sides of a book, and the reconstructors stay those of the subscribed pairs. *)
Theorem feeds_stay_well_formed (pairs : list string) (w : World) :
  (∀ wsBase rest url f y, subscribe wsBase pairs = Ok (url, f) →
     rtc (feed_step (on_message rest) (initial_snapshot rest)) (f, w) y →
     feed_ok (list_to_set (map ToLower pairs)) y.1) ∧
  (∀ f y, kraken_subscribe pairs = Ok f →
     rtc (feed_step (kraken_on_message pairs) (λ _, mret tt)) (f, w) y →
     feed_ok (list_to_set pairs) y.1).
Proof.
  split.
  - intros wsBase rest url f y Hs Hy. eapply steps_keep; [..|exact Hy|].
    + apply keeps_on_message.
    + apply keeps_initial_snapshot.
    + unfold subscribe in Hs. destruct (_ =? _)%nat; simplify_eq.
      split_and!; simpl; [lia|constructor|]. rewrite subscribed_dom. set_solver.
  - intros f y Hs Hy. eapply steps_keep; [..|exact Hy|].
    + apply keeps_kraken_on_message.
    + intros p0. apply keeps_ret.
    + unfold kraken_subscribe in Hs. destruct (_ =? _)%nat; simplify_eq.
      split_and!; simpl; [lia|constructor|].
      rewrite (subscribed_dom (λ p, p)), map_id. set_solver.
Qed.


(** when the snapshot cannot be fetched after a gap, the next event of any number is applied
    on top of the stale book, and the result is published. *)
Theorem binance_failed_refresh_publishes_stale (rest : string) (ev ev2 : depthEvent.t)
    (f : Feed) (r : BookReconstructor) (w : World) (e : error) :
  recons f !! event_key ev = Some r → leaves_gap ev r → event_key ev2 = event_key ev →
  env_http (length (w_http w)) (snapshot_request rest (streamToPair (depthEvent.Stream ev))) =
    Err e →
  let '(_, f', _) := (on_event rest ev ;; on_event rest ev2) f w in
  ∃ r' t, recons f' !! event_key ev = Some r' ∧
    BookRecon.bids r' = fold_left BookRecon.diff_level (depthEvent.Bids ev2) (BookRecon.bids r) ∧
    BookRecon.asks r' = fold_left BookRecon.diff_level (depthEvent.Asks ev2) (BookRecon.asks r) ∧
    BookRecon.lastSeq r' = depthEvent.LastUpdateID ev2 ∧
    out f' = offered (update_of (ToUpper (streamToPair (depthEvent.Stream ev2))) r' t) (out f).
Proof.
  intros Hr Hg Hk He.
  destruct (refreshSnapshot_fails rest (streamToPair (depthEvent.Stream ev)) (event_key ev)
    (mkFeed _ (<[event_key ev := gap_marked r]> (recons f)) (out f))
    (emit_metric (S := unit) (WSGapCount (BookRecon.venue r)) tt w).2 e He)
    as (e' & w1 & Hrun & _).
  erewrite M_bind_run; cycle 1.
  { rewrite (on_event_gap _ _ _ _ _ Hr Hg). erewrite M_bind_run by exact Hrun. reflexivity. }
  edestruct (on_event_applied rest ev2
    (mkFeed _ (<[event_key ev := gap_marked r]> (recons f)) (out f))) as (w2 & -> & _).
  - rewrite Hk. apply lookup_insert_eq.
  - apply ApplyDiff_applied. by left.
  - eexists _, _. simpl. rewrite Hk, lookup_insert_eq. by split_and!.
Qed.

(** C10: a stream of consecutively numbered Binance events leaves exactly the book that applying
    all their levels to the book before gives, fetches nothing, and publishes only what it
    appends to the channel. *)
Theorem binance_consecutive_stream (rest key : string) (evs : list depthEvent.t) (f : Feed)
    (r : BookReconstructor) (w : World) :
  recons f !! key = Some r → 0 < BookRecon.lastSeq r →
  BookRecon.lastSeq r + Z.of_nat (length evs) ≤ int64_max →
  (∀ i ev, evs !! i = Some ev →
     event_key ev = key ∧ depthEvent.LastUpdateID ev = BookRecon.lastSeq r + 1 + Z.of_nat i) →
  let '(_, f', w') := for_each (on_event rest) evs f w in
  w_http w' = w_http w ∧ (∃ us, out f' = out f ++ us ∧ (length us ≤ length evs)%nat) ∧
  ∃ r', recons f' !! key = Some r' ∧
    BookRecon.lastSeq r' = BookRecon.lastSeq r + Z.of_nat (length evs) ∧
    (∀ p, BookRecon.abook_of (BookRecon.bids r') p =
       BookRecon.abook_diff (mjoin (depthEvent.Bids <$> evs))
         (BookRecon.abook_of (BookRecon.bids r)) p) ∧
    (∀ p, BookRecon.abook_of (BookRecon.asks r') p =
       BookRecon.abook_diff (mjoin (depthEvent.Asks <$> evs))
         (BookRecon.abook_of (BookRecon.asks r)) p).
Proof. apply on_events_run. Qed.

(** Kraken's subscription is the right message on the wrong connection: it reads back as
    the subscription to the book of exactly the pairs, in order, but whatever happens
    afterwards it was written on the first connection only, and no message that is handed to
    the handler was read from a connection on which it was written. *)
Theorem kraken_subscription_is_lost (wsBase : string) (pairs : list string) (h : nat)
    (evs : list WsClient.Event) (c0 c : WsClient.Config) :
  kraken_goroutine wsBase pairs h None = Some c0 →
  WsClient.client_run evs c0 = Some c → Forall (λ ev, ∀ m, ev ≠ WsClient.EvWrite m) evs →
  (∃ msg, WsClient.written c = [(0%nat, msg)] ∧
     parse_json msg =
     Some (JObj [("event", JStr "subscribe");
                 ("subscription", JObj [("name", JStr "book"); ("depth", JNum "100")]);
                 ("pair", JArr ((λ p, JStr (json_string p)) <$> pairs))])) ∧
  Forall (λ d, ∀ m, (d.1.2, m) ∉ WsClient.written c) (WsClient.delivered c).
Proof.
  intros [= <-] Hr Hevs. destruct (WsClient.written_unread _ _ _ _ Hr Hevs) as [Hw Hd].
  split; [|done]. eexists. split; [exact Hw|]. apply subscription_parses.
Qed.

(** one of Kraken's one-sided messages is numbered by the clock, so once a reconstructor has a
    number no later one is ever applied: the book stays the same for ever, and that stale
    book is published again for every message. *)
Theorem kraken_later_diffs_never_apply (p : string) (msgs : list (list Level * list Level))
    (f : Feed) (r : BookReconstructor) (w : World) :
  recons f !! p = Some r → 0 < BookRecon.lastSeq r < int64_max →
  (∀ i, (w_now w ≤ i)%nat → BookRecon.lastSeq r + 1 < UnixNano_of (env_now i) ≤ int64_max) →
  Forall (λ m, length m.1 = 0%nat ∨ length m.2 = 0%nat) msgs →
  let '(_, f', _) := for_each (λ m, on_levels p m.1 m.2) msgs f w in
  recons f' = recons f ∧
  ∃ us, out f' = out f ++ us ∧ Forall (λ u, ∃ t, u = update_of p r t) us ∧
    (both_sides (update_of p r 0) = true →
     length (out f') = Nat.max (length (out f))
                         (Nat.min channel_capacity (length (out f) + length msgs))).
Proof. apply on_levels_stale. Qed.
End properties.

(** ** Concrete runs *)

Section witnesses.
#[local] Existing Instance exact_ops.
#[local] Existing Instance ascii_tables.
#[local] Existing Instance plain_lib.
#[local] Existing Instance plain_diagnostics.

(** The clock starts five seconds after the epoch; no request is answered. *)
Definition feed_env : Env := quiet_env (unix_epoch + 5 * Second) Second.
#[local] Existing Instance feed_env.

Definition sample_recon (sq : Z) : BookReconstructor :=
  BookRecon.mk "binance" "btcusdt" {["99" := "1"]} {["101" := "2"]} sq unix_epoch Second.

Definition sample_feed (key : string) (sq : Z) : Feed := mkFeed _ {[key := sample_recon sq]} [].

Definition sample_event (sq : Z) : depthEvent.t :=
  depthEvent.mk "btcusdt@depth" sq [("99", "3"); ("98", "1")] [("101", "0"); ("102", "4")].

(** The text of an event, as the websocket delivers it. *)
Definition sample_message : string := quoted_text
  "{`stream`:`btcusdt@depth`,`data`:{`lastUpdateId`:8,`bids`:[[`99`,`3`]],`asks`:[[`101`,`0`],[`102`,`4`]]}}".

Example sample_message_applied :
  let '(_, f', _) := on_message "https://b" sample_message (sample_feed "btcusdt" 7) World_init in
  length (out f') = 1%nat ∧ (BookRecon.lastSeq <$> recons f' !! "btcusdt") = Some 8 ∧
  ((λ r, BookRecon.asks r !! "101") <$> recons f' !! "btcusdt") = Some None.
Proof. vm_compute. by split_and!. Qed.

Lemma feeds_stay_well_formed_witness :
  ∃ url f, subscribe "wss://b" ["BTCUSDT"] = Ok (url, f) ∧ url = "wss://b/btcusdt@depth" ∧
  feed_ok {["btcusdt"]} (on_message "https://b" sample_message f World_init).1.2.
Proof.
  eexists _, _. split; [reflexivity|]. split; [reflexivity|].
  destruct (feeds_stay_well_formed ["BTCUSDT"] World_init) as [Hb _].
  specialize (Hb "wss://b" "https://b" _ _ _ eq_refl
    (rtc_once _ _ (step_message _ _ sample_message _ _))).
  replace ({["btcusdt"]} : gset string) with (list_to_set (map ToLower ["BTCUSDT"]) : gset string)
    by (vm_compute; reflexivity).
  exact Hb.
Defined.

Lemma sample_leaves_gap : leaves_gap (sample_event 12) (sample_recon 7).
Proof. unfold leaves_gap, int64_max. simpl. lia. Qed.


Definition two_events : M Feed unit :=
  on_event "https://b" (sample_event 12) ;; on_event "https://b" (sample_event 40).

Lemma binance_failed_refresh_publishes_stale_witness :
  let '(_, f', _) := two_events (sample_feed "btcusdt" 7) World_init in
  ∃ r', recons f' !! "btcusdt" = Some r' ∧ BookRecon.lastSeq r' = 40 ∧
    BookRecon.bids r' !! "99" = Some "3" ∧ length (out f') = 1%nat.
Proof.
  pose proof (binance_failed_refresh_publishes_stale "https://b" (sample_event 12)
    (sample_event 40) (sample_feed "btcusdt" 7) (sample_recon 7) World_init
    (ErrNew "connection refused") eq_refl sample_leaves_gap eq_refl eq_refl) as Hg.
  fold two_events in Hg. destruct (two_events _ _) as [[[] f'] w'] eqn:Hr.
  destruct Hg as (r' & t & Hl & Hb & _ & Hs & _). exists r'.
  split_and!; [exact Hl|exact Hs|by rewrite Hb|].
  change f' with (tt, f', w').1.2. rewrite <- Hr. vm_compute. reflexivity.
Defined.

Lemma binance_consecutive_stream_witness :
  let '(_, f', w') := for_each (on_event "https://b") [sample_event 8; sample_event 9]
                        (sample_feed "btcusdt" 7) World_init in
  w_http w' = [] ∧ ∃ r', recons f' !! "btcusdt" = Some r' ∧ BookRecon.lastSeq r' = 9 ∧
    BookRecon.asks r' !! "101" = None.
Proof.
  pose proof (binance_consecutive_stream "https://b" "btcusdt" [sample_event 8; sample_event 9]
    (sample_feed "btcusdt" 7) (sample_recon 7) World_init eq_refl ltac:(done) ltac:(done)) as Hg.
  destruct (for_each _ _ _ _) as [[[] f'] w'].
  destruct Hg as (Hh & _ & r' & Hr & Hs & _ & Ha).
  { intros [|[|i]] ev [= <-]; done. }
  split; [exact Hh|]. exists r'. split_and!; [exact Hr|exact Hs|].
  specialize (Ha "101"). unfold BookRecon.abook_of in Ha. rewrite Ha. reflexivity.
Defined.

Lemma kraken_subscription_is_lost_witness :
  ∃ c0 c, kraken_goroutine "wss://k" ["XBT/USD"] 3 None = Some c0 ∧
    WsClient.client_run [WsClient.EvGo; WsClient.EvGo; WsClient.EvDial None None 0; WsClient.EvGo;
      WsClient.EvRead (Ok "hello")] c0 = Some c ∧
    WsClient.delivered c = [(3%nat, 1%nat, "hello")] ∧
    length (WsClient.written c) = 1%nat.
Proof.
  eexists _, _. split; [reflexivity|]. split; [vm_compute; reflexivity|]. split; [reflexivity|].
  edestruct (kraken_subscription_is_lost "wss://k" ["XBT/USD"] 3
    [WsClient.EvGo; WsClient.EvGo; WsClient.EvDial None None 0; WsClient.EvGo;
     WsClient.EvRead (Ok "hello")]) as [Hw _]; [reflexivity|vm_compute; reflexivity| |].
  - repeat constructor; by intros.
  - reflexivity.
Defined.
End witnesses.

Section kraken_witness.
#[local] Existing Instance exact_ops.

(** A clock that stands five seconds after the epoch. *)
Definition still_env : Env := quiet_env (unix_epoch + 5 * Second) 0.
#[local] Existing Instance still_env.

Lemma kraken_later_diffs_never_apply_witness :
  let '(_, f', _) := for_each (λ m : list Level * list Level, on_levels "btcusdt" m.1 m.2)
                       [([("99", "0")], []); ([], [("101", "0")])]
                       (sample_feed "btcusdt" 7) World_init in
  recons f' = {["btcusdt" := sample_recon 7]} ∧ length (out f') = 2%nat.
Proof.
  pose proof (kraken_later_diffs_never_apply "btcusdt" [([("99", "0")], []); ([], [("101", "0")])]
    (sample_feed "btcusdt" 7) (sample_recon 7) World_init eq_refl ltac:(done)) as Hg.
  destruct (for_each _ _ _ _) as [[[] f'] w'] eqn:Hr.
  destruct Hg as (Hrec & us & _ & _ & Hlen).
  - intros i _. replace (env_now i) with (unix_epoch + 5 * Second)
      by (cbv [env_now still_env quiet_env linear_env]; lia).
    vm_compute. by split.
  - constructor; [by right|]. constructor; [by left|constructor].
  - split; [exact Hrec|]. rewrite Hlen; [reflexivity|vm_compute; reflexivity].
Defined.
End kraken_witness.
