(* ===== verification/Subscription.v ===== *)
(** * A subscription from the websocket to the top of the book

    [SubscribeBook] of the two book.go files starts a goroutine that takes first snapshots,
    runs the client of WsClient with the feed's handler, and closes the channel when that
    returns; the aggregator's goroutine (internal/book) takes what the channel holds and ends
    with it.  Both are here one step function, over the client, the feed and the aggregator. *)

From S2P Require Import Prelude GoStd World Decimal Venue Json JsonText Http Feeds.
From S2P Require BookRecon WsClient BookAgg.

Open Scope Z_scope.

(** ** What a venue's subscription runs *)

Section sends.
Context `{DecimalOps}.

(** [m] puts at most [n] updates on the channel, each with both sides, and neither its
    result nor the books depend on what the channel holds. *)
Definition sends {A} (n : nat) (m : M Feed A) : Prop := ∀ rs w, ∃ a rs' w', ∀ o, ∃ l,
  m (mkFeed _ rs o) w = (a, mkFeed _ rs' (o ++ l), w') ∧ (length l ≤ n)%nat ∧
  Forall (λ u, both_sides u = true) l.
End sends.

(** The handler of a message, what is done for a pair before the client runs, the text
    written on a connection made before [Run], if any, and the keys of the reconstructors. *)
Class BookSource `{Env, DecimalOps} := {
  handle : string → M Feed unit;
  start : string → M Feed unit;
  subscription : option string;
  keys : gset string;
  handle_sends msg : sends 1 (handle msg);
  start_sends p : sends 1 (start p);
  handle_keeps msg : keeps (feed_ok keys) (handle msg);
  start_keeps p : keeps (feed_ok keys) (start p);
}.

(** ** The two goroutines *)

(** Where the subscription's goroutine is: the pairs whose first snapshot is still to be
    taken, then inside [Run], or returning without having called it, then past the deferred
    [close(out)]. *)
Inductive pc : Type := FStart (todo : list string) | FRun | FReturn | FClosed.

Section pipeline.
Context `{BookSource}.

Record Pipeline := mkPipeline {
  client : WsClient.Config;
  feed : Feed;
  feed_pc : pc;
  agg : BookAgg.BookAggregator;
  consuming : bool;                      (** the aggregator's goroutine has not ended *)
  taken : list BookUpdate.t;             (** what it has received *)
  world : World;
}.

Inductive Event : Type :=
| PStart                                 (** the next snapshot, or the call of [Run] *)
| PConnect (dial : option error)         (** [Connect] and [WriteJSON], then [Run] *)
| PClient (ev : WsClient.Event)          (** a move of [Run] *)
| PClose                                 (** [close(out)] *)
| PReceive                               (** the aggregator takes an update *)
| PEnd.                                  (** its [range] ends *)

(** [Run] moves, calling the handler with the message it has read, if it has one. *)
Definition handled (c : WsClient.Config) (ev : WsClient.Event) : M Feed unit :=
  match WsClient.at_pc c, ev with
  | WsClient.PReading _ (Some _), WsClient.EvRead (Ok msg) => handle msg
  | _, _ => mret tt
  end.

Definition run_returned (c : WsClient.Config) : bool :=
  match WsClient.at_pc c with WsClient.PDone _ => true | _ => false end.

Definition feed_moves (q : pc) (c : WsClient.Config) (m : M Feed unit) (p : Pipeline) : Pipeline :=
  let '(_, f, w) := m (feed p) (world p) in
  mkPipeline c f q (agg p) (consuming p) (taken p) w.

Definition pipeline_step (ev : Event) (p : Pipeline) : option Pipeline :=
  match ev, feed_pc p with
  | PStart, FStart (x :: todo) => Some (feed_moves (FStart todo) (client p) (start x) p)
  | PStart, FStart [] =>
      match subscription with
      | None => Some (feed_moves FRun (client p) (mret tt) p)
      | Some _ => None
      end
  | PConnect dial, FStart [] =>
      match subscription, dial with
      | None, _ => None
      | Some _, Some _ => Some (feed_moves FReturn (client p) (mret tt) p)
      | Some msg, None =>
          let c := (WsClient.WriteJSON msg (WsClient.connect_ok (client p))).2 in
          Some (feed_moves FRun c (mret tt) p)
      end
  | PClient ev, FRun =>
      if WsClient.is_own ev then
        c ← WsClient.client_step ev (client p);
        Some (feed_moves FRun c (handled (client p) ev) p)
      else None
  | PClose, FRun =>
      if run_returned (client p) then Some (feed_moves FClosed (client p) (mret tt) p) else None
  | PClose, FReturn => Some (feed_moves FClosed (client p) (mret tt) p)
  | PReceive, _ =>
      match consuming p, out (feed p) with
      | true, u :: l =>
          Some (mkPipeline (client p) (mkFeed _ (recons (feed p)) l) (feed_pc p)
                  (BookAgg.consume_one u (agg p)) true (taken p ++ [u]) (world p))
      | _, _ => None
      end
  | PEnd, FClosed =>
      match consuming p, out (feed p) with
      | true, [] => Some (mkPipeline (client p) (feed p) FClosed (agg p) false (taken p) (world p))
      | _, _ => None
      end
  | _, _ => None
  end.

Fixpoint pipeline_run (evs : list Event) (p : Pipeline) : option Pipeline :=
  match evs with
  | [] => Some p
  | ev :: evs' => p' ← pipeline_step ev p; pipeline_run evs' p'
  end.

(** The state when [SubscribeBook] has returned and the aggregator has started. *)
Definition subscribed (c : WsClient.Config) (f : Feed) (todo : list string) (w : World) : Pipeline :=
  mkPipeline c f (FStart todo) (BookAgg.mkAgg ∅ false false) true [] w.
End pipeline.

(** ** The two venues *)

Section sources.
Context `{Env, DecimalOps}.

Lemma sends_weaken {A} n n' (m : M Feed A) : (n ≤ n')%nat → sends n m → sends n' m.
Proof.
  intros Hn Hm rs w. destruct (Hm rs w) as (a & rs' & w' & Ho). exists a, rs', w'. intros o.
  destruct (Ho o) as (l & ? & ? & ?). exists l. split_and!; [done|lia|done].
Qed.

Lemma sends_bind {A B} n1 n2 (m : M Feed A) (k : A → M Feed B) :
  sends n1 m → (∀ a, sends n2 (k a)) → sends (n1 + n2) (m ≫= k).
Proof.
  intros Hm Hk rs w. destruct (Hm rs w) as (a & rs1 & w1 & H1).
  destruct (Hk a rs1 w1) as (b & rs2 & w2 & H2). exists b, rs2, w2. intros o.
  destruct (H1 o) as (l1 & Hr1 & Hl1 & Hb1). destruct (H2 (o ++ l1)) as (l2 & Hr2 & Hl2 & Hb2).
  exists (l1 ++ l2). rewrite length_app. split_and!; [|lia|by apply Forall_app].
  unfold mbind, M_bind. by rewrite Hr1, Hr2, app_assoc.
Qed.

(** First something that sends nothing. *)
Lemma sends_then {A B} n (m : M Feed A) (k : A → M Feed B) :
  sends 0 m → (∀ a, sends n (k a)) → sends n (m ≫= k).
Proof. apply (sends_bind 0 n). Qed.

Lemma sends_ret {A} n (a : A) : sends n (mret a).
Proof. intros rs w. exists a, rs, w. intros o. exists []. rewrite app_nil_r. split_and!; simpl; auto with lia. Qed.

(** What does not touch the feed. *)
Lemma sends_outside {A} (m : M Feed A) :
  (∀ f f' w, (m f w).1.1 = (m f' w).1.1 ∧ (m f w).1.2 = f ∧ (m f w).2 = (m f' w).2) → sends 0 m.
Proof.
  intros Hm rs w. exists (m (mkFeed _ rs []) w).1.1, rs, (m (mkFeed _ rs []) w).2.
  intros o. exists []. rewrite app_nil_r.
  destruct (Hm (mkFeed _ rs o) (mkFeed _ rs []) w) as (Ha & Hf & Hw).
  destruct (m (mkFeed _ rs o) w) as [[a f] w']. simpl in *. subst. by split_and!.
Qed.

Lemma sends_now : sends 0 now.
Proof. by apply sends_outside. Qed.
Lemma sends_metric x : sends 0 (emit_metric x).
Proof. by apply sends_outside. Qed.
Lemma sends_fetch rq : sends 0 (fetch rq).
Proof. by apply sends_outside. Qed.

Lemma sends_on_recon {A} key (d : A) (m : M BookRecon.BookReconstructor A) :
  sends 0 (on_recon key d m).
Proof.
  intros rs w. unfold on_recon. simpl. destruct (rs !! key) as [r|].
  - destruct (m r w) as [[a r'] w']. eexists _, _, _. intros o. exists [].
    rewrite app_nil_r. by split_and!.
  - eexists _, _, _. intros o. exists []. rewrite app_nil_r. by split_and!.
Qed.

(** Reading the books. *)
Lemma sends_books {A} n (k : gmap string BookRecon.BookReconstructor → M Feed A) :
  (∀ rs, sends n (k rs)) → sends n (f ← get; k (recons f)).
Proof. intros Hk rs w. exact (Hk rs rs w). Qed.

Lemma sends_try_send u : both_sides u = true → sends 1 (try_send u).
Proof.
  intros Hu rs w. exists tt, rs, w. intros o. unfold try_send, modify. simpl.
  destruct (_ <? _)%nat; [exists [u]|exists []; rewrite app_nil_r]; split_and!; simpl; auto.
Qed.

Lemma sends_emitUpdate v key p shown : sends 1 (emitUpdate v key p shown).
Proof.
  unfold emitUpdate. apply sends_then; [apply sends_on_recon|]. intros tops.
  apply sends_then; [apply sends_now|]. intros t. cbv zeta.
  destruct (_ && _) eqn:Hb; [|apply sends_ret].
  apply sends_then; [apply sends_on_recon|]. intros lag.
  apply sends_then; [apply sends_metric|]. intros _. by apply sends_try_send.
Qed.

Context `{UnicodeTables, GoLib, JsonDiagnostics}.

Lemma sends_refreshSnapshot rest p key : sends 0 (refreshSnapshot rest p key).
Proof.
  unfold refreshSnapshot. destruct (parse_url _); [apply sends_ret|].
  apply sends_then; [apply sends_fetch|]. intros [[rs body]|e]; [|apply sends_ret].
  destruct (400 <=? _); [apply sends_ret|]. destruct (Unmarshal _ _ _); [|apply sends_ret].
  apply sends_then; [apply sends_on_recon|]. intros _. apply sends_ret.
Qed.

Lemma sends_on_message rest msg : sends 1 (on_message rest msg).
Proof.
  unfold on_message. destruct (Unmarshal _ _ _) as [ev|]; [|apply sends_ret].
  unfold on_event, binance_emitUpdate.
  apply (sends_books 1 (λ rs, match rs !! _ with None => _ | Some _ => _ end)). intros rs.
  destruct (rs !! _); [|apply sends_ret].
  apply sends_then; [apply sends_on_recon|]. intros [ok2 []].
  - apply sends_then; [apply sends_on_recon|]. intros _.
    apply sends_then; [apply sends_refreshSnapshot|]. intros []; [apply sends_ret|].
    eapply sends_weaken; [|apply sends_metric]. lia.
  - destruct ok2; [apply sends_emitUpdate|apply sends_ret].
Qed.

Lemma sends_initial_snapshot rest p : sends 1 (initial_snapshot rest p).
Proof.
  unfold initial_snapshot. apply sends_then; [apply sends_refreshSnapshot|].
  intros []; [apply sends_ret|apply sends_emitUpdate].
Qed.

Lemma sends_kraken_on_message pairs msg : sends 1 (kraken_on_message pairs msg).
Proof.
  unfold kraken_on_message. destruct (Unmarshal _ _ _) as [arr|]; [|apply sends_ret].
  do 4 (destruct arr as [|? arr]; [apply sends_ret|]).
  destruct (to_result _); [|apply sends_ret]. destruct (channel_pair _ _); [|apply sends_ret].
  unfold on_levels. apply sends_then; [|intros _; apply sends_emitUpdate].
  destruct (_ && _); [apply sends_on_recon|].
  repeat case_match; try apply sends_ret; (apply sends_then; [apply sends_now|]; intros t;
    apply sends_then; [apply sends_on_recon|intros _; apply sends_ret]).
Qed.
End sources.

(** The subscriptions of the two book.go files. *)
Definition binance_source `{Env, DecimalOps, UnicodeTables, GoLib, JsonDiagnostics}
    (rest : string) (pairs : list string) : BookSource := {|
  handle := on_message rest;
  start := initial_snapshot rest;
  subscription := None;
  keys := list_to_set (map ToLower pairs);
  handle_sends := sends_on_message rest; start_sends := sends_initial_snapshot rest;
  handle_keeps := keeps_on_message _ rest; start_keeps := keeps_initial_snapshot _ rest;
|}.

Definition kraken_source `{Env, DecimalOps, JsonDiagnostics}
    (pairs : list string) : BookSource := {|
  handle := kraken_on_message pairs;
  start _ := mret tt;
  subscription := Some (subscription_text pairs);
  keys := list_to_set pairs;
  handle_sends := sends_kraken_on_message pairs; start_sends _ := sends_ret 1 tt;
  handle_keeps := keeps_kraken_on_message _ pairs; start_keeps _ := keeps_ret _ tt;
|}.

(** [SubscribeBook] of either, with the aggregator waiting on its channel. *)
Definition binance_pipeline `{Env, DecimalOps, UnicodeTables}
    (wsBase : string) (pairs : list string) (w : World) : result Pipeline :=
  match subscribe wsBase pairs with
  | Err e => Err e
  | Ok (url, f) =>
      Ok (subscribed (WsClient.initial (WsClient.SetHandler 0 (WsClient.NewClient url "binance")))
            f pairs w)
  end.

Definition kraken_pipeline `{Env, DecimalOps}
    (wsBase : string) (pairs : list string) (w : World) : result Pipeline :=
  match kraken_subscribe pairs with
  | Err e => Err e
  | Ok f =>
      Ok (subscribed (WsClient.initial (WsClient.SetHandler 0 (WsClient.NewClient wsBase "kraken")))
            f [] w)
  end.

(** ** Lemmas: the books, the channel and the aggregator in every run *)

Section invariant.
Context `{BookSource}.

(** The books and the world after the snapshots of [done] and the messages [msgs], with
    nobody taking from the channel. *)
Definition books_after (done msgs : list string) (f : Feed) (w : World) :
    gmap string BookRecon.BookReconstructor * World :=
  let '(_, f', w') := (for_each start done ;; for_each handle msgs) f w in (recons f', w').

(** The snapshots of [todo] that have been taken. *)
Definition started (todo : list string) (q : pc) (done : list string) : Prop :=
  match q with FStart rest => done ++ rest = todo | _ => done = todo end.

(** The messages handed to the handler. *)
Definition heard (p : Pipeline) : list string := (WsClient.delivered (client p)).*2.

(** A property kept by every step holds along every run. *)
Lemma pipeline_run_ind (I : Pipeline → Prop) :
  (∀ ev p p', pipeline_step ev p = Some p' → I p → I p') →
  ∀ evs p p', pipeline_run evs p = Some p' → I p → I p'.
Proof.
  intros Hstep. induction evs as [|ev evs IH]; intros p p' Hr Hp; simpl in Hr; [by simplify_eq|].
  destruct (pipeline_step ev p) as [p1|] eqn:Hs; simpl in Hr; [|done]. eauto.
Qed.

Lemma pipeline_run_app evs1 evs2 p :
  pipeline_run (evs1 ++ evs2) p = (p' ← pipeline_run evs1 p; pipeline_run evs2 p').
Proof.
  revert p. induction evs1 as [|ev evs1 IH]; intros p; [done|]. simpl.
  destruct (pipeline_step ev p) as [p1|]; simpl; [apply IH|done].
Qed.

Record pipeline_inv (todo : list string) (f0 : Feed) (w0 : World) (p : Pipeline) : Prop := {
  inv_books : ∃ done, started todo (feed_pc p) done ∧
    (recons (feed p), world p) = books_after done (heard p) f0 w0;
  inv_silent : ∀ rest, feed_pc p = FStart rest → heard p = [];
  inv_feed : feed_ok keys (feed p);
  inv_agg : agg p = BookAgg.consume (taken p) (BookAgg.mkAgg ∅ false false);
  inv_taken : Forall (λ u, both_sides u = true) (taken p);
}.

Lemma books_snoc_start done x f w f1 w1 :
  (recons f1, w1) = books_after done [] f w →
  let '(_, f2, w2) := start x f1 w1 in (recons f2, w2) = books_after (done ++ [x]) [] f w.
Proof.
  unfold books_after. cbn [for_each]. unfold mbind, M_bind, mret, M_ret. rewrite for_each_app.
  unfold mbind, M_bind. destruct (for_each start done f w) as [[[] f'] w'].
  intros [= Hf ->]. destruct (start_sends x (recons f') w') as (a & rs & w2 & Hs).
  destruct (Hs (out f1)) as (l1 & Hl1 & _). destruct (Hs (out f')) as (l2 & Hl2 & _).
  rewrite <- Hf in Hl1 at 1. destruct f1, f'. simpl in *. unfold mbind, M_bind.
  rewrite Hl1, Hl2. done.
Qed.

Lemma books_snoc_message done msgs msg f w f1 w1 :
  (recons f1, w1) = books_after done msgs f w →
  let '(_, f2, w2) := handle msg f1 w1 in (recons f2, w2) = books_after done (msgs ++ [msg]) f w.
Proof.
  unfold books_after. unfold mbind, M_bind. destruct (for_each start done f w) as [[[] f'] w'].
  rewrite for_each_app. unfold mbind, M_bind. destruct (for_each handle msgs f' w') as [[[] g] v].
  intros [= Hf ->]. destruct (handle_sends msg (recons g) v) as (a & rs & w2 & Hs).
  destruct (Hs (out f1)) as (l1 & Hl1 & _). destruct (Hs (out g)) as (l2 & Hl2 & _).
  rewrite <- Hf in Hl1 at 1. destruct f1, g. simpl in *. unfold mbind, M_bind.
  rewrite Hl1, Hl2. done.
Qed.

(** What a move of [Run] hands to the handler is what [handled] runs it on. *)
Lemma client_hears ev c c' :
  WsClient.is_own ev = true → WsClient.client_step ev c = Some c' →
  ((WsClient.delivered c').*2 = (WsClient.delivered c).*2 ∧ handled c ev = mret tt) ∨
  ∃ msg, (WsClient.delivered c').*2 = (WsClient.delivered c).*2 ++ [msg] ∧
         handled c ev = handle msg.
Proof.
  intros Hown Hs. destruct c as [cl q b op wr de sh sl re]. unfold handled.
  destruct ev as [|res ctx raw|res|ctx raw|ctx| | |]; simpl in *; try done.
  - left. destruct q; simplify_eq; try done. by destruct (WsClient.conn cl); simplify_eq.
  - left. destruct q; simplify_eq; try done.
    destruct res; [destruct ctx|]; by simplify_eq.
  - destruct q as [| | | | |k [h|]| |]; simplify_eq; destruct res as [msg|e]; simplify_eq/=;
      try (left; done).
    right. exists msg. split; [|done]. by rewrite fmap_app.
  - left. destruct q; simplify_eq; try done. destruct ctx; simplify_eq; [done|].
    unfold WsClient.sleep_next, WsClient.drop_conn. simpl. by destruct (WsClient.conn cl).
  - left. destruct q; simplify_eq; try done.
Qed.

Lemma pipeline_inv_step todo f0 w0 ev p p' :
  pipeline_step ev p = Some p' → pipeline_inv todo f0 w0 p → pipeline_inv todo f0 w0 p'.
Proof.
  intros Hs [(done & Hd & Hb) Hq Hf Ha Ht].
  destruct p as [c f q a co ta w]. unfold heard in *. unfold pipeline_step in Hs. simpl in *.
  assert (Hquiet : ∀ c' q', (WsClient.delivered c').*2 = (WsClient.delivered c).*2 →
    started todo q' done → (∀ rest, q' = FStart rest → (WsClient.delivered c').*2 = []) →
    pipeline_inv todo f0 w0 (mkPipeline c' f q' a co ta w)).
  { intros c' q' Hc Hst Hqq. split; unfold heard; simpl; try done.
    exists done. split; [done|]. by rewrite Hc. }
  destruct ev as [|dial|ev| | |].
  - destruct q as [[|x rest]| | |]; simplify_eq.
    + destruct subscription; simplify_eq. apply Hquiet; [done| |done]. simpl in *.
      by rewrite app_nil_r in Hd.
    + unfold feed_moves. simpl. pose proof (start_keeps x f w Hf) as Hk.
      specialize (Hq _ eq_refl). rewrite Hq in Hb. pose proof (books_snoc_start _ x _ _ _ _ Hb) as Hn.
      destruct (start x f w) as [[u f'] w'].
      split; unfold heard; simpl; try done. exists (done ++ [x]). rewrite Hq. split; [|done].
      simpl in *. by rewrite <- app_assoc.
  - destruct q as [[|]| | |]; try done. simpl in Hd. rewrite app_nil_r in Hd.
    destruct subscription, dial; simplify_eq; by apply Hquiet.
  - destruct q; try done. destruct (WsClient.is_own ev) eqn:Hown; [|done].
    destruct (WsClient.client_step ev c) as [c'|] eqn:Hc; simplify_eq/=.
    unfold feed_moves. simpl. destruct (client_hears _ _ _ Hown Hc) as [[Hh Hm]|(msg & Hh & Hm)];
      rewrite Hm.
    + by apply Hquiet.
    + pose proof (handle_keeps msg f w Hf) as Hk.
      pose proof (books_snoc_message _ _ msg _ _ _ _ Hb) as Hn.
      destruct (handle msg f w) as [[u f'] w']. split; unfold heard; simpl; try done.
      eexists. rewrite Hh. split; [|exact Hn]. done.
  - destruct q; try done.
    + destruct (run_returned c); simplify_eq. by apply Hquiet.
    + simplify_eq. by apply Hquiet.
  - destruct co; [|done]. destruct (out f) as [|u l] eqn:Ho; simplify_eq.
    destruct Hf as (Hl & Hbs & Hdom). rewrite Ho in *. inversion Hbs; subst.
    split; unfold heard; simpl; try done.
    + eexists. split; [exact Hd|exact Hb].
    + split_and!; simpl in *; [lia|done|done].
    + rewrite BookAgg.consume_app. done.
    + apply Forall_app. by split; [|constructor].
  - destruct q, co; try done. destruct (out f); simplify_eq.
    split; unfold heard; simpl; try done. eexists. split; [exact Hd|exact Hb].
Qed.

Lemma pipeline_inv_run todo f0 w0 evs p p' :
  pipeline_run evs p = Some p' → pipeline_inv todo f0 w0 p → pipeline_inv todo f0 w0 p'.
Proof. apply pipeline_run_ind. apply pipeline_inv_step. Qed.

Lemma subscribed_inv c f todo w :
  WsClient.delivered c = [] → feed_ok keys f → pipeline_inv todo f w (subscribed c f todo w).
Proof.
  intros Hc Hf. split; unfold heard; simpl; rewrite ?Hc; try done.
  exists []. split; done.
Qed.

(** Updates are only added at the end of what was taken and waits. *)
Lemma updates_grow ev p p' :
  pipeline_step ev p = Some p' → taken p ++ out (feed p) `prefix_of` taken p' ++ out (feed p').
Proof.
  intros Hs. destruct p as [c f q a co ta w].
  assert (Hm : ∀ (m : M Feed unit) q' c' p', sends 1 m →
    feed_moves q' c' m (mkPipeline c f q a co ta w) = p' →
    ta ++ out f `prefix_of` taken p' ++ out (feed p')).
  { intros m q' c' p1 Hsend <-. unfold feed_moves. simpl. destruct f as [rs o].
    destruct (Hsend rs w) as (b & rs' & w' & Ho). destruct (Ho o) as (l & -> & _). simpl.
    rewrite app_assoc. by apply prefix_app_r. }
  unfold pipeline_step in Hs. destruct ev as [|dial|ev| | |]; simpl in Hs.
  - destruct q as [[|x rest]| | |]; simplify_eq.
    + destruct subscription; simplify_eq. by eapply Hm; [apply sends_ret|].
    + eapply Hm; [apply start_sends|done].
  - destruct q as [[|]| | |]; try done.
    destruct subscription, dial; simplify_eq; by eapply Hm; [apply sends_ret|].
  - destruct q; try done. destruct (WsClient.is_own ev); [|done].
    destruct (WsClient.client_step ev c) as [c'|]; simplify_eq/=.
    eapply Hm; [|done]. unfold handled. repeat case_match; apply handle_sends || apply sends_ret.
  - destruct q; try done; [destruct (run_returned c)|]; simplify_eq; by eapply Hm; [apply sends_ret|].
  - destruct co; [|done]. destruct (out f) as [|u l] eqn:Ho; simplify_eq/=.
    rewrite Ho, <- app_assoc. done.
  - destruct q, co; try done. destruct (out f) eqn:Ho; simplify_eq/=. done.
Qed.

Lemma updates_grow_run evs p p' :
  pipeline_run evs p = Some p' → taken p ++ out (feed p) `prefix_of` taken p' ++ out (feed p').
Proof.
  revert p. induction evs as [|ev evs IH]; intros p Hr; simpl in Hr; [by simplify_eq|].
  destruct (pipeline_step ev p) as [p1|] eqn:Hs; simpl in Hr; [|done].
  etrans; [by eapply updates_grow|]. by apply IH.
Qed.
End invariant.

(** ** Lemmas: how a cancelled subscription ends *)

Section ending.
Context `{BookSource}.

(** What can happen once the context is done: a dial fails, and whoever looks at the context
    sees it; a read does not look. *)
Definition cancelled (ev : Event) : bool :=
  match ev with
  | PClient (WsClient.EvDial res ctx _) =>
      match res, ctx with Some _, Some _ => true | _, _ => false end
  | PClient (WsClient.EvAfterRead ctx _) => match ctx with Some _ => true | None => false end
  | PConnect dial => match dial with Some _ => true | None => false end
  | _ => true
  end.

(** A message of the venue. *)
Definition is_message (ev : Event) : bool :=
  match ev with PClient (WsClient.EvRead (Ok _)) => true | _ => false end.

Definition messages (evs : list Event) : nat := length (filter (λ ev, is_message ev = true) evs).

Definition ended (p : Pipeline) : bool :=
  match feed_pc p with FClosed => negb (consuming p) | _ => false end.

(** The moves left to [Run], to its goroutine, and to both with the updates in between. *)
Definition run_left (q : WsClient.pc) : nat :=
  match q with
  | WsClient.PDone _ => 0
  | WsClient.PDial | WsClient.PAfterRead => 1
  | WsClient.PTop | WsClient.PReading _ _ => 2
  | WsClient.PIdle | WsClient.PSleep | WsClient.PCheck => 3
  end.

Definition feed_left (q : pc) (c : WsClient.Config) : nat :=
  match q with
  | FStart todo => 2 * length todo + run_left (WsClient.at_pc c) + 2
  | FRun => run_left (WsClient.at_pc c) + 1
  | FReturn => 1
  | FClosed => 0
  end.

Definition moves_left (p : Pipeline) : nat :=
  feed_left (feed_pc p) (client p) + length (out (feed p)) + (if consuming p then 1 else 0).

(** A cancelled [Run] moves on, except that a message takes it back to the head of its loop. *)
Lemma run_left_step ev c c' :
  WsClient.is_own ev = true → cancelled (PClient ev) = true → WsClient.client_step ev c = Some c' →
  (run_left (WsClient.at_pc c') + 1 ≤
   run_left (WsClient.at_pc c) + if is_message (PClient ev) then 2 else 0)%nat ∧
  (is_message (PClient ev) = false → handled c ev = mret tt).
Proof.
  intros Hown Hc Hs. destruct c as [cl q b op wr de sh sl re]. unfold handled.
  destruct ev as [|[e|] [e'|] raw|[msg|e]|[e|] raw|ctx| | |]; simpl in *; try done;
    destruct q; simplify_eq/=; try (split; [simpl; lia|done]).
  - destruct (WsClient.closed cl); split; simpl; done || lia.
  - destruct (WsClient.conn cl); simplify_eq/=; [destruct (WsClient.closed cl)|];
      split; simpl; done || lia.
  - unfold WsClient.deliver. destruct h; split; simpl; done || lia.
  - destruct ctx; split; simpl; done || lia.
Qed.

Lemma feed_moves_left n (m : M Feed unit) q c p :
  sends n m →
  (moves_left (feed_moves q c m p) ≤
   feed_left q c + (length (out (feed p)) + n) + if consuming p then 1 else 0)%nat.
Proof.
  intros Hm. unfold moves_left, feed_moves. destruct p as [c0 [rs o] q0 a co ta w]. simpl.
  destruct (Hm rs w) as (b & rs' & w' & Ho). destruct (Ho o) as (l & -> & Hl & _). simpl.
  rewrite length_app. lia.
Qed.

Lemma moves_left_step ev p p' :
  pipeline_step ev p = Some p' → cancelled ev = true →
  (1 + moves_left p' ≤ moves_left p + if is_message ev then 3 else 0)%nat.
Proof.
  intros Hs Hc.
  assert (Hq : ∀ q c, (moves_left (feed_moves q c (mret tt) p) ≤
    feed_left q c + length (out (feed p)) + if consuming p then 1 else 0)%nat).
  { intros q c. pose proof (feed_moves_left 0 _ q c p (sends_ret 0 tt)). lia. }
  destruct ev as [|dial|ev| | |]; unfold pipeline_step in Hs.
  - unfold moves_left at 2. destruct (feed_pc p) as [[|x todo]| | |]; simplify_eq.
    + destruct subscription; simplify_eq. specialize (Hq FRun (client p)). simpl in *. lia.
    + pose proof (feed_moves_left 1 _ (FStart todo) (client p) p (start_sends x)). simpl in *. lia.
  - unfold moves_left at 2. destruct (feed_pc p) as [[|]| | |]; try done. destruct dial as [e|]; [|done].
    destruct subscription; simplify_eq. specialize (Hq FReturn (client p)). simpl in *. lia.
  - unfold moves_left at 2. destruct (feed_pc p); try done.
    destruct (WsClient.is_own ev) eqn:Hown; [|done].
    destruct (WsClient.client_step ev (client p)) as [c'|] eqn:Hcl; simplify_eq/=.
    destruct (run_left_step _ _ _ Hown Hc Hcl) as [Hr Hh]. simpl in Hr, Hh.
    destruct (match ev with WsClient.EvRead (Ok _) => true | _ => false end).
    + assert (Hsend : sends 1 (handled (client p) ev))
        by (unfold handled; repeat case_match; apply handle_sends || apply sends_ret).
      pose proof (feed_moves_left 1 _ FRun c' p Hsend). simpl in *. lia.
    + rewrite Hh by done. specialize (Hq FRun c'). simpl in *. lia.
  - specialize (Hq FClosed (client p)). unfold moves_left at 2.
    destruct (feed_pc p); try done; [destruct (run_returned (client p)); [|done]|];
      simplify_eq; simpl in *; lia.
  - assert (Hr : ∃ u l, consuming p = true ∧ out (feed p) = u :: l ∧
      p' = mkPipeline (client p) (mkFeed _ (recons (feed p)) l) (feed_pc p)
             (BookAgg.consume_one u (agg p)) true (taken p ++ [u]) (world p)).
    { destruct (consuming p), (out (feed p)) as [|u l], (feed_pc p); simplify_eq; by exists u, l. }
    destruct Hr as (u & l & Hco & Ho & ->). unfold moves_left. rewrite Hco, Ho. simpl. lia.
  - unfold moves_left. destruct (feed_pc p); try done.
    destruct (consuming p), (out (feed p)) eqn:Ho; simplify_eq/=. rewrite Ho. simpl. lia.
Qed.

Lemma moves_left_run evs p p' :
  pipeline_run evs p = Some p' → Forall (λ ev, cancelled ev = true) evs →
  (length evs + moves_left p' ≤ moves_left p + 3 * messages evs)%nat.
Proof.
  revert p. induction evs as [|ev evs IH]; intros p Hr Hc; simpl in Hr; [simplify_eq; simpl; lia|].
  destruct (pipeline_step ev p) as [p1|] eqn:Hs; simpl in Hr; [|done].
  inversion Hc as [|? ? Hev Hevs]; subst. pose proof (moves_left_step _ _ _ Hs Hev) as Hm.
  specialize (IH p1 Hr Hevs). unfold messages in *. rewrite filter_cons.
  destruct (decide (is_message ev = true)) as [He|He]; [rewrite He in Hm; simpl; lia|].
  apply not_true_is_false in He. rewrite He in Hm. simpl. lia.
Qed.

(** A subscription that has not ended can always move, without a message. *)
Lemma cancelled_can_move p :
  ended p = false →
  ∃ ev p', cancelled ev = true ∧ is_message ev = false ∧ pipeline_step ev p = Some p'.
Proof.
  intros He. unfold ended in He. destruct p as [c f q a co ta w]. simpl in He.
  destruct q as [[|x todo]| | |].
  - destruct subscription eqn:Hsub.
    + exists (PConnect (Some (ErrNew ""))). unfold pipeline_step. simpl. rewrite Hsub. by eexists.
    + exists PStart. unfold pipeline_step. simpl. rewrite Hsub. by eexists.
  - exists PStart. by eexists.
  - destruct c as [cl q b op wr de sh sl re]. unfold pipeline_step. simpl.
    set (e := ErrNew "context canceled"). destruct q.
    1, 2: exists (PClient WsClient.EvGo); by eexists.
    + exists (PClient (WsClient.EvDial (Some e) (Some e) 0)). by eexists.
    + exists (PClient (WsClient.EvWake (Some e))). by eexists.
    + exists (PClient WsClient.EvGo). simpl. destruct (WsClient.conn cl); by eexists.
    + exists (PClient (WsClient.EvRead (Err e))). by eexists.
    + exists (PClient (WsClient.EvAfterRead (Some e) 0)). by eexists.
    + exists PClose. by eexists.
  - exists PClose. by eexists.
  - destruct co; [|done]. unfold pipeline_step. simpl. destruct (out f) as [|u l] eqn:Ho.
    + exists PEnd. by eexists.
    + exists PReceive. by eexists.
Qed.

(** The aggregator ends only on an empty, closed channel; then nothing moves any more. *)
Definition drained (p : Pipeline) : Prop :=
  consuming p = false → feed_pc p = FClosed ∧ out (feed p) = [].

Lemma drained_stuck ev p : drained p → consuming p = false → pipeline_step ev p = None.
Proof.
  intros Hd Hc. destruct p as [c f q a co ta w]. destruct (Hd Hc) as [Hq Ho]. simpl in *. subst.
  unfold pipeline_step. simpl. by destruct ev; simpl; rewrite ?Ho.
Qed.

Lemma feed_moves_consuming q c m p : consuming (feed_moves q c m p) = consuming p.
Proof. unfold feed_moves. by destruct (m (feed p) (world p)) as [[u f] w]. Qed.

Lemma drained_step ev p p' : pipeline_step ev p = Some p' → drained p → drained p'.
Proof.
  intros Hs Hd. destruct (consuming p) eqn:Hc; [|by rewrite (drained_stuck _ _ Hd Hc) in Hs].
  intros Hc'. unfold pipeline_step in Hs. rewrite Hc in Hs.
  assert (Hno : ∀ q c m, feed_moves q c m p ≠ p').
  { intros q c m <-. by rewrite feed_moves_consuming, Hc in Hc'. }
  destruct ev as [|dial|ev| | |], (feed_pc p) as [[|x rest]| | |]; simplify_eq/=;
    repeat case_match; simplify_eq/=; try (by destruct (Hno _ _ _ eq_refl)); try done.
  by destruct (WsClient.client_step _ _) as [c|]; simplify_eq/=; destruct (Hno _ _ _ eq_refl).
Qed.
End ending.

(** ** Properties *)

Section properties.
Context `{Env, DecimalOps, UnicodeTables, GoLib, JsonDiagnostics}.

(** What a venue's [SubscribeBook] runs, the pairs whose snapshots it takes first, and the
    state it leaves behind. *)
Inductive opens : BookSource → list string → Pipeline → Prop :=
| opens_binance wsBase rest pairs w p :
    binance_pipeline wsBase pairs w = Ok p → opens (binance_source rest pairs) pairs p
| opens_kraken wsBase pairs w p :
    kraken_pipeline wsBase pairs w = Ok p → opens (kraken_source pairs) [] p.

Lemma opens_inv (src : BookSource) todo p0 :
  opens src todo p0 → pipeline_inv todo (feed p0) (world p0) p0 ∧ drained p0.
Proof.
  destruct 1 as [wsBase rest pairs w p Hp|wsBase pairs w p Hp].
  - unfold binance_pipeline, subscribe in Hp. destruct (_ =? _)%nat; simplify_eq/=.
    split; [|done]. apply subscribed_inv; [done|].
    split_and!; simpl; [lia|done|]. rewrite subscribed_dom. set_solver.
  - unfold kraken_pipeline, kraken_subscribe in Hp. destruct (_ =? _)%nat; simplify_eq/=.
    split; [|done]. apply subscribed_inv; [done|].
    split_and!; simpl; [lia|done|]. rewrite (subscribed_dom (λ p, p)), map_id. set_solver.
Qed.

(** C11: a subscription of either venue, in every interleaving of the websocket's loop with the
    aggregator: the books, and what has been asked of the world, are exactly those of the
    snapshots taken and the messages heard, in order, however slowly the aggregator takes;
    the channel holds at most 64 updates; updates reach the aggregator in the order they were
    published; and [Get] shows the last one taken for the pair, which had both sides. *)
Theorem subscription_shows_last_update (src : BookSource) (todo : list string) (p0 p p' : Pipeline)
    (evs evs' : list Event) :
  opens src todo p0 → pipeline_run evs p0 = Some p → pipeline_run evs' p = Some p' →
  (∃ done, started todo (feed_pc p) done ∧
     (recons (feed p), world p) = books_after done (heard p) (feed p0) (world p0)) ∧
  (length (out (feed p)) ≤ 64)%nat ∧
  taken p ++ out (feed p) `prefix_of` taken p' ++ out (feed p') ∧
  Forall (λ u, both_sides u = true) (taken p) ∧
  ∀ pair, BookAgg.Get pair (agg p) =
            (BookAgg.top_of <$> last (filter (λ u, BookUpdate.Pair u = pair) (taken p))).
Proof.
  intros Ho Hr Hr'. destruct (opens_inv _ _ _ Ho) as [Hi _].
  destruct (pipeline_inv_run _ _ _ _ _ _ Hr Hi) as [Hb _ [Hl _] Ha Ht].
  split_and!; [done|exact Hl|by eapply updates_grow_run|done|].
  intros pair. rewrite Ha, BookAgg.Get_last_update.
  destruct (last _) as [u|] eqn:Hu; [|done]. simpl. unfold BookAgg.top_of.
  assert (Hin : u ∈ filter (λ u, BookUpdate.Pair u = pair) (taken p))
    by (rewrite last_Some in Hu; destruct Hu as [l ->]; set_solver).
  by apply list_elem_of_filter in Hin as [-> _].
Qed.

(** C22: once the context is done a subscription ends: in at most 70 moves, two more for each pair
    whose snapshot is still to be taken and three more for each message the venue still sends,
    the loop has returned, the channel is closed, and the aggregator has taken what it held
    and ended; until then some goroutine can move without a new message: at worst it waits for
    the read under way to fail. *)
Theorem cancelled_subscription_ends (src : BookSource) (todo : list string) (p0 p p' : Pipeline)
    (before evs : list Event) :
  opens src todo p0 → pipeline_run before p0 = Some p → pipeline_run evs p = Some p' →
  Forall (λ ev, cancelled ev = true) evs →
  (length evs ≤ 70 + 2 * length todo + 3 * messages evs)%nat ∧
  (ended p' = false →
     ∃ ev q, cancelled ev = true ∧ is_message ev = false ∧ pipeline_step ev p' = Some q) ∧
  (ended p' = true → out (feed p') = [] ∧ ∀ ev, pipeline_step ev p' = None).
Proof.
  intros Ho Hb Hr Hc. destruct (opens_inv _ _ _ Ho) as [Hi Hdr].
  destruct (pipeline_inv_run _ _ _ _ _ _ Hb Hi) as [(done & Hd & _) _ [Hl _] _ _].
  pose proof (moves_left_run _ _ _ Hr Hc) as Hm. split_and!.
  - unfold moves_left, feed_left, channel_capacity in *.
    assert (run_left (WsClient.at_pc (client p)) ≤ 3)%nat
      by (destruct (WsClient.at_pc (client p)); simpl; lia).
    destruct (feed_pc p) as [rest| | |]; simpl in Hd; subst; rewrite ?length_app;
      destruct (consuming p); simpl in *; lia.
  - apply cancelled_can_move.
  - intros He. apply (pipeline_run_ind drained drained_step _ _ _ Hb) in Hdr.
    apply (pipeline_run_ind drained drained_step _ _ _ Hr) in Hdr.
    assert (Hco : consuming p' = false)
      by (unfold ended in He; destruct (feed_pc p'), (consuming p'); done).
    split; [by apply Hdr|]. intros ev. by apply drained_stuck.
Qed.
End properties.

(** ** What a cancellation does not stop *)

Section reading.
Context `{BookSource}.

(** The loop is in a read, on a connection it still holds. *)
Definition in_read (p : Pipeline) : bool :=
  match feed_pc p, WsClient.at_pc (client p) with
  | FRun, WsClient.PReading _ (Some _) =>
      match WsClient.conn (WsClient.client (client p)),
            WsClient.handler (WsClient.client (client p)) with
      | Some _, Some _ => negb (WsClient.closed (WsClient.client (client p)))
      | _, _ => false
      end
  | _, _ => false
  end.

Definition reads (msgs : list string) : list Event :=
  msgs ≫= λ m, [PClient (WsClient.EvRead (Ok m)); PClient WsClient.EvGo].

(** [readLoop] does not look at its context: after a cancellation the handler is handed
    every message the venue goes on sending, however many, and the loop is still reading. *)
Lemma cancelled_feed_keeps_reading (msgs : list string) (p : Pipeline) :
  in_read p = true →
  Forall (λ ev, cancelled ev = true) (reads msgs) ∧
  ∃ p', pipeline_run (reads msgs) p = Some p' ∧ in_read p' = true ∧ heard p' = heard p ++ msgs.
Proof.
  revert p. induction msgs as [|m msgs IH]; intros p Hp.
  { split; [done|]. exists p. by rewrite app_nil_r. }
  destruct p as [[[u v h k cl mb] q b op wr de sh sl re] f fq a co ta w]. unfold in_read in Hp.
  simpl in Hp. destruct fq; try done. destruct q as [| | | | |k' [h'|]| |]; try done.
  destruct k as [k|]; [|done]. destruct h as [h|]; [|done]. destruct cl; [done|].
  unfold reads. cbn [mbind list_bind]. fold (reads msgs). rewrite <-!app_comm_cons. cbn [app].
  unfold reads in IH. fold (reads msgs) in IH.
  cbn. unfold feed_moves. cbn. destruct (handle m f w) as [[u1 f1] w1].
  edestruct IH as (Hc & p' & Hr & Hin & Hh); [|split; [by repeat constructor|]].
  2: { exists p'. split; [exact Hr|]. split; [done|]. rewrite Hh. unfold heard. cbn.
       by rewrite fmap_app, <- app_assoc. }
  done.
Qed.
End reading.

(** ** Witnesses *)

Section witnesses.
#[local] Existing Instance exact_ops.
#[local] Existing Instance ascii_tables.
#[local] Existing Instance plain_lib.
#[local] Existing Instance plain_diagnostics.
#[local] Existing Instance feed_env.

Definition sample_source : BookSource := binance_source "https://b" ["BTCUSDT"].
#[local] Existing Instance sample_source.

(** The snapshot cannot be fetched; two messages are read, the first leaves the book with
    one side, the second completes it and is published. *)
Definition first_message : string := quoted_text
  "{`stream`:`btcusdt@depth`,`data`:{`lastUpdateId`:7,`bids`:[[`99`,`3`]],`asks`:[]}}".

Definition to_the_top : list Event :=
  [PStart; PStart; PClient WsClient.EvGo; PClient WsClient.EvGo;
   PClient (WsClient.EvDial None None 0); PClient WsClient.EvGo;
   PClient (WsClient.EvRead (Ok first_message)); PClient WsClient.EvGo;
   PClient (WsClient.EvRead (Ok sample_message))].

Definition to_the_end : list Event :=
  [PClient WsClient.EvGo; PClient (WsClient.EvRead (Err (ErrNew "EOF")));
   PClient (WsClient.EvAfterRead (Some (ErrNew "context canceled")) 0); PReceive; PClose; PEnd].

Definition sample_feed0 : Feed :=
  mkFeed _ {["btcusdt" := BookRecon.NewBookReconstructor "binance" "BTCUSDT"]} [].

Definition sample_pipeline : Pipeline :=
  subscribed (WsClient.initial (WsClient.SetHandler 0
    (WsClient.NewClient "wss://b/btcusdt@depth" "binance"))) sample_feed0 ["BTCUSDT"] World_init.

Lemma sample_opens : opens sample_source ["BTCUSDT"] sample_pipeline.
Proof. apply (opens_binance "wss://b" _ _ World_init). reflexivity. Qed.

(** After two runs in a row: what was published in the first; what was taken, what was heard, and
    whether all has ended, after the second. *)
Definition observe (evs evs' : list Event) (p0 : Pipeline) : option (nat * nat * nat * bool) :=
  p ← pipeline_run evs p0; q ← pipeline_run evs' p;
  Some (length (taken p ++ out (feed p)), length (taken q), length (heard q), ended q).

Lemma observe_inv evs evs' p0 no nt nh e :
  observe evs evs' p0 = Some (no, nt, nh, e) →
  ∃ p q, pipeline_run evs p0 = Some p ∧ pipeline_run evs' p = Some q ∧
    length (taken p ++ out (feed p)) = no ∧ length (taken q) = nt ∧ ended q = e.
Proof.
  unfold observe. intros (p & Hp & (q & Hq & Ht)%bind_Some)%bind_Some.
  exists p, q. by simplify_eq.
Qed.

Lemma one_taken {A} (ta o ta' o' : list A) :
  ta ++ o `prefix_of` ta' ++ o' → length (ta ++ o) = 1%nat → length ta' = 1%nat →
  ∃ u, ta ++ o = [u] ∧ ta' = [u].
Proof.
  intros Hp Ho Ht. destruct (ta ++ o) as [|u [|]]; [done| |done].
  destruct ta' as [|v [|]]; [done| |done]. exists u. destruct Hp as [l Hl]. by simplify_eq/=.
Qed.

Example one_update_taken :
  observe to_the_top to_the_end sample_pipeline = Some (1%nat, 1%nat, 2%nat, true).
Proof. vm_compute. reflexivity. Qed.

Lemma subscription_shows_last_update_witness :
  ∃ p q u, pipeline_run to_the_top sample_pipeline = Some p ∧ pipeline_run to_the_end p = Some q ∧
    taken p ++ out (feed p) = [u] ∧ taken q = [u] ∧
    BookAgg.Get (BookUpdate.Pair u) (agg q) = Some (BookAgg.top_of u).
Proof.
  destruct (observe_inv _ _ _ _ _ _ _ one_update_taken) as (p & q & Hp & Hq & Hout & Htk & _).
  destruct (subscription_shows_last_update _ _ _ p q to_the_top to_the_end sample_opens Hp Hq)
    as (_ & _ & Hpre & _).
  assert (Hq2 : pipeline_run (to_the_top ++ to_the_end) sample_pipeline = Some q)
    by (by rewrite pipeline_run_app, Hp).
  destruct (subscription_shows_last_update _ _ _ q q _ [] sample_opens Hq2 eq_refl)
    as (_ & _ & _ & _ & Hget).
  destruct (one_taken _ _ _ _ Hpre Hout Htk) as (u & Ho & Ht). exists p, q, u.
  refine (conj Hp (conj Hq (conj Ho (conj Ht _)))).
  by rewrite (Hget (BookUpdate.Pair u)), Ht, filter_cons_True.
Defined.

Lemma cancelled_subscription_ends_witness :
  ∃ p q, pipeline_run to_the_top sample_pipeline = Some p ∧ pipeline_run to_the_end p = Some q ∧
    out (feed q) = [] ∧ ∀ ev, pipeline_step ev q = None.
Proof.
  destruct (observe_inv _ _ _ _ _ _ _ one_update_taken) as (p & q & Hp & Hq & _ & _ & Hend). exists p, q.
  destruct (cancelled_subscription_ends _ _ _ p q to_the_top to_the_end sample_opens Hp Hq)
    as (_ & _ & He); [by repeat constructor|].
  refine (conj Hp (conj Hq _)). by apply He.
Defined.
End witnesses.
