(* ===== verification/Server.v ===== *)
(** * The HTTP service (internal/server/server.go)

    The service composes a connector, the store, the audit sink, the event bus and the
    book aggregator behind their interfaces; one handler per route, as a computation on
    the service's state that returns the status and the value written as JSON.  The time
    out a handler puts on its calls is part of the environment: it shows in the replies of
    the network and in the cancellation the oracle reports. *)

From S2P Require Import Prelude GoStd World Decimal Venue Dummy BookAgg Store AuditTrail Events Json Http.
From S2P Require Import Binance Kraken Otc.

Open Scope Z_scope.

Module orderRequest.
Record t := mk {
  Venue : string; Pair : string; Side : string; Type_ : string; Amount : string; Price : string }.
End orderRequest.

Module orderResponse.
Record t `{DecimalOps} := mk {
  VenueOrderID : string;
  ClientOrderID : string;
  Status : string;
  FilledQty : Dec;
  AvgPrice : Dec;
  Fills : list Fill.t;
  Venue : string;
  Pair : string;
}.
End orderResponse.

Module adminStatus.
Record t `{DecimalOps} := mk {
  Venue : string;
  CircuitBreaker : string;
  RateLimitHeadroom : string;
  LastFill : option Fill.t;
}.
End adminStatus.

(** What a handler reads of the request; [q_limit] is [r.URL.Query().Get("limit")]. *)
Record Req := mkReq { q_method : string; q_path : string; q_limit : string; q_body : string }.

(** The value handed to [writeJSON]. *)
Inductive Payload `{DecimalOps} : Type :=
| PMap (m : list (string * string))
| PStatus (s : adminStatus.t)
| POrder (o : orderResponse.t)
| PFills (order_id : string) (fs : list Fill.t)
| PVenueOrder (o : OrderResponse.t)
| PBalances (b : Balances.t)
| PTop (t : TopOfBook).

Record Response `{DecimalOps} := mkResp { status : Z; payload : Payload }.

Definition dec_orderRequest `{JsonDiagnostics} : Decoder orderRequest.t :=
  let f := orderRequest.mk in dec_struct [
  field "venue" orderRequest.Venue
    (λ a '(orderRequest.mk v p s t m r), f a p s t m r) dec_string;
  field "pair" orderRequest.Pair
    (λ a '(orderRequest.mk v p s t m r), f v a s t m r) dec_string;
  field "side" orderRequest.Side
    (λ a '(orderRequest.mk v p s t m r), f v p a t m r) dec_string;
  field "type" orderRequest.Type_
    (λ a '(orderRequest.mk v p s t m r), f v p s a m r) dec_string;
  field "amount" orderRequest.Amount
    (λ a '(orderRequest.mk v p s t m r), f v p s t a r) dec_string;
  field "price" orderRequest.Price
    (λ a '(orderRequest.mk v p s t m r), f v p s t m a) dec_string].

Definition zero_orderRequest : orderRequest.t := orderRequest.mk "" "" "" "" "" "".

(** The type assertion to the dummy connector: its last fill when the connector is the
    dummy one, [None] when it is another. *)
Class DummyCast `{DecimalOps} (C : Type) := { dummy_last_fill : C → option (option Fill.t) }.

(** ** The service *)

Record Service `{DecimalOps} {C T A P : Type} := mkService {
  connector : C;
  book : BookAggregator;
  audit : option A;                  (** nil when audit is off *)
  bus : option (Bus P);              (** nil when events are off *)
  venueName : string;
  ready : bool;
  store : option T;
}.
Arguments Service {_} C T A P.
Arguments mkService {_ C T A P}.

Section service.
Context `{Env, DecimalOps, JsonDiagnostics, !EventCodec, MapOrder}.
Context `{!VenueConnector C, !Store T, !Sink A, !Publisher P, !DummyCast C}.

Abbreviation S := (Service C T A P).

Definition set_connector (c : C) (s : S) : S :=
  mkService c (book s) (audit s) (bus s) (venueName s) (ready s) (store s).
Definition set_audit (a : A) (s : S) : S :=
  mkService (connector s) (book s) (Some a) (bus s) (venueName s) (ready s) (store s).
Definition set_bus (b : Bus P) (s : S) : S :=
  mkService (connector s) (book s) (audit s) (Some b) (venueName s) (ready s) (store s).
Definition set_store (t : T) (s : S) : S :=
  mkService (connector s) (book s) (audit s) (bus s) (venueName s) (ready s) (Some t).

(** [NewService]; [default_store] is what [store.New()] makes when the configuration has
    no store. *)
Definition NewService (conn : C) (sink : option A) (name : string) (pairs : list string)
    (cfg_store : option T) (default_store : T) (b : option (Bus P)) : M unit (result S) :=
  λ u w, let '(agg, conn', w') := NewBookAggregator pairs conn w in
  (match agg with
   | Err e => Err e
   | Ok agg =>
       Ok (mkService conn' agg sink b name true
             (Some (match cfg_store with Some t => t | None => default_store end)))
   end, u, w').

(** ** The parts, from the service's state *)

Definition on_connector {R} (m : M C R) : M S R := zoom connector set_connector m.

(** [if s.audit != nil { s.audit.Emit(e) }] *)
Definition emit (e : Event.t) : M S unit := λ s w,
  match audit s with
  | Some a => let '(_, a', w') := Emit e a w in (tt, set_audit a' s, w')
  | None => (tt, s, w)
  end.

(** [if s.events != nil { _ = s.events.PublishFill(ctx, ev) }] *)
Definition publish_fill (ev : FillEvent.t) : M S unit := λ s w,
  match bus s with
  | Some b => let '(_, b', w') := PublishFill ev b w in (tt, set_bus b' s, w')
  | None => (tt, s, w)
  end.

Definition publish_balance (mk : M (Bus P) BalanceEvent.t) : M S unit := λ s w,
  match bus s with
  | Some b => let '(_, b', w') := (ev ← mk; PublishBalance ev) b w in (tt, set_bus b' s, w')
  | None => (tt, s, w)
  end.

Definition on_store {R} (m : M T R) : M S unit := λ s w,
  match store s with
  | Some t => let '(_, t', w') := m t w in (tt, set_store t' s, w')
  | None => (tt, s, w)
  end.

Definition writeJSON (st : Z) (v : Payload) : M S Response := mret (mkResp _ st v).
Definition writeError (st : Z) (msg : string) : M S Response :=
  writeJSON st (PMap [("error", msg)]).

(** ** Handlers *)

Definition handleHealthz (r : Req) : M S Response := writeJSON 200 (PMap [("status", "ok")]).

Definition handleReadyz (r : Req) : M S Response :=
  s ← get;
  if ready s then writeJSON 200 (PMap [("status", "ready")]) else writeError 503 "not ready".

Definition handleAdminStatus (r : Req) : M S Response :=
  s ← get;
  writeJSON 200 (PStatus (adminStatus.mk _ (venueName s) "closed" "unlimited"
                            (default None (dummy_last_fill (connector s))))).

(** The zero event, to which a handler adds the fields it sets. *)
Definition event_of (ty venue order client pair side otype : string) (qty price : Dec)
    (f : option FillDetail.t) (b : option BalanceDetail.t) : Event.t :=
  Event.mk _ ty venue Time_zero order client pair side otype qty price f b "".

Definition handleRotateCreds (r : Req) : M S Response :=
  s ← get;
  emit (event_of EventCredRotation (venueName s) "" "" "" "" "" dec_zero dec_zero None None) ;;
  writeJSON 200 (PMap [("status", "rotated")]).

(** What a valid order request asks for: the request, the amount and the price; or the
    error answered. *)
Definition validate (r : Req) : (orderRequest.t * Dec * Dec) + (Z * string) :=
  if negb (String.eqb (q_method r) "POST") then inr (405, "method not allowed")
  else
    match Decode dec_orderRequest zero_orderRequest (q_body r) with
    | Err e => inr (400, "invalid json: " +:+ Error e)
    | Ok req =>
        if String.eqb (orderRequest.Venue req) "" || String.eqb (orderRequest.Pair req) "" ||
           String.eqb (orderRequest.Side req) "" || String.eqb (orderRequest.Type_ req) "" ||
           String.eqb (orderRequest.Amount req) ""
        then inr (400, "missing or invalid fields")
        else
          let '(amount, err) := NewFromString (orderRequest.Amount req) in
          if (match err with Some _ => true | None => false end) ||
             LessThanOrEqual amount dec_zero
          then inr (400, "invalid amount")
          else if negb (String.eqb (orderRequest.Price req) "") then
            match NewFromString (orderRequest.Price req) with
            | (price, None) => inl (req, amount, price)
            | (_, Some _) => inr (400, "invalid price")
            end
          else inl (req, amount, dec_zero)
    end.

(** The order handed to the connector: it has no client order id. *)
Definition venue_request (req : orderRequest.t) (amount price : Dec) : OrderRequest.t :=
  OrderRequest.mk _ "" (orderRequest.Pair req) (orderRequest.Side req) (orderRequest.Type_ req)
    amount price.

Definition stored_order (name : string) (req : orderRequest.t) (amount price : Dec)
    (o : OrderResponse.t) : Order.t :=
  Order.mk _ (OrderResponse.VenueOrderID o) (OrderResponse.ClientOrderID o) name
    (orderRequest.Pair req) (orderRequest.Side req) (orderRequest.Type_ req)
    (OrderResponse.Status o) (OrderResponse.FilledQty o) (OrderResponse.AvgPrice o)
    amount price Time_zero Time_zero.

Definition stored_fill (name : string) (req : orderRequest.t) (o : OrderResponse.t) (f : Fill.t) :
    StoreFill.t :=
  StoreFill.mk _ (OrderResponse.VenueOrderID o) (Fill.TradeID f) name (orderRequest.Pair req)
    (Fill.Price f) (Fill.Quantity f) (Fill.Fee f) (Fill.FeeAsset f) (Fill.Timestamp f).

Definition placed_event (name : string) (req : orderRequest.t) (amount price : Dec)
    (o : OrderResponse.t) : Event.t :=
  event_of EventOrderPlaced name (OrderResponse.VenueOrderID o) (OrderResponse.ClientOrderID o)
    (orderRequest.Pair req) (orderRequest.Side req) (orderRequest.Type_ req) amount price
    None None.

Definition fill_event (name : string) (req : orderRequest.t) (o : OrderResponse.t) (f : Fill.t) :
    Event.t :=
  event_of EventFill name (OrderResponse.VenueOrderID o) "" (orderRequest.Pair req) "" ""
    dec_zero dec_zero
    (Some (FillDetail.mk _ (Fill.TradeID f) (Fill.Price f) (Fill.Quantity f) (Fill.Fee f)
             (Fill.FeeAsset f) (Fill.Timestamp f))) None.

(** What follows a placement: the store, then the audit trail and the events. *)
Definition record_placement (req : orderRequest.t) (amount price : Dec) (o : OrderResponse.t) :
    M S unit :=
  s ← get;
  let name := venueName s in
  on_store (RecordOrder (stored_order name req amount price o)) ;;
  for_each (λ f, on_store (RecordFill (stored_fill name req o f))) (OrderResponse.Fills o) ;;
  match audit s with
  | None => mret tt
  | Some _ =>
      emit (placed_event name req amount price o) ;;
      for_each (λ f, emit (fill_event name req o f) ;;
                     publish_fill (FillFromVenue name (OrderResponse.VenueOrderID o)
                                     (orderRequest.Pair req) f))
        (OrderResponse.Fills o)
  end.

Definition order_answer (name : string) (req : orderRequest.t) (o : OrderResponse.t) :
    orderResponse.t :=
  orderResponse.mk _ (OrderResponse.VenueOrderID o) (OrderResponse.ClientOrderID o)
    (OrderResponse.Status o) (OrderResponse.FilledQty o) (OrderResponse.AvgPrice o)
    (OrderResponse.Fills o) name (orderRequest.Pair req).

Definition handleOrdersRoot (r : Req) : M S Response :=
  match validate r with
  | inr (st, msg) => writeError st msg
  | inl (req, amount, price) =>
      res ← on_connector (PlaceOrder (venue_request req amount price));
      match res with
      | Err e => writeError 502 ("place order: " +:+ Error e)
      | Ok o =>
          record_placement req amount price o ;;
          s ← get;
          writeJSON 200 (POrder (order_answer (venueName s) req o))
      end
  end.

Definition splitOrderPath (p : string) : string * string :=
  let trimmed := TrimSuffix (TrimPrefix p "/v1/orders/") "/" in
  let '(id, rest) := SplitN2 trimmed "/"%char in
  (id, default "" rest).

Definition handleCancel (r : Req) (id : string) : M S Response :=
  if negb (String.eqb (q_method r) "POST") then writeError 405 "method not allowed"
  else
    e ← on_connector (CancelOrder (CancelRequest.mk id ""));
    match e with
    | Some e => writeError 502 ("cancel: " +:+ Error e)
    | None =>
        s ← get;
        emit (event_of EventOrderCanceled (venueName s) id "" "" "" "" dec_zero dec_zero
                None None) ;;
        writeJSON 200 (PMap [("status", "canceled"); ("order_id", id)])
    end.

Definition parse_limit (q : string) : Z :=
  if String.eqb q "" then 0 else match ParseInt q with Some n => n | None => 0 end.

Definition handleFills (r : Req) (id : string) : M S Response :=
  if negb (String.eqb (q_method r) "GET") then writeError 405 "method not allowed"
  else
    res ← on_connector (GetFills (FillQuery.mk id Time_zero Time_zero (parse_limit (q_limit r))));
    match res with
    | Err e => writeError 502 ("fills: " +:+ Error e)
    | Ok fs => writeJSON 200 (PFills id fs)
    end.

Definition handleStatus (r : Req) (id : string) : M S Response :=
  if negb (String.eqb (q_method r) "GET") then writeError 405 "method not allowed"
  else
    res ← on_connector (GetOrder id);
    match res with
    | Err e => writeError 502 ("get order: " +:+ Error e)
    | Ok o => writeJSON 200 (PVenueOrder o)
    end.

Definition handleOrderSub (r : Req) : M S Response :=
  let '(id, sub) := splitOrderPath (q_path r) in
  if String.eqb id "" then writeError 400 "missing order id"
  else if String.eqb sub "cancel" then handleCancel r id
  else if String.eqb sub "fills" then handleFills r id
  else if String.eqb sub "status" || String.eqb sub "" then handleStatus r id
  else writeError 404 "not found".

(** One asset of the balances: its audit event, then its event on the bus. *)
Definition report_balance (name : string) (kb : string * Balance.t) : M S unit :=
  let b := kb.2 in
  emit (event_of EventBalanceSnapshot name "" "" "" "" "" dec_zero dec_zero None
          (Some (BalanceDetail.mk _ (Balance.Asset b) (Balance.Free b) (Balance.Locked b)))) ;;
  publish_balance (BalanceFromVenue name b).

Definition handleBalances (r : Req) : M S Response :=
  if negb (String.eqb (q_method r) "GET") then writeError 405 "method not allowed"
  else
    res ← on_connector GetBalances;
    match res with
    | Err e => writeError 502 ("balances: " +:+ Error e)
    | Ok b =>
        s ← get;
        match audit s with
        | Some _ => for_each (report_balance (venueName s)) (range_map (Balances.Assets b))
        | None => mret tt
        end ;;
        writeJSON 200 (PBalances b)
    end.

Definition handleBook (r : Req) : M S Response :=
  if negb (String.eqb (q_method r) "GET") then writeError 405 "method not allowed"
  else
    let pair := TrimSuffix (TrimPrefix (q_path r) "/v1/book/") "/" in
    if String.eqb pair "" then writeError 400 "missing pair"
    else
      s ← get;
      match Get pair (book s) with
      | None => writeError 404 "no book for pair"
      | Some top => writeJSON 200 (PTop top)
      end.

(** The routes of the multiplexer, for a path it does not redirect: exact patterns first,
    then the two subtrees; [None] is the multiplexer's own 404. *)
Definition Routes (r : Req) : option (M S Response) :=
  let p := q_path r in
  if String.eqb p "/healthz" then Some (handleHealthz r)
  else if String.eqb p "/readyz" then Some (handleReadyz r)
  else if String.eqb p "/admin/status" then Some (handleAdminStatus r)
  else if String.eqb p "/admin/rotate-credentials" then Some (handleRotateCreds r)
  else if String.eqb p "/v1/orders" then Some (handleOrdersRoot r)
  else if HasPrefix p "/v1/orders/" then Some (handleOrderSub r)
  else if String.eqb p "/v1/balances" then Some (handleBalances r)
  else if HasPrefix p "/v1/book/" then Some (handleBook r)
  else None.

End service.

(** ** Lemmas *)

Section lemmas.
Context `{Env, DecimalOps, JsonDiagnostics, !EventCodec, MapOrder}.
Context `{!VenueConnector C, !Store T, !Sink A, !Publisher P, !DummyCast C}.

Lemma on_connector_run {R} (m : M C R) (s : Service C T A P) w :
  on_connector m s w = let '(a, c, w') := m (connector s) w in (a, set_connector c s, w').
Proof. done. Qed.

(** What [validate] accepts. *)
Definition acceptable (r : Req) (req : orderRequest.t) (amount price : Dec) : Prop :=
  q_method r = "POST" ∧
  Decode dec_orderRequest zero_orderRequest (q_body r) = Ok req ∧
  orderRequest.Venue req ≠ "" ∧ orderRequest.Pair req ≠ "" ∧ orderRequest.Side req ≠ "" ∧
  orderRequest.Type_ req ≠ "" ∧
  NewFromString (orderRequest.Amount req) = (amount, None) ∧ dec_Cmp amount dec_zero = Gt ∧
  (orderRequest.Price req = "" ∧ price = dec_zero ∨
   NewFromString (orderRequest.Price req) = (price, None)).

Lemma validate_spec r :
  match validate r with
  | inl (req, amount, price) => acceptable r req amount price
  | inr (st, _) => st = 405 ∨ st = 400
  end.
Proof.
  unfold validate, acceptable. destruct (String.eqb_spec (q_method r) "POST") as [Hm|]; simpl; [|auto].
  destruct (Decode _ _ _) as [req|e]; simpl; [|auto].
  destruct (_ || _ || _ || _ || _)%bool eqn:Hf; [auto|]. unbool.
  destruct (NewFromString (orderRequest.Amount req)) as [amount [e|]] eqn:Ha; simpl; [auto|].
  unfold LessThanOrEqual. destruct (dec_Cmp amount dec_zero) eqn:Hc; [auto..|].
  destruct (String.eqb_spec (orderRequest.Price req) "") as [Hp|Hp]; simpl.
  - split_and!; auto.
  - destruct (NewFromString (orderRequest.Price req)) as [price [e|]] eqn:Hpr; [auto|].
    split_and!; auto.
Qed.

(** The handler, as the placement and what follows it. *)
Lemma handleOrdersRoot_run (r : Req) (s : Service C T A P) w :
  handleOrdersRoot r s w =
  match validate r with
  | inr (st, msg) => (mkResp _ st (PMap [("error", msg)]), s, w)
  | inl (req, amount, price) =>
      let '(res, c', w1) := PlaceOrder (venue_request req amount price) (connector s) w in
      let s1 := set_connector c' s in
      match res with
      | Err e => (mkResp _ 502 (PMap [("error", "place order: " +:+ Error e)]), s1, w1)
      | Ok o =>
          let '(_, s2, w2) := record_placement req amount price o s1 w1 in
          (mkResp _ 200 (POrder (order_answer (venueName s2) req o)), s2, w2)
      end
  end.
Proof.
  unfold handleOrdersRoot. destruct (validate r) as [[[req amount] price]|[st msg]]; [|done].
  munfold. rewrite on_connector_run.
  destruct (PlaceOrder _ _ w) as [[[o|e] c'] w1]; [|done].
  by destruct (record_placement req amount price o _ w1) as [[[] s2] w2].
Qed.

(** A connector that refuses anonymous orders in its current state gets none. *)
Lemma refused_orders (r : Req) (s : Service C T A P) w :
  (∀ req, OrderRequest.ClientOrderID req = "" →
     ∃ e, PlaceOrder req (connector s) w = (Err e, connector s, w)) →
  ∃ resp, handleOrdersRoot r s w = (resp, s, w) ∧ status resp ≠ 200.
Proof.
  intros Hrefuse. rewrite handleOrdersRoot_run. pose proof (validate_spec r) as Hv.
  destruct (validate r) as [[[req amount] price]|[st msg]].
  - destruct (Hrefuse (venue_request req amount price) eq_refl) as [e ->].
    assert (set_connector (connector s) s = s) as -> by (by destruct s).
    eexists. split; [reflexivity|done].
  - eexists. split; [reflexivity|]. simpl. lia.
Qed.
End lemmas.

(** ** Properties: the order endpoint *)

Section orders.
Context `{Env, DecimalOps, JsonDiagnostics, !EventCodec, MapOrder}.
Context `{!VenueConnector C, !Store T, !Sink A, !Publisher P, !DummyCast C}.

(** POST /v1/orders reaches the connector only with a valid order: the method is POST,
    the body decodes, the required fields are there, the amount parses and is positive and
    the price, when given, parses. Otherwise it answers 405 or 400 and nothing at all has
    happened: no state, no network, no clock has been touched. *)
Theorem orders_root_guards (r : Req) (s : Service C T A P) (w : World) :
  (∃ req amount price, acceptable r req amount price ∧
     validate r = inl (req, amount, price)) ∨
  (∃ st msg, (st = 405 ∨ st = 400) ∧
     handleOrdersRoot r s w = (mkResp _ st (PMap [("error", msg)]), s, w)).
Proof.
  pose proof (validate_spec r) as Hv. rewrite handleOrdersRoot_run.
  destruct (validate r) as [[[req amount] price]|[st msg]].
  - left. by exists req, amount, price.
  - right. by exists st, msg.
Qed.
End orders.

(** ** Properties: connectors that need a client order id *)

(** A connector that refuses, without touching anything, an order without a client id. *)
Class RequiresClientID `{Env, DecimalOps} (C : Type) `{!VenueConnector C} : Prop :=
  refuses_anonymous req c w :
    OrderRequest.ClientOrderID req = "" → ∃ e, PlaceOrder req c w = (Err e, c, w).

Section anonymous.
Context `{Env, DecimalOps, JsonDiagnostics, !EventCodec, MapOrder}.
Context `{UnicodeTables, GoLib, !DecimalJson}.

#[export] Instance binance_requires_id : RequiresClientID Binance.Connector.
Proof. intros req c w Hid. simpl. unfold binance_PlaceOrder. rewrite Hid. by eexists. Qed.
#[export] Instance kraken_requires_id : RequiresClientID Kraken.Connector.
Proof. intros req c w Hid. simpl. unfold kraken_PlaceOrder. rewrite Hid. by eexists. Qed.
#[export] Instance otc_requires_id : RequiresClientID Otc.Connector.
Proof. intros req c w Hid. simpl. unfold otc_PlaceOrder. rewrite Hid. by eexists. Qed.

Context `{!Store T, !Sink A, !Publisher P}.

Lemma anonymous_orders_refused `{!VenueConnector C, !DummyCast C, !RequiresClientID C}
    (r : Req) (s : Service C T A P) w :
  ∃ resp, handleOrdersRoot r s w = (resp, s, w) ∧ status resp ≠ 200.
Proof. apply refused_orders. intros req Hid. by apply refuses_anonymous. Qed.

(** through the HTTP interface no order can ever be placed on a real venue: the
    handler never sets a client order id, and the Binance, Kraken and OTC connectors all
    refuse an order without one. Whatever the request, the answer is not 200 and neither
    the service nor the world has changed: no request was sent, nothing was stored,
    audited or published. *)
Theorem real_venues_never_accept_http_orders
    `{!DummyCast Binance.Connector, !DummyCast Kraken.Connector, !DummyCast Otc.Connector}
    (r : Req) (w : World) (sb : Service Binance.Connector T A P)
    (sk : Service Kraken.Connector T A P) (so : Service Otc.Connector T A P) :
  (∃ resp, handleOrdersRoot r sb w = (resp, sb, w) ∧ status resp ≠ 200) ∧
  (∃ resp, handleOrdersRoot r sk w = (resp, sk, w) ∧ status resp ≠ 200) ∧
  (∃ resp, handleOrdersRoot r so w = (resp, so, w) ∧ status resp ≠ 200).
Proof. split_and!; apply anonymous_orders_refused. Qed.

(** the service cannot be started on the OTC connector: building it subscribes to the
    book, which that connector does not support, so every configuration is an error. *)
Theorem otc_service_never_starts `{!DummyCast Otc.Connector} (conn : Otc.Connector)
    (sink : option A) (name : string) (pairs : list string) (cfg_store : option T)
    (default_store : T) (b : option (Bus P)) (w : World) :
  (NewService conn sink name pairs cfg_store default_store b tt w).1.1 = Err ErrUnsupported.
Proof. reflexivity. Qed.
End anonymous.

(** ** Properties: the other endpoints *)

Section endpoints.
Context `{Env, DecimalOps, JsonDiagnostics, !EventCodec, MapOrder}.
Context `{!VenueConnector C, !Store T, !Sink A, !Publisher P, !DummyCast C}.

(** the credential-rotation endpoint rotates nothing: for every request, whatever its
    method, it answers 200 "rotated" and leaves the connector, with the credentials it
    holds, the store and the book as they were; all it does is emit an audit event. *)
Theorem rotate_endpoint_rotates_nothing (r : Req) (s : Service C T A P) (w : World) :
  let '(resp, s', w') := handleRotateCreds r s w in
  resp = mkResp _ 200 (PMap [("status", "rotated")]) ∧
  connector s' = connector s ∧ store s' = store s ∧ book s' = book s ∧
  (audit s = None → s' = s ∧ w' = w).
Proof.
  unfold handleRotateCreds, emit. munfold. destruct (audit s) as [a|]; [|done].
  by destruct (Emit _ a w) as [[[] a'] w'].
Qed.

(** the path of an order resource splits back into the order's id and what follows it:
    a trailing slash is dropped, the id ends at the first slash. *)
Theorem splitOrderPath_roundtrip (id sub : string) (slash : bool) :
  contains_char "/"%char id = false → contains_char "/"%char sub = false →
  splitOrderPath ("/v1/orders/" +:+ id +:+ (if String.eqb sub "" then "" else "/" +:+ sub)
                  +:+ (if slash then "/" else "")) = (id, sub).
Proof.
  intros Hid Hsub. unfold splitOrderPath. rewrite TrimPrefix_app.
  set (mid := if String.eqb sub "" then "" else "/" +:+ sub).
  assert (Htrim : TrimSuffix (id +:+ mid +:+ (if slash then "/" else "")) "/" = id +:+ mid).
  { rewrite <- string_app_assoc. destruct slash.
    - apply TrimSuffix_app.
    - rewrite string_app_nil_r. unfold TrimSuffix.
      replace (HasSuffix (id +:+ mid) "/") with false; [done|]. symmetry.
      unfold mid. destruct (String.eqb_spec sub "") as [->|Hne].
      + rewrite string_app_nil_r. by apply HasSuffix_char_not_in.
      + rewrite <- string_app_assoc. rewrite HasSuffix_app_r by (destruct sub; [done|simpl; lia]).
        by apply HasSuffix_char_not_in. }
  rewrite Htrim. unfold mid. destruct (String.eqb_spec sub "") as [->|Hne].
  - rewrite string_app_nil_r. by rewrite SplitN2_not_in.
  - change ("/" +:+ sub) with (String "/"%char sub). by rewrite SplitN2_app.
Qed.
End endpoints.

(** ** Lemmas: recording a placement in the in-memory store and audit trail *)

Section recording.
Context `{Env, DecimalOps, JsonDiagnostics, !EventCodec, MapOrder}.
Context `{!VenueConnector C, !Publisher P, !DummyCast C}.

Abbreviation MemService := (Service C MemStore InMemorySink P).

(** What an audit event is about. *)
Definition audit_key (e : Event.t) : string * string := (Event.Type_ e, Event.OrderID e).

Lemma mem_Emit_run (e : Event.t) a w :
  ∃ e' w', mem_Emit e a w = (tt, mkSink (AuditTrail.events a ++ [e']), w') ∧
    audit_key e' = audit_key e ∧ Event.Balance e' = Event.Balance e.
Proof. unfold mem_Emit, stamped. munfold. destruct (Time_IsZero _); by eexists _, _. Qed.

Lemma emit_run (e : Event.t) (s : MemService) a w :
  audit s = Some a →
  ∃ e' w', emit e s w = (tt, set_audit (mkSink (AuditTrail.events a ++ [e'])) s, w') ∧
    audit_key e' = audit_key e ∧ Event.Balance e' = Event.Balance e.
Proof.
  intros Ha. unfold emit. rewrite Ha. simpl.
  destruct (mem_Emit_run e a w) as (e' & w' & -> & Hk & Hb). by exists e', w'.
Qed.

(** Publishing only moves the bus. *)
Lemma publish_fill_frame ev (s : MemService) w :
  let '(_, s', _) := publish_fill ev s w in
  connector s' = connector s ∧ audit s' = audit s ∧ store s' = store s ∧
  venueName s' = venueName s.
Proof.
  unfold publish_fill. destruct (bus s) as [b|]; [|done].
  by destruct (PublishFill ev b w) as [[r b'] w'].
Qed.

Lemma publish_balance_frame mk (s : MemService) w :
  let '(_, s', _) := publish_balance mk s w in
  connector s' = connector s ∧ audit s' = audit s ∧ store s' = store s ∧
  venueName s' = venueName s.
Proof.
  unfold publish_balance. destruct (bus s) as [b|]; [|done].
  by destruct ((ev ← mk; PublishBalance ev) b w) as [[r b'] w'].
Qed.

(** An audit loop that emits one event per element and publishes in between. *)
Lemma audit_loop {X} (ev : X → Event.t) (pub : X → M MemService unit) (xs : list X) s a w :
  (∀ x s w, let '(_, s', _) := pub x s w in
     connector s' = connector s ∧ audit s' = audit s ∧ store s' = store s ∧
     venueName s' = venueName s) →
  audit s = Some a →
  let '(_, s', _) := for_each (λ x, emit (ev x) ;; pub x) xs s w in
  connector s' = connector s ∧ store s' = store s ∧ venueName s' = venueName s ∧
  ∃ es, audit s' = Some (mkSink (AuditTrail.events a ++ es)) ∧
        map audit_key es = map (λ x, audit_key (ev x)) xs ∧
        map Event.Balance es = map (λ x, Event.Balance (ev x)) xs.
Proof.
  intros Hpub. revert s a w. induction xs as [|x xs IH]; intros s a w Ha.
  { simpl. split_and!; [done..|]. exists []. rewrite app_nil_r. split_and!; [|done|done].
    rewrite Ha. by destruct a. }
  cbn [for_each]. munfold.
  destruct (emit_run (ev x) s a w Ha) as (e & w1 & -> & Hk & Hb).
  set (s1 := set_audit _ s). pose proof (Hpub x s1 w1) as Hp.
  destruct (pub x s1 w1) as [[[] s2] w2]. destruct Hp as (Hc2 & Ha2 & Hs2 & Hv2).
  subst s1. simpl in Hc2, Ha2, Hs2, Hv2.
  specialize (IH s2 (mkSink (AuditTrail.events a ++ [e])) w2 Ha2).
  destruct (for_each _ xs s2 w2) as [[[] s3] w3].
  destruct IH as (Hc3 & Hs3 & Hv3 & es & Ha3 & Hk3 & Hb3).
  split_and!; [congruence..|]. exists (e :: es). simpl in Ha3. rewrite <- app_assoc in Ha3.
  simpl. split_and!; [done|congruence|congruence].
Qed.

(** Recording a fill: it is there afterwards, and what was there stays. *)
Lemma mem_RecordFill_run f t w :
  ∃ r t' w', mem_RecordFill f t w = (r, t', w') ∧ Store.orders t' = Store.orders t ∧
    (∃ l, Store.fills t' = Store.fills t ++ l) ∧
    ∃ row, row ∈ Store.fills t' ∧ fill_key row = fill_key f.
Proof.
  unfold mem_RecordFill. munfold. destruct (existsb (same_fill f) (Store.fills t)) eqn:Hex.
  - apply existsb_exists in Hex as (row & Hin & Hsame). unfold same_fill in Hsame. unbool.
    eexists _, _, _. split; [done|]. split; [done|]. split; [exists []; by rewrite app_nil_r|].
    exists row. split; [by apply list_elem_of_In|]. unfold fill_key. congruence.
  - destruct (Time_IsZero _); eexists _, _, _; (split; [done|]); simpl;
      (split; [done|]); (split; [by eexists|]); eexists;
      (split; [apply elem_of_app; right; apply list_elem_of_singleton; reflexivity|done]).
Qed.

Lemma store_loop (g : Fill.t → StoreFill.t) (fs : list Fill.t) (s : MemService) t w :
  store s = Some t →
  let '(_, s', _) := for_each (λ f, on_store (RecordFill (g f))) fs s w in
  connector s' = connector s ∧ audit s' = audit s ∧ venueName s' = venueName s ∧
  ∃ t', store s' = Some t' ∧ Store.orders t' = Store.orders t ∧
    (∃ l, Store.fills t' = Store.fills t ++ l) ∧
    ∀ f, f ∈ fs → ∃ row, row ∈ Store.fills t' ∧ fill_key row = fill_key (g f).
Proof.
  revert s t w. induction fs as [|f fs IH]; intros s t w Ht.
  { simpl. split_and!; [done..|]. exists t. split_and!; [done|done| |set_solver].
    exists []. by rewrite app_nil_r. }
  cbn [for_each]. munfold. unfold on_store at 1. rewrite Ht. simpl.
  destruct (mem_RecordFill_run (g f) t w) as (r & t1 & w1 & -> & Ho1 & [l1 Hf1] & row & Hin & Hk).
  specialize (IH (set_store t1 s) t1 w1 eq_refl).
  destruct (for_each _ fs _ w1) as [[[] s2] w2].
  destruct IH as (Hc & Ha & Hv & t2 & Ht2 & Ho2 & [l2 Hf2] & Hall).
  split_and!; [done..|]. exists t2. split_and!; [done|congruence| |].
  - exists (l1 ++ l2). by rewrite Hf2, Hf1, <- app_assoc.
  - intros f' [->|Hf']%elem_of_cons; [|by apply Hall].
    exists row. split; [|done]. rewrite Hf2. apply elem_of_app. by left.
Qed.

Lemma mem_RecordOrder_run o t w :
  ∃ r t' w', mem_RecordOrder o t w = (r, t', w') ∧ Store.fills t' = Store.fills t ∧
    ∃ o', Store.orders t' !! Order.ClientOrderID o = Some o'.
Proof.
  unfold mem_RecordOrder. munfold. destruct (Store.orders t !! _) as [o'|] eqn:Ho.
  - eexists _, _, _. split; [done|]. split; [done|]. by exists o'.
  - destruct (Time_IsZero _); eexists _, _, _; (split; [done|]); simpl;
      (split; [done|]); eexists; apply lookup_insert_eq.
Qed.
End recording.

Section effects.
Context `{Env, DecimalOps, JsonDiagnostics, !EventCodec, MapOrder}.
Context `{!VenueConnector C, !Publisher P, !DummyCast C}.


(** reading the balances audits each of them once: over the in-memory audit trail, a
    successful GET /v1/balances adds exactly one snapshot event per asset, in whatever
    order the map is visited, and answers with the balances themselves. *)
Theorem balances_are_audited (r : Req) (s : Service C MemStore InMemorySink P) (w : World)
    (b : Balances.t) (c' : C) (w1 : World) (a : InMemorySink) :
  q_method r = "GET" → GetBalances (connector s) w = (Ok b, c', w1) → audit s = Some a →
  let '(resp, s', _) := handleBalances r s w in
  resp = mkResp _ 200 (PBalances b) ∧ connector s' = c' ∧ store s' = store s ∧
  ∃ es, audit s' = Some (mkSink (AuditTrail.events a ++ es)) ∧
    map Event.Balance es ≡ₚ
      map (λ kb, Some (BalanceDetail.mk _ (Balance.Asset kb.2) (Balance.Free kb.2)
                                          (Balance.Locked kb.2)))
        (map_to_list (Balances.Assets b)).
Proof.
  intros Hm Hb Ha. unfold handleBalances. rewrite Hm. simpl. munfold.
  rewrite on_connector_run, Hb. simpl. rewrite Ha.
  pose proof (audit_loop
    (λ kb : string * Balance.t,
       event_of EventBalanceSnapshot (venueName s) "" "" "" "" "" dec_zero dec_zero None
         (Some (BalanceDetail.mk _ (Balance.Asset kb.2) (Balance.Free kb.2)
                                   (Balance.Locked kb.2))))
    (λ kb, publish_balance (BalanceFromVenue (venueName s) kb.2))
    (range_map (Balances.Assets b)) (set_connector c' s) a w1
    ltac:(intros; apply publish_balance_frame) Ha) as Hloop.
  unfold report_balance. cbn zeta. cbn beta in Hloop.
  destruct (for_each _ _ (set_connector c' s) w1) as [[[] s2] w2].
  destruct Hloop as (Hc & Hs & _ & es & Hes & _ & Hbal). split_and!; [done..|].
  exists es. split; [done|]. rewrite Hbal. apply Permutation_map, range_map_perm.
Qed.

(** canceling over HTTP: a POST to the cancel resource of an order asks the connector
    to cancel exactly that order; when it succeeds the answer is 200 with the id and one
    audit event about it, when it fails the answer is 502 and nothing is audited. *)
Theorem cancel_endpoint (r : Req) (s : Service C MemStore InMemorySink P) (w : World)
    (id : string) (a : InMemorySink) :
  contains_char "/"%char id = false → id ≠ "" → q_method r = "POST" →
  q_path r = "/v1/orders/" +:+ id +:+ "/cancel" → audit s = Some a →
  let '(e, c', w1) := CancelOrder (CancelRequest.mk id "") (connector s) w in
  let '(resp, s', _) := handleOrderSub r s w in
  connector s' = c' ∧ store s' = store s ∧
  match e with
  | Some e => resp = mkResp _ 502 (PMap [("error", "cancel: " +:+ Error e)]) ∧
              audit s' = audit s
  | None => resp = mkResp _ 200 (PMap [("status", "canceled"); ("order_id", id)]) ∧
            ∃ ev, audit s' = Some (mkSink (AuditTrail.events a ++ [ev])) ∧
                  audit_key ev = (EventOrderCanceled, id)
  end.
Proof.
  intros Hid Hne Hm Hp Ha.
  assert (Hsplit : splitOrderPath (q_path r) = (id, "cancel")).
  { rewrite Hp. unfold splitOrderPath. rewrite TrimPrefix_app.
    replace (TrimSuffix (id +:+ "/cancel") "/") with (id +:+ "/cancel").
    - by rewrite (SplitN2_app "/"%char id "cancel").
    - unfold TrimSuffix. by rewrite HasSuffix_app_r by (simpl; lia). }
  unfold handleOrderSub. rewrite Hsplit. destruct (String.eqb_spec id "") as [|_]; [done|].
  simpl. unfold handleCancel. rewrite Hm. simpl. munfold. rewrite on_connector_run.
  destruct (CancelOrder _ (connector s) w) as [[[e|] c'] w1]; [done|]. simpl.
  set (ev := event_of EventOrderCanceled _ _ _ _ _ _ _ _ _ _).
  destruct (emit_run ev (set_connector c' s) a w1 Ha) as (ev' & w2 & -> & Hk & _).
  split_and!; [done..|]. by exists ev'.
Qed.
End effects.

(** ** Witnesses *)

#[export] Instance dummy_cast `{DecimalOps} : DummyCast DummyVenueConnector :=
  {| dummy_last_fill d := Some (last (Dummy.fills d)) |}.
#[export] Instance binance_cast `{DecimalOps} : DummyCast Binance.Connector :=
  {| dummy_last_fill _ := None |}.
#[export] Instance kraken_cast `{DecimalOps} : DummyCast Kraken.Connector :=
  {| dummy_last_fill _ := None |}.
#[export] Instance otc_cast `{DecimalOps} : DummyCast Otc.Connector :=
  {| dummy_last_fill _ := None |}.

Section witnesses.
#[local] Existing Instance exact_ops.
#[local] Existing Instance plain_diagnostics.
#[local] Existing Instance sorted_maps.
#[local] Existing Instance sample_event_codec.

Definition sample_env : Env := quiet_env 10 1.
#[local] Existing Instance sample_env.

Definition sample_service : Service DummyVenueConnector MemStore InMemorySink KafkaPublisher :=
  mkService empty_dummy (mkAgg ∅ false false) (Some NewInMemorySink) None "dummy" true (Some New).

Definition order_body : string := quoted_text
  "{`venue`:`dummy`,`pair`:`BTCUSDT`,`side`:`buy`,`type`:`market`,`amount`:`1.5`}".

Definition sample_post : Req := mkReq "POST" "/v1/orders" "" order_body.

Definition sample_request : orderRequest.t :=
  orderRequest.mk "dummy" "BTCUSDT" "buy" "market" "1.5" "".

(** The connector's reply to the sample order. *)
Definition sample_placement : result OrderResponse.t * DummyVenueConnector * World :=
  dummy_PlaceOrder (@venue_request exact_ops sample_request (mkDec 15 (-1)) (mkDec 0 0))
    empty_dummy World_init.

Lemma sample_placement_ok :
  ∃ o, sample_placement = (Ok o, sample_placement.1.2, sample_placement.2) ∧
       length (OrderResponse.Fills o) = 1%nat.
Proof.
  assert (match sample_placement.1.1 with
          | Ok o => length (OrderResponse.Fills o) | Err _ => 0%nat end = 1%nat) as Hl
    by (vm_compute; reflexivity).
  destruct sample_placement as [[[o|e] c] w]; [by exists o|done].
Qed.


Lemma balances_are_audited_witness :
  let '(resp, s', _) := handleBalances (mkReq "GET" "/v1/balances" "" "") sample_service
                          World_init in
  status resp = 200 ∧ ∃ es, audit s' = Some (mkSink es) ∧ length es = 3%nat.
Proof.
  destruct (dummy_GetBalances empty_dummy World_init) as [[res c'] w1] eqn:Hb.
  pose proof Hb as Hb'. unfold dummy_GetBalances in Hb'. injection Hb' as <- <- <-.
  pose proof (balances_are_audited (mkReq "GET" "/v1/balances" "" "") sample_service World_init
    _ _ _ NewInMemorySink eq_refl Hb eq_refl) as Hrec.
  destruct (handleBalances _ _ _) as [[resp s'] w'].
  destruct Hrec as (-> & _ & _ & es & Ha & Hes). split; [done|]. exists es. split; [done|].
  rewrite <- (length_map Event.Balance es), Hes, length_map, length_map_to_list.
  vm_compute. reflexivity.
Defined.

Lemma cancel_endpoint_witness :
  let '(resp, s', _) := handleOrderSub (mkReq "POST" "/v1/orders/o1/cancel" "" "") sample_service
                          World_init in
  status resp = 200 ∧ ∃ ev, audit s' = Some (mkSink [ev]) ∧ audit_key ev = (EventOrderCanceled, "o1").
Proof.
  pose proof (cancel_endpoint (mkReq "POST" "/v1/orders/o1/cancel" "" "") sample_service
    World_init "o1" NewInMemorySink eq_refl ltac:(done) eq_refl eq_refl eq_refl) as Hc.
  assert ((dummy_CancelOrder (CancelRequest.mk "o1" "") empty_dummy World_init).1.1 =
          None) as He by (vm_compute; reflexivity).
  change (CancelOrder _ (connector sample_service) World_init)
    with (dummy_CancelOrder (CancelRequest.mk "o1" "") empty_dummy World_init) in Hc.
  destruct (dummy_CancelOrder _ _ _) as [[e' c'] w1]. simpl in He. subst e'.
  destruct (handleOrderSub _ _ _) as [[resp s'] w']. by destruct Hc as (_ & _ & -> & Hc).
Defined.

Lemma splitOrderPath_roundtrip_witness : splitOrderPath "/v1/orders/o1/fills/" = ("o1", "fills").
Proof. apply (splitOrderPath_roundtrip "o1" "fills" true); reflexivity. Defined.
End witnesses.
