(* ===== verification/Otel.v ===== *)
(** * Telemetry (internal/otel/otel.go)

    [Init] reads two variables, builds the exporters and providers, and installs them
    globally; the function it returns stops them.  The OpenTelemetry SDK is a parameter:
    what its constructors and its [Shutdown] methods answer. *)

From S2P Require Import Prelude GoStd World.

Open Scope Z_scope.

Class OtelSdk := {
  Resource : Type;
  SpanExporter : Type;
  MetricExporter : Type;
  resource_Merge : string → result Resource;         (** default attributes and a service name *)
  otlptracegrpc_New : string → result SpanExporter;  (** insecure, to an endpoint *)
  otlpmetricgrpc_New : string → result MetricExporter;
}.

Inductive TracerProvider `{OtelSdk} : Type :=
| BareTracer                                         (** [NewTracerProvider()] *)
| BatchTracer (e : SpanExporter) (batchTimeout : Duration) (r : Resource).

Inductive MeterProvider `{OtelSdk} : Type :=
| NoopMeter
| PeriodicMeter (e : MetricExporter) (interval : Duration) (r : Resource).

Inductive Propagator : Type := TraceContext | Baggage.

(** What the [Shutdown] methods of the providers answer. *)
Class OtelShutdown `{OtelSdk} := {
  tracer_Shutdown : TracerProvider → option error;
  meter_Shutdown : MeterProvider → option error;
}.

(** The global providers, and those that were asked to stop. *)
Record Telemetry `{OtelSdk} := mkTelemetry {
  tracer : option TracerProvider;
  meter : option MeterProvider;
  propagators : list Propagator;
  stopped : list (TracerProvider + MeterProvider);
}.

Definition no_telemetry `{OtelSdk} : Telemetry := mkTelemetry _ None None [] [].

(** The function [Init] returns: one that does nothing, or one that closes over the two
    providers. *)
Inductive Shutdown `{OtelSdk} : Type :=
| NoShutdown
| StopProviders (tp : TracerProvider) (mp : MeterProvider).

Section otel.
Context `{Env, OsEnv, UnicodeTables, OtelShutdown}.

(** [SetTracerProvider], [SetMeterProvider] and [SetTextMapPropagator]. *)
Definition install (tp : TracerProvider) (mp : MeterProvider) (t : Telemetry) : Telemetry :=
  mkTelemetry _ (Some tp) (Some mp) [TraceContext; Baggage] (stopped t).

Definition wrap_error {A} (prefix : string) (r : result A) : result A :=
  match r with Ok a => Ok a | Err e => Err (ErrWrap prefix e) end.

Definition exporters (serviceName endpoint : string) :
    result (Resource * SpanExporter * MetricExporter) :=
  res ← wrap_error "otel resource: " (resource_Merge serviceName);
  se ← wrap_error "otel trace exporter: " (otlptracegrpc_New endpoint);
  me ← wrap_error "otel metric exporter: " (otlpmetricgrpc_New endpoint);
  Ok (res, se, me).

Definition Init (serviceName : string) : M Telemetry (result Shutdown) :=
  let endpoint := TrimSpace (getenv "OTEL_EXPORTER_OTLP_ENDPOINT") in
  if String.eqb endpoint "" then
    modify (install BareTracer NoopMeter) ;; mret (Ok NoShutdown)
  else
    let name := TrimSpace (getenv "OTEL_SERVICE_NAME") in
    let serviceName := if String.eqb name "" then serviceName else name in
    let endpoint := TrimPrefix (TrimPrefix endpoint "http://") "grpc://" in
    match exporters serviceName endpoint with
    | Err e => mret (Err e)
    | Ok (res, se, me) =>
        let tp := BatchTracer se (10 * Second) res in
        let mp := PeriodicMeter me (10 * Second) res in
        modify (install tp mp) ;;
        mret (Ok (StopProviders tp mp))
    end.

Definition stop (p : TracerProvider + MeterProvider) (t : Telemetry) : Telemetry :=
  mkTelemetry _ (tracer t) (meter t) (propagators t) (stopped t ++ [p]).

(** Calling the returned function: both providers are stopped, the first error is the one
    returned. *)
Definition run_shutdown (f : Shutdown) : M Telemetry (option error) :=
  match f with
  | NoShutdown => mret None
  | StopProviders tp mp =>
      modify (stop (inl tp)) ;;
      let traceErr := ErrWrap "trace shutdown: " <$> tracer_Shutdown tp in
      modify (stop (inr mp)) ;;
      let metricErr := ErrWrap "metric shutdown: " <$> meter_Shutdown mp in
      mret (match traceErr with Some _ => traceErr | None => metricErr end)
  end.

(** ** Lemmas *)

(** Which providers a returned function stops. *)
Definition owned (f : Shutdown) : list (TracerProvider + MeterProvider) :=
  match f with NoShutdown => [] | StopProviders tp mp => [inl tp; inr mp] end.

Lemma run_shutdown_stops f t w :
  let '(_, t', w') := run_shutdown f t w in
  stopped t' = stopped t ++ owned f ∧ w' = w ∧ tracer t' = tracer t ∧ meter t' = meter t.
Proof.
  destruct f as [|tp mp]; simpl; [by rewrite app_nil_r|].
  split_and!; [by rewrite <-app_assoc|done..].
Qed.

Lemma Init_keeps_stopped name t w :
  let '(r, t', w') := Init name t w in
  w' = w ∧ stopped t' = stopped t ∧ (is_ok r = false → t' = t).
Proof.
  unfold Init. cbv zeta.
  destruct (String.eqb (TrimSpace (getenv "OTEL_EXPORTER_OTLP_ENDPOINT")) ""); [done|].
  destruct (exporters _ _) as [[[res se] me]|e]; done.
Qed.

(** A successful [Init] leaves a tracer and a meter installed. *)
Lemma Init_installs name t w :
  let '(r, t', _) := Init name t w in
  is_ok r = true → is_Some (tracer t') ∧ is_Some (meter t').
Proof.
  unfold Init. cbv zeta.
  destruct (String.eqb (TrimSpace (getenv "OTEL_EXPORTER_OTLP_ENDPOINT")) ""); [by eauto|].
  destruct (exporters _ _) as [[[res se] me]|e]; simpl; eauto. done.
Qed.

(** [Init] is all or nothing.  When it fails nothing was installed; when it succeeds a
    tracer, a meter and the two propagators are installed, the function it returns stops
    exactly the providers that export, and those send to the endpoint without its scheme and
    carry the configured service name. *)
Theorem otel_Init_outcomes (name : string) (t : Telemetry) (w : World) :
  let '(r, t', w') := Init name t w in
  w' = w ∧
  match r with
  | Err _ => t' = t ∧ TrimSpace (getenv "OTEL_EXPORTER_OTLP_ENDPOINT") ≠ ""
  | Ok f =>
      propagators t' = [TraceContext; Baggage] ∧ stopped t' = stopped t ∧
      ((f = NoShutdown ∧ tracer t' = Some BareTracer ∧ meter t' = Some NoopMeter ∧
        TrimSpace (getenv "OTEL_EXPORTER_OTLP_ENDPOINT") = "") ∨
       ∃ tp mp se me res endpoint service,
         f = StopProviders tp mp ∧ tracer t' = Some tp ∧ meter t' = Some mp ∧
         tp = BatchTracer se (10 * Second) res ∧ mp = PeriodicMeter me (10 * Second) res ∧
         otlptracegrpc_New endpoint = Ok se ∧ otlpmetricgrpc_New endpoint = Ok me ∧
         resource_Merge service = Ok res ∧
         endpoint = TrimPrefix (TrimPrefix (TrimSpace (getenv "OTEL_EXPORTER_OTLP_ENDPOINT"))
                                  "http://") "grpc://" ∧
         (service = name ∨ service = TrimSpace (getenv "OTEL_SERVICE_NAME")))
  end.
Proof.
  unfold Init. destruct (String.eqb_spec (TrimSpace (getenv "OTEL_EXPORTER_OTLP_ENDPOINT")) "").
  - split; [done|]. split_and!; [done..|]. by left.
  - cbv zeta. destruct (exporters _ _) as [[[res se] me]|e] eqn:He; [|done].
    split; [done|]. split_and!; [done..|]. right. unfold exporters, wrap_error in He. simpl in He.
    repeat (case_match; simplify_eq/=); eexists _, _, _, _, _, _, _; split_and!; eauto.
Qed.

(** Stopping asks both providers, in order, even when the first fails; the error returned is
    the tracer's if there is one, else the meter's, with its cause. *)
Theorem otel_shutdown_outcomes (tp : TracerProvider) (mp : MeterProvider) (t : Telemetry)
    (w : World) :
  let '(r, t', w') := run_shutdown (StopProviders tp mp) t w in
  stopped t' = stopped t ++ [inl tp; inr mp] ∧ w' = w ∧
  (r = None ↔ tracer_Shutdown tp = None ∧ meter_Shutdown mp = None) ∧
  (∀ e, tracer_Shutdown tp = Some e → r = Some (ErrWrap "trace shutdown: " e)).
Proof.
  simpl. destruct (tracer_Shutdown tp), (meter_Shutdown mp); simpl;
    (split_and!; [by rewrite <-app_assoc|done|naive_solver|naive_solver]).
Qed.
End otel.

(** An SDK whose exporters are the endpoints they were given, and that stops silently. *)
Definition echo_sdk : OtelSdk := {|
  Resource := string; SpanExporter := string; MetricExporter := string;
  resource_Merge := Ok; otlptracegrpc_New := Ok; otlpmetricgrpc_New := Ok;
|}.
Definition echo_shutdown : @OtelShutdown echo_sdk :=
  {| tracer_Shutdown _ := None; meter_Shutdown _ := None |}.
