(* ===== verification/Main.v ===== *)
(** * The composition root (cmd/exchange-connectors/main.go)

    How [main] reads its environment, chooses a connector, an audit sink and a store, and
    builds the service.  A [log.Fatalf] ends the process: it is the error of the result.
    What comes before (the telemetry) and after (the listener, the signal, the shutdown) is in
    Process. *)

From S2P Require Import Prelude GoStd World Decimal Venue Dummy BookAgg Store AuditTrail Events Json Http.
From S2P Require Import Migrations Postgres Binance Kraken Otc Server.
From S2P Require Import Threads Concurrent BinanceThreads KrakenThreads OtcThreads.

Open Scope Z_scope.

(** ** The connector behind the interface *)

Inductive AnyConnector `{DecimalOps} : Type :=
| CBinance (c : Binance.Connector)
| CKraken (c : Kraken.Connector)
| COtc (c : Otc.Connector)
| CDummy (c : DummyVenueConnector).

(** The sink behind the interface: Kafka or the in-memory one. *)
Inductive AnySink `{DecimalOps} : Type := SKafka (s : KafkaSink) | SMemory (s : InMemorySink).

(** The store behind the interface: PostgreSQL or the in-memory one. *)
Inductive AnyStore `{DecimalOps} {D : Type} : Type := TPostgres (d : D) | TMemory (s : MemStore).
Arguments AnyStore {_} D.

(** Run code on what a constructor holds. *)
Definition inside {S T R} (wrap : T → S) (m : M T R) (t : T) : World → R * S * World :=
  λ w, let '(r, t', w') := m t w in (r, wrap t', w').

Section dispatch.
Context `{Env, DecimalOps, UnicodeTables, GoLib, JsonDiagnostics, MapOrder, !DecimalJson}.

Definition any {R} (b : M Binance.Connector R) (k : M Kraken.Connector R) (o : M Otc.Connector R)
    (d : M DummyVenueConnector R) : M AnyConnector R := λ c,
  match c with
  | CBinance c => inside CBinance b c
  | CKraken c => inside CKraken k c
  | COtc c => inside COtc o c
  | CDummy c => inside CDummy d c
  end.

#[export] Instance any_VenueConnector : VenueConnector AnyConnector := {|
  PlaceOrder r := any (PlaceOrder r) (PlaceOrder r) (PlaceOrder r) (PlaceOrder r);
  CancelOrder r := any (CancelOrder r) (CancelOrder r) (CancelOrder r) (CancelOrder r);
  GetOrder i := any (GetOrder i) (GetOrder i) (GetOrder i) (GetOrder i);
  GetFills q := any (GetFills q) (GetFills q) (GetFills q) (GetFills q);
  GetBalances := any GetBalances GetBalances GetBalances GetBalances;
  SubscribeBook ps := any (SubscribeBook ps) (SubscribeBook ps) (SubscribeBook ps) (SubscribeBook ps);
|}.

(** The same under concurrent calls: the connector behind the interface never changes kind. *)
Definition insideT {T R} (view : AnyConnector → option T) (wrap : T → AnyConnector) (c : T)
    (p : Prog T R) : Prog AnyConnector R :=
  pzoom (λ s, default c (view s)) (λ t _, wrap t) p.

Definition as_binance (c : AnyConnector) : option Binance.Connector :=
  match c with CBinance c => Some c | _ => None end.
Definition as_kraken (c : AnyConnector) : option Kraken.Connector :=
  match c with CKraken c => Some c | _ => None end.
Definition as_otc (c : AnyConnector) : option Otc.Connector :=
  match c with COtc c => Some c | _ => None end.
Definition as_dummy (c : AnyConnector) : option DummyVenueConnector :=
  match c with CDummy c => Some c | _ => None end.

Definition anyT {R} (b : Prog Binance.Connector R) (k : Prog Kraken.Connector R)
    (o : Prog Otc.Connector R) (d : Prog DummyVenueConnector R) : Prog AnyConnector R :=
  c ← atom get;
  match c with
  | CBinance c => insideT as_binance CBinance c b
  | CKraken c => insideT as_kraken CKraken c k
  | COtc c => insideT as_otc COtc c o
  | CDummy c => insideT as_dummy CDummy c d
  end.

Lemma insideT_runs {T R} (view : AnyConnector → option T) wrap (c : T) (p : Prog T R) m w :
  (∀ t, view (wrap t) = Some t) → (∀ s t, view s = Some t → s = wrap t) → runs_as p m →
  alone (insideT view wrap c p) (wrap c) w = inside wrap m c w.
Proof.
  intros Hv Hw Hp. unfold insideT.
  rewrite (alone_zoom_in (λ s, is_Some (view s))).
  - unfold zoom, inside. rewrite Hv. simpl. by rewrite Hp.
  - intros t s. by rewrite Hv.
  - done.
  - intros s [t Ht]. rewrite Ht. simpl. symmetry. by apply Hw.
  - intros t s. by rewrite Hv.
  - by rewrite Hv.
Qed.

Lemma anyT_runs {R} (b : Prog Binance.Connector R) (k : Prog Kraken.Connector R)
    (o : Prog Otc.Connector R) (d : Prog DummyVenueConnector R) b' k' o' d' :
  runs_as b b' → runs_as k k' → runs_as o o' → runs_as d d' →
  runs_as (anyT b k o d) (any b' k' o' d').
Proof.
  intros Hb Hk Ho Hd s w. unfold anyT. rewrite alone_bind. unfold mbind, M_bind.
  rewrite alone_atom. unfold get. destruct s as [c|c|c|c]; apply insideT_runs; try done;
    by intros [] ? [=->].
Qed.

#[export] Instance any_Concurrent : ConcurrentConnector AnyConnector.
Proof.
  refine {|
    PlaceOrderT r := anyT (PlaceOrderT r) (PlaceOrderT r) (PlaceOrderT r) (PlaceOrderT r);
    CancelOrderT r := anyT (CancelOrderT r) (CancelOrderT r) (CancelOrderT r) (CancelOrderT r);
    GetOrderT i := anyT (GetOrderT i) (GetOrderT i) (GetOrderT i) (GetOrderT i);
    GetFillsT q := anyT (GetFillsT q) (GetFillsT q) (GetFillsT q) (GetFillsT q);
    GetBalancesT := anyT GetBalancesT GetBalancesT GetBalancesT GetBalancesT |};
  intros; apply anyT_runs; auto with runs.
Defined.

#[export] Instance any_cast : DummyCast AnyConnector := {|
  dummy_last_fill c := match c with CDummy d => dummy_last_fill d | _ => None end;
|}.

Context `{!AuditCodec}.

#[export] Instance any_Sink : Sink AnySink := {|
  Emit e s := match s with
              | SKafka k => inside SKafka (Emit e) k
              | SMemory m => inside SMemory (Emit e) m
              end;
|}.

Context `{Pool D}.

Definition any_store {R} (p : M D R) (m : M MemStore R) : M (AnyStore D) R := λ s,
  match s with TPostgres d => inside TPostgres p d | TMemory t => inside TMemory m t end.

#[export] Instance any_Store : Store (AnyStore D) := {|
  RecordOrder o := any_store (RecordOrder o) (RecordOrder o);
  GetOrderByClientID i := any_store (GetOrderByClientID i) (GetOrderByClientID i);
  RecordFill f := any_store (RecordFill f) (RecordFill f);
  FillsForOrder i := any_store (FillsForOrder i) (FillsForOrder i);
|}.
End dispatch.

(** ** The pieces of [main] *)

Definition is_dev `{OsEnv} : bool := String.eqb (getenv "DEV_MODE") "1".

(** The loop of [splitCSV], once the runes are read. *)
Fixpoint split_loop (s cur : string) (out : list string) : list string :=
  match s with
  | EmptyString => if String.eqb cur "" then out else out ++ [cur]
  | String c s' =>
      if Ascii.eqb c ","%char
      then split_loop s' "" (if String.eqb cur "" then out else out ++ [cur])
      else split_loop s' (cur +:+ String c "") out
  end.

Definition splitCSV (s : string) : list string :=
  split_loop (valid_utf8 (String.length s) s) "" [].

Definition fatal {A} (msg : string) : result A := Err (ErrNew msg).

Section main.
Context `{Env, DecimalOps, UnicodeTables, GoLib, JsonDiagnostics, MapOrder, !DecimalJson}.
Context `{!AuditCodec, !EventCodec, OsEnv, Pool D}.
Context (quoted : string → string).          (** the text of the verb [%q] *)

Definition loadExchangeCreds (venue : string) (devMode : bool) : result (string * string) :=
  if devMode then
    Ok (getenv (ToUpper venue +:+ "_API_KEY"), getenv (ToUpper venue +:+ "_API_SECRET"))
  else if String.eqb (getenv "SECRETS_MANAGER_URL") "" then
    fatal "SECRETS_MANAGER_URL required in production mode; secrets.Manager integration not yet wired — set DEV_MODE=1 for local dev"
  else fatal "SECRETS_MANAGER_URL set but secrets.Manager wiring not yet implemented — set DEV_MODE=1 for local dev".

Definition selectConnector {S} (name : string) (devMode : bool) : M S (result AnyConnector) :=
  if String.eqb name "binance" then
    match loadExchangeCreds "binance" devMode with
    | Err e => mret (Err e)
    | Ok (key, secret) => c ← Binance.NewConnector key secret None; mret (Ok (CBinance c))
    end
  else if String.eqb name "kraken" then
    match loadExchangeCreds "kraken" devMode with
    | Err e => mret (Err e)
    | Ok (key, secret) => c ← Kraken.NewConnector key secret None; mret (Ok (CKraken c))
    end
  else if String.eqb name "otc" then
    match loadExchangeCreds "otc" devMode with
    | Err e => mret (Err e)
    | Ok (key, _) => c ← Otc.NewConnector key None; mret (Ok (COtc c))
    end
  else if negb devMode then
    mret (fatal ("VENUE_FAMILY=" +:+ quoted name +:+
      " not a real venue and DEV_MODE!=1; refusing to start with dummy connector in production mode"))
  else mret (Ok (CDummy NewDummyVenueConnector)).

(** The pool [newStore] opens is the store it returns. *)
Definition newStore (devMode : bool) : M unit (result (AnyStore D)) := λ u w,
  let dsn := getenv "DB_URL" in
  if negb (String.eqb dsn "") then
    let '(r, _, w') := Open dsn None w in
    (match r with Ok d => Ok (TPostgres d) | Err e => Err (ErrWrap "postgres: open: " e) end, u, w')
  else if devMode then (Ok (TMemory New), u, w)
  else (fatal "DB_URL required in production mode — set DEV_MODE=1 to allow in-memory store for development", u, w).

Definition newAuditSink (venue : string) (devMode : bool) : result AnySink :=
  let brokers := getenv "KAFKA_BROKERS" in
  if String.eqb brokers "" && devMode then Ok (SMemory NewInMemorySink)
  else if String.eqb brokers "" then fatal "KAFKA_BROKERS unset and DEV_MODE not set; cannot start audit producer"
  else
    match NewKafkaSink (splitCSV brokers) venue with
    | Ok ks => Ok (SKafka ks)
    | Err e => if devMode then Ok (SMemory NewInMemorySink)
               else Err (ErrWrap "audit kafka init: " e)
    end.

(** The event bus: none when there is no address or it is not understood. *)
Definition newBus : option (Bus KafkaPublisher) :=
  let url := getenv "EVENT_BUS_URL" in
  if String.eqb url "" then None
  else match NewKafkaPublisherFromURL quoted url with
       | Ok p => Some (NewBus p "recon")
       | Err _ => None
       end.

Definition pairs_from_env : list string :=
  let p := getenv "PAIRS" in
  if String.eqb p "" then ["BTCUSDT"; "ETHUSDT"] else splitCSV p.

Abbreviation AppService := (Service AnyConnector (AnyStore D) AnySink KafkaPublisher).

(** [main] after [otel.Init] and up to the listener; [default_store] is never used, as [newStore] gives one. *)
Definition start : M unit (result AppService) :=
  let devMode := is_dev in
  let venueName := env_or "VENUE_FAMILY" "dummy" in
  conn ← selectConnector venueName devMode;
  match conn with
  | Err e => mret (Err e)
  | Ok conn =>
      match newAuditSink venueName devMode with
      | Err e => mret (Err e)
      | Ok sink =>
          st ← newStore devMode;
          match st with
          | Err e => mret (Err e)
          | Ok st =>
              svc ← NewService conn (Some sink) venueName pairs_from_env (Some st)
                      (TMemory New) newBus;
              mret (match svc with Err e => Err (ErrWrap "server: " e) | Ok s => Ok s end)
          end
      end
  end.
End main.

(** ** Lemmas *)

(** The loop of [splitCSV] is a split that drops the empty parts. *)
Definition nonempty (s : string) : Prop := s ≠ "".
#[export] Instance nonempty_dec s : Decision (nonempty s).
Proof. unfold nonempty. apply _. Defined.

Lemma Split_cons_first (s : string) (d : Ascii.ascii) : ∃ p ps, Split s d = p :: ps.
Proof.
  destruct s as [|c s]; [by eexists _, _|]. simpl.
  destruct (Ascii.eqb c d); [by eexists _, _|]. destruct (Split s d); by eexists _, _.
Qed.

Lemma snoc_char (cur p : string) (c : Ascii.ascii) :
  (cur +:+ String c "") +:+ p = cur +:+ String c p.
Proof. by rewrite string_app_assoc. Qed.

Lemma split_loop_spec s : ∀ cur out,
  split_loop s cur out =
  out ++ filter nonempty (match Split s ","%char with [] => [] | p :: ps => (cur +:+ p) :: ps end).
Proof.
  induction s as [|c s IH]; intros cur out; simpl.
  { rewrite string_app_nil_r. destruct (String.eqb_spec cur "") as [->|Hne].
    - by rewrite filter_cons_False, filter_nil, app_nil_r by (by intros []).
    - by rewrite filter_cons_True, filter_nil by done. }
  destruct (Split_cons_first s ","%char) as (p & ps & Hs).
  rewrite Hs in *. destruct (Ascii.eqb_spec c ","%char) as [->|Hne]; rewrite IH.
  - change ("" +:+ p) with p. rewrite string_app_nil_r. destruct (String.eqb_spec cur "") as [->|Hcur].
    + by rewrite (filter_cons_False nonempty "") by (by intros []).
    + by rewrite (filter_cons_True nonempty cur), <- app_assoc by done.
  - by rewrite snoc_char.
Qed.

Lemma valid_utf8_ascii s : ∀ fuel,
  is_ascii s = true → (String.length s ≤ fuel)%nat → valid_utf8 fuel s = s.
Proof.
  induction s as [|c s IH]; intros fuel Ha Hf; [by destruct fuel|].
  destruct fuel as [|fuel]; simpl in Hf; [lia|].
  unfold is_ascii in Ha. simpl in Ha. apply andb_true_iff in Ha as [Hc Ha].
  assert (Hlen : utf8_len (String c s) = 1%nat).
  { simpl. apply Nat.ltb_lt in Hc. unfold code. destruct (Z.ltb_spec (Z.of_nat (Ascii.nat_of_ascii c)) 128); [done|lia]. }
  simpl valid_utf8. simpl in Hlen. rewrite Hlen. simpl. by rewrite IH by (done || lia).
Qed.

Lemma is_ascii_app s t : is_ascii (s +:+ t) = is_ascii s && is_ascii t.
Proof.
  unfold is_ascii. induction s as [|c s IH]; [done|]. rewrite string_app_cons. simpl.
  by rewrite IH, andb_assoc.
Qed.

Lemma is_ascii_Join l sep :
  is_ascii sep = true → Forall (λ s, is_ascii s = true) l → is_ascii (Join l sep) = true.
Proof.
  intros Hsep. induction 1 as [|s l Hs Hl IH]; [done|]. destruct l as [|s' l]; [done|].
  change (Join (s :: s' :: l) sep) with (s +:+ sep +:+ Join (s' :: l) sep).
  by rewrite !is_ascii_app, Hs, Hsep, IH.
Qed.

(** ** Properties *)

(** [splitCSV] drops the empty parts and keeps the others in order. *)
Theorem splitCSV_roundtrip (l : list string) :
  Forall (λ s, is_ascii s = true ∧ contains_char ","%char s = false) l →
  splitCSV (Join l ",") = filter nonempty l.
Proof.
  intros Hl. apply Forall_and in Hl as [Ha Hc]. unfold splitCSV.
  rewrite valid_utf8_ascii by (done || by apply is_ascii_Join). rewrite split_loop_spec.
  destruct l as [|s l]; [done|]. change "," with (String ","%char "").
  by rewrite Split_Join by done.
Qed.

Section start.
Context `{Env, DecimalOps, UnicodeTables, GoLib, JsonDiagnostics, MapOrder, !DecimalJson}.
Context `{!AuditCodec, !EventCodec, OsEnv, Pool D} (quoted : string → string).

Abbreviation AppService := (Service AnyConnector (AnyStore D) AnySink KafkaPublisher).

Lemma selectConnector_production {S} name (s : S) w :
  ∃ e, selectConnector quoted name false s w = (Err e, s, w).
Proof.
  unfold selectConnector, loadExchangeCreds.
  repeat (case_match; simplify_eq; try by eexists).
Qed.

(** A program that started went through all the choices. *)
Lemma start_inv w svc u w' :
  start (D := D) quoted tt w = (Ok svc, u, w') →
  is_dev = true ∧ ∃ conn sink st w1 w2,
    selectConnector (S := unit) quoted (env_or "VENUE_FAMILY" "dummy") true tt w = (Ok conn, tt, w1) ∧
    NewService conn (Some sink) (env_or "VENUE_FAMILY" "dummy") pairs_from_env (Some st)
      (TMemory New) (newBus quoted) tt w2 = (Ok svc, tt, w').
Proof.
  unfold start. set (name := env_or _ _). destruct is_dev.
  2: { destruct (selectConnector_production name tt w) as [e He].
       by erewrite M_bind_run by exact He. }
  unfold mbind, M_bind.
  destruct (selectConnector quoted name true tt w) as [[[conn|e] []] w1] eqn:Hc; [|done].
  destruct (newAuditSink name true) as [sink|e]; [|done].
  destruct (newStore true tt w1) as [[[st|e] []] w2]; [|done].
  destruct (NewService _ _ _ _ _ _ _ tt w2) as [[[s|e] []] w3] eqn:Hs; [|done].
  intros [= <- <- <-]. split; [done|]. by exists conn, sink, st, w1, w2.
Qed.

(** The connector of each venue, in development mode. *)
Definition chosen (name : string) (c : AnyConnector) : Prop :=
  match c with
  | CBinance _ => name = "binance"
  | CKraken _ => name = "kraken"
  | COtc _ => name = "otc"
  | CDummy _ => name ≠ "binance" ∧ name ≠ "kraken" ∧ name ≠ "otc"
  end.

Lemma selectConnector_chosen {S} name (s : S) w c s' w' :
  selectConnector quoted name true s w = (Ok c, s', w') → chosen name c.
Proof.
  unfold selectConnector, loadExchangeCreds.
  destruct (String.eqb_spec name "binance"), (String.eqb_spec name "kraken"),
    (String.eqb_spec name "otc"); unfold mbind, M_bind; simpl;
    repeat match goal with |- context [let '(_, _) := ?m ?s ?w in _] =>
      destruct (m s w) as [[? ?] ?] end; by intros [= <- _ _].
Qed.

(** Building the service keeps the connector. *)
Lemma NewService_keeps conn sink name pairs st dflt b w (svc : AppService) u w' :
  NewService conn sink name pairs (Some st) dflt b tt w = (Ok svc, u, w') →
  connector svc = conn ∧ store svc = Some st ∧ audit svc = sink ∧ ready svc = true ∧
  venueName svc = name ∧ ∀ c, conn ≠ COtc c.
Proof.
  unfold NewService, NewBookAggregator. unfold mbind, M_bind.
  destruct conn as [c|c|c|c]; simpl; unfold inside; simpl.
  - unfold binance_SubscribeBook. munfold. case_match; simplify_eq/=; by intros [= <- _ _].
  - unfold kraken_SubscribeBook. munfold. case_match; simplify_eq/=; by intros [= <- _ _].
  - done.
  - by intros [= <- _ _].
Qed.

(** What a started program has. *)
Lemma started_parts w svc u w' :
  start (D := D) quoted tt w = (Ok svc, u, w') →
  is_dev = true ∧ chosen (env_or "VENUE_FAMILY" "dummy") (connector svc) ∧
  venueName svc = env_or "VENUE_FAMILY" "dummy" ∧ (∀ c, connector svc ≠ COtc c) ∧
  is_Some (audit svc) ∧ is_Some (store svc) ∧ ready svc = true.
Proof.
  intros (Hdev & conn & sink & st & w1 & w2 & Hc & Hs)%start_inv.
  apply NewService_keeps in Hs as (Hconn & Hst & Ha & Hr & Hv & Hotc).
  apply selectConnector_chosen in Hc. rewrite Hconn, Hv, Ha, Hst. by split_and!; try eexists.
Qed.

(** outside the development mode the program never starts, whatever the rest of its
    environment says: for every venue, real ones included, choosing the connector ends the
    process, before anything has been read from or written to the outside. *)
Theorem production_never_starts (w : World) :
  getenv "DEV_MODE" ≠ "1" → ∃ e, start (D := D) quoted tt w = (Err e, tt, w).
Proof.
  intros Hdev. unfold start, is_dev. destruct (String.eqb_spec (getenv "DEV_MODE") "1"); [done|].
  destruct (selectConnector_production (env_or "VENUE_FAMILY" "dummy") tt w) as [e He].
  exists e. erewrite M_bind_run by exact He. done.
Qed.


(** a program that started runs in development mode, on the connector of the venue it was
    asked for, which is not the OTC desk, with an audit trail and a store, and is ready. *)
Theorem start_spec (w w' : World) (svc : AppService) (u : unit) :
  start quoted tt w = (Ok svc, u, w') →
  getenv "DEV_MODE" = "1" ∧ venueName svc = env_or "VENUE_FAMILY" "dummy" ∧
  chosen (venueName svc) (connector svc) ∧ venueName svc ≠ "otc" ∧
  is_Some (audit svc) ∧ is_Some (store svc) ∧ ready svc = true.
Proof.
  intros (Hdev & Hc & Hv & Hotc & Ha & Hst & Hr)%started_parts. rewrite Hv.
  split_and!; try done.
  - unfold is_dev in Hdev. by apply String.eqb_eq in Hdev.
  - intros Heq. rewrite Heq in Hc. destruct (connector svc) as [c|c|c|c] eqn:Hcon;
      simpl in Hc; [congruence|congruence|by eapply Hotc|tauto].
Qed.

(** a program started on Binance or Kraken accepts no order over HTTP: whatever the
    request, the answer is not 200 and neither the service nor the world has changed. *)
Theorem started_real_venues_refuse_orders (w w1 w2 : World) (svc : AppService) (u : unit)
    (r : Req) :
  start quoted tt w = (Ok svc, u, w1) →
  getenv "VENUE_FAMILY" = "binance" ∨ getenv "VENUE_FAMILY" = "kraken" →
  ∃ resp, handleOrdersRoot r svc w2 = (resp, svc, w2) ∧ status resp ≠ 200.
Proof.
  intros (_ & conn & sink & st & w1' & w2' & Hc & Hs)%start_inv Hv.
  apply NewService_keeps in Hs as (Hconn & _). apply selectConnector_chosen in Hc.
  apply refused_orders. intros req Hid. rewrite Hconn.
  destruct conn as [c|c|c|c]; simpl in Hc; cbn [PlaceOrder any_VenueConnector]; unfold any, inside.
  - destruct (refuses_anonymous req c w2 Hid) as [e He]. rewrite He. by exists e.
  - destruct (refuses_anonymous req c w2 Hid) as [e He]. rewrite He. by exists e.
  - destruct (refuses_anonymous req c w2 Hid) as [e He]. rewrite He. by exists e.
  - unfold env_or in Hc. destruct Hv as [Hv|Hv]; rewrite Hv in Hc; simpl in Hc; tauto.
Qed.

(** The dummy venue comes up. *)
Lemma dummy_boots (w : World) :
  getenv "DEV_MODE" = "1" → getenv "DB_URL" = "" →
  getenv "VENUE_FAMILY" ∉ ["binance"; "kraken"; "otc"] →
  ∃ svc, start (D := D) quoted tt w = (Ok svc, tt, w) ∧
    connector svc = CDummy NewDummyVenueConnector ∧ store svc = Some (TMemory New).
Proof.
  intros Hdev Hdb Hv. unfold start, is_dev. rewrite Hdev.
  assert (Hsel : selectConnector (S := unit) quoted (env_or "VENUE_FAMILY" "dummy") true tt w =
                 (Ok (CDummy NewDummyVenueConnector), tt, w)).
  { unfold selectConnector, env_or. destruct (String.eqb_spec (getenv "VENUE_FAMILY") ""); [done|].
    rewrite !(proj2 (String.eqb_neq _ _)) by (intros Heq; rewrite Heq in Hv; set_solver). done. }
  change (String.eqb "1" "1") with true. unfold mbind, M_bind. rewrite Hsel.
  assert (Hsink : ∃ sink, newAuditSink (env_or "VENUE_FAMILY" "dummy") true = Ok sink).
  { unfold newAuditSink. destruct (String.eqb (getenv "KAFKA_BROKERS") ""); simpl; [by eexists|].
    destruct (NewKafkaSink _ _); by eexists. }
  destruct Hsink as [sink ->]. unfold newStore. rewrite Hdb. simpl.
  eexists. by split_and!.
Qed.

End start.

(** ** Concrete environments *)

Section witnesses.
#[local] Existing Instance exact_ops.
#[local] Existing Instance ascii_tables.
#[local] Existing Instance plain_lib.
#[local] Existing Instance plain_diagnostics.
#[local] Existing Instance sorted_maps.
#[local] Existing Instance exact_json.
#[local] Existing Instance sample_codec.
#[local] Existing Instance sample_event_codec.

Definition vars (l : list (string * string)) : OsEnv :=
  {| getenv name := default "" ((list_to_map l : gmap string string) !! name) |}.

Definition main_env : Env := quiet_env 10 1.
#[local] Existing Instance main_env.

Definition quote (s : string) : string := s.

Lemma splitCSV_roundtrip_witness : splitCSV "a,,b" = ["a"; "b"].
Proof.
  pose proof (splitCSV_roundtrip ["a"; ""; "b"] ltac:(repeat constructor)) as Hs. exact Hs.
Defined.

Lemma production_never_starts_witness :
  ∃ e, start (D := Tables) (H8 := vars [("VENUE_FAMILY", "binance")]) quote tt World_init =
       (Err e, tt, World_init).
Proof. apply production_never_starts. by vm_compute. Defined.

Definition dev_binance : OsEnv := vars [("VENUE_FAMILY", "binance"); ("DEV_MODE", "1")].

Lemma start_spec_witness :
  ∃ svc w, start (D := Tables) (H8 := dev_binance) quote tt World_init = (Ok svc, tt, w) ∧
    venueName svc = "binance" ∧ ready svc = true.
Proof.
  assert (is_ok (start (D := Tables) (H8 := dev_binance) quote tt World_init).1.1 = true) as Hok
    by (vm_compute; reflexivity).
  destruct (start _ tt World_init) as [[[svc|e] []] w] eqn:Hs; [|done].
  exists svc, w. destruct (start_spec _ _ _ _ _ Hs) as (_ & Hn & _ & _ & _ & _ & Hr).
  by split_and!.
Defined.

Lemma started_real_venues_refuse_orders_witness :
  ∃ svc w, start (D := Tables) (H8 := dev_binance) quote tt World_init = (Ok svc, tt, w) ∧
    ∃ resp, handleOrdersRoot sample_post svc w = (resp, svc, w) ∧ status resp ≠ 200.
Proof.
  assert (is_ok (start (D := Tables) (H8 := dev_binance) quote tt World_init).1.1 = true) as Hok
    by (vm_compute; reflexivity).
  destruct (start _ tt World_init) as [[[svc|e] []] w] eqn:Hs; [|done].
  exists svc, w. split; [done|].
  apply (started_real_venues_refuse_orders _ _ _ w _ _ sample_post Hs). by left.
Defined.

End witnesses.
