(* ===== verification/Process.v ===== *)
(** * The life of the process (cmd/exchange-connectors/main.go)

    What the service keeps true whatever requests it serves at once, and [main] around it: the
    telemetry set up first, the listener and each handler in a goroutine of its own, the
    signal that ends the service, and the steps of the shutdown, deferred calls included. *)

From S2P Require Import Prelude GoStd World Decimal Venue Dummy BookAgg Store AuditTrail Events Json Http.
From S2P Require Import Migrations Postgres Binance Kraken Otc Server Otel Main.
From S2P Require Import Threads Concurrent BinanceThreads KrakenThreads OtcThreads EventsThreads Handlers.

Open Scope Z_scope.

(** ** Invariants of the service's parts

    What each step of a connector, and each operation of a store, keeps true is kept true by
    every step of every handler, and so by any requests, however they interleave. *)

Class ConnectorKeeps `{Env, DecimalOps} {C : Type} `{!VenueConnector C, !ConcurrentConnector C}
    (I : C → Prop) : Prop := {
  keeps_PlaceOrder r : steps_ok I (λ _, True) (PlaceOrderT r);
  keeps_CancelOrder r : steps_ok I (λ _, True) (CancelOrderT r);
  keeps_GetOrder i : steps_ok I (λ _, True) (GetOrderT i);
  keeps_GetFills q : steps_ok I (λ _, True) (GetFillsT q);
  keeps_GetBalances : steps_ok I (λ _, True) GetBalancesT;
}.

Class StoreKeeps `{Env, DecimalOps} {T : Type} `{!Store T} (I : T → Prop) : Prop := {
  keeps_RecordOrder o : keeps I (RecordOrder o);
  keeps_RecordFill f : keeps I (RecordFill f);
}.

(** A request served: the status answered, 404 when no route takes it. *)
Definition serve `{Env, DecimalOps, JsonDiagnostics, !EventCodec, MapOrder}
    `{!VenueConnector C, !ConcurrentConnector C, !Store T, !Sink A, !Publisher P, !DummyCast C}
    (r : Req) : Prog (Service C T A P) Z :=
  match RoutesT r with
  | Some h => resp ← h; mret (status resp)
  | None => mret 404
  end.

Section parts.
Context `{Env, DecimalOps, JsonDiagnostics, !EventCodec, MapOrder}.
Context `{!VenueConnector C, !ConcurrentConnector C, !Store T, !Sink A, !Publisher P, !DummyCast C}.
Context (Ic : C → Prop) (It : T → Prop).

Abbreviation S := (Service C T A P).

Definition parts_ok (s : S) : Prop :=
  Ic (connector s) ∧ ∃ t, store s = Some t ∧ It t.

Abbreviation ok := (steps_ok parts_ok (λ _, True)).

Lemma parts_emit e : keeps parts_ok (emit e).
Proof.
  intros s w Hs. unfold emit. destruct (audit s) as [a|]; [|done].
  by destruct (Emit e a w) as [[[] a'] w'].
Qed.

Lemma parts_on_store {R} (m : M T R) : keeps It m → keeps parts_ok (on_store m).
Proof.
  intros Hm s w (Hc & t & Hs & Ht). unfold on_store. rewrite Hs.
  specialize (Hm t w Ht). destruct (m t w) as [[a t'] w']. split; [done|]. by exists t'.
Qed.

Lemma parts_connector {R} (Q : R → Prop) (p : Prog C R) :
  steps_ok Ic Q p → steps_ok parts_ok Q (connectorT p).
Proof. intros Hp. apply (steps_ok_zoom _ Ic); [done|by intros s []|]. intros s c [_ Hs] Hc. by split. Qed.

Lemma parts_bus {R} (p : Prog (Bus P) R) : ok (busT p).
Proof.
  apply steps_ok_get. intros s _. destruct (bus s) as [b|]; [|done].
  apply steps_ok_then; [|done]. apply (steps_ok_zoom _ (λ _, True)); [apply steps_ok_true|done|done].
Qed.

#[local] Hint Resolve parts_emit parts_on_store parts_bus keeps_RecordOrder keeps_RecordFill : keeps.

Lemma record_placement_keeps req amount price o `{!StoreKeeps It} :
  ok (record_placementT req amount price o).
Proof.
  apply steps_ok_get. intros s _. do 2 (apply steps_ok_then; [eauto 6 with keeps|intros _]).
  destruct (audit s); [|done]. apply steps_ok_then; [auto with keeps|]. intros _.
  apply steps_ok_for_each. intros f. apply steps_ok_then; auto with keeps.
Qed.

(** A placement, when the connector may accept it, or when it refuses all the service sends. *)
Lemma handleOrdersRoot_keeps r `{!ConnectorKeeps Ic, !StoreKeeps It} : ok (handleOrdersRootT r).
Proof.
  unfold handleOrdersRootT. destruct (validate r) as [[[req amount] price]|[st msg]]; [|done].
  apply steps_ok_then; [apply parts_connector, keeps_PlaceOrder|]. intros [o|e]; [|done].
  apply steps_ok_then; [by apply record_placement_keeps|]. intros []. by apply steps_ok_get.
Qed.

Lemma handleOrdersRoot_refused r :
  (∀ req, OrderRequest.ClientOrderID req = "" →
     steps_ok Ic (λ res, is_ok res = false) (PlaceOrderT req)) →
  steps_ok parts_ok (λ resp, status resp ≠ 200) (handleOrdersRootT r).
Proof.
  intros Hrefuse. unfold handleOrdersRootT. pose proof (validate_spec r) as Hv.
  destruct (validate r) as [[[req amount] price]|[st msg]]; [|simpl; lia].
  eapply steps_ok_bind; [by apply parts_connector, Hrefuse|]. by intros [o|e].
Qed.

Lemma handleOrderSub_keeps r `{!ConnectorKeeps Ic} : ok (handleOrderSubT r).
Proof.
  unfold handleOrderSubT, handleCancelT, handleFillsT, handleStatusT.
  destruct (splitOrderPath _) as [id sub]. destruct (String.eqb id ""); [done|].
  destruct (String.eqb sub "cancel").
  { destruct (negb _); [done|].
    apply steps_ok_then; [apply parts_connector, keeps_CancelOrder|]. intros [e|]; [done|].
    apply steps_ok_get. intros s _. apply steps_ok_then; [auto with keeps|done]. }
  destruct (String.eqb sub "fills").
  { destruct (negb _); [done|].
    apply steps_ok_then; [apply parts_connector, keeps_GetFills|]. by intros [fs|e]. }
  destruct (_ || _); [|done]. destruct (negb _); [done|].
  apply steps_ok_then; [apply parts_connector, keeps_GetOrder|]. by intros [o|e].
Qed.

Lemma handleBalances_keeps r `{!ConnectorKeeps Ic} : ok (handleBalancesT r).
Proof.
  unfold handleBalancesT. destruct (negb _); [done|].
  apply steps_ok_then; [apply parts_connector, keeps_GetBalances|]. intros [b|e]; [|done].
  apply steps_ok_get. intros s _. apply steps_ok_then; [|done]. destruct (audit s); [|done].
  apply steps_ok_for_each. intros kb. apply steps_ok_then; auto with keeps.
Qed.

(** Everything the handlers do but placing an order. *)
Lemma serve_keeps_unplaced r (Q : Z → Prop) `{!ConnectorKeeps Ic} :
  (q_path r = "/v1/orders" → steps_ok parts_ok (λ resp, Q (status resp)) (handleOrdersRootT r)) →
  (q_path r ≠ "/v1/orders" → ∀ st, Q st) → steps_ok parts_ok Q (serve r).
Proof.
  intros Hp Hother. unfold serve, RoutesT.
  destruct (String.eqb_spec (q_path r) "/v1/orders") as [He|Hne].
  { rewrite He. simpl. eapply steps_ok_bind; [by apply Hp|]. done. }
  assert (Hrest : ∀ p : Prog S Response, ok p →
    steps_ok parts_ok Q (resp ← p; mret (status resp))).
  { intros p Hok. apply steps_ok_then; [done|]. intros resp. by apply Hother. }
  repeat match goal with
  | |- context [if ?b then _ else _] => destruct b
  end; try (by apply Hother); apply Hrest;
    auto using handleOrderSub_keeps, handleBalances_keeps; apply steps_ok_atom.
  - unfold handleHealthz, writeJSON. auto with keeps.
  - unfold handleReadyz, writeError, writeJSON. apply keeps_bind; [auto with keeps|].
    intros s. destruct (ready s); auto with keeps.
  - unfold handleAdminStatus, writeJSON. apply keeps_bind; auto with keeps.
  - unfold handleRotateCreds, writeJSON. apply keeps_bind; [auto with keeps|]. intros s.
    apply keeps_bind; auto with keeps.
  - unfold handleBook, writeError, writeJSON. destruct (negb _); [auto with keeps|].
    destruct (String.eqb _ _); [auto with keeps|]. apply keeps_bind; [auto with keeps|].
    intros s. destruct (Get _ _); auto with keeps.
Qed.

(** Any request keeps what the parts keep. *)
Lemma serve_keeps r `{!ConnectorKeeps Ic, !StoreKeeps It} :
  steps_ok parts_ok (λ _, True) (serve r).
Proof. apply serve_keeps_unplaced; [done| |done]. intros _. by apply handleOrdersRoot_keeps. Qed.

(** When the connector refuses every order the service makes, no store operation is ever
    reached. *)
Lemma serve_keeps_refused r `{!ConnectorKeeps Ic} :
  (∀ req, OrderRequest.ClientOrderID req = "" →
     steps_ok Ic (λ res, is_ok res = false) (PlaceOrderT req)) →
  steps_ok parts_ok (λ st, q_path r = "/v1/orders" → st ≠ 200) (serve r).
Proof.
  intros Hrefuse. apply serve_keeps_unplaced; [done| |by intros Hne st He]. intros _.
  eapply steps_ok_impl; [by apply handleOrdersRoot_refused|done|]. by intros resp Hne _.
Qed.
End parts.
#[export] Hint Resolve parts_emit parts_on_store parts_bus keeps_RecordOrder keeps_RecordFill : keeps.

(** ** What the connectors and stores keep *)

Section kept.
Context `{Env, DecimalOps, UnicodeTables, GoLib, JsonDiagnostics, MapOrder, !DecimalJson}.
Context `{!AuditCodec, !EventCodec, Pool D}.

(** Storing a filled order under its own identifier. *)
Lemma dummy_store_wf id fill resp :
  OrderResponse.VenueOrderID resp = id →
  keeps dummy_wf (d ← get;
    modify (λ d, mkDummy (price d) (Dummy.fills d ++ [fill])
                         (<[id := next_loc d]> (Dummy.orders d))
                         (<[next_loc d := resp]> (heap d)) (Datatypes.S (next_loc d))) ;;
    mret (next_loc d)).
Proof.
  intros Hid d w [Ho Hh]. simpl. split; simpl.
  - intros id' l'. destruct (decide (id = id')) as [<-|Hne].
    + rewrite lookup_insert_eq. intros [= <-]. rewrite lookup_insert_eq. split; [lia|]. by eexists.
    + rewrite lookup_insert_ne by done. intros Hl. destruct (Ho _ _ Hl) as [? (o & ? & ?)].
      rewrite lookup_insert_ne by lia. split; [lia|]. by exists o.
  - intros l' Hl. rewrite lookup_insert_ne by lia. apply Hh. lia.
Qed.

#[export] Instance dummy_keeps_wf : ConnectorKeeps dummy_wf.
Proof.
  split; intros.
  - cbn [PlaceOrderT dummy_Concurrent]. unfold DummyT.PlaceOrder, DummyT.PlaceOrder_loc.
    apply steps_ok_then; [|intros l; by apply steps_ok_get].
    apply steps_ok_then; [destruct (String.eqb _ _); [apply steps_ok_atom; by intros d w|done]|]. intros id.
    apply steps_ok_then; [destruct (IsZero _); [by apply steps_ok_get|done]|]. intros px.
    apply steps_ok_then; [apply steps_ok_atom; by intros d w|]. intros trade.
    apply steps_ok_then; [apply steps_ok_atom; by intros d w|]. intros ts.
    apply steps_ok_atom. by apply dummy_store_wf.
  - apply steps_ok_atom. intros d w Hd. by apply dummy_wf_CancelOrder.
  - apply steps_ok_atom. intros d w Hd. simpl. unfold dummy_GetOrder. munfold. by repeat case_match.
  - apply steps_ok_atom. by intros d w.
  - apply steps_ok_atom. by intros d w.
Qed.

#[export] Instance mem_keeps_wf : StoreKeeps (λ t, store_wf (contents t)).
Proof.
  split; [intros o t w Ht; pose proof (mem_RecordOrder_spec o t w) as Hs
         |intros f t w Ht; pose proof (mem_RecordFill_spec f t w) as Hs]; simpl.
  - destruct (mem_RecordOrder o t w) as [[r t'] w']. destruct Hs as (b & _ & Hs).
    by eapply spec_RecordOrder_wf.
  - destruct (mem_RecordFill f t w) as [[r t'] w']. destruct Hs as (b & _ & Hs).
    by eapply spec_RecordFill_wf.
Qed.

(** Over the interfaces [main] uses: a dummy connector stays one, well formed, and a store in
    memory keeps its keys unique; a real connector stays one. *)
Definition dummy_ok (c : AnyConnector) : Prop :=
  match c with CDummy d => dummy_wf d | _ => False end.
Definition memory_ok (t : AnyStore D) : Prop :=
  match t with TMemory m => store_wf (contents m) | TPostgres _ => False end.
Definition real (c : AnyConnector) : Prop :=
  match c with CDummy _ => False | _ => True end.

Lemma any_keeps_dummy {R} (Q : R → Prop) (b : Prog Binance.Connector R)
    (k : Prog Kraken.Connector R) (o : Prog Otc.Connector R) (d : Prog DummyVenueConnector R) :
  steps_ok dummy_wf Q d → steps_ok dummy_ok Q (anyT b k o d).
Proof.
  intros Hd. apply steps_ok_get. intros [c|c|c|c] Hc; [done..|].
  apply (steps_ok_zoom _ dummy_wf); [done| |done]. by intros [].
Qed.

Lemma any_keeps_real {R} (Q : R → Prop) (b : Prog Binance.Connector R)
    (k : Prog Kraken.Connector R) (o : Prog Otc.Connector R) (d : Prog DummyVenueConnector R) :
  steps_ok (λ _, True) Q b → steps_ok (λ _, True) Q k → steps_ok (λ _, True) Q o →
  steps_ok real Q (anyT b k o d).
Proof.
  intros Hb Hk Ho. apply steps_ok_get. intros [c|c|c|c] Hc; [..|done];
    by apply (steps_ok_zoom _ (λ _, True)).
Qed.

#[export] Instance any_keeps_dummy_ok : ConnectorKeeps dummy_ok.
Proof.
  split; intros; apply any_keeps_dummy;
    [apply keeps_PlaceOrder|apply keeps_CancelOrder|apply keeps_GetOrder|apply keeps_GetFills
    |apply keeps_GetBalances].
Qed.

#[export] Instance any_keeps_real_ok : ConnectorKeeps real.
Proof. split; intros; apply any_keeps_real; apply steps_ok_true. Qed.

Lemma any_store_keeps {R} (p : M D R) (m : M MemStore R) :
  keeps (λ t, store_wf (contents t)) m → keeps memory_ok (any_store p m).
Proof.
  intros Hm [d|t] w Ht; unfold any_store, inside.
  - by destruct (p d w) as [[r d'] w'].
  - specialize (Hm t w Ht). by destruct (m t w) as [[r t'] w'].
Qed.

#[export] Instance any_keeps_memory_ok : StoreKeeps memory_ok.
Proof.
  split; intros; apply any_store_keeps; [apply keeps_RecordOrder|apply keeps_RecordFill].
Qed.

(** A real connector refuses what the service asks of it. *)
Lemma real_refuses req :
  OrderRequest.ClientOrderID req = "" →
  steps_ok real (λ res, is_ok res = false) (PlaceOrderT req).
Proof.
  intros Hid. apply any_keeps_real; cbn [PlaceOrderT binance_Concurrent kraken_Concurrent
    otc_Concurrent]; unfold BinanceT.PlaceOrder, KrakenT.PlaceOrder, OtcT.PlaceOrder;
    by rewrite Hid.
Qed.
End kept.

(** ** The process *)

(** Where the main goroutine is: waiting for a signal, then in its last calls, the two
    deferred ones in reverse order of their [defer]. *)
Inductive pc : Type := PServing | PShutdown | PClosePublisher | PCancel | PFlush | PReturned.

(** What the shutdown does. *)
Inductive Act : Type := ServerShutdown | PublisherClosed | ContextCancelled | TelemetryFlushed.

Section process.
Context `{Env, DecimalOps, UnicodeTables, GoLib, JsonDiagnostics, MapOrder, !DecimalJson}.
Context `{!AuditCodec, !EventCodec, Vars : OsEnv, Pool D, !OtelSdk, !OtelShutdown}.
Context (quoted : string → string).

Abbreviation AppService := (Service AnyConnector (AnyStore D) AnySink KafkaPublisher).

Record Process := mkProcess {
  service : AppService;
  addr : string;
  eventPub : option KafkaPublisher;
  flush : Shutdown;                       (** what [otel.Init] returned *)
  telemetry : Telemetry;
  world : World;
  main_pc : pc;
  listening : bool;                       (** [ListenAndServe] has not returned *)
  acts : list Act;
  handlers : list (Req * Prog AppService Z);  (** one goroutine per request *)
  fate : option (option error);           (** [main] returned, or a [log.Fatalf] ended it *)
}.

(** The requests answered, with the status. *)
Definition answers (p : Process) : list (Req * Z) :=
  omap (λ h, (h.1,.) <$> returned h.2) (handlers p).

(** [main] up to the moment the listener and the signal handler are installed. *)
Definition main_boot : M Telemetry (result Process) := λ t w,
  let '(f, t1, w1) := Init "exchange-connectors" t w in
  match f with
  | Err e => (Err (ErrWrap "otel init: " e), t1, w1)
  | Ok f =>
      let '(r, _, w2) := start quoted tt w1 in
      (match r with
       | Err e => Err e
       | Ok svc =>
           Ok (mkProcess svc (env_or "ADDR" ":8080") (publisher <$> newBus quoted) f t1 w2
                 PServing true [] [] None)
       end, t1, w2)
  end.

Definition set_handlers (l : list (Req * Prog AppService Z)) (p : Process) : Process :=
  mkProcess (service p) (addr p) (eventPub p) (flush p) (telemetry p) (world p) (main_pc p)
    (listening p) (acts p) l (fate p).
Definition set_service (s : AppService) (w : World) (p : Process) : Process :=
  mkProcess s (addr p) (eventPub p) (flush p) (telemetry p) w (main_pc p) (listening p) (acts p)
    (handlers p) (fate p).
Definition set_pc (q : pc) (l : list Act) (p : Process) : Process :=
  mkProcess (service p) (addr p) (eventPub p) (flush p) (telemetry p) (world p) q (listening p)
    (acts p ++ l) (handlers p) (fate p).
Definition set_listening (b : bool) (p : Process) : Process :=
  mkProcess (service p) (addr p) (eventPub p) (flush p) (telemetry p) (world p) (main_pc p) b
    (acts p) (handlers p) (fate p).
Definition set_fate (f : option error) (p : Process) : Process :=
  mkProcess (service p) (addr p) (eventPub p) (flush p) (telemetry p) (world p) (main_pc p)
    (listening p) (acts p) (handlers p) (Some f).
Definition set_telemetry (t : Telemetry) (w : World) (p : Process) : Process :=
  mkProcess (service p) (addr p) (eventPub p) (flush p) t w (main_pc p) (listening p) (acts p)
    (handlers p) (fate p).

(** The next move of the main goroutine: the calls after [<-stop], whose errors are dropped,
    then the deferred [cancel] and the deferred shutdown of the telemetry. *)
Definition main_step (p : Process) : option Process :=
  match main_pc p with
  | PServing | PReturned => None
  | PShutdown => Some (set_pc PClosePublisher [ServerShutdown] p)
  | PClosePublisher =>
      Some (set_pc PCancel (match eventPub p with Some _ => [PublisherClosed] | None => [] end) p)
  | PCancel => Some (set_pc PFlush [ContextCancelled] p)
  | PFlush =>
      let '(_, t, w) := run_shutdown (flush p) (telemetry p) (world p) in
      Some (set_fate None (set_pc PReturned [TelemetryFlushed] (set_telemetry t w p)))
  end.

(** What can happen: a request comes in and gets a goroutine, a handler moves, and so on. A
    handler may still move while [main] shuts down, as [Shutdown] waits five seconds at most. *)
Inductive Event : Type :=
| EvRequest (r : Req)
| EvHandler (i : nat)
| EvUpdate (u : BookUpdate.t)             (** the aggregator receives an update *)
| EvSignal
| EvListenError (e : error)               (** other than [http.ErrServerClosed] *)
| EvListenClosed
| EvMain.

Definition update_book (u : BookUpdate.t) (s : AppService) : AppService :=
  mkService (connector s) (consume_one u (book s)) (audit s) (bus s) (venueName s) (ready s)
    (store s).

(** The next move of a handler. *)
Definition handler_step (i : nat) (p : Process) : option Process :=
  match handlers p !! i with
  | Some (r, Atom m k) =>
      let '(b, s, w) := m (service p) (world p) in
      Some (set_service s w (set_handlers (<[i := (r, k b)]> (handlers p)) p))
  | _ => None
  end.

Definition process_step (ev : Event) (p : Process) : option Process :=
  match fate p with
  | Some _ => None
  | None =>
      match ev with
      | EvRequest r =>
          if listening p then Some (set_handlers (handlers p ++ [(r, serve r)]) p) else None
      | EvHandler i => handler_step i p
      | EvUpdate u => Some (set_service (update_book u (service p)) (world p) p)
      | EvSignal => match main_pc p with PServing => Some (set_pc PShutdown [] p) | _ => None end
      | EvListenError e =>
          if listening p then Some (set_fate (Some (ErrWrap "listen: " e)) p) else None
      | EvListenClosed =>
          match main_pc p with
          | PServing => None
          | _ => if listening p then Some (set_listening false p) else None
          end
      | EvMain => main_step p
      end
  end.

Fixpoint process_run (evs : list Event) (p : Process) : option Process :=
  match evs with
  | [] => Some p
  | ev :: evs => p' ← process_step ev p; process_run evs p'
  end.

(** ** Lemmas *)

(** Induction over a run. *)
Lemma process_run_inv (I : Process → Prop) evs p p' :
  (∀ ev p p', I p → process_step ev p = Some p' → I p') →
  I p → process_run evs p = Some p' → I p'.
Proof.
  intros Hstep. revert p. induction evs as [|ev evs IH]; intros p Hp Hr; simpl in Hr; [by simplify_eq|].
  destruct (process_step ev p) as [p1|] eqn:Hs; [|done]. eauto.
Qed.

(** What every step of every handler keeps true of the service is true all along, and every
    answer has what each answer has. *)
Lemma run_keeps_service Ic It (Q : Req → Z → Prop) evs p p' :
  (∀ r, steps_ok (parts_ok Ic It) (Q r) (serve r : Prog AppService Z)) →
  parts_ok Ic It (service p) →
  Forall (λ h, steps_ok (parts_ok Ic It) (Q h.1) h.2) (handlers p) →
  process_run evs p = Some p' →
  parts_ok Ic It (service p') ∧ Forall (λ x, Q x.1 x.2) (answers p').
Proof.
  intros Hk Hs Ha Hr.
  destruct (process_run_inv (λ p, parts_ok Ic It (service p) ∧
    Forall (λ h, steps_ok (parts_ok Ic It) (Q h.1) h.2) (handlers p)) evs p p') as [Hs' Ha'];
    [|done|done|].
  - clear p p' Hs Ha Hr. intros ev p p' [Hs Ha] Hp. unfold process_step in Hp.
    destruct (fate p); [done|]. destruct ev as [r|i|u| |e| |]; simplify_eq/=.
    + destruct (listening p); simplify_eq/=. split; [done|]. apply Forall_app. by repeat constructor.
    + unfold handler_step in Hp. destruct (handlers p !! i) as [[r [a|B m k]]|] eqn:Hi; [done| |done].
      pose proof (Forall_lookup_1 _ _ _ _ Ha Hi (service p) (world p) Hs) as Hm.
      destruct (m _ _) as [[b s] w]. destruct Hm as [Hs' Hk']. simplify_eq/=.
      split; [done|]. by apply Forall_insert.
    + done.
    + destruct (main_pc p); by simplify_eq/=.
    + destruct (listening p); by simplify_eq/=.
    + destruct (main_pc p), (listening p); by simplify_eq/=.
    + unfold main_step in Hp. destruct (main_pc p); simplify_eq/=; try done.
      destruct (run_shutdown _ _ _) as [[? t] w]. by simplify_eq/=.
  - split; [done|]. unfold answers. clear -Ha'. induction Ha' as [|[r p] l Hh _ IH]; [done|].
    csimpl. destruct p as [a|]; csimpl; [|done]. by constructor.
Qed.

(** The acts of a shutdown, up to where [main] is. *)
Definition acts_at (pub : option KafkaPublisher) (q : pc) : list Act :=
  let closed := match pub with Some _ => [PublisherClosed] | None => [] end in
  match q with
  | PServing | PShutdown => []
  | PClosePublisher => [ServerShutdown]
  | PCancel => ServerShutdown :: closed
  | PFlush => (ServerShutdown :: closed) ++ [ContextCancelled]
  | PReturned => (ServerShutdown :: closed) ++ [ContextCancelled; TelemetryFlushed]
  end.

(** What holds of a process all along, [before] being the providers already stopped. *)
Definition process_ok (before : list (TracerProvider + MeterProvider)) (p : Process) : Prop :=
  acts p = acts_at (eventPub p) (main_pc p) ∧
  stopped (telemetry p) =
    before ++ (if decide (fate p = Some None) then owned (flush p) else []) ∧
  (fate p = Some None ↔ main_pc p = PReturned) ∧
  (∀ e, fate p = Some (Some e) → ∃ e0, e = ErrWrap "listen: " e0).

Lemma process_ok_step before ev p p' :
  process_ok before p → process_step ev p = Some p' → process_ok before p'.
Proof.
  intros (Ha & Ht & Hf & He) Hp. unfold process_step in Hp.
  destruct (fate p) as [f|] eqn:Hfate; [done|]. simpl in Ht. rewrite app_nil_r in Ht.
  assert (main_pc p ≠ PReturned) as Hpc by (intros Heq; by apply Hf in Heq).
  destruct ev as [r|i|u| |e| |].
  - destruct (listening p); simplify_eq/=. unfold process_ok; simpl. rewrite Hfate.
    by rewrite app_nil_r.
  - unfold handler_step in Hp. destruct (handlers p !! i) as [[r [a|B m k]]|]; [done| |done].
    destruct (m _ _) as [[b s] w]. simplify_eq/=. unfold process_ok; simpl. rewrite Hfate.
    by rewrite app_nil_r.
  - simplify_eq/=. unfold process_ok; simpl. rewrite Hfate. by rewrite app_nil_r.
  - destruct (main_pc p) eqn:Hm; simplify_eq/=. unfold process_ok; simpl.
    rewrite Hfate, Ha, !app_nil_r. by split_and!.
  - destruct (listening p); simplify_eq/=. unfold process_ok; simpl.
    rewrite app_nil_r. split_and!; [done|done|split; intros; done|]. intros e0 [= <-]. by eexists.
  - destruct (main_pc p) eqn:Hm, (listening p); simplify_eq/=; unfold process_ok; simpl;
      rewrite Hfate, Hm, app_nil_r; by split_and!.
  - unfold main_step in Hp. destruct (main_pc p) eqn:Hm; simplify_eq/=;
      try (unfold process_ok; simpl; rewrite Hfate, Ha, ?app_nil_r; by split_and!).
    pose proof (run_shutdown_stops (flush p) (telemetry p) (world p)) as Hr.
    destruct (run_shutdown _ _ _) as [[? t] w]. destruct Hr as (Hr & _). simplify_eq/=.
    unfold process_ok; simpl. rewrite Hr, Ha. split_and!; try done.
    simpl. by rewrite <-app_assoc.
Qed.

Lemma process_ok_run before evs p p' :
  process_ok before p → process_run evs p = Some p' → process_ok before p'.
Proof. intros Hp. apply process_run_inv; [|done]. intros ??? ?. by apply process_ok_step. Qed.

(** A process that came up is serving, and is what [start] made. *)
Lemma main_boot_inv t w p t' w' :
  main_boot t w = (Ok p, t', w') →
  process_ok (stopped t) p ∧ main_pc p = PServing ∧ fate p = None ∧ handlers p = [] ∧
  listening p = true ∧
  ∃ w1, start quoted tt w1 = (Ok (service p), tt, world p).
Proof.
  unfold main_boot. pose proof (Init_keeps_stopped "exchange-connectors" t w) as Hi.
  destruct (Init _ t w) as [[[f|e] t1] w1]; [|done]. destruct Hi as (_ & Hst & _).
  destruct (start quoted tt w1) as [[[svc|e] []] w2] eqn:Hs; [|done].
  intros [= <- <- <-]. split_and!; try done; [|by eexists].
  unfold process_ok. simpl. by rewrite app_nil_r.
Qed.

Lemma process_run_app evs1 evs2 p :
  process_run (evs1 ++ evs2) p = (p' ← process_run evs1 p; process_run evs2 p').
Proof.
  revert p. induction evs1 as [|ev evs1 IH]; intros p; [done|]. simpl.
  destruct (process_step ev p) as [p1|]; [apply IH|done].
Qed.

(** A handler left alone runs to its end. *)
Lemma handler_runs r q p :
  fate p = None → handlers p = [(r, q)] →
  ∃ n, process_run (replicate n (EvHandler 0)) p =
    let '(a, s, w) := alone q (service p) (world p) in
    Some (set_service s w (set_handlers [(r, Done a)] p)).
Proof.
  revert p. induction q as [a|B m k IH]; intros p Hf Hh.
  { exists 0%nat. simpl. f_equal. destruct p. simpl in *. by subst. }
  destruct (m (service p) (world p)) as [[b s] w] eqn:Hm.
  set (p1 := set_service s w (set_handlers [(r, k b)] p)).
  destruct (IH b p1) as [n Hn]; [done|done|].
  exists (S n). cbn [replicate process_run]. unfold process_step, handler_step at 1.
  rewrite Hf, Hh. simpl. rewrite Hm. simpl. fold p1. rewrite Hn. simpl.
  unfold mbind, M_bind. rewrite Hm. by destruct (alone (k b) s w) as [[a s'] w'].
Qed.

(** A serving process can take a request, answer it, take the signal, and finish. *)
Lemma serve_then_stop r p :
  fate p = None → main_pc p = PServing → listening p = true → handlers p = [] →
  ∃ n p', process_run (EvRequest r :: replicate n (EvHandler 0) ++
                       [EvSignal; EvMain; EvMain; EvMain; EvMain]) p = Some p' ∧
    fate p' = Some None ∧ flush p' = flush p ∧ eventPub p' = eventPub p ∧
    answers p' = [(r, (alone (serve r) (service p) (world p)).1.1)].
Proof.
  intros Hf Hpc Hl Hh. set (p1 := set_handlers [(r, serve r)] p).
  destruct (handler_runs r (serve r) p1 Hf eq_refl) as [n Hn]. exists n.
  cbn [process_run]. unfold process_step at 1. rewrite Hf, Hl, Hh. cbn [app mbind option_bind].
  fold p1. rewrite process_run_app, Hn. simpl. unfold mbind, M_bind.
  destruct (alone (serve r) (service p) (world p)) as [[st s] w]. simpl.
  unfold process_step, main_step; simpl. rewrite Hf, Hpc; simpl. rewrite Hf; simpl.
  rewrite Hf; simpl. rewrite Hf; simpl. rewrite Hf; simpl.
  destruct (run_shutdown _ _ _) as [[e t] w1]. simpl. eexists. by split_and!.
Qed.

(** How many moves the main goroutine has left. *)
Definition moves_left (q : pc) : nat :=
  match q with
  | PServing => 5 | PShutdown => 4 | PClosePublisher => 3 | PCancel => 2 | PFlush => 1
  | PReturned => 0
  end.

Definition is_main (ev : Event) : bool := match ev with EvMain => true | _ => false end.

Lemma process_step_moves ev p p' :
  main_pc p ≠ PServing → process_step ev p = Some p' →
  main_pc p' ≠ PServing ∧
  moves_left (main_pc p) = ((if is_main ev then 1 else 0) + moves_left (main_pc p'))%nat.
Proof.
  intros Hpc Hp. unfold process_step in Hp. destruct (fate p); [done|].
  destruct ev as [r|i|u| |e| |]; simplify_eq/=.
  - destruct (listening p); by simplify_eq/=.
  - unfold handler_step in Hp. destruct (handlers p !! i) as [[r [a|B m k]]|]; [done| |done].
    destruct (m _ _) as [[b s] w]. by simplify_eq/=.
  - done.
  - by destruct (main_pc p).
  - destruct (listening p); by simplify_eq/=.
  - destruct (main_pc p) eqn:Hm, (listening p); simplify_eq/=; by rewrite ?Hm.
  - unfold main_step in Hp. destruct (main_pc p); simplify_eq/=; try done.
    destruct (run_shutdown _ _ _) as [[? t] w]. by simplify_eq/=.
Qed.

(** ** Properties *)



(** C33: outside the development mode the process ends in a fatal error, whatever the rest of its
    environment says; if its telemetry was set up by then, nothing stops it. *)
Theorem production_process_dies (t : Telemetry) (w : World) :
  getenv "DEV_MODE" ≠ "1" →
  ∃ e t', main_boot t w = (Err e, t', w) ∧ stopped t' = stopped t ∧
    (is_ok (Init "exchange-connectors" t w).1.1 = true → is_Some (tracer t') ∧ is_Some (meter t')).
Proof.
  intros Hdev. unfold main_boot. pose proof (Init_keeps_stopped "exchange-connectors" t w) as Hi.
  pose proof (Init_installs "exchange-connectors" t w) as Hinst.
  destruct (Init _ t w) as [[[f|e] t1] w1]; destruct Hi as (-> & Hst & _); simpl.
  - destruct (production_never_starts (D := D) quoted w Hdev) as [e ->]. by exists e, t1.
  - by eexists _, t1.
Qed.

(** C34: on Binance or Kraken no order is ever placed over HTTP in the life of the process: in
    every run, whatever requests, updates and signals come and however the handlers of the
    requests interleave, no POST to the orders is answered 200 and the store holds exactly what it held at the start. *)
Theorem real_process_places_nothing (t t' : Telemetry) (w w' : World) (p p' : Process)
    (evs : list Event) :
  main_boot t w = (Ok p, t', w') →
  getenv "VENUE_FAMILY" = "binance" ∨ getenv "VENUE_FAMILY" = "kraken" →
  process_run evs p = Some p' →
  store (service p') = store (service p) ∧
  ∀ r st, (r, st) ∈ answers p' → q_path r = "/v1/orders" → st ≠ 200.
Proof.
  intros (_ & _ & _ & Ha & _ & w1 & Hs)%main_boot_inv Hv Hr.
  destruct (started_parts _ _ _ _ _ Hs) as (_ & Hc & _ & _ & _ & [st Hst] & _).
  destruct (run_keeps_service real (λ t, t = st) (λ r st, q_path r = "/v1/orders" → st ≠ 200)
              evs p p') as [[_ Hst'] Hans]; [| | |done|].
  - intros r. apply serve_keeps_refused; [apply _|]. apply real_refuses.
  - split; [|by exists st]. unfold env_or in Hc.
    destruct (connector (service p)); simpl in *; try done.
    destruct Hv as [Hv|Hv]; rewrite Hv in Hc; simpl in Hc; tauto.
  - by rewrite Ha.
  - destruct Hst' as (st' & -> & ->). split; [done|].
    rewrite Forall_forall in Hans. intros r s Hin. by apply (Hans (r, s)).
Qed.

(** C39: the dummy service stays well formed in every run of its process, however the handlers
    of the requests interleave: the connector is the dummy one, every order identifier leads to a live response carrying it, and a store in
    memory has no two orders with one client identifier nor two fills with one trade
    identifier of a venue. *)
Theorem dummy_process_stays_well_formed (t t' : Telemetry) (w w' : World) (p p' : Process)
    (evs : list Event) :
  main_boot t w = (Ok p, t', w') →
  getenv "VENUE_FAMILY" ∉ ["binance"; "kraken"; "otc"] →
  getenv "DB_URL" = "" → process_run evs p = Some p' →
  ∃ d m, connector (service p') = CDummy d ∧ dummy_wf d ∧
    store (service p') = Some (TMemory m) ∧ store_wf (contents m).
Proof.
  intros (_ & _ & _ & Ha & _ & w1 & Hs)%main_boot_inv Hv Hdb Hr.
  destruct (started_parts _ _ _ _ _ Hs) as (Hdev & _). unfold is_dev in Hdev.
  apply String.eqb_eq in Hdev.
  destruct (dummy_boots (D := D) quoted w1 Hdev Hdb Hv) as (svc & Hsvc & Hc & Hst).
  rewrite Hs in Hsvc. injection Hsvc as <- _.
  destruct (run_keeps_service dummy_ok (memory_ok (D := D)) (λ _ _, True) evs p p')
    as [(Hc' & t1 & Hst' & Ht1) _]; [| | |done|].
  - intros r. by apply serve_keeps; apply _.
  - unfold parts_ok. rewrite Hc, Hst. split; [done|]. eexists. split; [done|]. apply store_wf_New.
  - by rewrite Ha; constructor.
  - destruct (connector (service p')) as [| | |d]; try done. destruct t1 as [|m]; [done|].
    by exists d, m.
Qed.
End process.

(** ** Concrete processes *)

Section witnesses.
#[local] Existing Instance exact_ops.
#[local] Existing Instance ascii_tables.
#[local] Existing Instance plain_lib.
#[local] Existing Instance plain_diagnostics.
#[local] Existing Instance sorted_maps.
#[local] Existing Instance exact_json.
#[local] Existing Instance sample_codec.
#[local] Existing Instance sample_event_codec.
#[local] Existing Instance main_env.
#[local] Existing Instance echo_sdk.
#[local] Existing Instance echo_shutdown.

Abbreviation boot vars :=
  (main_boot (D := Tables) (Vars := vars) quote no_telemetry World_init).

Definition dummy_vars : OsEnv :=
  vars [("DEV_MODE", "1"); ("OTEL_EXPORTER_OTLP_ENDPOINT", "http://collector:4317")].
Definition binance_vars : OsEnv := vars [("DEV_MODE", "1"); ("VENUE_FAMILY", "binance")].



Lemma production_process_dies_witness :
  ∃ e t', main_boot (D := Tables) (Vars := vars [("VENUE_FAMILY", "kraken")]) quote no_telemetry
            World_init = (Err e, t', World_init) ∧ stopped t' = [] ∧ is_Some (tracer t').
Proof.
  destruct (production_process_dies (D := Tables) (Vars := vars [("VENUE_FAMILY", "kraken")])
              quote no_telemetry World_init) as (e & t' & Hb & Hs & Hi); [by vm_compute|].
  exists e, t'. split_and!; [done|done|]. apply Hi. vm_compute. reflexivity.
Defined.

Lemma real_process_places_nothing_witness :
  ∃ p n p', (boot binance_vars).1.1 = Ok p ∧
    process_run (EvRequest sample_post :: replicate n (EvHandler 0) ++
                 [EvSignal; EvMain; EvMain; EvMain; EvMain]) p = Some p' ∧
    store (service p') = store (service p) ∧ length (answers p') = 1%nat ∧
    ∀ r st, (r, st) ∈ answers p' → q_path r = "/v1/orders" → st ≠ 200.
Proof.
  assert (is_ok (boot binance_vars).1.1 = true) as Hok by (vm_compute; reflexivity).
  destruct (boot binance_vars) as [[[p|e] t] w] eqn:Hb; [|done].
  destruct (main_boot_inv _ _ _ _ _ _ Hb) as (_ & Hpc & Hf & Hh & Hl & _).
  destruct (serve_then_stop sample_post p Hf Hpc Hl Hh) as (n & p' & Hr & _ & _ & _ & Ha').
  destruct (real_process_places_nothing _ _ _ _ _ _ p' _ Hb (or_introl eq_refl) Hr) as [Hst Hans].
  exists p, n, p'. split_and!; [done..| |done]. by rewrite Ha'.
Defined.

Lemma dummy_process_stays_well_formed_witness :
  ∃ p n p' d m, (boot dummy_vars).1.1 = Ok p ∧
    process_run (EvRequest sample_post :: replicate n (EvHandler 0) ++
                 [EvSignal; EvMain; EvMain; EvMain; EvMain]) p = Some p' ∧
    connector (service p') = CDummy d ∧ dummy_wf d ∧
    store (service p') = Some (TMemory m) ∧ store_wf (contents m).
Proof.
  assert (is_ok (boot dummy_vars).1.1 = true) as Hok by (vm_compute; reflexivity).
  destruct (boot dummy_vars) as [[[p|e] t] w] eqn:Hb; [|done].
  destruct (main_boot_inv _ _ _ _ _ _ Hb) as (_ & Hpc & Hf & Hh & Hl & _).
  destruct (serve_then_stop sample_post p Hf Hpc Hl Hh) as (n & p' & Hr & _ & _ & _ & Ha').
  assert (@getenv dummy_vars "VENUE_FAMILY" ∉ ["binance"; "kraken"; "otc"]) as Hv
    by (apply (bool_decide_unpack _); vm_compute; exact I).
  destruct (dummy_process_stays_well_formed _ _ _ _ _ _ p' _ Hb Hv eq_refl Hr) as (d & m & Hd).
  by exists p, n, p', d, m.
Defined.
End witnesses.
